(* ===== verification/_CoqProject ===== *)
-Q . S2P
Prelude.v
Types.v
Errors.v
StoreSpec.v
Transport.v
Xochimilco.v
Prog.v
Signal.v
SessionLaws.v
Memstore.v
Manager.v
ProgFacts.v
StoreFacts.v
SignalFacts.v
LockFacts.v
ManagerKeys.v
ManagerEncrypt.v
ManagerDecrypt.v
MemstoreFacts.v
MemstoreCode.v
FakeNetwork.v
ToyCrypto.v
Scenario.v
Tests.v
Glare.v
Handshake.v
EndToEnd.v
Delivery.v
Recovery.v
FirstContact.v
Conversation.v
Readmission.v
InFlight.v
LockProtocol.v
Concurrency.v
MemstoreMutex.v
PreKeyOwnership.v
Equivalence.v
Termination.v
Invariants.v
Bootstrap.v
Newcomers.v
Community.v
Gossip.v
Growth.v
Witnesses.v
WitnessRuns.v
WitnessSystem.v
WitnessCommunity.v
