(* ===== verification/Prelude.v ===== *)
(** * A verification development for omemo-go

    omemo-go is a Go library for OMEMO (end-to-end encryption for XMPP).  An
    application creates an identity with [InitIdentity], loads it with
    [NewManager], and then encrypts for all devices of an account and decrypts
    what arrives.  The library owns the state machine around the cryptography:
    prekeys, bundles, device lists, trust, sessions, recipients and errors.
    The cryptography itself (X3DH, the ratchets, payload ciphers) is the
    third-party module xochimilco.

    ** Parts of the program and where they are modelled

    - types.go, envelope.go: [Types].  Go structs are records, uint32 and int
      enums are [Z] with wrap-around written out, a [[]byte] is [gobytes]
      (nil is told apart from empty, as the code does).
    - errors.go: [Errors].  An [error] keeps its wrapping, so [errors.Is] is a
      function ([errors_Is]).
    - store.go: [StoreSpec].  The [Store] interface is the signature [storeE]
      of its methods; an implementation is an instance of the class [Store].
      Its doc comments are the abstract state [astore] and the relation
      [store_spec]; the class [StoreContract] says an implementation follows
      it, where any call may also fail without effect, and [ReliableStore]
      adds that it only fails when it must.
    - transport.go and TrustResolver: [Transport], whose implementation acts on
      a state [env] of the application.
    - xochimilco and crypto/*: the parameters of [Xochimilco] (never defined;
      laws of documented behaviour in [Xochimilco] and [SessionLaws]).
    - internal/signal/signal.go: [Signal].
    - memstore/memstore.go: [Memstore], a function per method; [MemstoreCode]
      has the methods statement by statement, and [MemstoreMutex] runs them
      under the store's mutex.
    - manager.go: [Manager], function by function.
    - manager_test.go and memstore_test.go: the in-memory transport in
      [FakeNetwork], the tests themselves, as programs that are executed, in
      [Tests]; its setup for any device is [Bootstrap.install]; [Scenario] has
      the devices the witnesses use.

    Effects are explicit ([Prog]): a Go function is a tree [prog] of the calls
    it makes.  Trees of [baseE] (store, transport, resolver, cryptography) are
    evaluated by [eval], which is total; trees of [eff] also lock, unlock,
    allocate mutexes, use the Manager's [locks] map and panic, and are run by
    [run] (one goroutine, may block or crash) or interleaved effect by effect
    by [Concurrency.step] (any number of goroutines).  There is no fuel: every
    loop of the code is a recursion on a list or a count, so programs are
    finite trees and evaluation is structural.

    ** The theorems

    - [MemstoreFacts]: memstore refines [store_spec]; its prekey IDs never
      repeat before the 32-bit counter wraps, and what happens when it does;
      the state [InitIdentity] leaves in a new memstore; the error of a prekey
      that is gone.
    - [SignalFacts]: sessions are well-formed, the pending prekey message is
      sent once, serialization round trips, key sizes.
    - [ManagerKeys]: the prekey pool, rotation and the grace period, bundles.
    - [ManagerEncrypt]: trust, session bootstrap, recipients, the fan-out.
    - [ManagerDecrypt]: what decryption may change, success and refusals,
      one-time prekeys are used once, reset.
    - [Handshake], [EndToEnd]: what one device encrypts another decrypts, for a
      first message, for every later one, after a rotation of the signed prekey
      in between, and on the sender's own other devices, with the sessions
      stored at both ends kept in step ([Handshake] follows one key between two
      devices, [EndToEnd] finds it among all recipients).
    - [Delivery]: when a message is sure to arrive.  [EndToEnd] speaks of the
      keys [EncryptMessage] made; here it is shown to make the receiver's, if
      the backend does not fail ([XochimilcoTotalLaws] of [SessionLaws]), the
      receiver is listed and can be contacted, and its key is accepted;
      and one message is shown to reach every device that meets these
      conditions, of the recipient's account and of the sender's own.
    - [Conversation]: any number of messages in any order of turns, each one
      delivered intact or reported to its writer; with mutual trust and a
      working backend, each one delivered.
    - [InFlight]: the same without turns.  Both devices write and read when they
      like, with any number of messages on their way in both directions, in
      order in each; the ratchets' part is [XochimilcoChannelLaws] of
      [SessionLaws].
    - [FirstContact], [Glare]: what goes wrong when first messages meet.  Two that
      cross are both read, and leave each device with a session that the other
      has replaced; two made from one published bundle name the same prekey, so
      the second is refused; and resetting the session does not help as long as
      the first prekey of the published bundle is used up.  [Glare] runs the first
      case to the end (an execution, not a general theorem).
    - [Recovery]: a broken session, whatever is stored on either side, is mended
      by ResetSession and a key transport, if the other side still has the
      prekeys that the served bundle begins with.
    - [Readmission]: a device whose key is blocked gets no key, until it sends a
      key exchange that claims a trusted key: the claimed key is recorded before
      it is authenticated.
    - [Bootstrap], [Newcomers]: two accounts set up from empty stores on one
      network can converse at once; the set-up itself succeeds if the backend's
      key generation does ([XochimilcoKeygenLaws] of [SessionLaws]).
    - [Community], [Gossip], [Growth]: any number of devices of any number of accounts on one
      network.  [community] is an invariant of writing to accounts and reading, in
      any order, and whatever is written is read by exactly the devices it is
      meant for; devices installed from empty stores are a community.  In these
      runs each message is read by all before the next is written, and the
      application of a device that has read publishes its bundle again, as a
      step of its own ([republish]); the library leaves that to the application.
    - [LockProtocol], [Concurrency]: the locking protocol every call follows; no
      data race on guarded state, no crash, no deadlock, termination, isolation
      of a device's section, in every interleaving.
    - [MemstoreCode], [MemstoreMutex]: memstore's methods, interleaved access by
      access, are atomic (a simulation of the finer machine by that of
      [Concurrency]), free of data races, and add no deadlock.
    - [PreKeyOwnership]: one-time prekeys, which no lock guards, are still
      consumed at most once and never overwritten in any interleaving.
    - [Equivalence]: programs that make the same calls ([≡]), and
      [EncryptMessage] as a reference definition without loops and flags.
    - [Termination]: every call returns on any store and transport, with a
      bound on its transport calls.
    - [Invariants]: the invariant of a device, established by [InitIdentity]
      and kept by every call.
    - [Scenario]: the devices of the witnesses, and a run in which a blocked
      device has itself encrypted for again ([Readmission] has the theorem).
    - [Witnesses], [WitnessRuns], [WitnessSystem], [WitnessCommunity]: the
      theorems with hypotheses at concrete inputs; the backend used there is [ToyCrypto], which meets all the laws.

    [ProgFacts], [StoreFacts] and [LockFacts] have the reasoning rules the
    proofs share (weakest preconditions for programs, for store calls under the
    contract, and for locked sections).

    Theorems about every call of the API ([call]) leave one call out
    ([call_ok]): [GenerateOneTimePreKeys] with a negative count, which panics.
    The backend's laws are stated for keys of its own making: identity keys as
    [GenerateIdentityKey] returns them ([generated_identity]), prekeys as the
    generators do ([generated_spk], [generated_opk]).

    ** Bounds

    IDs are uint32.  "Never issued before" (prekeys) needs room in that space:
    [capacity] asks for at most 2^32 - 1 IDs in all, and [NextPreKeyID_period]
    shows what lies beyond.  A signed prekey ID is compared across two
    rotations only, where wrap-around is harmless.  A RecipientKey names a
    device by its ID without the account, so end-to-end delivery assumes that
    the device IDs of the two accounts do not clash ([unambiguous],
    [unambiguous_own], [unambiguous_for]).  The members of a [community] have
    IDs of their own for this reason, and there are at most as many of them as
    each has one-time prekeys for ([cap]; a new device has the 100 of
    [DefaultPreKeyCount]).  Concurrent top-ups also need [capacity], for the sum
    of the counts asked for ([demand]).

    ** What is not modelled

    [context.Context] (only passed on); memory exhaustion, such as a huge count
    in [make] (a negative one does panic, as in Go); sharing of byte slices,
    which no function of the library mutates after creating them; a callback
    (trust resolver, transport, store) that panics or calls back into the same
    Manager; the Go memory model below the level of whole calls: a transport or
    resolver call is one atomic step, and so is a store call (which is proved
    for memstore, in [MemstoreMutex]); messages of one device that reach another
    out of order or not at all, which depends on what the ratchet skips, inside
    xochimilco (but a lost first message is [Recovery]'s, and a repeated one is
    refused, see [ManagerDecrypt]); the interoperability tests,
    which drive another OMEMO implementation in Python over a pipe. *)
From Stdlib Require Export ZArith Lia.
From stdpp Require Export base tactics numbers list gmap sets strings pretty.

(* set_solver clears hypotheses that are already gone. *)
#[export] Set Warnings "-clear-no-such-hyp".

(** ** Bytes

    A Go [[]byte] is either [nil] or a (possibly empty) sequence of bytes.
    The program distinguishes the two ([plaintext == nil],
    [msg.Payload == nil], [s.currentSPK.Public != nil]), so the model does. *)

Abbreviation byte := Byte.byte.
Abbreviation gobytes := (option (list byte)).

#[global] Instance byte_eq_dec : EqDecision byte := Byte.byte_eq_dec.
#[global, program] Instance byte_countable : Countable byte :=
  inj_countable Byte.to_N Byte.of_N _.
Next Obligation. intros b. apply Byte.of_to_N. Qed.

(** [b == nil]. *)
Definition is_nil (b : gobytes) : bool :=
  match b with None => true | Some _ => false end.

(** [string(b)]: the conversion forgets the difference between [nil] and empty. *)
Definition go_string (b : gobytes) : list byte := default [] b.

(** [len(b)]. *)
Definition go_len (b : gobytes) : nat := length (go_string b).

(** ** Machine integers

    [uint32] values are integers in [[0, 2^32)]; arithmetic wraps. *)

Definition u32_modulus : Z := 2 ^ 32.
Definition u32 (z : Z) : Z := z mod u32_modulus.
Definition is_u32 (z : Z) : Prop := (0 <= z < u32_modulus)%Z.

(** [x + 1] and [x++] on a [uint32]. *)
Definition u32_succ (z : Z) : Z := u32 (z + 1).

#[global] Instance is_u32_dec z : Decision (is_u32 z).
Proof. unfold is_u32. apply _. Defined.

Create HintDb omemo discriminated.
Create Rewrite HintDb omemo.
#[export] Hint Constants Opaque : omemo.
#[export] Hint Variables Opaque : omemo.

Lemma u32_range z : is_u32 (u32 z).
Proof. apply Z.mod_pos_bound. reflexivity. Qed.

Lemma u32_id z : is_u32 z → u32 z = z.
Proof. apply Z.mod_small. Qed.

Lemma u32_succ_lt z : is_u32 z → (z < u32_modulus - 1)%Z → u32_succ z = (z + 1)%Z.
Proof. intros [??] ?. apply u32_id. unfold is_u32. lia. Qed.

Lemma u32_succ_max : u32_succ (u32_modulus - 1) = 0%Z.
Proof. reflexivity. Qed.

#[export] Hint Resolve u32_range : omemo.
#[export] Hint Rewrite u32_succ_max : omemo.

(** ** Lists *)

Lemma sum_list_with_insert {A} (f : A → nat) l i x y :
  l !! i = Some x →
  sum_list_with f (<[i := y]> l) + f x = sum_list_with f l + f y.
Proof.
  revert i. induction l as [|z l IH]; intros [|i] Hi; simplify_eq/=; [lia|].
  specialize (IH i Hi). lia.
Qed.

Lemma sum_list_with_fmap {A B} (f : B → nat) (g : A → B) l :
  sum_list_with f (g <$> l) = sum_list_with (λ x, f (g x)) l.
Proof. induction l as [|x l IH]; csimpl; [done|]. by rewrite IH. Qed.

(** One element of a list is replaced by a smaller one: this ends when [R] does. *)
Definition one_of {A} (R : relation A) (xs' xs : list A) : Prop :=
  ∃ i x x', xs !! i = Some x ∧ R x' x ∧ xs' = <[i := x']> xs.

Lemma one_of_wf {A} (R : relation A) : well_founded R → well_founded (one_of R).
Proof.
  intros HR xs. induction xs as [|x xs IHxs].
  { constructor. by intros xs' (i & x & x' & Hi & _). }
  revert xs IHxs. induction (HR x) as [x _ IHx]. intros xs IHxs.
  induction IHxs as [xs Hxs IHxs]. constructor.
  intros xs' ([|i] & y & y' & Hi & Hy & ->); simplify_eq/=.
  - apply IHx; [done|]. by constructor.
  - apply IHxs. by exists i, y, y'.
Qed.

(** ** Tactics *)

(** Case analysis on the scrutinee of every [match] of the goal, keeping the
    equations, and discharging the absurd ones. *)
Ltac cases :=
  repeat (case_match; simplify_eq/=).

(** Splits a conjunctive goal and closes what the automation can. *)
Ltac split_auto := split_and!; auto with omemo.

(** ** Filters that let more through *)
Section FilterLength.
Context {A} (P Q : A → Prop) `{!∀ x, Decision (P x), !∀ x, Decision (Q x)}.
Hypothesis HPQ : ∀ x, P x → Q x.

Lemma filter_length_mono l : length (filter P l) ≤ length (filter Q l).
Proof.
  induction l as [|x l IH]; [done|]. rewrite !filter_cons.
  repeat case_decide; simpl; [lia|naive_solver|lia..].
Qed.

Lemma filter_length_extra x l :
  x ∈ l → ¬ P x → Q x → length (filter P l) < length (filter Q l).
Proof.
  intros Hx HP HQ. induction l as [|y l IH]; [by apply elem_of_nil in Hx|].
  rewrite !filter_cons. pose proof (filter_length_mono l).
  apply elem_of_cons in Hx as [<-|Hx]; repeat case_decide; simpl; try done; try lia;
    specialize (IH Hx); try lia; naive_solver.
Qed.
End FilterLength.
