(* ===== verification/Types.v ===== *)
(** * Protocol objects: types.go, envelope.go

    The value types the rest of the library exchanges.  Numeric identifiers
    are [Z] (a Go [uint32] is a [Z] in range, see [is_u32]); the two Go
    enumerations [Protocol] and [TrustState] are [int]s whose named values are
    constants, because the code has a default branch for every other value. *)
From S2P Require Import Prelude.

(** ** types.go *)

(** [type Protocol int] *)
Definition Protocol := Z.
Definition ProtocolV2 : Protocol := 0%Z.
Definition ProtocolV1 : Protocol := 1%Z.

Definition Protocol_String (p : Protocol) : string :=
  if (p =? ProtocolV1)%Z then "v1"
  else if (p =? ProtocolV2)%Z then "v2"
  else "unknown".

(** [type DeviceID uint32] *)
Definition DeviceID := Z.

Record Device := MkDevice { JID : string; ID : DeviceID }.

#[global] Instance Device_eq_dec : EqDecision Device.
Proof. unfold DeviceID. solve_decision. Defined.
#[global, program] Instance Device_countable : Countable Device :=
  inj_countable (λ d, (JID d, ID d : Z)) (λ p, Some (MkDevice p.1 p.2)) _.
Next Obligation. by intros []. Qed.

Record SignedPreKey := MkSignedPreKey {
  SPK_ID : Z; SPK_Public : gobytes; SPK_Signature : gobytes }.

Record PreKey := MkPreKey { PK_ID : Z; PK_Public : gobytes }.

Record Bundle := MkBundle {
  B_Device : Device;
  B_IdentityKey : gobytes;
  B_SignedPreKey : SignedPreKey;
  B_PreKeys : list PreKey }.

Record DeviceList := MkDeviceList { DL_JID : string; DL_Devices : list DeviceID }.

(** [type TrustState int] *)
Definition TrustState := Z.
Definition TrustUndecided : TrustState := 0%Z.
Definition TrustTrusted : TrustState := 1%Z.
Definition TrustUntrusted : TrustState := 2%Z.

Definition TrustState_String (s : TrustState) : string :=
  if (s =? TrustTrusted)%Z then "trusted"
  else if (s =? TrustUntrusted)%Z then "untrusted"
  else "undecided".

(** ** envelope.go *)

Record KeyExchange := MkKeyExchange {
  KX_IdentityKey : gobytes;
  KX_EphemeralKey : gobytes;
  KX_SignedPreKeyID : Z;
  KX_PreKeyID : Z }.

(** The [*KeyExchange] pointer is [None] for [nil]. *)
Record RecipientKey := MkRecipientKey {
  RK_Device : DeviceID;
  RK_Data : gobytes;
  RK_KeyExchange : option KeyExchange }.

Record EncryptedMessage := MkEncryptedMessage {
  Sender : Device;
  Keys : list RecipientKey;
  Payload : gobytes;
  IV : gobytes }.
