(* ===== verification/Errors.v ===== *)
(** * Errors: errors.go

    Go's [error] values as a data type: the package's sentinel errors, errors
    made by [errors.New] or [fmt.Errorf] without [%w] (also every error of a
    third-party component), errors wrapped by [fmt.Errorf("...: %w", err)],
    and [DeviceError].  [errors.Is] walks the [Unwrap] chain. *)
From S2P Require Import Prelude Types.

(** The package-level [errors.New] variables; compared by identity. *)
Inductive sentinel :=
  | ErrUntrustedDevice
  | ErrBlockedDevice
  | ErrNoRecipients
  | ErrUnknownSession
  | ErrOwnDeviceKeyMissing
  | ErrPreKeyNotFound.

#[global] Instance sentinel_eq_dec : EqDecision sentinel.
Proof. solve_decision. Defined.

Inductive error :=
  | Sentinel (s : sentinel)
  | Errorf (msg : string)               (* no %w: unwraps to nothing *)
  | Wrapf (prefix : string) (e : error) (* fmt.Errorf(prefix + ": %w", e) *)
  | DeviceErr (dev : Device) (e : error). (* as an error value, *DeviceError *)

#[global] Instance error_eq_dec : EqDecision error.
Proof. solve_decision. Defined.

Definition sentinel_string (s : sentinel) : string :=
  match s with
  | ErrUntrustedDevice => "omemo: device is untrusted"
  | ErrBlockedDevice => "omemo: device is blocked"
  | ErrNoRecipients => "omemo: no recipient device could be encrypted for"
  | ErrUnknownSession => "omemo: no session for sender device"
  | ErrOwnDeviceKeyMissing => "omemo: message has no key for this device"
  | ErrPreKeyNotFound =>
      "omemo: one-time prekey not found (already consumed or unknown)"
  end.

(** [err.Error()], with [DeviceError.Error] for the last constructor. *)
Fixpoint error_string (e : error) : string :=
  match e with
  | Sentinel s => sentinel_string s
  | Errorf msg => msg
  | Wrapf prefix e => prefix +:+ ": " +:+ error_string e
  | DeviceErr dev e =>
      "device " +:+ JID dev +:+ "/" +:+ pretty (ID dev : Z) +:+ ": " +:+ error_string e
  end.

(** [errors.Unwrap(err)], with [DeviceError.Unwrap]. *)
Definition error_unwrap (e : error) : option error :=
  match e with
  | Sentinel _ | Errorf _ => None
  | Wrapf _ e | DeviceErr _ e => Some e
  end.

(** [errors.Is(err, target)] for a sentinel target. *)
Fixpoint errors_Is (e : error) (target : sentinel) : bool :=
  match e with
  | Sentinel s => bool_decide (s = target)
  | Errorf _ => false
  | Wrapf _ e | DeviceErr _ e => errors_Is e target
  end.

(** [type DeviceError struct], as the element of the slice [EncryptMessage]
    returns; [DeviceError_error] is its conversion to the [error] interface. *)
Record DeviceError := MkDeviceError { DE_Device : Device; DE_Err : error }.

Definition DeviceError_error (de : DeviceError) : error :=
  DeviceErr (DE_Device de) (DE_Err de).

(** The [(value, err)] pair of a fallible Go call, whose value the caller only
    looks at when [err] is [nil]. *)
Inductive result (A : Type) :=
  | Ok (a : A)
  | Err (e : error).
Arguments Ok {A} _.
Arguments Err {A} _.

#[global] Instance result_eq_dec {A} `{EqDecision A} : EqDecision (result A).
Proof. solve_decision. Defined.

Definition is_ok {A} (r : result A) : bool :=
  match r with Ok _ => true | Err _ => false end.

Lemma errors_Is_wrapf p e t : errors_Is (Wrapf p e) t = errors_Is e t.
Proof. done. Qed.

#[export] Hint Rewrite errors_Is_wrapf : omemo.
