(* ===== verification/StoreSpec.v ===== *)
(** * Persistence interface: store.go

    The signature of the Go interface [Store] (its five embedded interfaces
    together), what an implementation is, and the abstract specification its
    doc comments give: a state [astore] and a relation [store_spec] saying what
    each method may answer and how it changes that state.

    [Store] is the interface; [StoreContract] is what an implementation
    promises to the Manager; [ReliableStore] adds that no call fails for a
    reason of its own (no I/O errors). *)
From S2P Require Import Prelude Types Errors.

Record SignedPreKeyRecord := MkSignedPreKeyRecord {
  SPKR_ID : Z; SPKR_Public : gobytes; SPKR_Private : gobytes; SPKR_Signature : gobytes }.

Record PreKeyRecord := MkPreKeyRecord {
  PKR_ID : Z; PKR_Public : gobytes; PKR_Private : gobytes }.

#[global] Instance SignedPreKeyRecord_eq_dec : EqDecision SignedPreKeyRecord.
Proof. solve_decision. Defined.
#[global] Instance PreKeyRecord_eq_dec : EqDecision PreKeyRecord.
Proof. solve_decision. Defined.

(** ** The methods, indexed by the type of their answer *)
Inductive storeE : Type → Type :=
  (* IdentityStore *)
  | OpIdentityKeyPair : storeE (result gobytes)
  | OpSetIdentityKeyPair (priv : gobytes) : storeE (result unit)
  | OpLocalDevice : storeE (result Device)
  | OpSetLocalDevice (dev : Device) : storeE (result unit)
  (* PreKeyStore *)
  | OpCurrentSignedPreKey : storeE (result SignedPreKeyRecord)
  | OpStaleSignedPreKey : storeE (result (option SignedPreKeyRecord))
  | OpRotateSignedPreKey (next : SignedPreKeyRecord) : storeE (result unit)
  | OpPreKeyCount : storeE (result Z)
  | OpPreKeys : storeE (result (list PreKeyRecord))
  | OpNextPreKeyID : storeE (result Z)
  | OpPutPreKeys (recs : list PreKeyRecord) : storeE (result unit)
  | OpConsumePreKey (id : Z) : storeE (result PreKeyRecord)
  (* SessionStore *)
  | OpSession (dev : Device) : storeE (result (option gobytes))
  | OpPutSession (dev : Device) (data : gobytes) : storeE (result unit)
  | OpDeleteSession (dev : Device) : storeE (result unit)
  (* TrustStore *)
  | OpTrust (identityKey : gobytes) : storeE (result TrustState)
  | OpSetTrust (identityKey : gobytes) (state : TrustState) : storeE (result unit)
  (* DeviceStore *)
  | OpDevices (jid : string) : storeE (result (list DeviceID))
  | OpSetDevices (jid : string) (devices : list DeviceID) : storeE (result unit)
  | OpRemoteIdentityKey (dev : Device) : storeE (result (option gobytes))
  | OpPutRemoteIdentityKey (dev : Device) (key : gobytes) : storeE (result unit).

(** An implementation: a state and the effect of every method on it.  A
    [(value, ok, err)] answer is a [result (option value)]. *)
Class Store := {
  store : Type;
  handle_store : ∀ {R : Type}, storeE R → store → R * store }.

(** ** The abstract state *)
Record astore := AStore {
  a_identity : gobytes;
  a_local : Device;
  a_current : SignedPreKeyRecord;
  a_stale : option SignedPreKeyRecord;
  a_pool : gmap Z PreKeyRecord;      (* unconsumed one-time prekeys *)
  a_issued : gset Z;                 (* every ID NextPreKeyID ever returned *)
  a_sessions : gmap Device gobytes;
  a_trust : gmap (list byte) TrustState;  (* keyed by the bytes of the key *)
  a_devices : gmap string (list DeviceID);
  a_remote : gmap Device gobytes }.

Definition set_identity v (a : astore) : astore :=
  AStore v (a_local a) (a_current a) (a_stale a) (a_pool a) (a_issued a)
    (a_sessions a) (a_trust a) (a_devices a) (a_remote a).
Definition set_local v (a : astore) : astore :=
  AStore (a_identity a) v (a_current a) (a_stale a) (a_pool a) (a_issued a)
    (a_sessions a) (a_trust a) (a_devices a) (a_remote a).
Definition set_spks cur stale (a : astore) : astore :=
  AStore (a_identity a) (a_local a) cur stale (a_pool a) (a_issued a)
    (a_sessions a) (a_trust a) (a_devices a) (a_remote a).
Definition set_pool v (a : astore) : astore :=
  AStore (a_identity a) (a_local a) (a_current a) (a_stale a) v (a_issued a)
    (a_sessions a) (a_trust a) (a_devices a) (a_remote a).
Definition set_issued v (a : astore) : astore :=
  AStore (a_identity a) (a_local a) (a_current a) (a_stale a) (a_pool a) v
    (a_sessions a) (a_trust a) (a_devices a) (a_remote a).
Definition set_sessions v (a : astore) : astore :=
  AStore (a_identity a) (a_local a) (a_current a) (a_stale a) (a_pool a) (a_issued a)
    v (a_trust a) (a_devices a) (a_remote a).
Definition set_trust v (a : astore) : astore :=
  AStore (a_identity a) (a_local a) (a_current a) (a_stale a) (a_pool a) (a_issued a)
    (a_sessions a) v (a_devices a) (a_remote a).
Definition set_devices v (a : astore) : astore :=
  AStore (a_identity a) (a_local a) (a_current a) (a_stale a) (a_pool a) (a_issued a)
    (a_sessions a) (a_trust a) v (a_remote a).
Definition set_remote v (a : astore) : astore :=
  AStore (a_identity a) (a_local a) (a_current a) (a_stale a) (a_pool a) (a_issued a)
    (a_sessions a) (a_trust a) (a_devices a) v.

(** Trust of a key: undecided unless a decision was stored. *)
Definition trust_of (a : astore) (key : gobytes) : TrustState :=
  default TrustUndecided (a_trust a !! go_string key).

Definition devices_of (a : astore) (jid : string) : list DeviceID :=
  default [] (a_devices a !! jid).

(** [recs] put into the pool one after the other, by ID. *)
Definition put_prekeys (recs : list PreKeyRecord) (pool : gmap Z PreKeyRecord) :
    gmap Z PreKeyRecord :=
  foldl (λ m r, <[PKR_ID r := r]> m) pool recs.

(** "stores next as the current signed prekey, demoting the previous current
    one to stale".  The comment does not say what a store does that has no current
    signed prekey yet; here, as in memstore (its test of the public key), nothing
    is demoted then, and the stale one stays what it was. *)
Definition rotate_spks (next : SignedPreKeyRecord) (a : astore) : astore :=
  set_spks next
    (if is_nil (SPKR_Public (a_current a)) then a_stale a else Some (a_current a)) a.

(** ** The contract *)
Definition fails {A} (a : astore) : result A → astore → Prop :=
  λ r a', (∃ e, r = Err e) ∧ a' = a.
Definition reads {A} (a : astore) (v : A) : result A → astore → Prop :=
  λ r a', (r = Ok v ∧ a' = a) ∨ fails a r a'.
Definition writes (a a2 : astore) : result unit → astore → Prop :=
  λ r a', (r = Ok tt ∧ a' = a2) ∨ fails a r a'.

(** Fewer than 2^32 - 1 IDs were handed out, so an unused non-zero one is left. *)
Definition ids_left (a : astore) : Prop :=
  (Z.of_nat (size (a_issued a)) < u32_modulus - 1)%Z.

Definition store_spec {R : Type} (op : storeE R) (a : astore) : R → astore → Prop :=
  match op in storeE R return R → astore → Prop with
  | OpIdentityKeyPair => reads a (a_identity a)
  | OpSetIdentityKeyPair priv => writes a (set_identity priv a)
  | OpLocalDevice => reads a (a_local a)
  | OpSetLocalDevice dev => writes a (set_local dev a)
  | OpCurrentSignedPreKey => reads a (a_current a)
  | OpStaleSignedPreKey => reads a (a_stale a)
  | OpRotateSignedPreKey next => writes a (rotate_spks next a)
  | OpPreKeyCount => reads a (Z.of_nat (size (a_pool a)))
  | OpPreKeys => λ r a',
      (∃ l, r = Ok l ∧ (l ≡ₚ (map_to_list (a_pool a)).*2) ∧ a' = a) ∨ fails a r a'
  | OpNextPreKeyID => λ r a',
      (∃ id, r = Ok id ∧ is_u32 id ∧
        (ids_left a → (id ∉ a_issued a) ∧ a' = set_issued ({[id]} ∪ a_issued a) a) ∧
        set_issued ∅ a' = set_issued ∅ a) ∨ fails a r a'
  | OpPutPreKeys recs => writes a (set_pool (put_prekeys recs (a_pool a)) a)
  | OpConsumePreKey id => λ r a',
      (∃ rec, r = Ok rec ∧ a_pool a !! id = Some rec ∧
        a' = set_pool (delete id (a_pool a)) a) ∨ fails a r a'
  | OpSession dev => reads a (a_sessions a !! dev)
  | OpPutSession dev data => writes a (set_sessions (<[dev := data]> (a_sessions a)) a)
  | OpDeleteSession dev => writes a (set_sessions (delete dev (a_sessions a)) a)
  | OpTrust key => reads a (trust_of a key)
  | OpSetTrust key st => writes a (set_trust (<[go_string key := st]> (a_trust a)) a)
  | OpDevices jid => reads a (devices_of a jid)
  | OpSetDevices jid ds => writes a (set_devices (<[jid := ds]> (a_devices a)) a)
  | OpRemoteIdentityKey dev => reads a (a_remote a !! dev)
  | OpPutRemoteIdentityKey dev key =>
      writes a (set_remote (<[dev := key]> (a_remote a)) a)
  end.

(** A store fulfils the contract when its state has an abstract view, every
    well-formed state answers every method within [store_spec], and stays
    well-formed. *)
Class StoreContract (ST : Store) := {
  view : store → astore;
  store_wf : store → Prop;
  store_step : ∀ {R} (op : storeE R) (s : store),
    store_wf s →
    store_wf (handle_store op s).2 ∧
    store_spec op (view s) (handle_store op s).1 (view (handle_store op s).2) }.

(** When a call may fail although the store works: only to consume a prekey
    that is not in the pool. *)
Definition may_fail {R} (op : storeE R) (a : astore) : Prop :=
  match op with
  | OpConsumePreKey id => a_pool a !! id = None
  | _ => False
  end.

(** [succeeded op r]: the answer is not an error. *)
Definition succeeded {R} (op : storeE R) : R → Prop :=
  match op in storeE R return R → Prop with
  | OpIdentityKeyPair => is_ok | OpSetIdentityKeyPair _ => is_ok
  | OpLocalDevice => is_ok | OpSetLocalDevice _ => is_ok
  | OpCurrentSignedPreKey => is_ok | OpStaleSignedPreKey => is_ok
  | OpRotateSignedPreKey _ => is_ok | OpPreKeyCount => is_ok
  | OpPreKeys => is_ok | OpNextPreKeyID => is_ok
  | OpPutPreKeys _ => is_ok | OpConsumePreKey _ => is_ok
  | OpSession _ => is_ok | OpPutSession _ _ => is_ok
  | OpDeleteSession _ => is_ok | OpTrust _ => is_ok
  | OpSetTrust _ _ => is_ok | OpDevices _ => is_ok
  | OpSetDevices _ _ => is_ok | OpRemoteIdentityKey _ => is_ok
  | OpPutRemoteIdentityKey _ _ => is_ok
  end.

Class ReliableStore (ST : Store) {SC : StoreContract ST} :=
  store_succeeds : ∀ {R} (op : storeE R) (s : store),
    store_wf s → ¬ may_fail op (view s) → succeeded op (handle_store op s).1.
