(* ===== verification/Transport.v ===== *)
(** * Network interface: transport.go

    The Go interface [Transport] as a class over the application's state
    [env]: every method may change that state and may fail.  The
    [TrustResolver] callback of errors.go runs in the same application, so it
    acts on the same state. *)
From S2P Require Import Prelude Types Errors.

Class Transport := {
  env : Type;
  FetchDeviceList : string → env → result DeviceList * env;
  PublishDeviceList : DeviceList → env → result unit * env;
  FetchBundle : Device → env → result Bundle * env;
  PublishBundle : Bundle → env → result unit * env }.

(** The methods as a signature, so that a program can name the call it makes. *)
Inductive transportE : Type → Type :=
  | OpFetchDeviceList (jid : string) : transportE (result DeviceList)
  | OpPublishDeviceList (list : DeviceList) : transportE (result unit)
  | OpFetchBundle (dev : Device) : transportE (result Bundle)
  | OpPublishBundle (bundle : Bundle) : transportE (result unit).

Definition handle_transport {T : Transport} {R : Type} (op : transportE R) :
    env → R * env :=
  match op with
  | OpFetchDeviceList jid => FetchDeviceList jid
  | OpPublishDeviceList list => PublishDeviceList list
  | OpFetchBundle dev => FetchBundle dev
  | OpPublishBundle bundle => PublishBundle bundle
  end.

(** [type TrustResolver func(ctx, dev, identityKey) error]; [None] is a nil
    error. *)
Definition TrustResolver {T : Transport} : Type :=
  Device → gobytes → env → option error * env.
