(* ===== verification/Xochimilco.v ===== *)
(** * The cryptographic backend the program calls

    [GoCrypto] holds the primitives of Go's crypto packages the code uses;
    [Xochimilco] holds the functions of the third-party module
    github.com/jim-ww/xochimilco (packages xochimilco, x3dh, doubleratchet and
    legacysignal), each with the arguments and results of its call sites.
    None of that code is part of the program: both classes are parameters of
    the model.  A primitive that may draw randomness acts on the state [rng]
    of crypto/rand's reader. *)
From S2P Require Import Prelude Types Errors.

Class GoCrypto := {
  rng : Type;
  (* io.ReadFull(rand.Reader, buf) for a buffer of that length *)
  rand_bytes : nat → rng → result (list byte) * rng;
  (* the public key of a 32-byte Ed25519 seed (RFC 8032) *)
  ed25519_public : list byte → list byte;
  (* X25519 of a scalar and the base point (RFC 7748) *)
  x25519_base : list byte → list byte }.

Class GoCryptoLaws (GC : GoCrypto) := {
  rand_bytes_length n r l : (rand_bytes n r).1 = Ok l → length l = n;
  ed25519_public_length s : length (ed25519_public s) = 32;
  x25519_base_length s : length (x25519_base s) = 32 }.

(** The fields of a parsed PreKeyWhisperMessage the code reads. *)
Record PreKeyMessage := MkPreKeyMessage {
  PM_SignedPreKeyID : Z;
  PM_PreKeyID : Z;
  PM_IdentityKey : gobytes;
  PM_BaseKey : gobytes;
  PM_Message : gobytes }.

Class Xochimilco {GC : GoCrypto} := {
  (* package x3dh *)
  x3dh_key : Type;
  x3dh_ad : Type;
  x3dh_CreateNewSpk : gobytes → rng → result (gobytes * gobytes * gobytes) * rng;
  x3dh_CreateNewOpk : rng → result (gobytes * gobytes) * rng;
  x3dh_CreateInitialMessage :
    gobytes → gobytes → gobytes → gobytes → gobytes → rng →
    result (x3dh_key * x3dh_ad * gobytes) * rng;
  x3dh_ReceiveInitialMessage :
    gobytes → gobytes → gobytes → gobytes → gobytes → rng →
    result (x3dh_key * x3dh_ad) * rng;

  (* package doubleratchet; methods return the updated object *)
  DoubleRatchet : Type;
  dr_CreateActive : x3dh_key → x3dh_ad → gobytes → rng → result DoubleRatchet * rng;
  dr_CreatePassive :
    x3dh_key → x3dh_ad → gobytes → gobytes → rng → result DoubleRatchet * rng;
  dr_Encrypt : DoubleRatchet → gobytes → rng → (result gobytes * DoubleRatchet) * rng;
  dr_Decrypt : DoubleRatchet → gobytes → rng → (result gobytes * DoubleRatchet) * rng;
  dr_MarshalBinary : DoubleRatchet → result gobytes;
  dr_UnmarshalBinary : gobytes → result DoubleRatchet;

  (* package legacysignal *)
  ls_x3dh : Type;
  LegacySession : Type;
  ls_CreateNewSpk : gobytes → rng → result (gobytes * gobytes * gobytes) * rng;
  ls_CreateInitialMessage :
    gobytes → gobytes → gobytes → gobytes → gobytes → rng →
    result (ls_x3dh * gobytes) * rng;
  ls_NewActiveSession : gobytes → gobytes → ls_x3dh → rng → result LegacySession * rng;
  ls_ParsePreKeyMessage : gobytes → result PreKeyMessage;
  ls_ReceiveInitialMessage :
    gobytes → gobytes → gobytes → gobytes → gobytes → gobytes → rng →
    result ls_x3dh * rng;
  ls_NewPassiveSession : gobytes → gobytes → ls_x3dh → rng → result LegacySession * rng;
  ls_EncryptPreKeyWhisperMessage :
    LegacySession → gobytes → gobytes → Z → Z → Z → rng →
    (result gobytes * LegacySession) * rng;
  ls_EncryptWhisperMessage :
    LegacySession → gobytes → rng → (result gobytes * LegacySession) * rng;
  ls_DecryptWhisperMessage :
    LegacySession → gobytes → rng → (result gobytes * LegacySession) * rng;
  ls_MarshalBinary : LegacySession → result gobytes;
  ls_UnmarshalBinary : gobytes → result LegacySession;

  (* package xochimilco *)
  xo_EncryptPayload : gobytes → rng → result (gobytes * gobytes) * rng;
  xo_EncryptPayloadV1 : gobytes → rng → result (gobytes * gobytes * gobytes) * rng;
  xo_DecryptPayload : gobytes → gobytes → result gobytes;
  xo_DecryptPayloadV1 : gobytes → gobytes → gobytes → result gobytes }.

(** ** Documented behaviour the program relies on

    Each class is a hypothesis of the theorems that name it; the file ToyCrypto
    gives an instance of all of them. *)

(** A generated signed prekey has a public key. *)
Class XochimilcoKeyLaws {GC : GoCrypto} (X : Xochimilco) := {
  x3dh_spk_public k g pub priv sig :
    (x3dh_CreateNewSpk k g).1 = Ok (pub, priv, sig) → pub ≠ None;
  ls_spk_public k g pub priv sig :
    (ls_CreateNewSpk k g).1 = Ok (pub, priv, sig) → pub ≠ None }.

(** A serialized session state loads back as the same state. *)
Class XochimilcoCodecLaws {GC : GoCrypto} (X : Xochimilco) := {
  dr_unmarshal_marshal (s : DoubleRatchet) b :
    dr_MarshalBinary s = Ok b → dr_UnmarshalBinary b = Ok s;
  ls_unmarshal_marshal (s : LegacySession) b :
    ls_MarshalBinary s = Ok b → ls_UnmarshalBinary b = Ok s }.
