(* ===== verification/Prog.v ===== *)
(** * Programs: the effects of the Go code and their semantics

    A function of the program that has effects is a tree of type [prog E A]:
    the calls it makes, in order, each with its continuation.  Two signatures
    are used.  [baseE] has the calls to the store, the transport, the trust
    resolver and the cryptographic backend; its semantics [eval] is total.
    [eff] adds mutexes, the [locks] map of the Manager and panics; its
    semantics [run] may block or crash.  A tree of [eff] also has an
    interleaved semantics (file Concurrency). *)
From S2P Require Import Prelude Types Errors StoreSpec Transport Xochimilco.

(** ** The monad *)
Inductive prog (E : Type → Type) (A : Type) : Type :=
  | Ret (a : A)
  | Vis {R : Type} (e : E R) (k : R → prog E A).
Arguments Ret {E A} a.
Arguments Vis {E A R} e k.

#[global] Instance prog_ret E : MRet (prog E) := @Ret E.
#[global] Instance prog_bind E : MBind (prog E) := λ A B f,
  fix go p := match p with Ret a => f a | Vis e k => Vis e (λ r, go (k r)) end.

Definition trigger {E : Type → Type} {R : Type} (e : E R) : prog E R := Vis e Ret.

(** [x, err := p; if err != nil { return f(err) }; k(x)]. *)
Definition try {E : Type → Type} {A B} (f : error → error)
    (p : prog E (result A)) (k : A → prog E (result B)) : prog E (result B) :=
  r ← p; match r with Ok a => k a | Err e => mret (Err (f e)) end.

Declare Scope go_scope.
Delimit Scope go_scope with go.
(** [x <-? p; k] returns the error of [p] unchanged;
    [x <-? p wrap s; k] wraps it, as [fmt.Errorf(s + ": %w", err)] does. *)
Notation "x '<-?' p ; k" := (try (λ e, e) p (λ x, k))
  (at level 20, p at level 100, k at level 200, only parsing) : go_scope.
Notation "' x '<-?' p ; k" := (try (λ e, e) p (λ x, k))
  (at level 20, x pattern, p at level 100, k at level 200, only parsing) : go_scope.
Notation "x '<-?' p 'wrap' s ; k" := (try (Wrapf s) p (λ x, k))
  (at level 20, p at level 100, s at level 100, k at level 200, only parsing) : go_scope.
Notation "' x '<-?' p 'wrap' s ; k" := (try (Wrapf s) p (λ x, k))
  (at level 20, x pattern, p at level 100, s at level 100, k at level 200, only parsing)
  : go_scope.
Open Scope go_scope.

(** A call of a pure fallible function. *)
Definition pure {E : Type → Type} {A} (r : A) : prog E A := mret r.

(** ** Base effects *)
Section Base.
Context `{GC : GoCrypto} {T : Transport}.

Inductive baseE : Type → Type :=
  | EStore {R} (op : storeE R) : baseE R
  | ETransport {R} (op : transportE R) : baseE R
  | EResolve (r : TrustResolver) (dev : Device) (key : gobytes) : baseE (option error)
  | ECrypto {R} (f : rng → R * rng) : baseE R.

Definition ask {R} (op : storeE R) : prog baseE R := trigger (EStore op).
Definition net {R} (op : transportE R) : prog baseE R := trigger (ETransport op).
Definition crypto {R} (f : rng → R * rng) : prog baseE R := trigger (ECrypto f).

(** What the base effects act on: the store's, the application's and the
    random reader's state. *)
Context {ST : Store}.

Record data := MkData { d_store : store; d_env : env; d_rng : rng }.

Definition with_store (s : store) (d : data) : data := MkData s (d_env d) (d_rng d).
Definition with_env (v : env) (d : data) : data := MkData (d_store d) v (d_rng d).
Definition with_rng (r : rng) (d : data) : data := MkData (d_store d) (d_env d) r.

Definition handle_base {R} (e : baseE R) (d : data) : R * data :=
  match e in baseE R return R * data with
  | EStore op => let '(r, s) := handle_store op (d_store d) in (r, with_store s d)
  | ETransport op => let '(r, v) := handle_transport op (d_env d) in (r, with_env v d)
  | EResolve f dev key => let '(r, v) := f dev key (d_env d) in (r, with_env v d)
  | ECrypto f => let '(r, g) := f (d_rng d) in (r, with_rng g d)
  end.

Fixpoint eval {A} (p : prog baseE A) (d : data) : A * data :=
  match p with
  | Ret a => (a, d)
  | Vis e k => let '(r, d') := handle_base e d in eval (k r) d'
  end.
End Base.

(** ** Locks, the Manager's [locks] map, panics *)

(** A [*sync.Mutex]: the Manager's own [locksMu], or one allocated by
    [deviceLock]. *)
Inductive mutex :=
  | LocksMu
  | DeviceMu (n : N).

#[global] Instance mutex_eq_dec : EqDecision mutex.
Proof. solve_decision. Defined.
#[global, program] Instance mutex_countable : Countable mutex :=
  inj_countable (λ m, match m with LocksMu => None | DeviceMu n => Some n end)
    (λ o, Some (match o with None => LocksMu | Some n => DeviceMu n end)) _.
Next Obligation. by intros []. Qed.

Section Eff.
Context `{GC : GoCrypto} {T : Transport}.

Inductive eff : Type → Type :=
  | EBase {R} (e : baseE R) : eff R
  | ELock (m : mutex) : eff unit
  | EUnlock (m : mutex) : eff unit
  | ELocksGet (dev : Device) : eff (option mutex)
  | ELocksSet (dev : Device) (m : mutex) : eff unit
  | ENewMutex : eff mutex
  | EPanic (msg : string) : eff Empty_set.

Fixpoint lift {A} (p : prog baseE A) : prog eff A :=
  match p with Ret a => Ret a | Vis e k => Vis (EBase e) (λ r, lift (k r)) end.

Definition Lock (m : mutex) : prog eff unit := trigger (ELock m).
Definition Unlock (m : mutex) : prog eff unit := trigger (EUnlock m).
Definition panic {A} (msg : string) : prog eff A :=
  Vis (EPanic msg) (λ x, match x : Empty_set with end).

Context {ST : Store}.

(** [locks]: the map's contents; [next_mutex]: the mutexes allocated so far;
    [held]: the mutexes that are locked. *)
Record lockstate := MkLocks {
  locks : gmap Device mutex; next_mutex : N; held : gset mutex }.

Definition fresh_locks : lockstate := MkLocks ∅ 0 ∅.

Record world := MkWorld { w_data : data; w_lk : lockstate }.

(** The answer to one effect: a result, a wait for a locked mutex, or a crash. *)
Inductive reply (R : Type) :=
  | Reply (r : R) (w : world)
  | Wait
  | Crash (msg : string).
Arguments Reply {R} r w.
Arguments Wait {R}.
Arguments Crash {R} msg.

Definition with_held (h : gset mutex) (w : world) : world :=
  MkWorld (w_data w) (MkLocks (locks (w_lk w)) (next_mutex (w_lk w)) h).

Definition handle {R} (e : eff R) (w : world) : reply R :=
  match e in eff R return reply R with
  | EBase e =>
      let '(r, d) := handle_base e (w_data w) in Reply r (MkWorld d (w_lk w))
  | ELock m =>
      if decide (m ∈ held (w_lk w)) then Wait
      else Reply tt (with_held ({[m]} ∪ held (w_lk w)) w)
  | EUnlock m =>
      if decide (m ∈ held (w_lk w))
      then Reply tt (with_held (held (w_lk w) ∖ {[m]}) w)
      else Crash "sync: unlock of unlocked mutex"
  | ELocksGet dev => Reply (locks (w_lk w) !! dev) w
  | ELocksSet dev m =>
      Reply tt (MkWorld (w_data w)
        (MkLocks (<[dev := m]> (locks (w_lk w))) (next_mutex (w_lk w)) (held (w_lk w))))
  | ENewMutex =>
      Reply (DeviceMu (next_mutex (w_lk w)))
        (MkWorld (w_data w)
          (MkLocks (locks (w_lk w)) (N.succ (next_mutex (w_lk w))) (held (w_lk w))))
  | EPanic msg => Crash msg
  end.

(** Running one goroutine alone: [Blocked] is a wait nothing can end. *)
Inductive outcome (A : Type) :=
  | Done (a : A) (w : world)
  | Blocked
  | Panicked (msg : string).
Arguments Done {A} a w.
Arguments Blocked {A}.
Arguments Panicked {A} msg.

Fixpoint run {A} (p : prog eff A) (w : world) : outcome A :=
  match p with
  | Ret a => Done a w
  | Vis e k =>
      match handle e w with
      | Reply r w' => run (k r) w'
      | Wait => Blocked
      | Crash msg => Panicked msg
      end
  end.
End Eff.
Arguments Reply {_ _ _ _} r w.
Arguments Wait {_ _ _ _}.
Arguments Crash {_ _ _ _} msg.
Arguments Done {_ _ _ _} a w.
Arguments Blocked {_ _ _ _}.
Arguments Panicked {_ _ _ _} msg.
