(* ===== verification/Signal.v ===== *)
(** * The seam to the cryptographic backend: internal/signal/signal.go

    Every function of package signal, over the parameters of [Xochimilco.v].
    The dispatch on the protocol, the framing of identity keys, the pending
    prekey state of a ProtocolV1 session and the wrapping of errors are the
    package's own and are modelled; the primitives are not. *)
From S2P Require Import Prelude Types Errors StoreSpec Transport Xochimilco Prog.

Section Signal.
Context `{X : Xochimilco} {T : Transport}.

(** [type Protocol int] is duplicated by package signal; the conversion
    [signal.Protocol(protocol)] keeps the value. *)
Definition signal_Protocol (p : Protocol) : Protocol := p.

Definition is_V1 (p : Protocol) : bool := (p =? ProtocolV1)%Z.

(** [crypto/ed25519]: [PrivateKeySize], [GenerateKey], [PrivateKey.Public]. *)
Definition ed25519_PrivateKeySize : nat := 64.

Definition ed25519_GenerateKey (g : rng) : result gobytes * rng :=
  let '(r, g') := rand_bytes 32 g in
  (match r with
   | Ok seed => Ok (Some (seed ++ ed25519_public seed))
   | Err e => Err e
   end, g').

Definition ed25519_Public (priv : gobytes) : gobytes :=
  Some (drop 32 (go_string priv)).

(** [crypto/ecdh] on Curve25519: a private key is its 32 bytes. *)
Definition x25519_NewPrivateKey (key : gobytes) : result (list byte) :=
  if decide (go_len key = 32) then Ok (go_string key)
  else Err (Errorf "crypto/ecdh: invalid private key size").

Definition x25519_GenerateKey (g : rng) : result gobytes * rng :=
  let '(r, g') := rand_bytes 32 g in
  (match r with
   | Ok key =>
       match x25519_NewPrivateKey (Some key) with
       | Ok priv => Ok (Some priv)
       | Err e => Err e
       end
   | Err e => Err e
   end, g').

Definition GenerateIdentityKey (protocol : Protocol) : prog baseE (result gobytes) :=
  if is_V1 protocol then crypto x25519_GenerateKey else crypto ed25519_GenerateKey.

Definition IdentityPublicKey (protocol : Protocol) (priv : gobytes) : result gobytes :=
  if is_V1 protocol then
    match x25519_NewPrivateKey priv with
    | Err e => Err (Wrapf "parsing curve25519 private key" e)
    | Ok p => Ok (Some (x25519_base p))
    end
  else if decide (go_len priv ≠ ed25519_PrivateKeySize) then
    Err (Errorf ("ed25519 private key MUST be of " +:+ pretty 64%N +:+ " bytes"))
  else Ok (ed25519_Public priv).

Definition GenerateSignedPreKey (protocol : Protocol) (idKey : gobytes) :
    prog baseE (result (gobytes * gobytes * gobytes)) :=
  if is_V1 protocol then crypto (ls_CreateNewSpk idKey)
  else crypto (x3dh_CreateNewSpk idKey).

Definition GenerateOneTimePreKey : prog baseE (result (gobytes * gobytes)) :=
  crypto x3dh_CreateNewOpk.

(** [type legacyPendingPreKey struct]. *)
Record legacyPendingPreKey := MkPending {
  p_ekPub : gobytes; p_preKeyID : Z; p_signedPreKeyID : Z; p_registrationID : Z }.

(** [type Session struct]; the pointers are [None] for [nil]. *)
Record Session := MkSession {
  s_protocol : Protocol;
  s_dr : option DoubleRatchet;
  s_ls : option LegacySession;
  s_pending : option legacyPendingPreKey }.

Definition NewActiveSession (protocol : Protocol)
    (idKey peerIdKey peerSpkPub peerSpkSig peerOpkPub : gobytes)
    (peerSignedPreKeyID peerPreKeyID registrationID : Z) :
    prog baseE (result (Session * gobytes)) :=
  if is_V1 protocol then
    '(x3dhSess, ekPub) <-?
      crypto (ls_CreateInitialMessage idKey peerIdKey peerSpkPub peerSpkSig peerOpkPub)
      wrap "X3DH initial message";
    ls <-? crypto (ls_NewActiveSession idKey peerIdKey x3dhSess)
      wrap "create active session";
    pure (Ok (MkSession ProtocolV1 None (Some ls)
      (Some (MkPending ekPub peerPreKeyID peerSignedPreKeyID registrationID)), ekPub))
  else
    '(sessKey, associatedData, ekPub) <-?
      crypto (x3dh_CreateInitialMessage idKey peerIdKey peerSpkPub peerSpkSig peerOpkPub)
      wrap "X3DH initial message";
    dr <-? crypto (dr_CreateActive sessKey associatedData peerSpkPub)
      wrap "create active ratchet";
    pure (Ok (MkSession ProtocolV2 (Some dr) None None, ekPub)).

Definition NewPassiveSession (idKey peerIdKey spkPub spkPriv opkPriv ekPub : gobytes) :
    prog baseE (result Session) :=
  '(sessKey, associatedData) <-?
    crypto (x3dh_ReceiveInitialMessage idKey peerIdKey spkPriv opkPriv ekPub)
    wrap "X3DH receive initial message";
  dr <-? crypto (dr_CreatePassive sessKey associatedData spkPub spkPriv)
    wrap "create passive ratchet";
  pure (Ok (MkSession ProtocolV2 (Some dr) None None)).

Definition PeekLegacyPreKeyIDs (data : gobytes) : result (Z * Z) :=
  match ls_ParsePreKeyMessage data with
  | Err e => Err e
  | Ok pm => Ok (PM_SignedPreKeyID pm, PM_PreKeyID pm)
  end.

(** Returns the session, the peer's identity key and the embedded message. *)
Definition NewPassiveSessionFromPreKeyBlob
    (idKey spkPub spkPriv opkPriv data : gobytes) :
    prog baseE (result (Session * gobytes * gobytes)) :=
  pm <-? pure (ls_ParsePreKeyMessage data) wrap "parsing legacy prekey message";
  x3dhSess <-?
    crypto (ls_ReceiveInitialMessage idKey (PM_IdentityKey pm) spkPub spkPriv opkPriv
      (PM_BaseKey pm))
    wrap "X3DH receive initial message";
  ls <-? crypto (ls_NewPassiveSession idKey (PM_IdentityKey pm) x3dhSess)
    wrap "create passive session";
  pure (Ok (MkSession ProtocolV1 None (Some ls) None, PM_IdentityKey pm, PM_Message pm)).

Definition LoadSession (protocol : Protocol) (data : gobytes) : result Session :=
  if is_V1 protocol then
    match ls_UnmarshalBinary data with
    | Err e => Err (Wrapf "restore legacy session state" e)
    | Ok ls => Ok (MkSession ProtocolV1 None (Some ls) None)
    end
  else
    match dr_UnmarshalBinary data with
    | Err e => Err (Wrapf "restore ratchet state" e)
    | Ok dr => Ok (MkSession ProtocolV2 (Some dr) None None)
    end.

(** A method call through a nil ratchet pointer crashes; no session the
    package builds has one ([session_ok] below). *)
Definition nil_dereference : error :=
  Errorf "runtime error: invalid memory address or nil pointer dereference".

Definition Session_Marshal (s : Session) : result gobytes :=
  if is_V1 (s_protocol s) then
    match s_ls s with Some ls => ls_MarshalBinary ls | None => Err nil_dereference end
  else
    match s_dr s with Some dr => dr_MarshalBinary dr | None => Err nil_dereference end.

Definition with_ls (ls : LegacySession) (s : Session) : Session :=
  MkSession (s_protocol s) (s_dr s) (Some ls) (s_pending s).
Definition with_dr (dr : DoubleRatchet) (s : Session) : Session :=
  MkSession (s_protocol s) (Some dr) (s_ls s) (s_pending s).
Definition clear_pending (s : Session) : Session :=
  MkSession (s_protocol s) (s_dr s) (s_ls s) None.

(** [Encrypt] mutates the session: the result pairs the answer with it. *)
Definition Session_Encrypt (s : Session) (keyMaterial : gobytes) :
    prog baseE (result gobytes * Session) :=
  if is_V1 (s_protocol s) then
    match s_ls s with
    | None => mret (Err nil_dereference, s)
    | Some ls =>
        match s_pending s with
        | Some p =>
            '(r, ls') ← crypto (ls_EncryptPreKeyWhisperMessage ls keyMaterial
              (p_ekPub p) (p_preKeyID p) (p_signedPreKeyID p) (p_registrationID p));
            mret (r, with_ls ls' (clear_pending s))
        | None =>
            '(r, ls') ← crypto (ls_EncryptWhisperMessage ls keyMaterial);
            mret (r, with_ls ls' s)
        end
    end
  else
    match s_dr s with
    | None => mret (Err nil_dereference, s)
    | Some dr =>
        '(r, dr') ← crypto (dr_Encrypt dr keyMaterial);
        mret (r, with_dr dr' s)
    end.

Definition Session_Decrypt (s : Session) (data : gobytes) :
    prog baseE (result gobytes * Session) :=
  if is_V1 (s_protocol s) then
    match s_ls s with
    | None => mret (Err nil_dereference, s)
    | Some ls =>
        '(r, ls') ← crypto (ls_DecryptWhisperMessage ls data);
        mret (r, with_ls ls' s)
    end
  else
    match s_dr s with
    | None => mret (Err nil_dereference, s)
    | Some dr =>
        '(r, dr') ← crypto (dr_Decrypt dr data);
        mret (r, with_dr dr' s)
    end.

(** Returns the key material, the IV and the ciphertext. *)
Definition EncryptPayload (protocol : Protocol) (plaintext : gobytes) :
    prog baseE (result (gobytes * gobytes * gobytes)) :=
  if is_V1 protocol then crypto (xo_EncryptPayloadV1 plaintext)
  else
    '(keyMaterial, ciphertext) <-? crypto (xo_EncryptPayload plaintext);
    pure (Ok (keyMaterial, None, ciphertext)).

Definition DecryptPayload (protocol : Protocol) (keyMaterial iv ciphertext : gobytes) :
    result gobytes :=
  if is_V1 protocol then xo_DecryptPayloadV1 keyMaterial iv ciphertext
  else xo_DecryptPayload keyMaterial ciphertext.

(** The sessions the package hands out: exactly the ratchet of their
    protocol is set, and only a ProtocolV1 session has pending state. *)
Definition session_ok (s : Session) : Prop :=
  (s_protocol s = ProtocolV1 ∧ is_Some (s_ls s) ∧ s_dr s = None) ∨
  (s_protocol s = ProtocolV2 ∧ is_Some (s_dr s) ∧ s_ls s = None ∧ s_pending s = None).
End Signal.
