(* ===== verification/SessionLaws.v ===== *)
(** * What the backend promises about a conversation

    The documented behaviour of X3DH, of the two ratchets and of the payload
    ciphers, as laws of the parameter [Xochimilco]: two parties that derive
    from matching keys agree on a session, a ratchet message decrypts at the
    other end, and a payload opens under the key it was sealed with.  The
    theorems of EndToEnd show that the program's own plumbing composes these
    into end-to-end delivery.  ToyCrypto has an instance. *)
From S2P Require Import Prelude Types Errors StoreSpec Transport Xochimilco Prog.
From S2P Require Import Signal.

(** [pub], [priv] and [sig] come from the generator of the protocol. *)
Definition generated_spk `{X : Xochimilco} (p : Protocol) (idKey pub priv sig : gobytes) : Prop :=
  ∃ g, (if is_V1 p then ls_CreateNewSpk idKey g else x3dh_CreateNewSpk idKey g).1 =
    Ok (pub, priv, sig).

Definition generated_opk `{X : Xochimilco} (pub priv : gobytes) : Prop :=
  ∃ g, (x3dh_CreateNewOpk g).1 = Ok (pub, priv).

(** An identity key as GenerateIdentityKey makes them: the two halves of a
    ProtocolV2 key belong together. *)
Definition generated_identity `{GC : GoCrypto} (p : Protocol) (k : gobytes) : Prop :=
  ∃ seed, length seed = 32 ∧
    k = Some (if is_V1 p then seed else seed ++ ed25519_public seed).

Class XochimilcoSessionLaws {GC : GoCrypto} (X : Xochimilco) := {
  (** The relation between the two ends of a ratchet: [fresh] when only the
      initiator (left) may send yet, [linked] once a message was delivered;
      no message is in flight in either. *)
  dr_fresh : DoubleRatchet → DoubleRatchet → Prop;
  dr_linked : DoubleRatchet → DoubleRatchet → Prop;
  ls_fresh : LegacySession → LegacySession → Prop;
  ls_linked : LegacySession → LegacySession → Prop;
  dr_linked_sym a b : dr_linked a b → dr_linked b a;
  ls_linked_sym a b : ls_linked a b → ls_linked b a;

  (** X3DH: both parties derive the same key and associated data. *)
  x3dh_agreement kA kB pA pB spub spriv sig opub opriv sk ad ek g g' :
    generated_identity ProtocolV2 kA → generated_identity ProtocolV2 kB →
    IdentityPublicKey ProtocolV2 kA = Ok pA → IdentityPublicKey ProtocolV2 kB = Ok pB →
    generated_spk ProtocolV2 kB spub spriv sig → generated_opk opub opriv →
    (x3dh_CreateInitialMessage kA pB spub sig opub g).1 = Ok (sk, ad, ek) →
    (x3dh_ReceiveInitialMessage kB pA spriv opriv ek g').1 = Ok (sk, ad);
  dr_create kB spub spriv sig sk ad a g g' :
    generated_spk ProtocolV2 kB spub spriv sig →
    (dr_CreateActive sk ad spub g).1 = Ok a →
    ∃ b, (dr_CreatePassive sk ad spub spriv g').1 = Ok b ∧ dr_fresh a b;

  (** The same for ProtocolV1, session state included. *)
  ls_agreement kA kB pA pB spub spriv sig opub opriv x ek a g g1 g2 :
    IdentityPublicKey ProtocolV1 kA = Ok pA → IdentityPublicKey ProtocolV1 kB = Ok pB →
    generated_spk ProtocolV1 kB spub spriv sig → generated_opk opub opriv →
    (ls_CreateInitialMessage kA pB spub sig opub g).1 = Ok (x, ek) →
    (ls_NewActiveSession kA pB x g1).1 = Ok a →
    ∃ x', (ls_ReceiveInitialMessage kB pA spub spriv opriv ek g2).1 = Ok x' ∧
      ∀ g3, ∃ b, (ls_NewPassiveSession kB pA x' g3).1 = Ok b ∧ ls_fresh a b;
  (** A PreKeyWhisperMessage names the prekeys, the sender's identity key and
      the base key, and embeds an ordinary message. *)
  ls_prekey_message kA pA pB x a km ek pk spk reg data a' g g' :
    IdentityPublicKey ProtocolV1 kA = Ok pA → (ls_NewActiveSession kA pB x g).1 = Ok a →
    (ls_EncryptPreKeyWhisperMessage a km ek pk spk reg g').1 = (Ok data, a') →
    ∃ inner, ls_ParsePreKeyMessage data = Ok (MkPreKeyMessage spk pk pA ek inner) ∧
      ∃ g'', (ls_EncryptWhisperMessage a km g'').1 = (Ok inner, a');

  (** Ratchets deliver messages in order. *)
  dr_deliver a b km c a' g g' :
    dr_fresh a b ∨ dr_linked a b → 0 < go_len km → (dr_Encrypt a km g).1 = (Ok c, a') →
    ∃ b', (dr_Decrypt b c g').1 = (Ok km, b') ∧ dr_linked a' b';
  ls_deliver a b km c a' g g' :
    ls_fresh a b ∨ ls_linked a b → 0 < go_len km →
    (ls_EncryptWhisperMessage a km g).1 = (Ok c, a') →
    ∃ b', (ls_DecryptWhisperMessage b c g').1 = (Ok km, b') ∧ ls_linked a' b';
  (** The state of a ratchet in use can be serialized. *)
  dr_marshals a b : dr_linked a b → is_ok (dr_MarshalBinary b);
  ls_marshals a b : ls_linked a b → is_ok (ls_MarshalBinary b);

  (** Payloads open under their key material, which is not empty. *)
  payload_opens pt km ct g :
    (xo_EncryptPayload pt g).1 = Ok (km, ct) →
    0 < go_len km ∧ (pt ≠ None → ct ≠ None ∧
      ∃ out, xo_DecryptPayload km ct = Ok out ∧ go_string out = go_string pt);
  payload_opens_V1 pt km iv ct g :
    (xo_EncryptPayloadV1 pt g).1 = Ok (km, iv, ct) →
    0 < go_len km ∧ (pt ≠ None → ct ≠ None ∧
      ∃ out, xo_DecryptPayloadV1 km iv ct = Ok out ∧ go_string out = go_string pt) }.

(** The backend works: with a random reader that does not fail, and on keys
    the generators made, the calls a sender makes succeed. *)
Class XochimilcoTotalLaws {GC : GoCrypto} (X : Xochimilco) {SL : XochimilcoSessionLaws X} := {
  dr_encrypts a b km g :
    dr_fresh a b ∨ dr_linked a b → 0 < go_len km → is_ok (dr_Encrypt a km g).1.1;
  ls_encrypts a b km g :
    ls_fresh a b ∨ ls_linked a b → 0 < go_len km →
    is_ok (ls_EncryptWhisperMessage a km g).1.1;
  ls_encrypts_prekey a b km ek pk spk reg g :
    ls_fresh a b → 0 < go_len km →
    is_ok (ls_EncryptPreKeyWhisperMessage a km ek pk spk reg g).1.1;
  x3dh_initiates kA kB pA pB spub spriv sig opub opriv g :
    generated_identity ProtocolV2 kA → generated_identity ProtocolV2 kB →
    IdentityPublicKey ProtocolV2 kA = Ok pA → IdentityPublicKey ProtocolV2 kB = Ok pB →
    generated_spk ProtocolV2 kB spub spriv sig → generated_opk opub opriv →
    is_ok (x3dh_CreateInitialMessage kA pB spub sig opub g).1;
  dr_creates kB spub spriv sig sk ad g :
    generated_spk ProtocolV2 kB spub spriv sig → is_ok (dr_CreateActive sk ad spub g).1;
  ls_initiates kA kB pA pB spub spriv sig opub opriv g :
    IdentityPublicKey ProtocolV1 kA = Ok pA → IdentityPublicKey ProtocolV1 kB = Ok pB →
    generated_spk ProtocolV1 kB spub spriv sig → generated_opk opub opriv →
    is_ok (ls_CreateInitialMessage kA pB spub sig opub g).1;
  ls_creates kA pB spub sig opub x ek g g' :
    (ls_CreateInitialMessage kA pB spub sig opub g).1 = Ok (x, ek) →
    is_ok (ls_NewActiveSession kA pB x g').1;
  payload_seals pt g : is_ok (xo_EncryptPayload pt g).1;
  payload_seals_V1 pt g : is_ok (xo_EncryptPayloadV1 pt g).1 }.

(** So do, with a random reader that does not fail, the calls that make a
    device's own keys. *)
Class XochimilcoKeygenLaws {GC : GoCrypto} (X : Xochimilco) := {
  rand_bytes_ok n g : is_ok (rand_bytes n g).1;
  spk_generates p k pub g :
    IdentityPublicKey p k = Ok pub →
    is_ok (if is_V1 p then ls_CreateNewSpk k g else x3dh_CreateNewSpk k g).1;
  opk_generates g : is_ok (x3dh_CreateNewOpk g).1 }.

(** Messages in flight.  [dr_channel a b ab ba]: the two ends of a ratchet while
    the messages [ab] are on their way from [a] to [b] and [ba] from [b] to [a],
    each with the key material it was made from, the oldest first.  Either end
    may encrypt and decrypt at any time; each direction delivers in order. *)
Abbreviation in_flight := (list (gobytes * gobytes)).

Class XochimilcoChannelLaws {GC : GoCrypto} (X : Xochimilco) {SL : XochimilcoSessionLaws X} := {
  dr_channel : DoubleRatchet → DoubleRatchet → in_flight → in_flight → Prop;
  ls_channel : LegacySession → LegacySession → in_flight → in_flight → Prop;
  (** With nothing in flight it is the relation of [XochimilcoSessionLaws]. *)
  dr_channel_idle a b : dr_channel a b [] [] ↔ dr_linked a b;
  ls_channel_idle a b : ls_channel a b [] [] ↔ ls_linked a b;
  dr_channel_sym a b ab ba : dr_channel a b ab ba → dr_channel b a ba ab;
  ls_channel_sym a b ab ba : ls_channel a b ab ba → ls_channel b a ba ab;
  dr_channel_send a b ab ba km c a' g :
    dr_channel a b ab ba → 0 < go_len km → (dr_Encrypt a km g).1 = (Ok c, a') →
    dr_channel a' b (ab ++ [(km, c)]) ba;
  ls_channel_send a b ab ba km c a' g :
    ls_channel a b ab ba → 0 < go_len km → (ls_EncryptWhisperMessage a km g).1 = (Ok c, a') →
    ls_channel a' b (ab ++ [(km, c)]) ba;
  dr_channel_receive a b km c ab ba g :
    dr_channel a b ((km, c) :: ab) ba →
    ∃ b', (dr_Decrypt b c g).1 = (Ok km, b') ∧ dr_channel a b' ab ba;
  ls_channel_receive a b km c ab ba g :
    ls_channel a b ((km, c) :: ab) ba →
    ∃ b', (ls_DecryptWhisperMessage b c g).1 = (Ok km, b') ∧ ls_channel a b' ab ba;
  dr_channel_marshals a b ab ba : dr_channel a b ab ba → is_ok (dr_MarshalBinary a);
  ls_channel_marshals a b ab ba : ls_channel a b ab ba → is_ok (ls_MarshalBinary a) }.

(** With a random reader that does not fail. *)
Class XochimilcoChannelTotalLaws {GC : GoCrypto} (X : Xochimilco) {SL : XochimilcoSessionLaws X}
    {CH : XochimilcoChannelLaws X} := {
  dr_channel_encrypts a b ab ba km g :
    dr_channel a b ab ba → 0 < go_len km → is_ok (dr_Encrypt a km g).1.1;
  ls_channel_encrypts a b ab ba km g :
    ls_channel a b ab ba → 0 < go_len km → is_ok (ls_EncryptWhisperMessage a km g).1.1 }.
