(* ===== verification/Memstore.v ===== *)
(** * The in-memory store: memstore/memstore.go

    The Go struct as a record, every method as a function on it, and the proof
    that memstore is a [Store] that fulfils [StoreContract] and is reliable.
    A method is one function, as the mutex [mu] makes it atomic, which
    [MemstoreCode] and [MemstoreMutex] show.  The order in which [range] visits
    a map is unspecified in Go; [GoMapRange] is any such order. *)
From S2P Require Import Prelude Types Errors StoreSpec.

Class GoMapRange := {
  map_range : gmap Z PreKeyRecord → list PreKeyRecord;
  map_range_perm m : map_range m ≡ₚ (map_to_list m).*2 }.

(** Zero values of the two structs memstore returns by value. *)
Definition zero_SignedPreKeyRecord : SignedPreKeyRecord :=
  MkSignedPreKeyRecord 0 None None None.
Definition zero_Device : Device := MkDevice "" 0%Z.

Record MemStore := MkMemStore {
  ms_identityKey : gobytes;
  ms_localDevice : Device;
  ms_currentSPK : SignedPreKeyRecord;
  ms_staleSPK : option SignedPreKeyRecord;
  ms_preKeys : gmap Z PreKeyRecord;
  ms_nextPreKeyID : Z;
  ms_sessions : gmap Device gobytes;
  ms_trust : gmap (list byte) TrustState;
  ms_devices : gmap string (list DeviceID);
  ms_remoteID : gmap Device gobytes }.

(** [New()]. *)
Definition New : MemStore :=
  MkMemStore None zero_Device zero_SignedPreKeyRecord None ∅ 0 ∅ ∅ ∅ ∅.

Module Store.
Definition IdentityKeyPair (s : MemStore) : result gobytes * MemStore :=
  (Ok (ms_identityKey s), s).

Definition SetIdentityKeyPair (priv : gobytes) (s : MemStore) : result unit * MemStore :=
  (Ok tt, MkMemStore priv (ms_localDevice s) (ms_currentSPK s) (ms_staleSPK s)
    (ms_preKeys s) (ms_nextPreKeyID s) (ms_sessions s) (ms_trust s) (ms_devices s)
    (ms_remoteID s)).

Definition LocalDevice (s : MemStore) : result Device * MemStore :=
  (Ok (ms_localDevice s), s).

Definition SetLocalDevice (dev : Device) (s : MemStore) : result unit * MemStore :=
  (Ok tt, MkMemStore (ms_identityKey s) dev (ms_currentSPK s) (ms_staleSPK s)
    (ms_preKeys s) (ms_nextPreKeyID s) (ms_sessions s) (ms_trust s) (ms_devices s)
    (ms_remoteID s)).

Definition CurrentSignedPreKey (s : MemStore) : result SignedPreKeyRecord * MemStore :=
  (Ok (ms_currentSPK s), s).

Definition StaleSignedPreKey (s : MemStore) :
    result (option SignedPreKeyRecord) * MemStore :=
  (Ok (ms_staleSPK s), s).

Definition RotateSignedPreKey (next : SignedPreKeyRecord) (s : MemStore) :
    result unit * MemStore :=
  let stale :=
    if negb (is_nil (SPKR_Public (ms_currentSPK s)))
    then Some (ms_currentSPK s) else ms_staleSPK s in
  (Ok tt, MkMemStore (ms_identityKey s) (ms_localDevice s) next stale
    (ms_preKeys s) (ms_nextPreKeyID s) (ms_sessions s) (ms_trust s) (ms_devices s)
    (ms_remoteID s)).

Definition PreKeyCount (s : MemStore) : result Z * MemStore :=
  (Ok (Z.of_nat (size (ms_preKeys s))), s).

Definition PreKeys {GM : GoMapRange} (s : MemStore) :
    result (list PreKeyRecord) * MemStore :=
  (Ok (map_range (ms_preKeys s)), s).

Definition with_preKeys (m : gmap Z PreKeyRecord) (next : Z) (s : MemStore) : MemStore :=
  MkMemStore (ms_identityKey s) (ms_localDevice s) (ms_currentSPK s) (ms_staleSPK s)
    m next (ms_sessions s) (ms_trust s) (ms_devices s) (ms_remoteID s).

Definition NextPreKeyID (s : MemStore) : result Z * MemStore :=
  let next := u32_succ (ms_nextPreKeyID s) in
  (Ok next, with_preKeys (ms_preKeys s) next s).

Definition PutPreKeys (recs : list PreKeyRecord) (s : MemStore) : result unit * MemStore :=
  (Ok tt, with_preKeys (foldl (λ m r, <[PKR_ID r := r]> m) (ms_preKeys s) recs)
    (ms_nextPreKeyID s) s).

Definition ConsumePreKey (id : Z) (s : MemStore) : result PreKeyRecord * MemStore :=
  match ms_preKeys s !! id with
  | None => (Err (Errorf ("one-time prekey " +:+ pretty id +:+ " not found")), s)
  | Some rec => (Ok rec, with_preKeys (delete id (ms_preKeys s)) (ms_nextPreKeyID s) s)
  end.

Definition with_sessions (m : gmap Device gobytes) (s : MemStore) : MemStore :=
  MkMemStore (ms_identityKey s) (ms_localDevice s) (ms_currentSPK s) (ms_staleSPK s)
    (ms_preKeys s) (ms_nextPreKeyID s) m (ms_trust s) (ms_devices s) (ms_remoteID s).

Definition Session (dev : Device) (s : MemStore) : result (option gobytes) * MemStore :=
  (Ok (ms_sessions s !! dev), s).

Definition PutSession (dev : Device) (data : gobytes) (s : MemStore) :
    result unit * MemStore :=
  (Ok tt, with_sessions (<[dev := data]> (ms_sessions s)) s).

Definition DeleteSession (dev : Device) (s : MemStore) : result unit * MemStore :=
  (Ok tt, with_sessions (delete dev (ms_sessions s)) s).

Definition Trust (identityKey : gobytes) (s : MemStore) : result TrustState * MemStore :=
  (Ok (default TrustUndecided (ms_trust s !! go_string identityKey)), s).

Definition SetTrust (identityKey : gobytes) (state : TrustState) (s : MemStore) :
    result unit * MemStore :=
  (Ok tt, MkMemStore (ms_identityKey s) (ms_localDevice s) (ms_currentSPK s)
    (ms_staleSPK s) (ms_preKeys s) (ms_nextPreKeyID s) (ms_sessions s)
    (<[go_string identityKey := state]> (ms_trust s)) (ms_devices s) (ms_remoteID s)).

Definition Devices (jid : string) (s : MemStore) : result (list DeviceID) * MemStore :=
  (Ok (default [] (ms_devices s !! jid)), s).

Definition SetDevices (jid : string) (devices : list DeviceID) (s : MemStore) :
    result unit * MemStore :=
  (Ok tt, MkMemStore (ms_identityKey s) (ms_localDevice s) (ms_currentSPK s)
    (ms_staleSPK s) (ms_preKeys s) (ms_nextPreKeyID s) (ms_sessions s)
    (ms_trust s) (<[jid := devices]> (ms_devices s)) (ms_remoteID s)).

Definition RemoteIdentityKey (dev : Device) (s : MemStore) :
    result (option gobytes) * MemStore :=
  (Ok (ms_remoteID s !! dev), s).

Definition PutRemoteIdentityKey (dev : Device) (key : gobytes) (s : MemStore) :
    result unit * MemStore :=
  (Ok tt, MkMemStore (ms_identityKey s) (ms_localDevice s) (ms_currentSPK s)
    (ms_staleSPK s) (ms_preKeys s) (ms_nextPreKeyID s) (ms_sessions s)
    (ms_trust s) (ms_devices s) (<[dev := key]> (ms_remoteID s))).
End Store.

Section Memstore.
Context `{GM : GoMapRange}.

(** [var _ omemo.Store = ( *Store)(nil)]: memstore implements the interface. *)
Definition memstore_handle {R : Type} (op : storeE R) : MemStore → R * MemStore :=
  match op with
  | OpIdentityKeyPair => Store.IdentityKeyPair
  | OpSetIdentityKeyPair priv => Store.SetIdentityKeyPair priv
  | OpLocalDevice => Store.LocalDevice
  | OpSetLocalDevice dev => Store.SetLocalDevice dev
  | OpCurrentSignedPreKey => Store.CurrentSignedPreKey
  | OpStaleSignedPreKey => Store.StaleSignedPreKey
  | OpRotateSignedPreKey next => Store.RotateSignedPreKey next
  | OpPreKeyCount => Store.PreKeyCount
  | OpPreKeys => Store.PreKeys
  | OpNextPreKeyID => Store.NextPreKeyID
  | OpPutPreKeys recs => Store.PutPreKeys recs
  | OpConsumePreKey id => Store.ConsumePreKey id
  | OpSession dev => Store.Session dev
  | OpPutSession dev data => Store.PutSession dev data
  | OpDeleteSession dev => Store.DeleteSession dev
  | OpTrust key => Store.Trust key
  | OpSetTrust key st => Store.SetTrust key st
  | OpDevices jid => Store.Devices jid
  | OpSetDevices jid ds => Store.SetDevices jid ds
  | OpRemoteIdentityKey dev => Store.RemoteIdentityKey dev
  | OpPutRemoteIdentityKey dev key => Store.PutRemoteIdentityKey dev key
  end.

#[export] Instance memstore : StoreSpec.Store :=
  {| store := MemStore; handle_store := @memstore_handle |}.

(** The IDs handed out so far are 1, 2, ..., [nextPreKeyID]. *)
Definition issued_upto (n : Z) : gset Z := list_to_set (seqZ 1 n).

Definition memstore_view (s : MemStore) : astore :=
  AStore (ms_identityKey s) (ms_localDevice s) (ms_currentSPK s) (ms_staleSPK s)
    (ms_preKeys s) (issued_upto (ms_nextPreKeyID s)) (ms_sessions s) (ms_trust s)
    (ms_devices s) (ms_remoteID s).

Definition memstore_wf (s : MemStore) : Prop := is_u32 (ms_nextPreKeyID s).

Lemma size_issued_upto n : (0 ≤ n)%Z → Z.of_nat (size (issued_upto n)) = n.
Proof.
  intros Hn. unfold issued_upto.
  rewrite size_list_to_set by apply NoDup_seqZ. rewrite length_seqZ. lia.
Qed.

Lemma elem_of_issued_upto id n : id ∈ issued_upto n ↔ (1 ≤ id ≤ n)%Z.
Proof. unfold issued_upto. rewrite elem_of_list_to_set, elem_of_seqZ. lia. Qed.

Lemma issued_upto_succ n :
  (0 ≤ n)%Z → issued_upto (n + 1) = {[n + 1]}%Z ∪ issued_upto n.
Proof.
  intros Hn. apply set_eq. intros id.
  rewrite elem_of_union, elem_of_singleton, !elem_of_issued_upto. lia.
Qed.

Lemma memstore_NextPreKeyID_spec s :
  memstore_wf s →
  memstore_wf (Store.NextPreKeyID s).2 ∧
  store_spec OpNextPreKeyID (memstore_view s) (Store.NextPreKeyID s).1
    (memstore_view (Store.NextPreKeyID s).2).
Proof.
  intros Hwf. split; [apply u32_range|]. left.
  exists (u32_succ (ms_nextPreKeyID s)). split_and!; [done|apply u32_range| |done].
  intros Hleft. unfold ids_left in Hleft. simpl in Hleft.
  destruct Hwf as [H0 Hmax]. rewrite size_issued_upto in Hleft by done.
  rewrite u32_succ_lt by (unfold is_u32; lia).
  split; [simpl; rewrite elem_of_issued_upto; lia|].
  unfold memstore_view, set_issued. simpl.
  rewrite u32_succ_lt by (unfold is_u32; lia). by rewrite issued_upto_succ.
Qed.

Lemma memstore_ConsumePreKey_spec id s :
  store_spec (OpConsumePreKey id) (memstore_view s) (Store.ConsumePreKey id s).1
    (memstore_view (Store.ConsumePreKey id s).2).
Proof.
  unfold Store.ConsumePreKey. simpl.
  destruct (ms_preKeys s !! id) as [rec|] eqn:Hid; simpl; [left|right].
  - by exists rec.
  - split; [by eexists|done].
Qed.

Lemma memstore_step {R} (op : storeE R) s :
  memstore_wf s →
  memstore_wf (memstore_handle op s).2 ∧
  store_spec op (memstore_view s) (memstore_handle op s).1
    (memstore_view (memstore_handle op s).2).
Proof.
  intros Hwf. destruct op.
  10: by apply memstore_NextPreKeyID_spec.
  11: { split; [|apply memstore_ConsumePreKey_spec].
        simpl. unfold Store.ConsumePreKey. by destruct (ms_preKeys s !! id). }
  9: { split; [done|]. left. eexists. split_and!; [done|apply map_range_perm|done]. }
  all: split; [done|]; left; split; [done|].
  all: try done.
  simpl. unfold memstore_view, rotate_spks, set_spks. simpl.
  by destruct (is_nil _).
Qed.

#[export] Instance memstore_contract : StoreContract memstore :=
  {| view := memstore_view : @store memstore → astore;
     store_wf := memstore_wf;
     store_step := @memstore_step |}.

#[export] Instance memstore_reliable : ReliableStore memstore.
Proof.
  intros R op s _ Hmay. destruct op; try exact I.
  simpl in *. unfold Store.ConsumePreKey.
  by destruct (ms_preKeys s !! id) eqn:?.
Qed.
End Memstore.
