(* ===== verification/Manager.v ===== *)
(** * The protocol state machine: manager.go

    Every function of manager.go, in the source's order.  A function that
    neither locks nor panics is a [prog baseE]; one that takes a device lock
    (or may panic) is a [prog eff].  The part of such a function between
    [lock.Lock()] and the deferred [lock.Unlock()] has a definition of its own
    with the suffix [_locked]. *)
From S2P Require Import Prelude Types Errors StoreSpec Transport Xochimilco Prog.
From S2P Require Import Signal.

Definition DefaultPreKeyCount : Z := 100.
Definition MinPreKeyCount : Z := 25.

Section Manager.
Context `{X : Xochimilco} {T : Transport}.

(** [type Manager struct].  The store and the transport are the two
    interface values every operation acts on (the state in [data]);
    [locksMu] is [LocksMu] and [locks] is in [lockstate]. *)
Record Manager := MkManager {
  m_protocol : Protocol;
  m_identityKey : gobytes;
  m_localDevice : Device;
  m_trustResolver : option TrustResolver }.

(** [type Option func( *Manager)]. *)
Definition Option_ : Type := Manager → Manager.

Definition WithTrustResolver (r : TrustResolver) : Option_ := λ m,
  MkManager (m_protocol m) (m_identityKey m) (m_localDevice m) (Some r).

Definition NewManager (protocol : Protocol) (opts : list Option_) :
    prog baseE (result Manager) :=
  idKey <-? ask OpIdentityKeyPair wrap "load identity key";
  dev <-? ask OpLocalDevice wrap "load local device";
  let m := MkManager protocol idKey dev None in
  pure (Ok (foldl (λ m opt, opt m) m opts)).

(** [recs] of generateOneTimePreKeys after [k] more iterations. *)
Fixpoint generate_loop (k : nat) (recs : list PreKeyRecord) :
    prog baseE (result (list PreKeyRecord)) :=
  match k with
  | O => pure (Ok recs)
  | S k =>
      id <-? ask OpNextPreKeyID wrap "allocate prekey id";
      '(pub, priv) <-? GenerateOneTimePreKey wrap "generate one-time prekey";
      generate_loop k (recs ++ [MkPreKeyRecord id pub priv])
  end.

(** [make([]PreKeyRecord, 0, n)] panics for a negative capacity. *)
Definition generateOneTimePreKeys (n : Z) : prog eff (result unit) :=
  if (n <? 0)%Z then panic "runtime error: makeslice: cap out of range"
  else lift (
    recs <-? generate_loop (Z.to_nat n) [];
    ask (OpPutPreKeys recs)).

(** InitIdentity up to its final call of generateOneTimePreKeys. *)
Definition InitIdentity_keys (jid : string) (deviceID : DeviceID) (protocol : Protocol) :
    prog baseE (result unit) :=
  idKey <-? GenerateIdentityKey (signal_Protocol protocol) wrap "generate identity key";
  _ <-? ask (OpSetIdentityKeyPair idKey) wrap "store identity key";
  _ <-? ask (OpSetLocalDevice (MkDevice jid deviceID)) wrap "store local device";
  '(spkPub, spkPriv, spkSig) <-?
    GenerateSignedPreKey (signal_Protocol protocol) idKey wrap "generate signed prekey";
  _ <-? ask (OpRotateSignedPreKey (MkSignedPreKeyRecord 1 spkPub spkPriv spkSig))
    wrap "store signed prekey";
  pure (Ok tt).

Definition InitIdentity (jid : string) (deviceID : DeviceID) (protocol : Protocol) :
    prog eff (result unit) :=
  _ <-? lift (InitIdentity_keys jid deviceID protocol);
  generateOneTimePreKeys DefaultPreKeyCount.

Definition deviceLock (dev : Device) : prog eff mutex :=
  Lock LocksMu;;
  l ← trigger (ELocksGet dev);
  l ← match l with
      | Some l => mret l
      | None => l ← trigger ENewMutex; trigger (ELocksSet dev l);; mret l
      end;
  Unlock LocksMu;;
  mret l.

(** [lock := m.deviceLock(dev); lock.Lock(); defer lock.Unlock(); body]. *)
Definition with_deviceLock {A} (dev : Device) (body : prog baseE A) : prog eff A :=
  lock ← deviceLock dev;
  Lock lock;;
  r ← lift body;
  Unlock lock;;
  mret r.

Definition LocalDevice (m : Manager) : Device := m_localDevice m.

Definition Manager_Bundle (m : Manager) : prog baseE (result Bundle) :=
  spk <-? ask OpCurrentSignedPreKey wrap "load signed prekey";
  preKeyRecs <-? ask OpPreKeys wrap "load prekeys";
  let preKeys := map (λ r, MkPreKey (PKR_ID r) (PKR_Public r)) preKeyRecs in
  pub <-? pure (IdentityPublicKey (signal_Protocol (m_protocol m)) (m_identityKey m))
    wrap "derive identity public key";
  pure (Ok (MkBundle (m_localDevice m) pub
    (MkSignedPreKey (SPKR_ID spk) (SPKR_Public spk) (SPKR_Signature spk)) preKeys)).

Definition Manager_PublishBundle (m : Manager) : prog baseE (result unit) :=
  bundle <-? Manager_Bundle m;
  net (OpPublishBundle bundle).

Definition nextSignedPreKeyID (m : Manager) : prog baseE (result Z) :=
  cur <-? ask OpCurrentSignedPreKey wrap "load signed prekey";
  pure (Ok (u32_succ (SPKR_ID cur))).

Definition Manager_RotateSignedPreKey (m : Manager) : prog baseE (result unit) :=
  nextID <-? nextSignedPreKeyID m;
  '(spkPub, spkPriv, spkSig) <-?
    GenerateSignedPreKey (signal_Protocol (m_protocol m)) (m_identityKey m)
    wrap "generate signed prekey";
  ask (OpRotateSignedPreKey (MkSignedPreKeyRecord nextID spkPub spkPriv spkSig)).

Definition GenerateOneTimePreKeys (m : Manager) (n : Z) : prog eff (result unit) :=
  generateOneTimePreKeys n.

Definition NeedsMorePreKeys (m : Manager) : prog baseE (result bool) :=
  count <-? ask OpPreKeyCount wrap "count prekeys";
  pure (Ok (count <=? MinPreKeyCount)%Z).

Definition SyncDevices (jid : string) : prog baseE (result unit) :=
  list <-? net (OpFetchDeviceList jid) wrap ("fetch device list for " +:+ jid);
  ask (OpSetDevices jid (DL_Devices list)).

Definition devicesFor (jid : string) : prog baseE (result (list DeviceID)) :=
  devices <-? ask (OpDevices jid) wrap ("load devices for " +:+ jid);
  if decide (0 < length devices) then pure (Ok devices)
  else
    _ <-? SyncDevices jid;
    ask (OpDevices jid).

Definition ResetSession_locked (dev : Device) : prog baseE (result unit) :=
  _ <-? ask (OpDeleteSession dev)
    wrap ("reset session for " +:+ JID dev +:+ " device " +:+ pretty (ID dev : Z));
  pure (Ok tt).

Definition ResetSession (m : Manager) (dev : Device) : prog eff (result unit) :=
  with_deviceLock dev (ResetSession_locked dev).

Definition recipientDevices (m : Manager) (jid : string) :
    prog baseE (result (list Device)) :=
  deviceIDs <-? devicesFor jid;
  let devices := map (MkDevice jid) deviceIDs in
  if decide (jid = JID (m_localDevice m)) then pure (Ok devices)
  else
    r ← devicesFor (JID (m_localDevice m));
    match r with
    | Err _ => pure (Ok devices)
    | Ok ownIDs => pure (Ok (devices ++ map (MkDevice (JID (m_localDevice m))) ownIDs))
    end.

Definition checkTrust (m : Manager) (dev : Device) (identityKey : gobytes) :
    prog baseE (result unit) :=
  state <-? ask (OpTrust identityKey) wrap "load trust state";
  if (state =? TrustTrusted)%Z then pure (Ok tt)
  else if (state =? TrustUntrusted)%Z then pure (Err (Sentinel ErrBlockedDevice))
  else
    match m_trustResolver m with
    | None => pure (Err (Sentinel ErrUntrustedDevice))
    | Some resolver =>
        r ← trigger (EResolve resolver dev identityKey);
        match r with
        | Some err => pure (Err err)
        | None => ask (OpSetTrust identityKey TrustTrusted)
        end
    end.

Definition getOrCreateActiveSession (m : Manager) (dev : Device) :
    prog baseE (result (Session * option KeyExchange)) :=
  stored <-? ask (OpSession dev) wrap "load session";
  match stored with
  | Some data =>
      sess <-? pure (LoadSession (signal_Protocol (m_protocol m)) data);
      pure (Ok (sess, None))
  | None =>
      bundle <-? net (OpFetchBundle dev) wrap "fetch bundle";
      match B_PreKeys bundle with
      | [] => pure (Err (Errorf "peer bundle has no one-time prekeys available"))
      | preKey :: _ =>
          let spk := B_SignedPreKey bundle in
          '(sess, ekPub) <-?
            NewActiveSession (signal_Protocol (m_protocol m)) (m_identityKey m)
              (B_IdentityKey bundle) (SPK_Public spk) (SPK_Signature spk)
              (PK_Public preKey) (SPK_ID spk) (PK_ID preKey) (ID (m_localDevice m))
            wrap "X3DH";
          _ <-? ask (OpPutRemoteIdentityKey dev (B_IdentityKey bundle))
            wrap "store identity key";
          ownPub <-?
            pure (IdentityPublicKey (signal_Protocol (m_protocol m)) (m_identityKey m))
            wrap "derive identity public key";
          pure (Ok (sess,
            Some (MkKeyExchange ownPub ekPub (SPK_ID spk) (PK_ID preKey))))
      end
  end.

Definition putSession (dev : Device) (sess : Session) : prog baseE (result unit) :=
  data <-? pure (Session_Marshal sess) wrap "marshal session";
  _ <-? ask (OpPutSession dev data) wrap "store session";
  pure (Ok tt).

Definition encryptForDevice_locked (m : Manager) (dev : Device) (keyMaterial : gobytes) :
    prog baseE (result RecipientKey) :=
  '(sess, kx) <-? getOrCreateActiveSession m dev wrap "establish session";
  known <-? ask (OpRemoteIdentityKey dev) wrap "load identity key";
  match known with
  | None => pure (Err (Errorf "no known identity key for device"))
  | Some idKey =>
      _ <-? checkTrust m dev idKey;
      '(r, sess) ← Session_Encrypt sess keyMaterial;
      data <-? pure r wrap "ratchet encrypt";
      _ <-? putSession dev sess;
      pure (Ok (MkRecipientKey (ID dev) data kx))
  end.

Definition encryptForDevice (m : Manager) (dev : Device) (keyMaterial : gobytes) :
    prog eff (result RecipientKey) :=
  with_deviceLock dev (encryptForDevice_locked m dev keyMaterial).

(** The loop of encrypt over the remaining [devices], with [msg.Keys] and
    [deviceErrs] so far. *)
Fixpoint encrypt_loop (m : Manager) (keyMaterial : gobytes) (devices : list Device)
    (keys : list RecipientKey) (deviceErrs : list DeviceError) :
    prog eff (list RecipientKey * list DeviceError) :=
  match devices with
  | [] => mret (keys, deviceErrs)
  | dev :: devices =>
      if decide (dev = m_localDevice m) then
        encrypt_loop m keyMaterial devices keys deviceErrs
      else
        r ← encryptForDevice m dev keyMaterial;
        match r with
        | Err err =>
            encrypt_loop m keyMaterial devices keys (deviceErrs ++ [MkDeviceError dev err])
        | Ok key => encrypt_loop m keyMaterial devices (keys ++ [key]) deviceErrs
        end
  end.

(** The three results [( *EncryptedMessage, []DeviceError, error)]. *)
Definition encrypt_results : Type :=
  option EncryptedMessage * list DeviceError * option error.

Definition encrypt (m : Manager) (jid : string) (plaintext : gobytes) :
    prog eff encrypt_results :=
  r ← lift (recipientDevices m jid);
  match r with
  | Err err => mret (None, [], Some err)
  | Ok devices =>
      r ← lift (EncryptPayload (signal_Protocol (m_protocol m)) plaintext);
      match r with
      | Err err => mret (None, [], Some (Wrapf "encrypt payload" err))
      | Ok (keyMaterial, iv, ciphertext) =>
          let '(ciphertext, iv) :=
            if is_nil plaintext then (None, None) else (ciphertext, iv) in
          '(keys, deviceErrs) ← encrypt_loop m keyMaterial devices [] [];
          if decide (length keys = 0) then
            mret (None, deviceErrs, Some (Sentinel ErrNoRecipients))
          else
            mret (Some (MkEncryptedMessage (m_localDevice m) keys ciphertext iv),
                  deviceErrs, None)
      end
  end.

Definition EncryptMessage (m : Manager) (jid : string) (plaintext : gobytes) :
    prog eff encrypt_results := encrypt m jid plaintext.

Definition EncryptKeyTransport (m : Manager) (jid : string) : prog eff encrypt_results :=
  encrypt m jid None.

Definition signedPreKeyByID (id : Z) : prog baseE (result SignedPreKeyRecord) :=
  cur <-? ask OpCurrentSignedPreKey wrap "load signed prekey";
  if decide (SPKR_ID cur = id) then pure (Ok cur)
  else
    stale <-? ask OpStaleSignedPreKey wrap "load stale signed prekey";
    match stale with
    | Some stale =>
        if decide (SPKR_ID stale = id) then pure (Ok stale)
        else pure (Err (Errorf ("unknown signed prekey id " +:+ pretty id)))
    | None => pure (Err (Errorf ("unknown signed prekey id " +:+ pretty id)))
    end.

Definition consume_prefix (id : Z) : string := "consume one-time prekey " +:+ pretty id.

Definition getOrCreateSessionForIncoming (m : Manager) (sender : Device)
    (key : RecipientKey) : prog baseE (result (Session * gobytes)) :=
  match RK_KeyExchange key with
  | None =>
      stored <-? ask (OpSession sender) wrap "load session";
      match stored with
      | None => pure (Err (Sentinel ErrUnknownSession))
      | Some data =>
          sess <-? pure (LoadSession (signal_Protocol (m_protocol m)) data);
          pure (Ok (sess, RK_Data key))
      end
  | Some kx =>
      if (m_protocol m =? ProtocolV1)%Z then
        '(signedPreKeyID, preKeyID) <-? pure (PeekLegacyPreKeyIDs (RK_Data key))
          wrap "parsing legacy prekey message";
        spk <-? signedPreKeyByID signedPreKeyID;
        preKey <-? ask (OpConsumePreKey preKeyID) wrap (consume_prefix preKeyID);
        '(sess, peerIdentityKey, innerData) <-?
          NewPassiveSessionFromPreKeyBlob (m_identityKey m) (SPKR_Public spk)
            (SPKR_Private spk) (PKR_Private preKey) (RK_Data key)
          wrap "X3DH";
        _ <-? ask (OpPutRemoteIdentityKey sender peerIdentityKey)
          wrap "store identity key";
        pure (Ok (sess, innerData))
      else
        spk <-? signedPreKeyByID (KX_SignedPreKeyID kx);
        preKey <-? ask (OpConsumePreKey (KX_PreKeyID kx))
          wrap (consume_prefix (KX_PreKeyID kx));
        sess <-?
          NewPassiveSession (m_identityKey m) (KX_IdentityKey kx) (SPKR_Public spk)
            (SPKR_Private spk) (PKR_Private preKey) (KX_EphemeralKey kx)
          wrap "X3DH";
        _ <-? ask (OpPutRemoteIdentityKey sender (KX_IdentityKey kx))
          wrap "store identity key";
        pure (Ok (sess, RK_Data key))
  end.

(** The loop over [msg.Keys]: the first key for the local device. *)
Fixpoint own_key (id : DeviceID) (keys : list RecipientKey) : option RecipientKey :=
  match keys with
  | [] => None
  | key :: keys => if decide (RK_Device key = id) then Some key else own_key id keys
  end.

Definition DecryptMessage_locked (m : Manager) (msg : EncryptedMessage)
    (key : RecipientKey) : prog baseE (result gobytes) :=
  '(sess, dataToDecrypt) <-? getOrCreateSessionForIncoming m (Sender msg) key
    wrap "establish session";
  '(r, sess) ← Session_Decrypt sess dataToDecrypt;
  keyMaterial <-? pure r wrap "ratchet decrypt";
  _ <-? putSession (Sender msg) sess;
  if is_nil (Payload msg) then pure (Ok None)
  else
    plaintext <-?
      pure (DecryptPayload (signal_Protocol (m_protocol m)) keyMaterial (IV msg)
        (Payload msg))
      wrap "decrypt payload";
    pure (Ok plaintext).

Definition DecryptMessage (m : Manager) (msg : EncryptedMessage) :
    prog eff (result gobytes) :=
  match own_key (ID (m_localDevice m)) (Keys msg) with
  | None => mret (Err (Sentinel ErrOwnDeviceKeyMissing))
  | Some key => with_deviceLock (Sender msg) (DecryptMessage_locked m msg key)
  end.
End Manager.
