(* ===== verification/ProgFacts.v ===== *)
(** * Reasoning about programs

    [wp p Q d]: the lock-free program [p] started in [d] ends (it always does)
    with an answer and a state that satisfy [Q].  [wpr p Q w]: the program [p]
    run alone from the world [w] neither blocks nor panics, and ends in [Q].
    The rules are equivalences, gathered in the tactics [wp_step] and [wp_steps]
    that execute a program symbolically. *)
From S2P Require Import Prelude Types Errors StoreSpec Transport Xochimilco Prog.

Section Base.
Context `{GC : GoCrypto} {T : Transport} {ST : Store}.
Implicit Types d : data.

Definition wp {A} (p : prog baseE A) (Q : A → data → Prop) (d : data) : Prop :=
  Q (eval p d).1 (eval p d).2.

Lemma eval_bind {A B} (p : prog baseE A) (f : A → prog baseE B) d :
  eval (p ≫= f) d = eval (f (eval p d).1) (eval p d).2.
Proof.
  revert d. induction p as [a|R e k IH]; intros d; [done|].
  simpl. destruct (handle_base e d) as [r d']. apply IH.
Qed.

Lemma eval_pure {A} (r : A) d : eval (pure r) d = (r, d).
Proof. done. Qed.

Lemma eval_try {A B} f (p : prog baseE (result A)) (k : A → prog baseE (result B)) d :
  eval (try f p k) d =
  match (eval p d).1 with
  | Ok a => eval (k a) (eval p d).2
  | Err e => (Err (f e), (eval p d).2)
  end.
Proof. unfold try. rewrite eval_bind. by destruct (eval p d).1. Qed.

Lemma wp_eval {A} (p : prog baseE A) (P : A → Prop) d :
  wp p (λ a _, P a) d → P (eval p d).1.
Proof. done. Qed.

Lemma wp_answer {A} (p : prog baseE A) d : wp p (λ a _, a = (eval p d).1) d.
Proof. done. Qed.

Lemma wp_ret {A} (a : A) Q d : wp (mret a) Q d ↔ Q a d.
Proof. done. Qed.

Lemma wp_pure {A} (r : A) Q d : wp (pure r) Q d ↔ Q r d.
Proof. done. Qed.

Lemma wp_bind {A B} (p : prog baseE A) (f : A → prog baseE B) Q d :
  wp (p ≫= f) Q d ↔ wp p (λ a, wp (f a) Q) d.
Proof. unfold wp. by rewrite eval_bind. Qed.

Lemma wp_mono {A} (p : prog baseE A) (P Q : A → data → Prop) d :
  wp p P d → (∀ a d', P a d' → Q a d') → wp p Q d.
Proof. intros HP HPQ. apply HPQ, HP. Qed.

Lemma wp_try {A B} f (p : prog baseE (result A)) (k : A → prog baseE (result B)) Q d :
  wp (try f p k) Q d ↔
  wp p (λ r d', match r with Ok a => wp (k a) Q d' | Err e => Q (Err (f e)) d' end) d.
Proof.
  unfold try. rewrite wp_bind. unfold wp.
  by destruct ((eval p d).1).
Qed.

Lemma wp_ask {R} (op : storeE R) Q d :
  wp (ask op) Q d ↔
  Q (handle_store op (d_store d)).1 (with_store (handle_store op (d_store d)).2 d).
Proof. unfold wp. simpl. by destruct (handle_store op (d_store d)). Qed.

Lemma wp_net {R} (op : transportE R) Q d :
  wp (net op) Q d ↔
  Q (handle_transport op (d_env d)).1 (with_env (handle_transport op (d_env d)).2 d).
Proof. unfold wp. simpl. by destruct (handle_transport op (d_env d)). Qed.

Lemma wp_crypto {R} (f : rng → R * rng) Q d :
  wp (crypto f) Q d ↔ Q (f (d_rng d)).1 (with_rng (f (d_rng d)).2 d).
Proof. unfold wp. simpl. by destruct (f (d_rng d)). Qed.

Lemma wp_resolve (f : TrustResolver) dev key Q d :
  wp (trigger (EResolve f dev key)) Q d ↔
  Q (f dev key (d_env d)).1 (with_env (f dev key (d_env d)).2 d).
Proof. unfold wp. simpl. by destruct (f dev key (d_env d)). Qed.

#[global] Instance wp_proper {A} (p : prog baseE A) :
  Proper (pointwise_relation A (pointwise_relation data iff) ==> eq ==> iff) (wp p).
Proof. intros P Q HPQ d ? <-. apply HPQ. Qed.

(** Programs that only call the cryptographic backend change the state of the
    random reader and nothing else; found by instance search. *)
Class CryptoOnly {A} (p : prog baseE A) : Prop :=
  crypto_only d : ∃ g, (eval p d).2 = with_rng g d.

Lemma wp_crypto_only {A} (p : prog baseE A) `{!CryptoOnly p} (Q : A → data → Prop) d :
  (∀ a g, Q a (with_rng g d)) → wp p Q d.
Proof. intros HQ. unfold wp. destruct (crypto_only d) as [g ->]. apply HQ. Qed.

#[global] Instance crypto_only_ret {A} (a : A) : CryptoOnly (mret a).
Proof. intros []. by eexists. Qed.
#[global] Instance crypto_only_pure {A} (a : A) : CryptoOnly (pure a).
Proof. apply crypto_only_ret. Qed.
#[global] Instance crypto_only_crypto {R} (f : rng → R * rng) : CryptoOnly (crypto f).
Proof. intros d. exists (f (d_rng d)).2. simpl. by destruct (f (d_rng d)). Qed.
#[global] Instance crypto_only_bind {A B} (p : prog baseE A) (f : A → prog baseE B) :
  CryptoOnly p → (∀ a, CryptoOnly (f a)) → CryptoOnly (p ≫= f).
Proof.
  intros Hp Hf d. rewrite eval_bind. destruct (Hp d) as [g ->].
  destruct (Hf (eval p d).1 (with_rng g d)) as [g' ->]. by exists g'.
Qed.
#[global] Instance crypto_only_try {A B} f (p : prog baseE (result A))
    (k : A → prog baseE (result B)) :
  CryptoOnly p → (∀ a, CryptoOnly (k a)) → CryptoOnly (try f p k).
Proof. intros Hp Hk. apply crypto_only_bind; [done|]. intros [a|e]; apply _. Qed.

Lemma wp_and {A} (p : prog baseE A) (P Q : A → data → Prop) d :
  wp p P d → wp p Q d → wp p (λ a d', P a d' ∧ Q a d') d.
Proof. by split. Qed.
End Base.

Section Run.
Context `{GC : GoCrypto} {T : Transport} {ST : Store}.
Implicit Types w : world.

Definition wpr {A} (p : prog eff A) (Q : A → world → Prop) (w : world) : Prop :=
  match run p w with Done a w' => Q a w' | _ => False end.

Lemma run_bind {A B} (p : prog eff A) (f : A → prog eff B) w :
  run (p ≫= f) w =
  match run p w with
  | Done a w' => run (f a) w'
  | Blocked => Blocked
  | Panicked msg => Panicked msg
  end.
Proof.
  revert w. induction p as [a|R e k IH]; intros w; [done|].
  simpl. destruct (handle e w); [apply IH|done|done].
Qed.

Lemma run_lift {A} (p : prog baseE A) w :
  run (lift p) w =
  Done (eval p (w_data w)).1 (MkWorld (eval p (w_data w)).2 (w_lk w)).
Proof.
  revert w. induction p as [a|R e k IH]; intros [d lk]; [done|].
  simpl. destruct (handle_base e d) as [r d']. apply IH.
Qed.

Lemma run_Lock {A} m (f : unit → prog eff A) w :
  m ∉ held (w_lk w) →
  run (Lock m ≫= f) w = run (f tt) (with_held ({[m]} ∪ held (w_lk w)) w).
Proof. intros Hm. rewrite run_bind. simpl. by rewrite decide_False. Qed.

Lemma run_Unlock {A} m (f : unit → prog eff A) w :
  m ∈ held (w_lk w) →
  run (Unlock m ≫= f) w = run (f tt) (with_held (held (w_lk w) ∖ {[m]}) w).
Proof. intros Hm. rewrite run_bind. simpl. by rewrite decide_True. Qed.

Lemma wpr_ret {A} (a : A) Q w : wpr (mret a) Q w ↔ Q a w.
Proof. done. Qed.

Lemma wpr_bind {A B} (p : prog eff A) (f : A → prog eff B) Q w :
  wpr (p ≫= f) Q w ↔ wpr p (λ a, wpr (f a) Q) w.
Proof. unfold wpr. rewrite run_bind. by destruct (run p w). Qed.

Lemma wpr_mono {A} (p : prog eff A) (P Q : A → world → Prop) w :
  wpr p P w → (∀ a w', P a w' → Q a w') → wpr p Q w.
Proof. unfold wpr. destruct (run p w); [|done..]. intros HP HPQ. by apply HPQ. Qed.

Lemma wpr_and {A} (p : prog eff A) (P Q : A → world → Prop) w :
  wpr p P w → wpr p Q w → wpr p (λ a w', P a w' ∧ Q a w') w.
Proof. unfold wpr. by destruct (run p w). Qed.

(** One run meets every postcondition it meets one at a time. *)
Lemma wpr_Forall {A B} (p : prog eff A) (xs : list B) (Q : B → A → world → Prop) w :
  xs ≠ [] → Forall (λ x, wpr p (Q x) w) xs → wpr p (λ a w', Forall (λ x, Q x a w') xs) w.
Proof.
  intros Hne Hall. destruct xs as [|x xs]; [done|]. pose proof (Forall_inv Hall) as Hx.
  unfold wpr in *. by destruct (run p w).
Qed.

(** A condition on the end of the run may be assumed at its start. *)
Lemma wpr_assuming {A} (p : prog eff A) (R C P : A → world → Prop) w :
  wpr p R w → (∀ a w', R a w' → C a w' → wpr p P w) →
  wpr p (λ a w', C a w' → P a w') w.
Proof. unfold wpr. destruct (run p w); [|done..]. intros HR HP HC. by eapply HP. Qed.

Lemma wpr_lift {A} (p : prog baseE A) Q w :
  wpr (lift p) Q w ↔ wp p (λ a d, Q a (MkWorld d (w_lk w))) (w_data w).
Proof. unfold wpr. by rewrite run_lift. Qed.

End Run.

(* The rules, not the definitions, drive a proof. *)
#[global] Arguments wp : simpl never.
#[global] Arguments wpr : simpl never.
#[global] Arguments try : simpl never.
#[global] Arguments trigger : simpl never.
#[global] Arguments pure : simpl never.
#[global] Arguments ask : simpl never.
#[global] Arguments net : simpl never.
#[global] Arguments crypto : simpl never.
#[global] Arguments prog_bind : simpl never.
#[global] Arguments mbind : simpl never.

(** One symbolic step on a goal [wp p Q d]: the rule of [p]'s head. *)
Ltac wp_step :=
  lazymatch goal with
  | |- wp (mret _) _ _ => apply wp_ret
  | |- wp (pure _) _ _ => apply wp_pure
  | |- wp (try _ _ _) _ _ => apply wp_try
  | |- wp (_ ≫= _) _ _ => apply wp_bind
  | |- wp (ask _) _ _ => apply wp_ask
  | |- wp (net _) _ _ => apply wp_net
  | |- wp (crypto _) _ _ => apply wp_crypto
  | |- wp (trigger (EResolve _ _ _)) _ _ => apply wp_resolve
  | |- wp (match ?x with _ => _ end) _ _ => destruct x eqn:?
  end; simpl.

(** Answers of calls are split into their [Ok] and [Err] cases on the way. *)
Ltac wp_steps :=
  repeat (wp_step ||
    match goal with
    | |- match ?x with Ok _ => _ | Err _ => _ end => destruct x eqn:?; simpl
    | |- match ?x with (_, _) => _ end => destruct x eqn:?; simpl
    end).

(** Turns a goal about the answer of a program into a [wp] goal. *)
Ltac eval_to_wp :=
  match goal with
  | |- context [(eval ?p ?d).1] => pattern (eval p d).1; apply wp_eval
  end.
