(* ===== verification/StoreFacts.v ===== *)
(** * Reasoning against the store interface

    Rules that execute a store call using only [StoreContract] (any outcome the
    contract allows) or also [ReliableStore] (the successful outcome), so that
    the theorems about the Manager hold for every implementation. *)
From S2P Require Import Prelude Types Errors StoreSpec Transport Xochimilco Prog.
From S2P Require Import ProgFacts.

Section Facts.
Context `{GC : GoCrypto} {T : Transport} {ST : Store} {SC : StoreContract ST}.
Implicit Types d : data.

(** The abstract store of a state, and its well-formedness. *)
Definition av (d : data) : astore := view (d_store d).
Definition good (d : data) : Prop := store_wf (d_store d).

(** [d'] differs from [d] in the store only. *)
Definition store_only (d d' : data) : Prop := d_env d' = d_env d ∧ d_rng d' = d_rng d.

#[global] Instance store_only_preorder : PreOrder store_only.
Proof.
  split; [by split|]. intros d1 d2 d3 [H1 H2] [H3 H4].
  split; congruence.
Qed.

Lemma av_with_env v d : av (with_env v d) = av d.
Proof. done. Qed.
Lemma av_with_rng g d : av (with_rng g d) = av d.
Proof. done. Qed.
Lemma wp_ask_spec {R} (op : storeE R) Q d :
  good d →
  (∀ r d', good d' → store_only d d' → store_spec op (av d) r (av d') → Q r d') →
  wp (ask op) Q d.
Proof.
  intros Hg HQ. apply wp_ask. destruct (store_step op (d_store d) Hg) as [Hwf Hs].
  by apply HQ.
Qed.

(** Calls that read, for any outcome. *)
Lemma wp_ask_read {A} (op : storeE (result A)) (v : A) Q d :
  store_spec op (av d) = reads (av d) v →
  good d →
  (∀ d', good d' → store_only d d' → av d' = av d → Q (Ok v) d') →
  (∀ e d', good d' → store_only d d' → av d' = av d → Q (Err e) d') →
  wp (ask op) Q d.
Proof.
  intros Hop Hg Hok Herr. apply wp_ask_spec; [done|]. intros r d' Hg' Hso Hs.
  rewrite Hop in Hs. destruct Hs as [[-> Hav]|[[e ->] Hav]]; eauto.
Qed.

(** Calls that write, for any outcome. *)
Lemma wp_ask_write (op : storeE (result unit)) a2 Q d :
  store_spec op (av d) = writes (av d) a2 →
  good d →
  (∀ d', good d' → store_only d d' → av d' = a2 → Q (Ok tt) d') →
  (∀ e d', good d' → store_only d d' → av d' = av d → Q (Err e) d') →
  wp (ask op) Q d.
Proof.
  intros Hop Hg Hok Herr. apply wp_ask_spec; [done|]. intros r d' Hg' Hso Hs.
  rewrite Hop in Hs. destruct Hs as [[-> Hav]|[[e ->] Hav]]; eauto.
Qed.

Lemma wp_ask_ok {R} (op : storeE R) Q d {RS : ReliableStore ST} :
  good d → ¬ may_fail op (av d) →
  (∀ r d', good d' → store_only d d' → store_spec op (av d) r (av d') →
    succeeded op r → Q r d') →
  wp (ask op) Q d.
Proof.
  intros Hg Hmay HQ. apply wp_ask. destruct (store_step op (d_store d) Hg) as [Hwf Hs].
  apply HQ; [done|by split|done|]. by apply store_succeeds.
Qed.

(** On a reliable store a read or write simply happens. *)
Lemma wp_ask_read_ok {RS : ReliableStore ST} {A} (op : storeE (result A)) (v : A) Q d :
  store_spec op (av d) = reads (av d) v →
  succeeded op = (λ r, Is_true (is_ok r)) → ¬ may_fail op (av d) →
  good d →
  (∀ d', good d' → store_only d d' → av d' = av d → Q (Ok v) d') →
  wp (ask op) Q d.
Proof.
  intros Hop Hsuc Hmay Hg Hok. apply wp_ask_ok; [done..|]. intros r d' Hg' Hso Hs Hr.
  rewrite Hop in Hs. rewrite Hsuc in Hr.
  destruct Hs as [[-> Hav]|[[e ->] Hav]]; [eauto|done].
Qed.

Lemma wp_ask_write_ok {RS : ReliableStore ST} (op : storeE (result unit)) a2 Q d :
  store_spec op (av d) = writes (av d) a2 →
  succeeded op = (λ r, Is_true (is_ok r)) → ¬ may_fail op (av d) →
  good d →
  (∀ d', good d' → store_only d d' → av d' = a2 → Q (Ok tt) d') →
  wp (ask op) Q d.
Proof.
  intros Hop Hsuc Hmay Hg Hok. apply wp_ask_ok; [done..|]. intros r d' Hg' Hso Hs Hr.
  rewrite Hop in Hs. rewrite Hsuc in Hr.
  destruct Hs as [[-> Hav]|[[e ->] Hav]]; [eauto|done].
Qed.
End Facts.

(** Runs the store call at the head of the goal, with both outcomes of the
    contract as goals ([Hav] relates the views). *)
Ltac intro_ok :=
  let d' := fresh "d" in let Hg := fresh "Hg" in
  let Hso := fresh "Hso" in let Hav := fresh "Hav" in
  intros d' Hg Hso Hav; simpl.
Ltac intro_err := let e := fresh "e" in intros e; intro_ok.
Ltac solve_good := assumption.
Ltac read_step := eapply wp_ask_read; [reflexivity|solve_good|intro_ok|intro_err].
Ltac write_step := eapply wp_ask_write; [reflexivity|solve_good|intro_ok|intro_err].

(** The same on a reliable store: one goal. *)
Ltac not_may_fail := by intros [].
Ltac read_ok :=
  eapply wp_ask_read_ok; [reflexivity|reflexivity|not_may_fail|solve_good|intro_ok].
Ltac write_ok :=
  eapply wp_ask_write_ok; [reflexivity|reflexivity|not_may_fail|solve_good|intro_ok].
