(* ===== verification/SignalFacts.v ===== *)
(** * Theorems about package signal

    Identity keys have the size their protocol demands and always yield a
    public key; sessions have exactly the ratchet of their protocol; the
    pending prekey state is used by the first [Encrypt] only; serializing and
    loading a session restores it. *)
From S2P Require Import Prelude Types Errors StoreSpec Transport Xochimilco Prog.
From S2P Require Import ProgFacts Signal.

Section SignalFacts.
Context `{X : Xochimilco} {T : Transport} {ST : Store}.
Implicit Types (d : data) (s : Session) (p : Protocol).

Ltac crypto_only := intros; unfold GenerateIdentityKey, GenerateSignedPreKey,
  GenerateOneTimePreKey, NewActiveSession, NewPassiveSession,
  NewPassiveSessionFromPreKeyBlob, Session_Encrypt, Session_Decrypt, EncryptPayload;
  repeat lazymatch goal with
  | |- CryptoOnly (match _ with _ => _ end) => case_match
  | |- CryptoOnly (try _ _ _) => apply crypto_only_try; [|intros]
  | |- CryptoOnly (_ ≫= _) => apply crypto_only_bind; [|intros]
  | |- CryptoOnly _ => apply _
  end.

#[global] Instance GenerateIdentityKey_crypto p : CryptoOnly (GenerateIdentityKey p).
Proof. crypto_only. Qed.
#[global] Instance GenerateSignedPreKey_crypto p k : CryptoOnly (GenerateSignedPreKey p k).
Proof. crypto_only. Qed.
#[global] Instance GenerateOneTimePreKey_crypto : CryptoOnly GenerateOneTimePreKey.
Proof. crypto_only. Qed.
#[global] Instance NewActiveSession_crypto p k1 k2 k3 k4 k5 i1 i2 i3 :
  CryptoOnly (NewActiveSession p k1 k2 k3 k4 k5 i1 i2 i3).
Proof. crypto_only. Qed.
#[global] Instance NewPassiveSession_crypto k1 k2 k3 k4 k5 k6 :
  CryptoOnly (NewPassiveSession k1 k2 k3 k4 k5 k6).
Proof. crypto_only. Qed.
#[global] Instance NewPassiveSessionFromPreKeyBlob_crypto k1 k2 k3 k4 k5 :
  CryptoOnly (NewPassiveSessionFromPreKeyBlob k1 k2 k3 k4 k5).
Proof. crypto_only. Qed.
#[global] Instance Session_Encrypt_crypto s k : CryptoOnly (Session_Encrypt s k).
Proof. crypto_only. Qed.
#[global] Instance Session_Decrypt_crypto s k : CryptoOnly (Session_Decrypt s k).
Proof. crypto_only. Qed.
#[global] Instance EncryptPayload_crypto p k : CryptoOnly (EncryptPayload p k).
Proof. crypto_only. Qed.

(** ** Identity keys *)

Lemma is_V1_true p : is_V1 p = true → p = ProtocolV1.
Proof. apply Z.eqb_eq. Qed.

(** The sizes IdentityStore documents: a 32-byte scalar for ProtocolV1, a
    64-byte seed and public key otherwise. *)
Definition identity_key_size (p : Protocol) : nat := if is_V1 p then 32 else 64.

(** A usable identity key: its size is right and its public half is 32 bytes. *)
Definition usable_identity (p : Protocol) (k : gobytes) : Prop :=
  go_len k = identity_key_size p ∧
  ∃ pub, IdentityPublicKey p k = Ok pub ∧ go_len pub = 32.

Lemma x25519_key_usable p key {GL : GoCryptoLaws GC} :
  is_V1 p = true → length key = 32 → usable_identity p (Some key).
Proof.
  intros Hp Hlen. unfold usable_identity, identity_key_size, IdentityPublicKey,
    x25519_NewPrivateKey, go_len. rewrite Hp. simpl. rewrite decide_True by done.
  split; [done|]. eexists. split; [done|]. apply x25519_base_length.
Qed.

Lemma ed25519_key_usable p seed {GL : GoCryptoLaws GC} :
  is_V1 p = false → length seed = 32 →
  usable_identity p (Some (seed ++ ed25519_public seed)).
Proof.
  intros Hp Hlen. unfold usable_identity, identity_key_size, IdentityPublicKey, go_len.
  rewrite Hp. simpl. rewrite length_app, Hlen, ed25519_public_length. split; [done|].
  eexists. split; [done|]. simpl.
  by rewrite length_drop, length_app, Hlen, ed25519_public_length.
Qed.

Lemma GenerateIdentityKey_usable_aux {GL : GoCryptoLaws GC} p d :
  wp (GenerateIdentityKey p) (λ r _, ∀ k, r = Ok k → usable_identity p k) d.
Proof.
  unfold GenerateIdentityKey. destruct (is_V1 p) eqn:Hp; apply wp_crypto;
    [unfold x25519_GenerateKey|unfold ed25519_GenerateKey].
  all: destruct (rand_bytes 32 (d_rng d)) as [[key|e] g] eqn:Hr; simpl; [|done].
  all: assert (length key = 32) by (apply (rand_bytes_length 32 (d_rng d)); by rewrite Hr).
  - unfold x25519_NewPrivateKey, go_len. simpl. rewrite decide_True by done.
    intros k [= <-]. by apply x25519_key_usable.
  - intros k [= <-]. by apply ed25519_key_usable.
Qed.

(** A wrong size is reported, not truncated: V2 demands 64 bytes. *)
Lemma IdentityPublicKey_bad_size p k :
  go_len k ≠ identity_key_size p → ∃ e, IdentityPublicKey p k = Err e.
Proof.
  unfold identity_key_size, IdentityPublicKey, x25519_NewPrivateKey. intros Hk.
  destruct (is_V1 p); [rewrite decide_False by done|rewrite decide_True by done];
    by eexists.
Qed.

(** [IdentityPublicKey] succeeds exactly on keys of the protocol's size
    (64 bytes, or 32 for ProtocolV1), with a public key of 32 bytes; what
    [GenerateIdentityKey] returns has that size. *)
Theorem IdentityPublicKey_by_size {GL : GoCryptoLaws GC} p k d :
  (is_ok (IdentityPublicKey p k) ↔ go_len k = identity_key_size p) ∧
  (∀ pub, IdentityPublicKey p k = Ok pub → go_len pub = 32) ∧
  wp (GenerateIdentityKey p) (λ r _, ∀ k, r = Ok k → is_ok (IdentityPublicKey p k)) d.
Proof.
  assert (∀ k, is_ok (IdentityPublicKey p k) ↔ go_len k = identity_key_size p) as Hiff.
  { clear k. intros k. split.
    - intros Hok. destruct (decide (go_len k = identity_key_size p)) as [|Hne]; [done|].
      destruct (IdentityPublicKey_bad_size p k Hne) as [e He]. by rewrite He in Hok.
    - unfold identity_key_size, IdentityPublicKey, x25519_NewPrivateKey. intros Hk.
      destruct (is_V1 p); [by rewrite decide_True|].
      by rewrite decide_False by (intros Hne; by apply Hne). }
  split_and!; [apply Hiff| |].
  - intros pub Hpub. assert (go_len k = identity_key_size p) as Hk
      by (apply Hiff; by rewrite Hpub).
    revert Hk Hpub. unfold identity_key_size, IdentityPublicKey, x25519_NewPrivateKey.
    destruct (is_V1 p).
    + intros Hk. rewrite decide_True by done. intros [= <-]. apply x25519_base_length.
    + intros Hk. rewrite decide_False by (intros Hne; by apply Hne). intros [= <-].
      unfold ed25519_Public, go_len in *. simpl. rewrite length_drop. lia.
  - eapply wp_mono; [apply GenerateIdentityKey_usable_aux|].
    intros r _ Hr k' ->. apply Hiff. by apply Hr.
Qed.

Lemma GenerateSignedPreKey_public {KL : XochimilcoKeyLaws X} p k d :
  wp (GenerateSignedPreKey p k)
    (λ r _, ∀ pub priv sig, r = Ok (pub, priv, sig) → pub ≠ None) d.
Proof.
  unfold GenerateSignedPreKey. destruct (is_V1 p); apply wp_crypto; intros pub priv sig;
    [apply ls_spk_public|apply x3dh_spk_public].
Qed.

(** ** Sessions *)

Lemma session_ok_V1 ls pend : session_ok (MkSession ProtocolV1 None (Some ls) pend).
Proof. left. by split_and!. Qed.
Lemma session_ok_V2 dr : session_ok (MkSession ProtocolV2 (Some dr) None None).
Proof. right. by split_and!. Qed.

Lemma NewActiveSession_ok p k1 k2 k3 k4 k5 i1 i2 i3 d :
  wp (NewActiveSession p k1 k2 k3 k4 k5 i1 i2 i3)
    (λ r _, ∀ s ek, r = Ok (s, ek) → session_ok s) d.
Proof.
  unfold NewActiveSession. wp_steps; intros s' ek ?; simplify_eq;
    [apply session_ok_V1|apply session_ok_V2].
Qed.

Lemma NewPassiveSession_ok k1 k2 k3 k4 k5 k6 d :
  wp (NewPassiveSession k1 k2 k3 k4 k5 k6) (λ r _, ∀ s, r = Ok s → session_ok s) d.
Proof.
  unfold NewPassiveSession. wp_steps; intros s' ?; simplify_eq. apply session_ok_V2.
Qed.

Lemma NewPassiveSessionFromPreKeyBlob_ok k1 k2 k3 k4 k5 d :
  wp (NewPassiveSessionFromPreKeyBlob k1 k2 k3 k4 k5)
    (λ r _, ∀ s ik m, r = Ok (s, ik, m) → session_ok s) d.
Proof.
  unfold NewPassiveSessionFromPreKeyBlob. wp_steps; intros s' ik m ?; simplify_eq.
  apply session_ok_V1.
Qed.

(** The peer's identity key comes from the blob. *)
Lemma NewPassiveSessionFromPreKeyBlob_identity k1 k2 k3 k4 k5 d :
  wp (NewPassiveSessionFromPreKeyBlob k1 k2 k3 k4 k5)
    (λ r _, ∀ s ik m, r = Ok (s, ik, m) →
      ∃ pm, ls_ParsePreKeyMessage k5 = Ok pm ∧ ik = PM_IdentityKey pm) d.
Proof.
  unfold NewPassiveSessionFromPreKeyBlob. wp_steps; intros s' ik m ?; simplify_eq. by eexists.
Qed.

Lemma LoadSession_ok p b s : LoadSession p b = Ok s → session_ok s.
Proof.
  unfold LoadSession. intros. cases; [apply session_ok_V1|apply session_ok_V2].
Qed.

(** What a session is, by cases on its protocol. *)
Lemma session_ok_inv s :
  session_ok s →
  (∃ ls pend, s = MkSession ProtocolV1 None (Some ls) pend) ∨
  (∃ dr, s = MkSession ProtocolV2 (Some dr) None None).
Proof.
  intros [(H1 & [ls H2] & H3)|(H1 & [dr H2] & H3 & H4)]; destruct s; simpl in *; subst;
    [left|right]; eauto.
Qed.

Lemma Session_Encrypt_ok s k d :
  session_ok s →
  wp (Session_Encrypt s k)
    (λ r _, session_ok r.2 ∧ s_protocol r.2 = s_protocol s ∧ s_pending r.2 = None) d.
Proof.
  intros [(ls & pend & ->)|(dr & ->)]%session_ok_inv; unfold Session_Encrypt; simpl.
  - destruct pend; apply wp_bind, wp_crypto_only; [apply _| |apply _|];
      intros [r ls'] g; apply wp_ret; split_and!; try done; apply session_ok_V1.
  - apply wp_bind, wp_crypto_only; [apply _|]. intros [r dr'] g.
    apply wp_ret. split_and!; try done. apply session_ok_V2.
Qed.

Lemma Session_Decrypt_ok s k d :
  session_ok s →
  wp (Session_Decrypt s k)
    (λ r _, session_ok r.2 ∧ s_protocol r.2 = s_protocol s ∧ s_pending r.2 = s_pending s) d.
Proof.
  intros [(ls & pend & ->)|(dr & ->)]%session_ok_inv; unfold Session_Decrypt; simpl;
    apply wp_bind, wp_crypto_only; [apply _| |apply _|]; intros [r o] g;
    apply wp_ret; split_and!; try done; [apply session_ok_V1|apply session_ok_V2].
Qed.

(** C36: every session package signal builds (as initiator, as responder of
    either protocol, or restored from storage) has exactly the ratchet its
    protocol tag selects, and [Encrypt] and [Decrypt] keep it so: no method
    ever follows a nil ratchet pointer. *)
Theorem signal_sessions_ok d :
  (∀ p k1 k2 k3 k4 k5 i1 i2 i3,
    wp (NewActiveSession p k1 k2 k3 k4 k5 i1 i2 i3)
      (λ r _, ∀ s ek, r = Ok (s, ek) → session_ok s) d) ∧
  (∀ k1 k2 k3 k4 k5 k6,
    wp (NewPassiveSession k1 k2 k3 k4 k5 k6) (λ r _, ∀ s, r = Ok s → session_ok s) d) ∧
  (∀ k1 k2 k3 k4 k5,
    wp (NewPassiveSessionFromPreKeyBlob k1 k2 k3 k4 k5)
      (λ r _, ∀ s ik m, r = Ok (s, ik, m) → session_ok s) d) ∧
  (∀ p b s, LoadSession p b = Ok s → session_ok s) ∧
  (∀ s k, session_ok s →
    wp (Session_Encrypt s k) (λ r _, session_ok r.2) d ∧
    wp (Session_Decrypt s k) (λ r _, session_ok r.2) d).
Proof.
  split_and!; intros.
  - apply NewActiveSession_ok.
  - apply NewPassiveSession_ok.
  - apply NewPassiveSessionFromPreKeyBlob_ok.
  - by eapply LoadSession_ok.
  - split; (eapply wp_mono; [by apply Session_Encrypt_ok || by apply Session_Decrypt_ok|]);
      naive_solver.
Qed.

(** The pending prekey state of a ProtocolV1 session is used exactly once.
    The first [Encrypt] after [NewActiveSession] calls
    EncryptPreKeyWhisperMessage with the stashed parameters, clears the state
    even when that call fails, and every later [Encrypt] makes a plain
    WhisperMessage. *)
Theorem Session_Encrypt_pending_once ls pend km d :
  let s := MkSession ProtocolV1 None (Some ls) (Some pend) in
  let first := ls_EncryptPreKeyWhisperMessage ls km (p_ekPub pend) (p_preKeyID pend)
    (p_signedPreKeyID pend) (p_registrationID pend) (d_rng d) in
  wp (Session_Encrypt s km)
    (λ r d', r.1 = first.1.1 ∧ s_ls r.2 = Some first.1.2 ∧ s_pending r.2 = None ∧
      ∀ km',
        let next := ls_EncryptWhisperMessage first.1.2 km' (d_rng d') in
        wp (Session_Encrypt r.2 km')
          (λ r' _, r'.1 = next.1.1 ∧ s_ls r'.2 = Some next.1.2 ∧ s_pending r'.2 = None)
          d') d.
Proof.
  unfold Session_Encrypt. simpl. apply wp_bind, wp_crypto.
  destruct (ls_EncryptPreKeyWhisperMessage _ _ _ _ _ _ _) as [[r ls'] g]. simpl.
  apply wp_ret. split_and!; try done. intros km'. simpl. apply wp_bind, wp_crypto. simpl.
  destruct (ls_EncryptWhisperMessage ls' km' g) as [[r' ls''] g']. simpl.
  by apply wp_ret.
Qed.

(** C37: serializing a session and loading it under its own protocol gives the
    same session, except that pending prekey state is not part of the
    serialized form: the session loads back unchanged exactly when it has
    none. *)
Theorem Session_Marshal_LoadSession {CL : XochimilcoCodecLaws X} s b :
  session_ok s → Session_Marshal s = Ok b →
  LoadSession (s_protocol s) b = Ok (clear_pending s) ∧
  (LoadSession (s_protocol s) b = Ok s ↔ s_pending s = None).
Proof.
  intros [(ls & pend & ->)|(dr & ->)]%session_ok_inv Hm;
    unfold Session_Marshal, LoadSession in *; simpl in *.
  - rewrite (ls_unmarshal_marshal _ _ Hm). split; [done|]. split; [|by intros ->].
    by intros [= ->].
  - by rewrite (dr_unmarshal_marshal _ _ Hm).
Qed.
End SignalFacts.
