(* ===== verification/LockFacts.v ===== *)
(** * Device locks run by one goroutine

    [quiet]: no mutex is held and the [locks] map is well-formed.  From a quiet
    state a function that takes a device lock does exactly what its body does,
    and ends quiet: it neither blocks nor panics. *)
From S2P Require Import Prelude Types Errors StoreSpec Transport Xochimilco Prog.
From S2P Require Import ProgFacts Manager.

(** Every mutex of the map was allocated, and no two devices share one. *)
Record locks_wf (lk : lockstate) : Prop := {
  locks_allocated dev m :
    locks lk !! dev = Some m → ∃ n, m = DeviceMu n ∧ (n < next_mutex lk)%N;
  locks_inj dev1 dev2 m :
    locks lk !! dev1 = Some m → locks lk !! dev2 = Some m → dev1 = dev2 }.

Definition quiet (lk : lockstate) : Prop := locks_wf lk ∧ held lk = ∅.

Lemma fresh_locks_quiet : quiet fresh_locks.
Proof. split; [split; done|done]. Qed.

(** The [locks] map after [deviceLock dev] and the mutex it returns. *)
Definition device_mutex (dev : Device) (lk : lockstate) : mutex :=
  default (DeviceMu (next_mutex lk)) (locks lk !! dev).
Definition with_device (dev : Device) (lk : lockstate) : lockstate :=
  match locks lk !! dev with
  | Some _ => lk
  | None => MkLocks (<[dev := DeviceMu (next_mutex lk)]> (locks lk))
              (N.succ (next_mutex lk)) (held lk)
  end.

Lemma with_device_wf dev lk : locks_wf lk → locks_wf (with_device dev lk).
Proof.
  intros [Hal Hinj]. unfold with_device. destruct (locks lk !! dev) eqn:Hdev; [done|].
  split; simpl.
  - intros dev' m. rewrite lookup_insert. case_decide.
    + intros [= <-]. eexists. split; [done|]. lia.
    + intros (n & -> & Hn)%Hal. exists n. split; [done|]. lia.
  - intros dev1 dev2 m. rewrite !lookup_insert. do 2 case_decide; subst; try done.
    + intros [= <-] (n & [= <-] & Hn)%Hal. lia.
    + intros (n & -> & Hn)%Hal [= <-]. lia.
    + apply Hinj.
Qed.

Lemma locks_wf_held lk h :
  locks_wf lk → locks_wf (MkLocks (locks lk) (next_mutex lk) h).
Proof. intros [Hal Hinj]. by split. Qed.

Section Locks.
Context `{GC : GoCrypto} {X : Xochimilco} {T : Transport} {ST : Store}.
Implicit Types w : world.

Lemma run_deviceLock dev w :
  LocksMu ∉ held (w_lk w) →
  ∃ lk', run (deviceLock dev) w = Done (device_mutex dev (w_lk w)) (MkWorld (w_data w) lk') ∧
    locks lk' = locks (with_device dev (w_lk w)) ∧
    next_mutex lk' = next_mutex (with_device dev (w_lk w)) ∧
    held lk' = held (w_lk w).
Proof.
  destruct w as [d [ls n h]]. simpl. intros Hfree.
  unfold deviceLock, Lock, Unlock, device_mutex, with_device. simpl.
  rewrite decide_False by done. simpl. destruct (ls !! dev) as [m|]; simpl.
  all: rewrite decide_True by set_solver; simpl.
  all: eexists; split_and!; [done..|simpl; set_solver].
Qed.

(** The rule for a locked section run alone. *)
Lemma wpr_with_deviceLock {A} dev (body : prog baseE A) Q w :
  quiet (w_lk w) →
  wp body (λ a d', ∀ lk', quiet lk' → Q a (MkWorld d' lk')) (w_data w) →
  wpr (with_deviceLock dev body) Q w.
Proof.
  intros [Hwf Hheld] HQ. unfold with_deviceLock. apply wpr_bind.
  destruct (run_deviceLock dev w) as (lk1 & Hrun & Hl & Hn & Hh); [set_solver|].
  unfold wpr at 1. rewrite Hrun. unfold wpr. rewrite run_Lock by set_solver.
  rewrite run_bind, run_lift. cbv beta iota. rewrite run_Unlock by set_solver.
  apply HQ. split.
  - destruct lk1 as [l1 n1 h1]. simpl in *. subst l1 n1.
    apply (locks_wf_held (with_device dev (w_lk w))). by apply with_device_wf.
  - simpl. set_solver.
Qed.
End Locks.
