(* ===== verification/ManagerKeys.v ===== *)
(** * Identity, signed prekeys and the one-time prekey pool

    Theorems about the functions of manager.go that own key material:
    generateOneTimePreKeys, InitIdentity, NewManager, Bundle, PublishBundle,
    RotateSignedPreKey, NeedsMorePreKeys and signedPreKeyByID.  They are proved
    against [StoreContract] (any store) or [ReliableStore] (a store without
    I/O errors). *)
From S2P Require Import Prelude Types Errors StoreSpec Transport Xochimilco Prog.
From S2P Require Import ProgFacts StoreFacts Signal SignalFacts Manager.

(** ** The pool as a specification *)

(** Every unconsumed prekey was issued: its ID can never be handed out again. *)
Definition pool_issued (a : astore) : Prop := dom (a_pool a) ⊆ a_issued a.

(** Room for [k] more IDs. *)
Definition capacity (a : astore) (k : nat) : Prop :=
  (Z.of_nat (size (a_issued a)) + Z.of_nat k ≤ u32_modulus - 1)%Z.

Definition ids (recs : list PreKeyRecord) : list Z := map PKR_ID recs.

(** [k] records whose IDs were never issued before and are all different. *)
Record fresh_batch (a : astore) (k : nat) (recs : list PreKeyRecord) : Prop := {
  batch_length : length recs = k;
  batch_nodup : NoDup (ids recs);
  batch_fresh : ∀ id, id ∈ ids recs → (id ∉ a_issued a) ∧ is_u32 id }.

(** Which signed prekey an incoming key exchange that names [id] uses. *)
Definition spk_by_id (a : astore) (id : Z) : option SignedPreKeyRecord :=
  if decide (SPKR_ID (a_current a) = id) then Some (a_current a)
  else match a_stale a with
       | Some s => if decide (SPKR_ID s = id) then Some s else None
       | None => None
       end.

(** Everything but the record of issued IDs. *)
Definition forget_issued (a : astore) : astore := set_issued ∅ a.

Lemma capacity_ids_left a k : capacity a (S k) → ids_left a.
Proof. unfold capacity, ids_left. lia. Qed.

Lemma capacity_issue a k id :
  id ∉ a_issued a → capacity a (S k) → capacity (set_issued ({[id]} ∪ a_issued a) a) k.
Proof.
  intros Hid. unfold capacity. simpl.
  rewrite size_union, size_singleton by set_solver. lia.
Qed.

Lemma elem_of_ids recs id : id ∈ ids recs ↔ ∃ r, r ∈ recs ∧ PKR_ID r = id.
Proof. unfold ids. rewrite list_elem_of_fmap. naive_solver. Qed.

(** Records with new, distinct IDs: nothing is overwritten, all are added. *)
Lemma put_prekeys_lookup_old recs m id :
  id ∉ ids recs → put_prekeys recs m !! id = m !! id.
Proof.
  unfold put_prekeys. revert m. induction recs as [|r recs IH]; intros m Hid; [done|].
  unfold ids in *. simpl in *. apply not_elem_of_cons in Hid as [Hne Hid].
  rewrite IH by done. by apply lookup_insert_ne.
Qed.

Lemma put_prekeys_lookup_new recs m r :
  NoDup (ids recs) → r ∈ recs → put_prekeys recs m !! PKR_ID r = Some r.
Proof.
  revert m. induction recs as [|r0 recs IH]; intros m Hnd Hr; [by apply elem_of_nil in Hr|].
  unfold ids in Hnd. simpl in Hnd. apply NoDup_cons in Hnd as [Hr0 Hnd].
  change (put_prekeys (r0 :: recs) m) with (put_prekeys recs (<[PKR_ID r0 := r0]> m)).
  apply elem_of_cons in Hr as [->|Hr].
  - rewrite put_prekeys_lookup_old by done. apply lookup_insert_eq.
  - by apply IH.
Qed.

Lemma put_prekeys_dom recs m : dom (put_prekeys recs m) = list_to_set (ids recs) ∪ dom m.
Proof.
  revert m. induction recs as [|r recs IH]; intros m; [set_solver|].
  change (put_prekeys (r :: recs) m) with (put_prekeys recs (<[PKR_ID r := r]> m)).
  rewrite IH, dom_insert_L. set_solver.
Qed.

Lemma put_prekeys_size recs m :
  NoDup (ids recs) → (∀ id, id ∈ ids recs → id ∉ dom m) →
  size (put_prekeys recs m) = length recs + size m.
Proof.
  intros Hnd Hnew. rewrite <-!size_dom, put_prekeys_dom.
  rewrite size_union by (intros id Hid; apply Hnew; by apply elem_of_list_to_set in Hid).
  rewrite size_list_to_set by done. unfold ids. by rewrite length_map.
Qed.

Section Keys.
Context `{X : Xochimilco} {T : Transport} {ST : Store} {SC : StoreContract ST}.
Implicit Types (d : data) (w : world).

(** ** generateOneTimePreKeys *)

Lemma fresh_batch_cons a id pub priv k recs :
  id ∉ a_issued a → is_u32 id →
  fresh_batch (set_issued ({[id]} ∪ a_issued a) a) k recs →
  fresh_batch a (S k) (MkPreKeyRecord id pub priv :: recs).
Proof.
  intros Hid Hu [Hlen Hnd Hfr]. simpl in Hfr. split; simpl; [by rewrite Hlen| |].
  - apply NoDup_cons. split; [|done]. intros Hin. apply Hfr in Hin. set_solver.
  - intros i [->|Hin]%elem_of_cons; [done|].
    apply Hfr in Hin as [Hin ?]. split; [set_solver|done].
Qed.

Definition generate_post (a : astore) (k : nat) (recs : list PreKeyRecord) d
    (r : result (list PreKeyRecord)) d' : Prop :=
  good d' ∧ d_env d' = d_env d ∧ forget_issued (av d') = forget_issued a ∧
  a_issued a ⊆ a_issued (av d') ∧
  match r with
  | Ok l => ∃ new, l = recs ++ new ∧ fresh_batch a k new ∧
      a_issued (av d') = list_to_set (ids new) ∪ a_issued a
  | Err _ => True
  end.

Lemma generate_loop_spec k recs d :
  good d → capacity (av d) k →
  wp (generate_loop k recs) (generate_post (av d) k recs d) d.
Proof.
  revert recs d. induction k as [|k IH]; intros recs d Hg Hcap; simpl.
  - apply wp_pure. split_and!; try done. exists []. rewrite app_nil_r.
    split_and!; [done| |set_solver].
    split; [done|constructor|]. intros id Hid. by apply elem_of_nil in Hid.
  - apply wp_try, wp_ask_spec; [done|]. intros r d1 Hg1 [He1 _] Hs. simpl in Hs.
    destruct Hs as [(id & -> & Hu & Hfresh & _)|[[e ->] Hav]]; simpl.
    2: { unfold generate_post. by rewrite Hav. }
    destruct (Hfresh (capacity_ids_left _ _ Hcap)) as [Hid Hav].
    apply wp_try, wp_crypto. destruct (x3dh_CreateNewOpk (d_rng d1)) as [[[pub priv]|e] g];
      simpl.
    2: { unfold generate_post. rewrite av_with_rng, Hav. split_and!; try done. set_solver. }
    eapply wp_mono; [apply IH; [done|]|].
    + rewrite av_with_rng, Hav. by apply capacity_issue.
    + rewrite av_with_rng, Hav. intros r d2 (Hg2 & He2 & Hf & Hsub & Hr).
      split_and!; try done; [simpl in *; congruence|set_solver|].
      destruct r as [l|e]; [|done]. destruct Hr as (new & -> & Hb & Hiss).
      exists (MkPreKeyRecord id pub priv :: new). rewrite <-app_assoc.
      split_and!; [done|by apply fresh_batch_cons|]. rewrite Hiss. set_solver.
Qed.

(** What a successful or failed top-up does to the abstract store. *)
Definition topup_post (a : astore) (n : Z) (r : result unit) (a' : astore) : Prop :=
  match r with
  | Ok _ => ∃ recs, fresh_batch a (Z.to_nat n) recs ∧
      a' = set_pool (put_prekeys recs (a_pool a))
             (set_issued (list_to_set (ids recs) ∪ a_issued a) a)
  | Err _ => forget_issued a' = forget_issued a ∧ a_issued a ⊆ a_issued a'
  end.

Lemma forget_issued_eq a a' :
  forget_issued a' = forget_issued a → a' = set_issued (a_issued a') a.
Proof. destruct a, a'. unfold forget_issued, set_issued. simpl. congruence. Qed.

Lemma generateOneTimePreKeys_spec n w :
  (0 ≤ n)%Z → good (w_data w) → capacity (av (w_data w)) (Z.to_nat n) →
  wpr (generateOneTimePreKeys n)
    (λ r w', good (w_data w') ∧ w_lk w' = w_lk w ∧ d_env (w_data w') = d_env (w_data w) ∧
             topup_post (av (w_data w)) n r (av (w_data w'))) w.
Proof.
  intros Hn Hg Hcap. unfold generateOneTimePreKeys.
  rewrite (proj2 (Z.ltb_ge n 0)) by done. apply wpr_lift, wp_try.
  eapply wp_mono; [by apply generate_loop_spec|].
  intros r d1 (Hg1 & He1 & Hf & Hsub & Hr). apply forget_issued_eq in Hf.
  destruct r as [l|e]; simpl.
  2: { split_and!; try done. by rewrite Hf. }
  destruct Hr as (new & -> & Hb & Hiss). simpl.
  write_step.
  - destruct Hso as [He _]. split_and!; [done..|congruence|].
    exists new. split; [done|]. rewrite Hav, Hf, Hiss. done.
  - destruct Hso as [He _]. split_and!; [done..|congruence| |]; rewrite Hav; [|done].
    by rewrite Hf.
Qed.

Lemma topup_preserves_issued a n r a' :
  pool_issued a → topup_post a n r a' → pool_issued a'.
Proof.
  intros Hp. destruct r as [u|e]; simpl.
  - intros (recs & _ & ->). unfold pool_issued in *. simpl.
    rewrite put_prekeys_dom. set_solver.
  - intros [->%forget_issued_eq Hsub]. unfold pool_issued in *. simpl. set_solver.
Qed.

Lemma pool_mono_put a recs :
  (∀ id, id ∈ ids recs → id ∉ a_issued a) → pool_issued a →
  a_pool a ⊆ put_prekeys recs (a_pool a).
Proof.
  intros Hfr Hp. apply map_subseteq_spec. intros id r Hid.
  rewrite put_prekeys_lookup_old; [done|]. intros Hin. apply (Hfr id Hin), Hp.
  by eapply elem_of_dom_2.
Qed.

(** C32: topping up the pool with [GenerateOneTimePreKeys n] on any store that
    meets the contract: on success the pool holds exactly [n] more prekeys,
    every prekey that was in it is still there unchanged, and every new one
    has an ID that was never issued before (so none a peer may already have
    used), and nothing else changed but the record of issued IDs; on failure
    nothing changed but that record, which only grew (IDs that were allocated
    before the failure are spent).  Either way every pooled ID stays recorded as
    issued, and no lock is touched. *)
Theorem GenerateOneTimePreKeys_adds_fresh m n w :
  (0 ≤ n)%Z → good (w_data w) → capacity (av (w_data w)) (Z.to_nat n) →
  pool_issued (av (w_data w)) →
  wpr (GenerateOneTimePreKeys m n)
    (λ r w', let a := av (w_data w) in let a' := av (w_data w') in
      pool_issued a' ∧ a_issued a ⊆ a_issued a' ∧ w_lk w' = w_lk w ∧
      d_env (w_data w') = d_env (w_data w) ∧
      match r with
      | Ok _ => a' = set_pool (a_pool a') (set_issued (a_issued a') a) ∧
          Z.of_nat (size (a_pool a')) = (Z.of_nat (size (a_pool a)) + n)%Z ∧
          a_pool a ⊆ a_pool a' ∧
          ∀ id, id ∈ dom (a_pool a') → (id ∈ dom (a_pool a)) ∨ (id ∉ a_issued a)
      | Err _ => a' = set_issued (a_issued a') a
      end) w.
Proof.
  intros Hn Hg Hcap Hp. eapply wpr_mono; [by apply generateOneTimePreKeys_spec|].
  intros r w' (_ & Hlk & He & Hpost). cbv zeta.
  split; [by eapply topup_preserves_issued|].
  destruct r as [u|e]; simpl in Hpost.
  - destruct Hpost as (recs & [Hlen Hnd Hfr] & ->). simpl.
    assert (Hnew : ∀ id, id ∈ ids recs → id ∉ a_issued (av (w_data w))) by naive_solver.
    split_and!; [set_solver|done..| | |].
    + rewrite put_prekeys_size; [lia|done|]. intros id Hid Hin. by apply (Hnew id), Hp.
    + by apply pool_mono_put.
    + intros id. rewrite put_prekeys_dom. set_solver.
  - destruct Hpost as [Hf Hsub]. apply forget_issued_eq in Hf. by split_and!.
Qed.

(** A negative count crashes in [make], before any call. *)
Lemma GenerateOneTimePreKeys_negative m n w :
  (n < 0)%Z →
  run (GenerateOneTimePreKeys m n) w = Panicked "runtime error: makeslice: cap out of range".
Proof.
  intros Hn. unfold GenerateOneTimePreKeys, generateOneTimePreKeys.
  by rewrite (proj2 (Z.ltb_lt n 0)).
Qed.

(** ** InitIdentity *)

Lemma InitIdentity_keys_spec {GL : GoCryptoLaws GC} jid id p d :
  good d →
  wp (InitIdentity_keys jid id p)
    (λ r d', good d' ∧ d_env d' = d_env d ∧
      a_pool (av d') = a_pool (av d) ∧ a_issued (av d') = a_issued (av d) ∧
      (r = Ok tt → ∃ k spk, usable_identity p k ∧ SPKR_ID spk = 1%Z ∧
        av d' = rotate_spks spk (set_local (MkDevice jid id) (set_identity k (av d))))) d.
Proof.
  intros Hg. unfold InitIdentity_keys. apply wp_try.
  eapply wp_mono; [apply wp_and; [apply GenerateIdentityKey_usable_aux|
    by apply (wp_crypto_only _ (λ _ d', good d' ∧ d_env d' = d_env d ∧ av d' = av d))]|].
  intros [k|e] d1 (Hk & Hg1 & He1 & Hav1); simpl.
  2: { rewrite Hav1. by split_and!. }
  specialize (Hk _ eq_refl). apply wp_try. write_step.
  2: { destruct Hso as [He _]. rewrite Hav, Hav1. split_and!; congruence || done. }
  destruct Hso as [He2 _]. apply wp_try. write_step.
  2: { destruct Hso as [He _]. rewrite Hav0, Hav, Hav1. split_and!; congruence || done. }
  destruct Hso as [He3 _]. apply wp_try, wp_crypto_only; [apply _|].
  intros [[[pub priv] sig]|e] g; simpl.
  2: { rewrite av_with_rng, Hav0, Hav, Hav1. split_and!; congruence || done. }
  apply wp_try. write_step.
  - destruct Hso as [He4 _]. simpl in He4. apply wp_pure.
    rewrite Hav2, av_with_rng, Hav0, Hav, Hav1. split_and!; try done; [congruence|].
    intros _. exists k. eexists. split_and!; [done| |reflexivity]. done.
  - destruct Hso as [He4 _]. simpl in He4.
    rewrite Hav2, av_with_rng, Hav0, Hav, Hav1. split_and!; congruence || done.
Qed.

Lemma InitIdentity_spec {GL : GoCryptoLaws GC} jid id p w :
  good (w_data w) → capacity (av (w_data w)) (Z.to_nat DefaultPreKeyCount) →
  wpr (InitIdentity jid id p)
    (λ r w', good (w_data w') ∧ w_lk w' = w_lk w ∧ d_env (w_data w') = d_env (w_data w) ∧
      (r = Ok tt → ∃ k spk, usable_identity p k ∧ SPKR_ID spk = 1%Z ∧
        topup_post
          (rotate_spks spk (set_local (MkDevice jid id) (set_identity k (av (w_data w)))))
          DefaultPreKeyCount r (av (w_data w')))) w.
Proof.
  intros Hg Hcap. unfold InitIdentity, try. apply wpr_bind, wpr_lift.
  eapply wp_mono; [by apply InitIdentity_keys_spec|].
  intros [[]|e] d1 (Hg1 & He1 & Hpool & Hiss & Hr); simpl; [|by apply wpr_ret].
  destruct (Hr eq_refl) as (k & spk & Hk & Hspk & Hav).
  eapply wpr_mono; [apply generateOneTimePreKeys_spec; [done|done|]|].
  - unfold capacity in *. simpl. by rewrite Hiss.
  - simpl. intros r w' (Hg2 & Hlk & He2 & Hpost).
    split_and!; [done|done|congruence|]. intros ->. exists k, spk.
    split_and!; [done|done|]. by rewrite <-Hav.
Qed.

(** ** Signed prekeys *)

Lemma signedPreKeyByID_spec id d :
  good d →
  wp (signedPreKeyByID id)
    (λ r d', good d' ∧ store_only d d' ∧ av d' = av d ∧
      ∀ spk, r = Ok spk → spk_by_id (av d) id = Some spk) d.
Proof.
  intros Hg. unfold signedPreKeyByID, spk_by_id. apply wp_try.
  read_step; [|by split_and!].
  case_decide; [apply wp_pure; split_and!; naive_solver|].
  apply wp_try. read_step; rewrite ?Hav.
  2: { split_and!; [done|by etrans|congruence|done]. }
  destruct (a_stale (av d)) as [s|]; [case_decide|];
    apply wp_pure; (split_and!; [done|by etrans|congruence|naive_solver]).
Qed.

(** Without I/O errors the answer is determined. *)
Lemma signedPreKeyByID_ok {RS : ReliableStore ST} id d :
  good d →
  wp (signedPreKeyByID id)
    (λ r d', good d' ∧ av d' = av d ∧
      r = match spk_by_id (av d) id with
          | Some spk => Ok spk
          | None => Err (Errorf ("unknown signed prekey id " +:+ pretty id))
          end) d.
Proof.
  intros Hg. unfold signedPreKeyByID, spk_by_id. apply wp_try. read_ok.
  case_decide; [by apply wp_pure|]. apply wp_try. read_ok. rewrite Hav in *.
  destruct (a_stale (av d)) as [s|]; [case_decide|]; apply wp_pure; by rewrite Hav0.
Qed.

Lemma Manager_RotateSignedPreKey_spec m d :
  good d →
  wp (Manager_RotateSignedPreKey m)
    (λ r d', good d' ∧
      match r with
      | Ok _ => ∃ next, SPKR_ID next = u32_succ (SPKR_ID (a_current (av d))) ∧
          av d' = rotate_spks next (av d)
      | Err _ => av d' = av d
      end) d.
Proof.
  intros Hg. unfold Manager_RotateSignedPreKey, nextSignedPreKeyID.
  apply wp_try, wp_try. read_step; [|by split].
  apply wp_pure. simpl. apply wp_try, wp_crypto_only; [apply _|].
  intros [[[pub priv] sig]|e] g; simpl; [|by split].
  write_step; (split; [done|]); rewrite Hav0, av_with_rng, Hav; [|done].
  eexists. split; [|reflexivity]. done.
Qed.

Lemma u32_succ_ne x : u32_succ x ≠ x.
Proof. unfold u32_succ, u32, u32_modulus. intros H. Z.div_mod_to_equations; lia. Qed.

Lemma u32_succ2_ne x : u32_succ (u32_succ x) ≠ x.
Proof. unfold u32_succ, u32, u32_modulus. intros H. Z.div_mod_to_equations; lia. Qed.

Lemma rotate_keeps_previous next a :
  SPKR_Public (a_current a) ≠ None → SPKR_ID next = u32_succ (SPKR_ID (a_current a)) →
  spk_by_id (rotate_spks next a) (SPKR_ID (a_current a)) = Some (a_current a).
Proof.
  intros Hpub Hid. unfold spk_by_id, rotate_spks. simpl.
  rewrite decide_False by (rewrite Hid; apply u32_succ_ne).
  destruct (SPKR_Public (a_current a)); [|done]. simpl. by rewrite decide_True.
Qed.

Lemma rotate_twice_drops next1 next2 a :
  SPKR_Public next1 ≠ None →
  SPKR_ID next1 = u32_succ (SPKR_ID (a_current a)) →
  SPKR_ID next2 = u32_succ (SPKR_ID next1) →
  spk_by_id (rotate_spks next2 (rotate_spks next1 a)) (SPKR_ID (a_current a)) = None.
Proof.
  intros Hpub H1 H2. unfold spk_by_id, rotate_spks. simpl.
  rewrite decide_False by (rewrite H2, H1; apply u32_succ2_ne).
  destruct (SPKR_Public next1); [|done]. simpl.
  rewrite decide_False; [done|]. rewrite H1. apply u32_succ_ne.
Qed.

(** C35: rotation grace period (for a store without I/O errors).  After a
    successful [RotateSignedPreKey] both signed prekeys are found: a key exchange
    that names the one that was current before is served with exactly that
    record, one that names the new one with the new one; and the new one's ID is
    the successor (modulo 2^32) of the old one's. *)
Theorem RotateSignedPreKey_grace_period {RS : ReliableStore ST} m d :
  good d → SPKR_Public (a_current (av d)) ≠ None →
  wp (Manager_RotateSignedPreKey m)
    (λ r d1, r = Ok tt →
      let old := a_current (av d) in let new := a_current (av d1) in
      SPKR_ID new = u32_succ (SPKR_ID old) ∧
      wp (signedPreKeyByID (SPKR_ID old)) (λ r2 d2, r2 = Ok old ∧ av d2 = av d1) d1 ∧
      wp (signedPreKeyByID (SPKR_ID new)) (λ r2 d2, r2 = Ok new ∧ av d2 = av d1) d1) d.
Proof.
  intros Hg Hpub. eapply wp_mono; [by apply Manager_RotateSignedPreKey_spec|].
  intros r d1 [Hg1 Hr] ->. destruct Hr as (next & Hid & Hav). cbv zeta.
  split_and!; [by rewrite Hav| |]; (eapply wp_mono; [by apply signedPreKeyByID_ok|]);
    intros r2 d2 (_ & Hav2 & ->); (split; [|done]).
  - by rewrite Hav, rotate_keeps_previous.
  - unfold spk_by_id. by rewrite decide_True.
Qed.

(** The record a rotation installs has the public key the backend made. *)
Lemma Manager_RotateSignedPreKey_public {KL : XochimilcoKeyLaws X} m d :
  good d →
  wp (Manager_RotateSignedPreKey m)
    (λ r d', r = Ok tt → SPKR_Public (a_current (av d')) ≠ None) d.
Proof.
  intros Hg. unfold Manager_RotateSignedPreKey, nextSignedPreKeyID.
  apply wp_try, wp_try. read_step; [|done].
  apply wp_pure. simpl. apply wp_try.
  eapply wp_mono; [apply wp_and; [apply GenerateSignedPreKey_public|
    by apply (wp_crypto_only _ (λ _ d', good d'))]|].
  intros [[[pub priv] sig]|e] d1 [Hpub Hg1]; simpl; [|done].
  write_step; [|done]. intros _. rewrite Hav0. simpl. by eapply Hpub.
Qed.

(** After two successful rotations the first signed prekey is retired: a
    key exchange that still names it is refused. *)
Theorem RotateSignedPreKey_twice_retires {KL : XochimilcoKeyLaws X} m d :
  good d →
  wp (Manager_RotateSignedPreKey m)
    (λ r1 d1, r1 = Ok tt →
      wp (Manager_RotateSignedPreKey m)
        (λ r2 d2, r2 = Ok tt →
          wp (signedPreKeyByID (SPKR_ID (a_current (av d))))
            (λ r3 _, ∃ e, r3 = Err e) d2) d1) d.
Proof.
  intros Hg.
  eapply wp_mono; [apply wp_and; [by apply Manager_RotateSignedPreKey_spec|
    by apply Manager_RotateSignedPreKey_public]|].
  intros r1 d1 [[Hg1 Hr1] Hpub1] ->. destruct Hr1 as (n1 & Hid1 & Hav1).
  eapply wp_mono; [by apply Manager_RotateSignedPreKey_spec|].
  intros r2 d2 [Hg2 Hr2] ->. destruct Hr2 as (n2 & Hid2 & Hav2).
  eapply wp_mono; [by apply signedPreKeyByID_spec|].
  intros [spk|e] d3 (_ & _ & _ & Hspk); [|by eexists].
  specialize (Hspk _ eq_refl). specialize (Hpub1 eq_refl). rewrite Hav1 in Hid2, Hpub1.
  by rewrite Hav2, Hav1, rotate_twice_drops in Hspk.
Qed.

(** ** Bundle and PublishBundle *)

Definition public_prekey (r : PreKeyRecord) : PreKey :=
  MkPreKey (PKR_ID r) (PKR_Public r).

(** The bundle a device in state [a] may publish: the public halves of its
    current signed prekey and of every unconsumed one-time prekey. *)
Definition bundle_of (m : Manager) (a : astore) (b : Bundle) : Prop :=
  B_Device b = m_localDevice m ∧
  IdentityPublicKey (m_protocol m) (m_identityKey m) = Ok (B_IdentityKey b) ∧
  B_SignedPreKey b = MkSignedPreKey (SPKR_ID (a_current a)) (SPKR_Public (a_current a))
    (SPKR_Signature (a_current a)) ∧
  B_PreKeys b ≡ₚ public_prekey <$> (map_to_list (a_pool a)).*2.

Lemma Manager_Bundle_spec m d :
  good d →
  wp (Manager_Bundle m)
    (λ r d', good d' ∧ store_only d d' ∧ av d' = av d ∧
      ∀ b, r = Ok b → bundle_of m (av d) b) d.
Proof.
  intros Hg. unfold Manager_Bundle. apply wp_try. read_step; [|by split_and!].
  apply wp_try, wp_ask_spec; [done|]. intros r d1 Hg1 Hso1 Hs. simpl in Hs.
  destruct Hs as [(l & -> & Hl & Hav1)|[[e ->] Hav1]].
  2: { split_and!; [done|by etrans|congruence|done]. }
  apply wp_try, wp_pure. unfold signal_Protocol.
  destruct (IdentityPublicKey _ _) as [pub|e] eqn:Hpub.
  2: { split_and!; [done|by etrans|congruence|done]. }
  apply wp_pure. split_and!; [done|by etrans|congruence|].
  intros b [= <-]. split_and!; simpl; [done..|]. rewrite <-Hav, <-Hl. done.
Qed.

(** [PublishBundle] hands the transport exactly one bundle, and that bundle
    holds this device's identity, the public half of the current signed
    prekey and the public halves of the whole unconsumed pool, in any order;
    no private key is in it, and the store is not changed.  If the bundle
    cannot be built nothing is published. *)
Theorem PublishBundle_publishes_pool m d :
  good d →
  wp (Manager_PublishBundle m)
    (λ r d', av d' = av d ∧
      ((∃ e, r = Err e ∧ d_env d' = d_env d) ∨
       ∃ b, bundle_of m (av d) b ∧ (r, d_env d') = PublishBundle b (d_env d))) d.
Proof.
  intros Hg. unfold Manager_PublishBundle. apply wp_try.
  eapply wp_mono; [by apply Manager_Bundle_spec|].
  intros [b|e] d1 (Hg1 & [He _] & Hav & Hb); [|naive_solver].
  apply wp_net. simpl. rewrite He.
  split; [done|]. right. exists b. split; [by apply Hb|]. by destruct (PublishBundle b _).
Qed.

(** [NeedsMorePreKeys] answers true exactly when at most 25 one-time
    prekeys are left, and changes nothing. *)
Theorem NeedsMorePreKeys_threshold m d :
  good d →
  wp (NeedsMorePreKeys m)
    (λ r d', av d' = av d ∧
      ∀ b, r = Ok b → (b = true ↔ size (a_pool (av d)) ≤ 25)) d.
Proof.
  intros Hg. unfold NeedsMorePreKeys. apply wp_try. read_step; [|done].
  apply wp_pure. split; [done|]. intros b [= <-]. unfold MinPreKeyCount.
  rewrite Z.leb_le. lia.
Qed.
End Keys.
