(* ===== verification/ManagerEncrypt.v ===== *)
(** * Encryption: trust, sessions, recipients and the fan-out

    Theorems about checkTrust, getOrCreateActiveSession, encryptForDevice,
    recipientDevices, EncryptMessage and EncryptKeyTransport, for every store
    that meets the contract. *)
From S2P Require Import Prelude Types Errors StoreSpec Transport Xochimilco Prog.
From S2P Require Import ProgFacts StoreFacts Signal SignalFacts Manager LockFacts.

(** ** What encrypting may do to the store *)

(** A key's trust changes only from undecided to trusted. *)
Definition trust_step (a a' : astore) : Prop := ∀ ik,
  trust_of a' ik = trust_of a ik ∨
  (trust_of a ik ≠ TrustTrusted ∧ trust_of a ik ≠ TrustUntrusted ∧
   trust_of a' ik = TrustTrusted).

(** Own keys, prekeys and device lists are not touched; a device outside [D]
    keeps its session and identity key; a device with a session keeps one, and
    its identity key. *)
Record enc_step (D : Device → Prop) (a a' : astore) : Prop := {
  enc_keys : a_identity a' = a_identity a ∧ a_local a' = a_local a ∧
    a_current a' = a_current a ∧ a_stale a' = a_stale a ∧
    a_pool a' = a_pool a ∧ a_issued a' = a_issued a ∧ a_devices a' = a_devices a;
  enc_others dev : ¬ D dev →
    a_sessions a' !! dev = a_sessions a !! dev ∧ a_remote a' !! dev = a_remote a !! dev;
  enc_kept dev : is_Some (a_sessions a !! dev) →
    is_Some (a_sessions a' !! dev) ∧ a_remote a' !! dev = a_remote a !! dev;
  enc_trust : trust_step a a' }.

#[global] Instance trust_step_preorder : PreOrder trust_step.
Proof.
  split; [by left|]. intros a1 a2 a3 H1 H2 ik.
  destruct (H1 ik) as [E1|(?&?&E1)], (H2 ik) as [E2|(?&?&E2)].
  - left. congruence.
  - right. split_and!; congruence.
  - right. split_and!; congruence.
  - congruence.
Qed.

#[global] Instance enc_step_preorder D : PreOrder (enc_step D).
Proof.
  split; [intros a; split; [by split_and!|done|done|by left]|].
  intros a1 a2 a3 [K1 O1 P1 T1] [K2 O2 P2 T2]. split.
  - destruct_and!. split_and!; congruence.
  - intros dev Hd. destruct (O1 dev Hd), (O2 dev Hd). split; congruence.
  - intros dev Hs. destruct (P1 dev Hs) as [Hs' ?], (P2 dev Hs'). split; congruence || done.
  - by etrans.
Qed.

Lemma enc_step_mono (D E : Device → Prop) a a' :
  (∀ dev, D dev → E dev) → enc_step D a a' → enc_step E a a'.
Proof. intros HDE [K O P S]. split; auto. Qed.

(** [dev] has a session and its recorded identity key is trusted. *)
Definition trusted_session (dev : Device) (a : astore) : Prop :=
  is_Some (a_sessions a !! dev) ∧
  ∃ ik, a_remote a !! dev = Some ik ∧ trust_of a ik = TrustTrusted.

Lemma trust_step_trusted a a' ik :
  trust_step a a' → trust_of a ik = TrustTrusted → trust_of a' ik = TrustTrusted.
Proof. intros Hs Ht. destruct (Hs ik) as [->|(?&?&?)]; done. Qed.

Lemma trusted_session_step D dev a a' :
  enc_step D a a' → trusted_session dev a → trusted_session dev a'.
Proof.
  intros [_ _ P S] [Hs (ik & Hr & Ht)]. destruct (P dev Hs) as [Hs' Hr'].
  split; [done|]. exists ik. rewrite Hr'. split; [done|]. by eapply trust_step_trusted.
Qed.

Lemma trust_of_insert a ik ik' st :
  trust_of (set_trust (<[go_string ik := st]> (a_trust a)) a) ik' =
  if decide (go_string ik = go_string ik') then st else trust_of a ik'.
Proof. unfold trust_of. simpl. rewrite lookup_insert. by case_decide. Qed.

Lemma set_trust_step D a ik :
  trust_of a ik ≠ TrustTrusted → trust_of a ik ≠ TrustUntrusted →
  enc_step D a (set_trust (<[go_string ik := TrustTrusted]> (a_trust a)) a).
Proof.
  intros H1 H2. split; [by split_and!|by intros|by intros|].
  intros ik'. rewrite trust_of_insert. case_decide as Heq; [right|by left].
  assert (trust_of a ik' = trust_of a ik) as -> by (unfold trust_of; by rewrite Heq).
  by split_and!.
Qed.

Lemma put_session_step dev b a :
  enc_step (λ dev', dev' = dev) a (set_sessions (<[dev := b]> (a_sessions a)) a).
Proof.
  split; [by split_and!| | |by left].
  - intros dev' Hne. simpl. by rewrite lookup_insert_ne.
  - intros dev' Hs. simpl. rewrite lookup_insert. case_decide; split; done || by eexists.
Qed.

Lemma put_remote_step dev ik a :
  a_sessions a !! dev = None →
  enc_step (λ dev', dev' = dev) a (set_remote (<[dev := ik]> (a_remote a)) a).
Proof.
  intros Hno. split; [by split_and!| | |by left].
  - intros dev' Hne. simpl. by rewrite lookup_insert_ne.
  - intros dev' Hs. simpl. split; [done|]. apply lookup_insert_ne. intros ->.
    rewrite Hno in Hs. by destruct Hs.
Qed.

Section Encrypt.
Context `{GC : GoCrypto} {X : Xochimilco} {T : Transport} {ST : Store}
  {SC : StoreContract ST}.
Implicit Types (d : data) (w : world) (m : Manager).

Lemma checkTrust_spec m dev ik d :
  good d →
  wp (checkTrust m dev ik)
    (λ r d', good d' ∧ a_sessions (av d') = a_sessions (av d) ∧
      a_remote (av d') = a_remote (av d) ∧
      (∀ D, enc_step D (av d) (av d')) ∧
      (r = Ok tt → trust_of (av d') ik = TrustTrusted)) d.
Proof.
  intros Hg. unfold checkTrust. apply wp_try. read_step.
  2: { rewrite Hav. by split_and!. }
  destruct (_ =? TrustTrusted)%Z eqn:Ht; [apply Z.eqb_eq in Ht|apply Z.eqb_neq in Ht].
  { apply wp_pure. rewrite Hav. by split_and!. }
  destruct (_ =? TrustUntrusted)%Z eqn:Hu; [|apply Z.eqb_neq in Hu].
  { apply wp_pure. rewrite Hav. by split_and!. }
  destruct (m_trustResolver m) as [f|].
  2: { apply wp_pure. rewrite Hav. by split_and!. }
  apply wp_bind, wp_resolve. destruct (f dev ik (d_env d0)) as [[e|] v]; simpl.
  { apply wp_pure. rewrite av_with_env, Hav. by split_and!. }
  write_step; rewrite Hav0, av_with_env, Hav; [|by split_and!].
  split_and!; try done; [intros D; by apply set_trust_step|].
  intros _. rewrite trust_of_insert. by rewrite decide_True.
Qed.

Lemma getOrCreateActiveSession_spec m dev d :
  good d →
  wp (getOrCreateActiveSession m dev)
    (λ r d', good d' ∧ a_sessions (av d') = a_sessions (av d) ∧
      enc_step (λ dev', dev' = dev) (av d) (av d') ∧
      ∀ s kx, r = Ok (s, kx) → session_ok s ∧
        (kx = None ↔ is_Some (a_sessions (av d) !! dev))) d.
Proof.
  intros Hg. unfold getOrCreateActiveSession. apply wp_try. read_step.
  2: { rewrite Hav. by split_and!. }
  destruct (a_sessions (av d) !! dev) as [b|] eqn:Hs.
  { apply wp_try, wp_pure. destruct (LoadSession _ b) as [s|e] eqn:Hl; simpl.
    - apply wp_pure. rewrite Hav. split_and!; try done. intros s' kx [= <- <-].
      split; [by eapply LoadSession_ok|done].
    - rewrite Hav. by split_and!. }
  apply wp_try, wp_net. simpl. destruct (FetchBundle dev (d_env d0)) as [[bundle|e] v]; simpl.
  2: { rewrite av_with_env, Hav. by split_and!. }
  destruct (B_PreKeys bundle) as [|pk pks]; [apply wp_pure; rewrite av_with_env, Hav;
    by split_and!|].
  apply wp_try. eapply wp_mono; [apply wp_and; [apply NewActiveSession_ok|
    by apply (wp_crypto_only _ (λ _ d', good d' ∧ av d' = av d))]|].
  intros [[sess ek]|e] d1 (Hok & Hg1 & Hav1); simpl; [|by rewrite Hav1; split_and!].
  specialize (Hok _ _ eq_refl). apply wp_try.
  write_step; [|by rewrite Hav0, Hav1; split_and!].
  assert (enc_step (λ dev', dev' = dev) (av d) (av d2)) as Hstep
    by (rewrite Hav0, Hav1; by apply put_remote_step).
  apply wp_try, wp_pure. destruct (IdentityPublicKey _ _) as [pub|e]; simpl.
  - apply wp_pure. split_and!; [done|by rewrite Hav0, Hav1|done|].
    intros s kx [= <- <-]. split; [done|]. split; [done|by intros [??]].
  - split_and!; [done|by rewrite Hav0, Hav1|done|done].
Qed.

Lemma putSession_spec dev s d :
  good d →
  wp (putSession dev s)
    (λ r d', good d' ∧
      match r with
      | Ok _ => ∃ b, Session_Marshal s = Ok b ∧
          av d' = set_sessions (<[dev := b]> (a_sessions (av d))) (av d)
      | Err _ => av d' = av d
      end) d.
Proof.
  intros Hg. unfold putSession. apply wp_try, wp_pure.
  destruct (Session_Marshal s) as [b|e]; simpl; [|by split].
  apply wp_try. write_step; [|by split]. apply wp_pure. split; [done|]. by exists b.
Qed.

Lemma encryptForDevice_locked_spec m dev km d :
  good d →
  wp (encryptForDevice_locked m dev km)
    (λ r d', good d' ∧ enc_step (λ dev', dev' = dev) (av d) (av d') ∧
      match r with
      | Ok key => RK_Device key = ID dev ∧
          (RK_KeyExchange key = None ↔ is_Some (a_sessions (av d) !! dev)) ∧
          trusted_session dev (av d')
      | Err _ => a_sessions (av d') = a_sessions (av d)
      end) d.
Proof.
  intros Hg. unfold encryptForDevice_locked. apply wp_try.
  eapply wp_mono; [by apply getOrCreateActiveSession_spec|].
  intros [[s kx]|e] d1 (Hg1 & Hse1 & Hst1 & Hs); simpl; [|by split_and!].
  destruct (Hs _ _ eq_refl) as [Hok Hkx]. apply wp_try. read_step; rewrite ?Hav; [|done].
  destruct (a_remote (av d1) !! dev) as [ik|] eqn:Hik.
  2: { apply wp_pure. by rewrite Hav. }
  apply wp_try. eapply wp_mono; [by apply checkTrust_spec|].
  intros [[]|e] d2 (Hg2 & Hse2 & Hre2 & Hst2 & Htr); simpl; rewrite ?Hav in *.
  2: { split_and!; [done|by etrans|congruence]. }
  specialize (Htr eq_refl). apply wp_bind.
  apply wp_crypto_only; [apply _|]. intros [r s'] g. simpl. apply wp_try, wp_pure.
  assert (enc_step (λ dev', dev' = dev) (av d) (av d2)) as Hst by (by etrans).
  destruct r as [data|e]; simpl.
  2: { rewrite av_with_rng. split_and!; [done|done|congruence]. }
  apply wp_try. eapply wp_mono; [by apply putSession_spec|].
  intros [[]|e] d3 [Hg3 Hp]; simpl; rewrite av_with_rng in Hp.
  2: { rewrite Hp. split_and!; [done|done|congruence]. }
  destruct Hp as (b & _ & Hp). apply wp_pure. rewrite Hp. simpl. split_and!; try done.
  - etrans; [exact Hst|]. apply put_session_step.
  - unfold trusted_session. simpl. rewrite lookup_insert_eq, Hre2. split; [by eexists|].
    exists ik. by split.
Qed.

(** C31: the trust decision, on every branch (for a store without I/O errors).
    A trusted key passes and a blocked one is refused with
    [ErrBlockedDevice], both without consulting the resolver or changing
    anything; an undecided one is refused with [ErrUntrustedDevice] when no
    resolver is set, refused with the resolver's own error and left undecided
    when the resolver declines, and otherwise passes and is trusted from then
    on, with every other key's trust unchanged. *)
Theorem checkTrust_decision {RS : ReliableStore ST} m dev ik d :
  good d →
  let st := trust_of (av d) ik in
  wp (checkTrust m dev ik)
    (λ r d',
      (st = TrustTrusted → r = Ok tt ∧ av d' = av d ∧ store_only d d') ∧
      (st = TrustUntrusted →
        r = Err (Sentinel ErrBlockedDevice) ∧ av d' = av d ∧ store_only d d') ∧
      (st ≠ TrustTrusted → st ≠ TrustUntrusted →
        match m_trustResolver m with
        | None => r = Err (Sentinel ErrUntrustedDevice) ∧ av d' = av d ∧ store_only d d'
        | Some f =>
            d_env d' = (f dev ik (d_env d)).2 ∧
            match (f dev ik (d_env d)).1 with
            | Some e => r = Err e ∧ av d' = av d
            | None => r = Ok tt ∧ ∀ ik', trust_of (av d') ik' =
                if decide (go_string ik = go_string ik') then TrustTrusted
                else trust_of (av d) ik'
            end
        end)) d.
Proof.
  intros Hg st. unfold checkTrust. apply wp_try. read_ok. fold st.
  destruct (st =? TrustTrusted)%Z eqn:Ht; [apply Z.eqb_eq in Ht|apply Z.eqb_neq in Ht].
  { apply wp_pure. rewrite Ht. by split_and!. }
  destruct (st =? TrustUntrusted)%Z eqn:Hu; [apply Z.eqb_eq in Hu|apply Z.eqb_neq in Hu].
  { apply wp_pure. rewrite Hu. by split_and!. }
  destruct (m_trustResolver m) as [f|]; [|apply wp_pure; by split_and!].
  destruct Hso as [He Hr]. apply wp_bind, wp_resolve. rewrite He.
  destruct (f dev ik (d_env d)) as [[e|] v]; simpl.
  { apply wp_pure. split_and!; try done. }
  write_ok. destruct Hso as [He' _]. split_and!; try done. intros _ _.
  rewrite Hav0, av_with_env, Hav. split_and!; [done..|]. intros ik'. apply trust_of_insert.
Qed.

(** ** The fan-out *)

(** What happened to each recipient device, in order. *)
Definition outcomes : Type := list (Device * result RecipientKey).

Definition outcome_keys (os : outcomes) : list RecipientKey :=
  omap (λ o, match o.2 with Ok k => Some k | Err _ => None end) os.
Definition outcome_errs (os : outcomes) : list DeviceError :=
  omap (λ o, match o.2 with Ok _ => None | Err e => Some (MkDeviceError o.1 e) end) os.

(** Keys are labelled with the ID of their device, whose session is trusted. *)
Definition outcomes_ok (os : outcomes) (a : astore) : Prop :=
  ∀ dev k, (dev, Ok k) ∈ os → RK_Device k = ID dev ∧ trusted_session dev a.

(** A device that was not encrypted for keeps its session as it was. *)
Definition only_encrypted (os : outcomes) (a a' : astore) : Prop :=
  ∀ dev, (∀ k, (dev, Ok k) ∉ os) → a_sessions a' !! dev = a_sessions a !! dev.

Lemma encrypt_loop_spec m km devices keys errs w :
  quiet (w_lk w) → good (w_data w) →
  wpr (encrypt_loop m km devices keys errs)
    (λ r w', quiet (w_lk w') ∧ good (w_data w') ∧
      enc_step (λ dev, dev ∈ devices ∧ dev ≠ m_localDevice m)
        (av (w_data w)) (av (w_data w')) ∧
      ∃ os, r = (keys ++ outcome_keys os, errs ++ outcome_errs os) ∧
        os.*1 = filter (λ dev, dev ≠ m_localDevice m) devices ∧
        outcomes_ok os (av (w_data w')) ∧
        only_encrypted os (av (w_data w)) (av (w_data w'))) w.
Proof.
  revert keys errs w. induction devices as [|dev devices IH]; intros keys errs w Hq Hg;
    cbn [encrypt_loop].
  { apply wpr_ret. split_and!; [done..|]. exists []. rewrite !app_nil_r.
    split_and!; [done..| |by intros ?]. intros dev k Hk. by apply elem_of_nil in Hk. }
  rewrite filter_cons. case_decide as Hdev; [rewrite decide_False by naive_solver|
    rewrite decide_True by done].
  - eapply wpr_mono; [by apply IH|]. intros r w' (? & ? & Hst & Hos).
    split_and!; try done. eapply enc_step_mono; [|done]. set_solver.
  - apply wpr_bind, wpr_with_deviceLock; [done|].
    eapply wp_mono; [by apply encryptForDevice_locked_spec|].
    intros r d' (Hg' & Hst & Hr) lk' Hq'.
    assert (enc_step (λ x, x ∈ dev :: devices ∧ x ≠ m_localDevice m)
      (av (w_data w)) (av d')) as Hst'.
    { eapply enc_step_mono; [|done]. intros ? ->. split; [set_solver|done]. }
    destruct r as [key|e].
    all: eapply wpr_mono; [by apply IH|].
    all: intros r w' (Hq2 & Hg2 & Hst2 & os & -> & Hdevs & Hos & Honly); simpl in *.
    all: split_and!; [done|done|etrans; [done|]; eapply enc_step_mono; [|done]; set_solver|].
    + exists ((dev, Ok key) :: os). rewrite <-app_assoc, fmap_cons, Hdevs.
      split_and!; [done..| |].
      * intros dev' k [[= -> ->]|Hin]%elem_of_cons; [|by apply Hos].
        destruct Hr as (? & _ & Hts). split; [done|]. by eapply trusted_session_step.
      * intros dev' Hno. rewrite Honly by set_solver. apply Hst.
        intros ->. apply (Hno key). set_solver.
    + exists ((dev, Err e) :: os). rewrite <-app_assoc, fmap_cons, Hdevs.
      split_and!; [done..| |].
      * intros dev' k [?|Hin]%elem_of_cons; [done|by apply Hos].
      * intros dev' Hno. rewrite Honly by set_solver. by rewrite Hr.
Qed.

(** ** Recipients *)

(** Only the stored device lists differ. *)
Definition devices_step (a a' : astore) : Prop := a' = set_devices (a_devices a') a.

#[global] Instance devices_step_preorder : PreOrder devices_step.
Proof.
  split; [by intros []|]. intros [] [] [] H1 H2. unfold devices_step in *.
  injection H1; injection H2. intros. by subst.
Qed.

Lemma devicesFor_spec jid d :
  good d →
  wp (devicesFor jid)
    (λ r d', good d' ∧ devices_step (av d) (av d') ∧
      (∀ j, j ≠ jid → devices_of (av d') j = devices_of (av d) j) ∧
      (∀ ds, r = Ok ds → ds = devices_of (av d') jid) ∧
      (devices_of (av d) jid ≠ [] → av d' = av d ∧ store_only d d')) d.
Proof.
  intros Hg. unfold devicesFor. apply wp_try.
  read_step; [|rewrite Hav; split_and!; done].
  case_decide as Hlen.
  { apply wp_pure. rewrite Hav. split_and!; try done. by intros ds [= <-]. }
  assert (devices_of (av d) jid = []) as Hnil
    by (destruct (devices_of (av d) jid); simpl in *; [done|lia]).
  apply wp_try, wp_try, wp_net. simpl.
  destruct (FetchDeviceList jid (d_env d0)) as [[l|e] v]; simpl.
  2: { rewrite av_with_env, Hav. split_and!; done. }
  write_step; rewrite av_with_env, Hav in *.
  2: { rewrite Hav0. split_and!; done. }
  assert (∀ j, j ≠ jid → devices_of (set_devices (<[jid := DL_Devices l]>
    (a_devices (av d))) (av d)) j = devices_of (av d) j) as Hother.
  { intros j Hj. unfold devices_of. simpl. by rewrite lookup_insert_ne. }
  read_step; rewrite Hav1, Hav0; split_and!; try done. by intros ds [= <-].
Qed.

(** The devices a message for [jid] goes to, as the store lists them; [own]
    are the local account's devices when those are known. *)
Definition recipients (m : Manager) (jid : string) (a : astore) (devs : list Device) : Prop :=
  ∃ own, devs = map (MkDevice jid) (devices_of a jid) ++
                map (MkDevice (JID (m_localDevice m))) own ∧
    (own = [] ∨ (jid ≠ JID (m_localDevice m) ∧
                 own = devices_of a (JID (m_localDevice m)))).

(** Only the stored device lists differ, and those only if one was not known. *)
Definition lists_step (m : Manager) (jid : string) (a a' : astore) : Prop :=
  devices_step a a' ∧
  (devices_of a jid ≠ [] → devices_of a (JID (m_localDevice m)) ≠ [] → a' = a).

Lemma recipientDevices_spec m jid d :
  good d →
  wp (recipientDevices m jid)
    (λ r d', good d' ∧ lists_step m jid (av d) (av d') ∧
      ∀ devs, r = Ok devs → recipients m jid (av d') devs) d.
Proof.
  intros Hg. unfold recipientDevices, lists_step. apply wp_try.
  eapply wp_mono; [by apply devicesFor_spec|].
  intros [ds|e] d1 (Hg1 & Hst1 & _ & Hds & Hk1); simpl; [|naive_solver].
  rewrite (Hds _ eq_refl). case_decide as Hj.
  { apply wp_pure. split_and!; [done|done|naive_solver|]. intros devs [= <-]. exists [].
    rewrite app_nil_r. split; [done|by left]. }
  apply wp_bind. eapply wp_mono; [by apply devicesFor_spec|].
  intros r d2 (Hg2 & Hst2 & Hother & Hown & Hk2).
  rewrite <-(Hother jid) by done. assert (devices_step (av d) (av d2)) by (by etrans).
  assert (devices_of (av d) jid ≠ [] → devices_of (av d) (JID (m_localDevice m)) ≠ [] →
    av d2 = av d) as Hkeep.
  { intros H1 H2. destruct (Hk1 H1) as [Heq _]. rewrite <-Heq. apply Hk2. by rewrite Heq. }
  destruct r as [own|e]; apply wp_pure; (split_and!; [done..|]); intros devs [= <-].
  - exists own. split; [done|]. right. split; [done|by apply Hown].
  - exists []. rewrite app_nil_r. split; [done|by left].
Qed.

(** ** EncryptMessage *)

(** How one call of encrypt ends: it failed before any device was tried, or
    every recipient has an outcome. *)
Definition encrypt_post (m : Manager) (jid : string) (plaintext : gobytes) (w : world)
    (r : encrypt_results) (w' : world) : Prop :=
  quiet (w_lk w') ∧ good (w_data w') ∧
  ∃ a1, lists_step m jid (av (w_data w)) a1 ∧
  ((∃ e, r = (None, [], Some e) ∧ av (w_data w') = a1) ∨
   ∃ devs os, recipients m jid (av (w_data w')) devs ∧
     os.*1 = filter (λ dev, dev ≠ m_localDevice m) devs ∧
     enc_step (λ dev, dev ∈ devs ∧ dev ≠ m_localDevice m) a1 (av (w_data w')) ∧
     outcomes_ok os (av (w_data w')) ∧ only_encrypted os a1 (av (w_data w')) ∧
     ((outcome_keys os = [] ∧ r = (None, outcome_errs os, Some (Sentinel ErrNoRecipients))) ∨
      ∃ msg, outcome_keys os ≠ [] ∧ r = (Some msg, outcome_errs os, None) ∧
        Sender msg = m_localDevice m ∧ Keys msg = outcome_keys os ∧
        (plaintext = None → Payload msg = None ∧ IV msg = None))).

Lemma encrypt_spec m jid plaintext w :
  quiet (w_lk w) → good (w_data w) →
  wpr (encrypt m jid plaintext) (encrypt_post m jid plaintext w) w.
Proof.
  intros Hq Hg. unfold encrypt, encrypt_post. apply wpr_bind, wpr_lift.
  eapply wp_mono; [by apply recipientDevices_spec|].
  intros [devs|e] d1 (Hg1 & Hst1 & Hdevs); simpl.
  2: { apply wpr_ret. split_and!; [done..|]. exists (av d1). split; [done|]. left. eauto. }
  apply wpr_bind, wpr_lift, wp_crypto_only; [apply _|].
  intros [[[km iv] ct]|e] g; simpl.
  2: { apply wpr_ret. split_and!; [done..|]. exists (av d1). split; [done|]. left. eauto. }
  destruct (if is_nil plaintext then (None, None) else (ct, iv)) as [ct' iv'] eqn:Hnil.
  apply wpr_bind. eapply wpr_mono; [by apply encrypt_loop_spec|].
  intros r w' (Hq' & Hg' & Hst & os & -> & Hos & Hok & Honly). cbn [app].
  assert (recipients m jid (av (w_data w')) devs) as Hrec.
  { destruct (Hdevs _ eq_refl) as (own & -> & Hown). exists own.
    unfold devices_of. destruct (enc_keys _ _ _ Hst) as (_ & _ & _ & _ & _ & _ & ->).
    by simpl. }
  case_decide as Hlen; apply wpr_ret; (split_and!; [done..|]); exists (av d1);
    (split; [done|]); right; exists devs, os; split_and!; try done; [left|right].
  - split; [by apply nil_length_inv|done].
  - eexists. split_and!; [by intros Heq; rewrite Heq in Hlen|done|done|done|].
    intros ->. simpl in Hnil. by simplify_eq.
Qed.

Lemma devices_step_trust a a1 ik : devices_step a a1 → trust_of a1 ik = trust_of a ik.
Proof. by intros ->. Qed.

Lemma elem_of_outcome_keys os k :
  k ∈ outcome_keys os ↔ ∃ dev, (dev, Ok k) ∈ os.
Proof.
  unfold outcome_keys. rewrite list_elem_of_omap. split.
  - intros ([dev [k'|e]] & Hin & Heq); simplify_eq/=. by exists dev.
  - intros [dev Hin]. by exists (dev, Ok k).
Qed.

Lemma recipients_jid m jid a devs dev :
  recipients m jid a devs → dev ∈ devs →
  JID dev = jid ∨ JID dev = JID (m_localDevice m).
Proof.
  intros (own & -> & _). rewrite elem_of_app, !list_elem_of_fmap.
  intros [(? & -> & _)|(? & -> & _)]; [by left|by right].
Qed.

(** The own devices [recipientDevices] adds for a message to [jid]: none when
    the message is for the own account or they cannot be learned. *)
Definition own_ids (m : Manager) (jid : string) : prog baseE (list DeviceID) :=
  if decide (jid = JID (m_localDevice m)) then pure []
  else
    r ← devicesFor (JID (m_localDevice m));
    pure (match r with Ok ids => ids | Err _ => [] end).

Definition listed (m : Manager) (jid : string) (ids own : list DeviceID) : list Device :=
  map (MkDevice jid) ids ++ map (MkDevice (JID (m_localDevice m))) own.

Lemma recipientDevices_eval m jid d :
  eval (recipientDevices m jid) d =
  let '(r, d1) := eval (devicesFor jid) d in
  match r with
  | Err e => (Err e, d1)
  | Ok ids => let '(own, d2) := eval (own_ids m jid) d1 in (Ok (listed m jid ids own), d2)
  end.
Proof.
  unfold recipientDevices, own_ids, listed. rewrite eval_try.
  destruct (eval (devicesFor jid) d) as [[ids|e] d1]; [|done]. cbn [fst snd]. case_decide.
  - rewrite !eval_pure. simpl. by rewrite app_nil_r.
  - rewrite !eval_bind. destruct (eval (devicesFor _) d1) as [[own|e] d2]; [done|].
    simpl. by rewrite app_nil_r.
Qed.

(** Encrypting [km] for the devices one after the other, whatever happens to
    those before: what each call of [encryptForDevice] answers. *)
Inductive fan_out (m : Manager) (km : gobytes) : list Device → world → outcomes → world → Prop :=
  | fan_out_nil w : fan_out m km [] w [] w
  | fan_out_device dev devs w r w1 os w2 :
      run (encryptForDevice m dev km) w = Done r w1 → fan_out m km devs w1 os w2 →
      fan_out m km (dev :: devs) w ((dev, r) :: os) w2.

Lemma fan_out_devices m km devs w os w' : fan_out m km devs w os w' → os.*1 = devs.
Proof. induction 1 as [|??????? _ _ IH]; [done|]. by rewrite fmap_cons, IH. Qed.

Lemma encrypt_loop_fan_out m km devices keys errs w :
  quiet (w_lk w) → good (w_data w) →
  wpr (encrypt_loop m km devices keys errs)
    (λ r w', quiet (w_lk w') ∧
      ∃ os, fan_out m km (filter (λ dev, dev ≠ m_localDevice m) devices) w os w' ∧
        (∀ dev k, (dev, Ok k) ∈ os → RK_Device k = ID dev) ∧
        r = (keys ++ outcome_keys os, errs ++ outcome_errs os)) w.
Proof.
  revert keys errs w. induction devices as [|dev devices IH]; intros keys errs w Hq Hg;
    cbn [encrypt_loop].
  { apply wpr_ret. split; [done|]. exists []. rewrite !app_nil_r.
    split_and!; [constructor|set_solver|done]. }
  rewrite filter_cons. case_decide as Hdev; [rewrite decide_False by naive_solver; by apply IH|
    rewrite decide_True by done].
  apply wpr_bind.
  assert (wpr (encryptForDevice m dev km) (λ r w1, quiet (w_lk w1) ∧ good (w_data w1) ∧
    ∀ k, r = Ok k → RK_Device k = ID dev) w) as H1.
  { apply wpr_with_deviceLock; [done|].
    eapply wp_mono; [by apply encryptForDevice_locked_spec|].
    intros r d' (Hg' & _ & Hr) lk' Hq'. split_and!; [done..|].
    intros k ->. by destruct Hr. }
  unfold wpr in H1. unfold wpr at 1.
  destruct (run (encryptForDevice m dev km) w) as [r w1| |] eqn:Hrun; [|done..].
  destruct H1 as (Hq1 & Hg1 & Hlab).
  destruct r as [key|e]; (eapply wpr_mono; [by apply IH|]);
    intros r w' (Hq' & os & Hf & Hl & ->); (split; [done|]).
  - exists ((dev, Ok key) :: os). rewrite <-app_assoc.
    split_and!; [by econstructor| |done].
    intros dev' k [[= -> ->]|Hin]%elem_of_cons; [by apply Hlab|by apply Hl].
  - exists ((dev, Err e) :: os). rewrite <-app_assoc.
    split_and!; [by econstructor| |done].
    intros dev' k [?|Hin]%elem_of_cons; [done|by apply Hl].
Qed.

(** C23: the fan-out of [EncryptMessage] is complete and ordered.  From a state
    with no lock held the call always returns, with no lock held.  It fails
    before any device is tried in two cases only, with that error: the
    recipient's device list cannot be had ([devicesFor jid]), or the payload
    cannot be encrypted.  Otherwise [encryptForDevice] is called once for each
    recipient other than the sending device, in order (every listed device of
    the JID, then every device of the own account if the JID is another one and
    they can be listed; duplicates included), and none of them failing keeps the
    others from being tried.  The keys of the message are the successes in that
    order, each labelled with its device's ID, and the device errors are the
    failures in that order.  A message is returned if and only if some key
    succeeded, with the encrypted payload and its IV (neither for a nil
    plaintext); otherwise the error is [ErrNoRecipients]. *)
Theorem EncryptMessage_fanout m jid plaintext w :
  quiet (w_lk w) → good (w_data w) →
  wpr (EncryptMessage m jid plaintext)
    (λ r w', quiet (w_lk w') ∧
      let '(list, d1) := eval (devicesFor jid) (w_data w) in
      let '(own, d2) := eval (own_ids m jid) d1 in
      let '(payload, d3) :=
        eval (EncryptPayload (signal_Protocol (m_protocol m)) plaintext) d2 in
      match list, payload with
      | Err e, _ => r = (None, [], Some e)
      | Ok _, Err e => r = (None, [], Some (Wrapf "encrypt payload" e))
      | Ok ids, Ok (km, iv, ct) =>
          ∃ os, fan_out m km
              (filter (λ dev, dev ≠ m_localDevice m) (listed m jid ids own))
              (MkWorld d3 (w_lk w)) os w' ∧
            (∀ dev k, (dev, Ok k) ∈ os → RK_Device k = ID dev) ∧
            ((outcome_keys os = [] ∧
                r = (None, outcome_errs os, Some (Sentinel ErrNoRecipients))) ∨
             ∃ msg, outcome_keys os ≠ [] ∧ r = (Some msg, outcome_errs os, None) ∧
               Sender msg = m_localDevice m ∧ Keys msg = outcome_keys os ∧
               (Payload msg, IV msg) = if is_nil plaintext then (None, None) else (ct, iv))
      end) w.
Proof.
  intros Hq Hg. unfold EncryptMessage, encrypt. apply wpr_bind, wpr_lift.
  destruct (recipientDevices_spec m jid (w_data w) Hg) as [Hg2 _].
  unfold wp. rewrite recipientDevices_eval in *.
  destruct (eval (devicesFor jid) (w_data w)) as [[ids|e] d1]; [|by destruct (eval (own_ids m jid) d1),
    (eval (EncryptPayload _ plaintext) _)].
  destruct (eval (own_ids m jid) d1) as [own d2]. cbn [fst snd] in *.
  apply wpr_bind, wpr_lift. pose proof (wp_crypto_only
    (EncryptPayload (signal_Protocol (m_protocol m)) plaintext) (λ _ d', good d') d2) as Hg3.
  unfold wp in *. cbn [w_data w_lk].
  destruct (eval (EncryptPayload _ plaintext) d2) as [[[[km iv] ct]|e] d3]; cbn [fst snd] in *;
    [|by apply wpr_ret].
  destruct (if is_nil plaintext then _ else _) as [ct' iv'] eqn:Hnil.
  apply wpr_bind. eapply wpr_mono; [apply encrypt_loop_fan_out; [done|by apply Hg3]|].
  intros r w' (Hq' & os & Hf & Hlab & ->). cbn [app].
  case_decide as Hlen; apply wpr_ret; (split; [done|]); exists os; (split_and!; [done..|]);
    [left|right].
  - split; [by apply nil_length_inv|done].
  - eexists. split_and!; [by intros Heq; rewrite Heq in Hlen|done..].
Qed.

(** C17: nothing is ever encrypted for a device that is not trusted.  Whenever
    [EncryptMessage] returns a message, every key in it is for a device of
    the recipient or of the local account, other than the sending device,
    whose identity key as recorded in the store is [TrustTrusted] when the
    call returns and was not [TrustUntrusted] when it started. *)
Theorem EncryptMessage_trusted_only m jid plaintext w :
  quiet (w_lk w) → good (w_data w) →
  wpr (EncryptMessage m jid plaintext)
    (λ r w', ∀ msg errs err k, r = (Some msg, errs, err) → k ∈ Keys msg →
      ∃ dev ik, dev ≠ m_localDevice m ∧
        (JID dev = jid ∨ JID dev = JID (m_localDevice m)) ∧ RK_Device k = ID dev ∧
        a_remote (av (w_data w')) !! dev = Some ik ∧
        trust_of (av (w_data w')) ik = TrustTrusted ∧
        trust_of (av (w_data w)) ik ≠ TrustUntrusted) w.
Proof.
  intros Hq Hg. eapply wpr_mono; [by apply encrypt_spec|].
  intros r w' (_ & _ & a1 & [Hdev _] & Hcase) msg errs err k -> Hk.
  destruct Hcase as [(e & [=] & _)|(devs & os & Hrec & Hos & Hst & Hok & _ & Hr)].
  destruct Hr as [[_ [=]]|(msg' & _ & [= -> -> ->] & _ & HK & _)].
  rewrite HK in Hk. apply elem_of_outcome_keys in Hk as [dev Hin].
  destruct (Hok _ _ Hin) as (Hid & _ & ik & Hre & Htr).
  assert (dev ∈ os.*1) as Hd by (apply list_elem_of_fmap; by exists (dev, Ok k)).
  rewrite Hos in Hd. apply list_elem_of_filter in Hd as [Hne Hd].
  exists dev, ik. split_and!; [done|by eapply recipients_jid|done..|].
  rewrite <-(devices_step_trust _ _ ik Hdev). intros Hun.
  destruct (enc_trust _ _ _ Hst ik) as [Heq|(_ & Hnu & _)]; [|done].
  rewrite Htr, Hun in Heq. done.
Qed.

(** C29: what [EncryptMessage] leaves alone.  The device's own identity, signed
    prekeys and one-time pool are unchanged; trust moves only from undecided
    to trusted; and the stored sessions change only for devices a key was
    made for, so a call that returns no message changes no session. *)
Theorem EncryptMessage_frame m jid plaintext w :
  quiet (w_lk w) → good (w_data w) →
  wpr (EncryptMessage m jid plaintext)
    (λ r w', let a := av (w_data w) in let a' := av (w_data w') in
      a_identity a' = a_identity a ∧ a_local a' = a_local a ∧
      a_current a' = a_current a ∧ a_stale a' = a_stale a ∧
      a_pool a' = a_pool a ∧ a_issued a' = a_issued a ∧ trust_step a a' ∧
      ∀ dev, a_sessions a' !! dev ≠ a_sessions a !! dev →
        ∃ msg k, r.1.1 = Some msg ∧ k ∈ Keys msg ∧ RK_Device k = ID dev) w.
Proof.
  intros Hq Hg. eapply wpr_mono; [by apply encrypt_spec|].
  intros r w' (_ & _ & a1 & [Hdev _] & Hcase). cbv zeta.
  destruct Hcase as [(e & -> & ->)|(devs & os & _ & _ & Hst & Hok & Honly & Hr)].
  { rewrite Hdev. split_and!; [done..|by left|]. by intros dev []. }
  destruct (enc_keys _ _ _ Hst) as (-> & -> & -> & -> & -> & -> & _).
  pose proof (enc_trust _ _ _ Hst) as Htrust.
  assert (trust_step (av (w_data w)) (av (w_data w'))) as Htr.
  { intros ik. rewrite <-(devices_step_trust _ _ ik Hdev). apply Htrust. }
  assert (a_sessions a1 = a_sessions (av (w_data w))) as Hse by (by rewrite Hdev).
  rewrite Hdev. split_and!; try done. intros dev Hchanged.
  destruct (decide (Exists (λ o, o.1 = dev ∧ is_ok o.2) os)) as [Hex|Hno].
  - apply Exists_exists in Hex as ([dev' [k|e]] & Hin & Heq & His); [|done].
    simpl in Heq. subst dev'.
    assert (k ∈ outcome_keys os) as Hk by (apply elem_of_outcome_keys; by exists dev).
    destruct Hr as [[Hnil _]|(msg & _ & -> & _ & HK & _)]; [by rewrite Hnil in Hk; set_solver|].
    exists msg, k. split_and!; [done|by rewrite HK|by apply (Hok dev k)].
  - destruct Hchanged. rewrite <-Hse. apply Honly. intros k Hin. apply Hno.
    apply Exists_exists. by exists (dev, Ok k).
Qed.

(** Session bootstrap for one device.  A successful [encryptForDevice]
    returns a key labelled with the device's ID that carries a KeyExchange
    exactly when no session was stored before, and leaves a session stored
    and the recorded identity key trusted; a failure changes no session, so
    the next attempt bootstraps again and still carries the KeyExchange. *)
Theorem encryptForDevice_bootstrap m dev km w :
  quiet (w_lk w) → good (w_data w) →
  wpr (encryptForDevice m dev km)
    (λ r w', quiet (w_lk w') ∧
      let a := av (w_data w) in let a' := av (w_data w') in
      match r with
      | Ok key => RK_Device key = ID dev ∧
          (is_Some (RK_KeyExchange key) ↔ a_sessions a !! dev = None) ∧
          trusted_session dev a'
      | Err _ => a_sessions a' = a_sessions a
      end) w.
Proof.
  intros Hq Hg. apply wpr_with_deviceLock; [done|].
  eapply wp_mono; [by apply encryptForDevice_locked_spec|].
  intros r d' (_ & _ & Hr) lk' Hq'. split; [done|]. simpl.
  destruct r as [key|e]; [|done]. destruct Hr as (? & Hkx & ?). split_and!; try done.
  rewrite eq_None_not_Some, <-Hkx. destruct (RK_KeyExchange key); naive_solver.
Qed.

(** Recipients are best effort on the sender's side only: whether
    [recipientDevices] succeeds depends on the recipient's device list alone
    (a failure to learn the account's own devices is dropped), and when it
    succeeds it lists the recipient's devices, followed by the account's own
    ones if they are known and the recipient is another account. *)
Theorem recipientDevices_best_effort m jid d :
  good d →
  is_ok (eval (recipientDevices m jid) d).1 = is_ok (eval (devicesFor jid) d).1 ∧
  wp (recipientDevices m jid)
    (λ r d', devices_step (av d) (av d') ∧
      ∀ devs, r = Ok devs → recipients m jid (av d') devs) d.
Proof.
  intros Hg. split.
  - unfold recipientDevices, try. rewrite eval_bind.
    destruct (eval (devicesFor jid) d).1 as [ds|e]; [|done].
    case_decide; [done|]. rewrite eval_bind. by case_match.
  - eapply wp_mono; [by apply recipientDevices_spec|]. unfold lists_step. naive_solver.
Qed.
End Encrypt.
