(* ===== verification/ManagerDecrypt.v ===== *)
(** * Decryption: incoming sessions, one-time prekeys, failures

    Theorems about getOrCreateSessionForIncoming, DecryptMessage and
    ResetSession, for every store that meets the contract. *)
From S2P Require Import Prelude Types Errors StoreSpec Transport Xochimilco Prog.
From S2P Require Import ProgFacts StoreFacts Signal SignalFacts Manager LockFacts ManagerEncrypt.
From S2P Require Import ManagerKeys.

Section Decrypt.
Context `{GC : GoCrypto} {X : Xochimilco} {T : Transport} {ST : Store}
  {SC : StoreContract ST}.
Implicit Types (d : data) (w : world) (m : Manager).

(** The signed and one-time prekey IDs of an incoming key exchange. *)
Definition named_ids (m : Manager) (key : RecipientKey) : option (Z * Z) :=
  kx ← RK_KeyExchange key;
  if (m_protocol m =? ProtocolV1)%Z then
    match PeekLegacyPreKeyIDs (RK_Data key) with Ok ids => Some ids | Err _ => None end
  else Some (KX_SignedPreKeyID kx, KX_PreKeyID kx).

(** The one-time prekey an incoming key exchange names: in the message bytes
    for ProtocolV1, in the KeyExchange otherwise. *)
Definition named_prekey (m : Manager) (key : RecipientKey) : option Z :=
  match RK_KeyExchange key with
  | None => None
  | Some kx =>
      if (m_protocol m =? ProtocolV1)%Z then
        match PeekLegacyPreKeyIDs (RK_Data key) with
        | Ok (_, id) => Some id
        | Err _ => None
        end
      else Some (KX_PreKeyID kx)
  end.

(** The identity key an incoming key exchange claims to come from: in the
    message bytes for ProtocolV1, in the KeyExchange otherwise. *)
Definition claimed_key (m : Manager) (key : RecipientKey) : option gobytes :=
  match RK_KeyExchange key with
  | None => None
  | Some kx =>
      if (m_protocol m =? ProtocolV1)%Z then
        match ls_ParsePreKeyMessage (RK_Data key) with
        | Ok pm => Some (PM_IdentityKey pm)
        | Err _ => None
        end
      else Some (KX_IdentityKey kx)
  end.

(** The pool after a key exchange consumed what it named. *)
Definition consumed (o : option Z) (pool pool' : gmap Z PreKeyRecord) : Prop :=
  ∃ id rec, o = Some id ∧ pool !! id = Some rec ∧ pool' = delete id pool.

(** What decrypting may do: consume the named prekey, record an identity key
    for the sender, store a session for the sender; nothing else. *)
Record dec_step (sender : Device) (o : option Z) (a a' : astore) : Prop := {
  dec_keys : a_identity a' = a_identity a ∧ a_local a' = a_local a ∧
    a_current a' = a_current a ∧ a_stale a' = a_stale a ∧ a_issued a' = a_issued a ∧
    a_trust a' = a_trust a ∧ a_devices a' = a_devices a;
  dec_pool : a_pool a' = a_pool a ∨ consumed o (a_pool a) (a_pool a');
  dec_others dev : dev ≠ sender →
    a_sessions a' !! dev = a_sessions a !! dev ∧ a_remote a' !! dev = a_remote a !! dev }.

Lemma dec_step_refl sender o a : dec_step sender o a a.
Proof. split; [by split_and!|by left|done]. Qed.

Lemma dec_step_remote sender o a a' ik :
  dec_step sender o a a' →
  dec_step sender o a (set_remote (<[sender := ik]> (a_remote a')) a').
Proof.
  intros [K P O]. split; [done|done|]. intros dev Hne. simpl.
  destruct (O dev Hne). by rewrite lookup_insert_ne.
Qed.

Lemma dec_step_session sender o a a' b :
  dec_step sender o a a' →
  dec_step sender o a (set_sessions (<[sender := b]> (a_sessions a')) a').
Proof.
  intros [K P O]. split; [done|done|]. intros dev Hne. simpl.
  destruct (O dev Hne). by rewrite lookup_insert_ne.
Qed.

Lemma dec_step_consume sender id rec a :
  a_pool a !! id = Some rec →
  dec_step sender (Some id) a (set_pool (delete id (a_pool a)) a).
Proof. intros Hid. split; [by split_and!|right; by exists id, rec|done]. Qed.

(** The answer of getOrCreateSessionForIncoming: a well-formed session comes
    from the store, or from a key exchange whose prekey is now consumed. *)
Definition incoming_post (m : Manager) (sender : Device) (key : RecipientKey)
    (a : astore) (r : result (Session * gobytes)) d' : Prop :=
  good d' ∧ a_sessions (av d') = a_sessions a ∧
  dec_step sender (named_prekey m key) a (av d') ∧
  (RK_KeyExchange key = None → av d' = a) ∧
  ∀ s data, r = Ok (s, data) → session_ok s ∧
    if RK_KeyExchange key is Some _
    then consumed (named_prekey m key) (a_pool a) (a_pool (av d')) ∧
         ∃ ik, a_remote (av d') = <[sender := ik]> (a_remote a) ∧
           claimed_key m key = Some ik
    else is_Some (a_sessions a !! sender).

(** The prekey [id] was taken from the pool since [a]. *)
Definition after_consume (sender : Device) (id : Z) (a : astore) d : Prop :=
  good d ∧ a_sessions (av d) = a_sessions a ∧ dec_step sender (Some id) a (av d) ∧
  consumed (Some id) (a_pool a) (a_pool (av d)) ∧ a_remote (av d) = a_remote a.

Lemma incoming_failed m sender key a e d :
  good d → av d = a → incoming_post m sender key a (Err e) d.
Proof.
  intros Hg Hav. unfold incoming_post. rewrite Hav.
  split_and!; try done. apply dec_step_refl.
Qed.

Lemma incoming_failed_later m sender key kx id a e d :
  RK_KeyExchange key = Some kx → named_prekey m key = Some id →
  after_consume sender id a d → incoming_post m sender key a (Err e) d.
Proof.
  intros Hkx Hid (Hg & Hse & Hst & _). unfold incoming_post. rewrite Hkx, Hid.
  by split_and!.
Qed.

(** The steps both protocols share: consume the named prekey ... *)
Lemma consume_spec {A} m sender key kx id a (k : PreKeyRecord → prog baseE (result A))
    (Q : result A → data → Prop) d :
  good d → av d = a →
  (∀ e d', good d' → av d' = a → Q (Err e) d') →
  (∀ rec d', after_consume sender id a d' → wp (k rec) Q d') →
  RK_KeyExchange key = Some kx → named_prekey m key = Some id →
  wp (preKey <-? ask (OpConsumePreKey id) wrap (consume_prefix id); k preKey) Q d.
Proof.
  intros Hg <- Herr Hok Hkx Hid. apply wp_try, wp_ask_spec; [done|].
  intros r d' Hg' _ Hs. simpl in Hs.
  destruct Hs as [(rec & -> & Hrec & Hav)|[[e ->] Hav]]; [|by apply Herr].
  apply Hok. unfold after_consume. rewrite Hav.
  split_and!; [done|done|by eapply dec_step_consume|by exists id, rec|done].
Qed.

(** ... and record the sender's identity key. *)
Lemma record_spec m sender key kx id a ik s data d :
  RK_KeyExchange key = Some kx → named_prekey m key = Some id →
  after_consume sender id a d → session_ok s → claimed_key m key = Some ik →
  wp (_ <-? ask (OpPutRemoteIdentityKey sender ik) wrap "store identity key";
      pure (Ok (s, data)))
    (incoming_post m sender key a) d.
Proof.
  intros Hkx Hid (Hg & Hse & Hst & Hcon & Hre) Hok Hik. apply wp_try. write_step.
  2: { eapply incoming_failed_later; [done..|]. unfold after_consume. by rewrite Hav. }
  apply wp_pure. unfold incoming_post. rewrite Hkx, Hid, Hav.
  split_and!; [done|done|by apply dec_step_remote|done|].
  intros s' data' [= <- <-]. split_and!; [done|done|]. exists ik. simpl.
  by rewrite Hre.
Qed.

Lemma incoming_stored m sender key d :
  good d → RK_KeyExchange key = None →
  wp (getOrCreateSessionForIncoming m sender key) (incoming_post m sender key (av d)) d.
Proof.
  intros Hg Hkx. unfold getOrCreateSessionForIncoming. rewrite Hkx. apply wp_try.
  read_step; [|by apply incoming_failed].
  destruct (a_sessions (av d) !! sender) as [b|] eqn:Hb;
    [|by apply wp_pure, incoming_failed].
  apply wp_try, wp_pure. destruct (LoadSession _ b) as [s|e] eqn:Hl; simpl;
    [|by apply incoming_failed].
  apply wp_pure. unfold incoming_post. rewrite Hkx, Hav.
  split_and!; [done|done|apply dec_step_refl|done|].
  intros s' data [= <- <-]. split; [by eapply LoadSession_ok|by eexists].
Qed.

Lemma getOrCreateSessionForIncoming_spec m sender key d :
  good d →
  wp (getOrCreateSessionForIncoming m sender key) (incoming_post m sender key (av d)) d.
Proof.
  intros Hg. destruct (RK_KeyExchange key) as [kx|] eqn:Hkx; [|by apply incoming_stored].
  unfold getOrCreateSessionForIncoming. rewrite Hkx.
  destruct (m_protocol m =? ProtocolV1)%Z eqn:Hp.
  - apply wp_try, wp_pure. destruct (PeekLegacyPreKeyIDs (RK_Data key)) as [[sid id]|e]
      eqn:Hpeek; simpl; [|by apply incoming_failed].
    assert (named_prekey m key = Some id) as Hid
      by (unfold named_prekey; by rewrite Hkx, Hp, Hpeek).
    apply wp_try. eapply wp_mono; [by apply signedPreKeyByID_spec|].
    intros [spk|e] d1 (Hg1 & _ & Hav1 & _); simpl; [|by apply incoming_failed].
    eapply consume_spec; [done..|intros; by apply incoming_failed| |done|done].
    intros rec d2 Hd2. apply wp_try.
    eapply wp_mono; [apply wp_and; [apply NewPassiveSessionFromPreKeyBlob_ok|apply wp_and;
      [apply NewPassiveSessionFromPreKeyBlob_identity|
       by apply (wp_crypto_only _ (λ _ d', after_consume sender id (av d) d'))]]|].
    intros [[[s ik] dt]|e] d3 (Hok & Hik & Hd3); simpl.
    + eapply record_spec; [done..|by eapply Hok|]. unfold claimed_key. rewrite Hkx, Hp.
      by destruct (Hik _ _ _ eq_refl) as (pm & -> & ->).
    + by eapply incoming_failed_later.
  - assert (named_prekey m key = Some (KX_PreKeyID kx)) as Hid
      by (unfold named_prekey; by rewrite Hkx, Hp).
    apply wp_try. eapply wp_mono; [by apply signedPreKeyByID_spec|].
    intros [spk|e] d1 (Hg1 & _ & Hav1 & _); simpl; [|by apply incoming_failed].
    eapply consume_spec; [done..|intros; by apply incoming_failed| |done|done].
    intros rec d2 Hd2. apply wp_try.
    eapply wp_mono; [apply wp_and; [apply NewPassiveSession_ok|
      by apply (wp_crypto_only _ (λ _ d', after_consume sender (KX_PreKeyID kx) (av d) d'))]|].
    intros [s|e] d3 [Hok Hd3]; simpl.
    + eapply record_spec; [done..|by eapply Hok|]. unfold claimed_key. by rewrite Hkx, Hp.
    + by eapply incoming_failed_later.
Qed.

(** ** DecryptMessage *)

(** A session was opened for the message: with a KeyExchange its prekey is
    consumed, without one a session was stored. *)
Definition opened (m : Manager) (sender : Device) (key : RecipientKey) (a a' : astore) :
    Prop :=
  if RK_KeyExchange key is Some _
  then consumed (named_prekey m key) (a_pool a) (a_pool a')
  else is_Some (a_sessions a !! sender).

Definition decrypt_post (m : Manager) (msg : EncryptedMessage) (key : RecipientKey)
    (a : astore) (r : result gobytes) (a' : astore) : Prop :=
  dec_step (Sender msg) (named_prekey m key) a a' ∧
  match r with
  | Ok pt => is_Some (a_sessions a' !! Sender msg) ∧ (Payload msg = None → pt = None) ∧
      opened m (Sender msg) key a a'
  | Err e =>
      (a_sessions a' = a_sessions a ∨
        (Payload msg ≠ None ∧ (∃ e', e = Wrapf "decrypt payload" e') ∧
         opened m (Sender msg) key a a')) ∧
      (∀ e', e = Wrapf "ratchet decrypt" e' → a_sessions a' = a_sessions a ∧
        (is_Some (RK_KeyExchange key) → ∃ ik, a_remote a' !! Sender msg = Some ik ∧
          claimed_key m key = Some ik))
  end.

Lemma DecryptMessage_locked_spec m msg key d :
  good d →
  wp (DecryptMessage_locked m msg key)
    (λ r d', good d' ∧ decrypt_post m msg key (av d) r (av d')) d.
Proof.
  intros Hg. unfold DecryptMessage_locked, decrypt_post. apply wp_try.
  eapply wp_mono; [by apply getOrCreateSessionForIncoming_spec|].
  intros [[s data]|e] d1 (Hg1 & Hse & Hst & _ & Hok); simpl; [|by split_and!; [..|left|]].
  destruct (Hok _ _ eq_refl) as [_ Hcase]. apply wp_bind, wp_crypto_only; [apply _|].
  intros [r s'] g. simpl. apply wp_try, wp_pure.
  assert (is_Some (RK_KeyExchange key) → ∃ ik,
    a_remote (av d1) !! Sender msg = Some ik ∧ claimed_key m key = Some ik) as Hid.
  { destruct (RK_KeyExchange key) as [kx|]; [intros _|by intros [??]].
    destruct Hcase as (_ & ik & -> & Hik). exists ik. by rewrite lookup_insert_eq. }
  destruct r as [km|e]; simpl; [|rewrite av_with_rng; by split_and!; [..|left|]].
  apply wp_try. eapply wp_mono; [by apply putSession_spec|].
  intros [[]|e] d2 [Hg2 Hp]; simpl; rewrite av_with_rng in Hp.
  2: { rewrite Hp. by split_and!; [..|left|]. }
  destruct Hp as (b & _ & Hp).
  assert (dec_step (Sender msg) (named_prekey m key) (av d) (av d2)) as Hst2
    by (rewrite Hp; by apply dec_step_session).
  assert (is_Some (a_sessions (av d2) !! Sender msg)) as Hsome
    by (rewrite Hp; simpl; rewrite lookup_insert_eq; by eexists).
  assert (a_pool (av d2) = a_pool (av d1)) as Hpool by (by rewrite Hp).
  assert (opened m (Sender msg) key (av d) (av d2)) as Hopen
    by (unfold opened; rewrite Hpool; destruct (RK_KeyExchange key); naive_solver).
  destruct (is_nil (Payload msg)) eqn:Hnil; [apply wp_pure; by split_and!|].
  apply wp_try, wp_pure. destruct (DecryptPayload _ _ _ _) as [pt|e]; simpl.
  - apply wp_pure. split_and!; try done. intros Hn. by rewrite Hn in Hnil.
  - split_and!; [done|done| |done]. right. split_and!; [|by eexists|done].
    intros Hn. by rewrite Hn in Hnil.
Qed.

Lemma DecryptMessage_spec m msg key w :
  quiet (w_lk w) → good (w_data w) →
  own_key (ID (m_localDevice m)) (Keys msg) = Some key →
  wpr (DecryptMessage m msg)
    (λ r w', quiet (w_lk w') ∧ good (w_data w') ∧
      decrypt_post m msg key (av (w_data w)) r (av (w_data w'))) w.
Proof.
  intros Hq Hg Hkey. unfold DecryptMessage. rewrite Hkey.
  apply wpr_with_deviceLock; [done|].
  eapply wp_mono; [by apply DecryptMessage_locked_spec|]. intros r d' [??] lk' ?.
  by split_and!.
Qed.

(** What the search over [msg.Keys] selects: the first key for this device. *)
Lemma own_key_Some id keys key :
  own_key id keys = Some key ↔
  ∃ l1 l2, keys = l1 ++ key :: l2 ∧ RK_Device key = id ∧
    ∀ k, k ∈ l1 → RK_Device k ≠ id.
Proof.
  induction keys as [|k keys IH]; simpl.
  - split; [done|]. intros ([] & ? & ? & _); done.
  - case_decide as Hk.
    + split.
      * intros [= <-]. exists [], keys. split_and!; [done..|]. intros k'. set_solver.
      * intros ([|k' l1] & l2 & [= -> Heq] & Hid & Hno); [done|].
        destruct (Hno k'); [set_solver|done].
    + rewrite IH. split.
      * intros (l1 & l2 & -> & Hid & Hno). exists (k :: l1), l2.
        split_and!; [done..|]. set_solver.
      * intros ([|k' l1] & l2 & [= <- ->] & Hid & Hno); [done|].
        exists l1, l2. split_and!; [done..|]. set_solver.
Qed.

Lemma own_key_None id keys :
  own_key id keys = None ↔ ∀ k, k ∈ keys → RK_Device k ≠ id.
Proof.
  induction keys as [|k keys IH]; simpl; [set_solver|].
  case_decide as Hk; [|rewrite IH; set_solver].
  split; [done|]. intros H. destruct (H k); [set_solver|done].
Qed.

(** C25: what [DecryptMessage] may change.  It never changes trust, the
    device's own keys or the device lists; the only prekey it can consume is
    the one that the message's first key for this device names; it touches the session and identity key of the sender
    only; and when it fails no stored session changes, except that a message
    whose payload alone is corrupt has already advanced the ratchet. *)
Theorem DecryptMessage_frame m msg w :
  quiet (w_lk w) → good (w_data w) →
  wpr (DecryptMessage m msg)
    (λ r w', let a := av (w_data w) in let a' := av (w_data w') in
      quiet (w_lk w') ∧
      dec_step (Sender msg) (own_key (ID (m_localDevice m)) (Keys msg) ≫= named_prekey m) a a' ∧
      (∀ e, r = Err e → a_sessions a' = a_sessions a ∨
        (Payload msg ≠ None ∧ ∃ e', e = Wrapf "decrypt payload" e'))) w.
Proof.
  intros Hq Hg. destruct (own_key (ID (m_localDevice m)) (Keys msg)) as [key|] eqn:Hkey.
  - eapply wpr_mono; [by apply (DecryptMessage_spec _ _ key)|].
    intros r w' (Hq' & _ & Hst & Hr). split_and!; [done|exact Hst|].
    intros e ->. destruct Hr as [[?|(? & ? & _)] _]; [by left|by right].
  - unfold DecryptMessage. rewrite Hkey. apply wpr_ret.
    split_and!; [done|apply dec_step_refl|by left].
Qed.

(** C26: a successful decryption: the message has a key for this device, and
    the first such key was used; with a KeyExchange the named one-time prekey
    was in the pool and is now gone, without one a session was stored before;
    the sender has a stored session afterwards; and a key-transport message
    yields a nil plaintext. *)
Theorem DecryptMessage_success m msg w :
  quiet (w_lk w) → good (w_data w) →
  wpr (DecryptMessage m msg)
    (λ r w', let a := av (w_data w) in let a' := av (w_data w') in
      ∀ pt, r = Ok pt → ∃ l1 key l2, Keys msg = l1 ++ key :: l2 ∧
        RK_Device key = ID (m_localDevice m) ∧
        (∀ k, k ∈ l1 → RK_Device k ≠ ID (m_localDevice m)) ∧
        is_Some (a_sessions a' !! Sender msg) ∧ (Payload msg = None → pt = None) ∧
        opened m (Sender msg) key a a') w.
Proof.
  intros Hq Hg. destruct (own_key (ID (m_localDevice m)) (Keys msg)) as [key|] eqn:Hkey.
  - eapply wpr_mono; [by apply (DecryptMessage_spec _ _ key)|].
    cbv zeta. intros r w' (_ & _ & _ & Hr) pt ->.
    apply own_key_Some in Hkey as (l1 & l2 & ? & ? & ?). by exists l1, key, l2.
  - unfold DecryptMessage. rewrite Hkey. by apply wpr_ret.
Qed.

(** A message whose prekey is gone cannot open a session. *)
Lemma DecryptMessage_used_prekey m msg key kx id w :
  quiet (w_lk w) → good (w_data w) →
  own_key (ID (m_localDevice m)) (Keys msg) = Some key →
  RK_KeyExchange key = Some kx → named_prekey m key = Some id →
  a_pool (av (w_data w)) !! id = None →
  wpr (DecryptMessage m msg)
    (λ r w', (∃ e, r = Err e) ∧
      a_sessions (av (w_data w')) = a_sessions (av (w_data w)) ∧
      a_pool (av (w_data w')) = a_pool (av (w_data w))) w.
Proof.
  intros Hq Hg Hkey Hkx Hid Hnone.
  assert (∀ pool', ¬ consumed (Some id) (a_pool (av (w_data w))) pool') as Hno.
  { intros pool' (id' & rec & [= <-] & Hrec & _). congruence. }
  eapply wpr_mono; [by apply (DecryptMessage_spec _ _ key)|].
  intros r w' (_ & _ & Hst & Hr). unfold opened in Hr. rewrite Hkx, Hid in *.
  destruct r as [pt|e]; [by destruct Hr as (_ & _ & ?%Hno)|].
  split_and!; [by eexists| |].
  - destruct Hr as [[?|(_ & _ & ?%Hno)] _]; done.
  - by destruct (dec_pool _ _ _ _ Hst) as [?|?%Hno].
Qed.

(** After a key exchange was decrypted, its one-time prekey is gone. *)
Lemma DecryptMessage_consumes m msg key w :
  quiet (w_lk w) → good (w_data w) →
  own_key (ID (m_localDevice m)) (Keys msg) = Some key → is_Some (RK_KeyExchange key) →
  wpr (DecryptMessage m msg)
    (λ r w', quiet (w_lk w') ∧ good (w_data w') ∧
      (is_ok r → ∃ id, named_prekey m key = Some id ∧ a_pool (av (w_data w')) !! id = None)) w.
Proof.
  intros Hq Hg Hkey [kx Hkx]. eapply wpr_mono; [by apply (DecryptMessage_spec _ _ key)|].
  intros r w1 (Hq1 & Hg1 & _ & Hr). split_and!; [done..|]. intros Hok.
  destruct r as [pt|e]; [|done]. destruct Hr as (_ & _ & Hopen). unfold opened in Hopen.
  rewrite Hkx in Hopen. destruct Hopen as (id & rec & Hid & _ & Hpool). exists id.
  split; [done|]. rewrite Hpool. apply lookup_delete_eq.
Qed.

(** C24: no replay.  Once a key exchange has been decrypted, every message whose
    key for this device names the same one-time prekey (the same message
    again, or any other) is refused, and refusing it changes no session and
    no prekey. *)
Theorem DecryptMessage_no_replay m msg msg2 key key2 kx kx2 w :
  quiet (w_lk w) → good (w_data w) →
  own_key (ID (m_localDevice m)) (Keys msg) = Some key →
  own_key (ID (m_localDevice m)) (Keys msg2) = Some key2 →
  RK_KeyExchange key = Some kx → RK_KeyExchange key2 = Some kx2 →
  named_prekey m key = named_prekey m key2 →
  wpr (DecryptMessage m msg)
    (λ r1 w1, is_ok r1 →
      wpr (DecryptMessage m msg2)
        (λ r2 w2, (∃ e, r2 = Err e) ∧
          a_sessions (av (w_data w2)) = a_sessions (av (w_data w1)) ∧
          a_pool (av (w_data w2)) = a_pool (av (w_data w1))) w1) w.
Proof.
  intros Hq Hg Hkey Hkey2 Hkx Hkx2 Hnamed.
  eapply wpr_mono; [by apply (DecryptMessage_consumes _ _ key)|].
  intros r1 w1 (Hq1 & Hg1 & Hr) Hok. destruct (Hr Hok) as (id & Hid & Hpool).
  by eapply DecryptMessage_used_prekey; [..|rewrite <-Hnamed|].
Qed.

(** C39: the sender's recorded identity key is replaced by the one its key
    exchange claims (in the KeyExchange for ProtocolV2, in the message bytes for
    ProtocolV1) before the ratchet has authenticated anything: when a message
    with a KeyExchange is rejected by the ratchet, the stored session is still
    the old one but the recorded identity key is already the claimed one. *)
Theorem DecryptMessage_identity_before_authentication m msg key w :
  quiet (w_lk w) → good (w_data w) →
  own_key (ID (m_localDevice m)) (Keys msg) = Some key → is_Some (RK_KeyExchange key) →
  wpr (DecryptMessage m msg)
    (λ r w', ∀ e, r = Err (Wrapf "ratchet decrypt" e) →
      a_sessions (av (w_data w')) = a_sessions (av (w_data w)) ∧
      ∃ ik, claimed_key m key = Some ik ∧ a_remote (av (w_data w')) !! Sender msg = Some ik) w.
Proof.
  intros Hq Hg Hkey Hkx. eapply wpr_mono; [by apply (DecryptMessage_spec _ _ key)|].
  intros r w' (_ & _ & _ & Hr) e ->. destruct Hr as [_ Hr].
  destruct (Hr e eq_refl) as [Hse Hre]. split; [done|].
  destruct (Hre Hkx) as (ik & Hrem & Hik). by exists ik.
Qed.

(** ** Errors (stores without I/O errors) *)

(** What DecryptMessage answers when no session can be had. *)
Lemma DecryptMessage_no_session m msg key e w :
  quiet (w_lk w) → own_key (ID (m_localDevice m)) (Keys msg) = Some key →
  wp (getOrCreateSessionForIncoming m (Sender msg) key)
    (λ r d', r = Err e ∧ av d' = av (w_data w)) (w_data w) →
  wpr (DecryptMessage m msg)
    (λ r w', r = Err (Wrapf "establish session" e) ∧ av (w_data w') = av (w_data w)) w.
Proof.
  intros Hq Hkey H. unfold DecryptMessage. rewrite Hkey. apply wpr_with_deviceLock; [done|].
  apply wp_try. eapply wp_mono; [exact H|]. by intros r d' [-> Hav] lk' _.
Qed.

(** C27: the errors a caller of [DecryptMessage] can rely on, and that they cost
    nothing.  A message without a key for this device fails with
    [ErrOwnDeviceKeyMissing] and has no effect at all.  The others leave the
    store as it was, every one-time prekey included: one without a KeyExchange
    from a sender without a session fails with [ErrUnknownSession] (under
    [errors.Is]); a key exchange, of either protocol, that names a signed prekey
    that is neither the current nor the stale one fails with "unknown signed
    prekey id"; and a ProtocolV1 key exchange that cannot be parsed fails with
    the parser's error. *)
Theorem DecryptMessage_refusals {RS : ReliableStore ST} m msg w :
  quiet (w_lk w) → good (w_data w) →
  ((∀ k, k ∈ Keys msg → RK_Device k ≠ ID (m_localDevice m)) →
    run (DecryptMessage m msg) w = Done (Err (Sentinel ErrOwnDeviceKeyMissing)) w) ∧
  (∀ key, own_key (ID (m_localDevice m)) (Keys msg) = Some key →
    let refused e := wpr (DecryptMessage m msg)
      (λ r w', r = Err (Wrapf "establish session" e) ∧ av (w_data w') = av (w_data w)) w in
    (RK_KeyExchange key = None → a_sessions (av (w_data w)) !! Sender msg = None →
      refused (Sentinel ErrUnknownSession) ∧
      errors_Is (Wrapf "establish session" (Sentinel ErrUnknownSession)) ErrUnknownSession
        = true) ∧
    (∀ sid id, named_ids m key = Some (sid, id) → spk_by_id (av (w_data w)) sid = None →
      refused (Errorf ("unknown signed prekey id " +:+ pretty sid))) ∧
    (∀ e, is_Some (RK_KeyExchange key) → m_protocol m = ProtocolV1 →
      ls_ParsePreKeyMessage (RK_Data key) = Err e →
      refused (Wrapf "parsing legacy prekey message" e))).
Proof.
  intros Hq Hg. split.
  { unfold DecryptMessage. intros Hno%own_key_None. by rewrite Hno. }
  intros key Hkey refused. split_and!.
  - intros Hkx Hs. split; [|done]. eapply DecryptMessage_no_session; [done..|].
    unfold getOrCreateSessionForIncoming. rewrite Hkx. apply wp_try. read_ok.
    rewrite Hs. by apply wp_pure.
  - intros sid id Hids Hspk. eapply DecryptMessage_no_session; [done..|].
    assert (∀ (A : Type) (k : _ → prog baseE (result A)), wp (try (λ e, e) (signedPreKeyByID sid) k)
      (λ r d', r = Err (Errorf ("unknown signed prekey id " +:+ pretty sid)) ∧
        av d' = av (w_data w)) (w_data w)) as Hunknown.
    { intros A k. apply wp_try. eapply wp_mono; [by apply signedPreKeyByID_ok|].
      intros r d' (_ & Hav & ->). by rewrite Hspk. }
    unfold named_ids in Hids. unfold getOrCreateSessionForIncoming.
    destruct (RK_KeyExchange key) as [kx|]; [|done]. cbn [mbind option_bind] in Hids.
    destruct (m_protocol m =? ProtocolV1)%Z.
    + apply wp_try, wp_pure. destruct (PeekLegacyPreKeyIDs (RK_Data key)) as [[sid' id']|e];
        [|done]. injection Hids as -> ->. apply Hunknown.
    + injection Hids as <- <-. apply Hunknown.
  - intros e [kx Hkx] Hp Hparse. eapply DecryptMessage_no_session; [done..|].
    unfold getOrCreateSessionForIncoming, PeekLegacyPreKeyIDs. rewrite Hkx, Hp, Hparse.
    by apply wp_try, wp_pure.
Qed.

(** ** ResetSession *)

Lemma ResetSession_spec m dev w :
  quiet (w_lk w) → good (w_data w) →
  wpr (ResetSession m dev)
    (λ r w', quiet (w_lk w') ∧ good (w_data w') ∧
      match r with
      | Ok _ => av (w_data w') =
          set_sessions (delete dev (a_sessions (av (w_data w)))) (av (w_data w))
      | Err _ => av (w_data w') = av (w_data w)
      end) w.
Proof.
  intros Hq Hg. apply wpr_with_deviceLock; [done|]. unfold ResetSession_locked.
  apply wp_try. write_step; [apply wp_pure|]; intros lk' Hq'; by split_and!.
Qed.

(** [ResetSession] forces a new handshake.  When it succeeds only the
    session of [dev] is gone; the next key made for [dev] carries a
    KeyExchange, and until then no message from [dev] without a KeyExchange
    can be decrypted. *)
Theorem ResetSession_forces_handshake m dev w :
  quiet (w_lk w) → good (w_data w) →
  wpr (ResetSession m dev)
    (λ r w', r = Ok tt →
      av (w_data w') =
        set_sessions (delete dev (a_sessions (av (w_data w)))) (av (w_data w)) ∧
      (∀ km, wpr (encryptForDevice m dev km)
        (λ r2 _, ∀ key, r2 = Ok key → is_Some (RK_KeyExchange key)) w') ∧
      (∀ msg key, Sender msg = dev →
        own_key (ID (m_localDevice m)) (Keys msg) = Some key → RK_KeyExchange key = None →
        wpr (DecryptMessage m msg) (λ r2 _, ∃ e, r2 = Err e) w')) w.
Proof.
  intros Hq Hg. eapply wpr_mono; [by apply ResetSession_spec|].
  intros r w' (Hq' & Hg' & Hr) ->. split; [done|].
  assert (a_sessions (av (w_data w')) !! dev = None) as Hnone
    by (rewrite Hr; apply lookup_delete_eq).
  split.
  - intros km. apply wpr_with_deviceLock; [done|].
    eapply wp_mono; [by apply encryptForDevice_locked_spec|].
    intros r2 d2 (_ & _ & Hr2) lk' _ key ->. destruct Hr2 as (_ & Hkx & _).
    rewrite Hnone in Hkx. destruct (RK_KeyExchange key); [by eexists|].
    by destruct (proj1 Hkx eq_refl).
  - intros msg key Hs Hkey Hkx. eapply wpr_mono; [by apply (DecryptMessage_spec _ _ key)|].
    intros [pt|e] w2 (_ & _ & _ & Hr2); [|by eexists].
    destruct Hr2 as (_ & _ & Hopen). unfold opened in Hopen.
    rewrite Hkx, Hs, Hnone in Hopen. by destruct Hopen.
Qed.
End Decrypt.
