(* ===== verification/MemstoreFacts.v ===== *)
(** * Theorems about memstore

    The refinement of the store contract, the one-time prekey watermark over
    arbitrary sequences of calls, its wrap-around, the state InitIdentity
    leaves in a new memstore, and what a caller sees when a prekey is gone. *)
From S2P Require Import Prelude Types Errors StoreSpec Transport Xochimilco Prog.
From S2P Require Import ProgFacts StoreFacts Signal SignalFacts Memstore Manager ManagerKeys.
From S2P Require Import LockFacts ManagerDecrypt.

(** A call of any method, with its arguments. *)
Definition store_call : Type := sigT storeE.

Section Memstore.
Context `{GM : GoMapRange}.

(** C1: memstore refines the abstract store.  Every method, called in any
    well-formed state with any arguments, answers what [store_spec] allows
    and moves the abstract view of the store as [store_spec] says; and it
    fails only to consume a prekey that is not in the pool. *)
Theorem memstore_refines {R} (op : storeE R) (s : MemStore) :
  memstore_wf s →
  memstore_wf (memstore_handle op s).2 ∧
  store_spec op (memstore_view s) (memstore_handle op s).1
    (memstore_view (memstore_handle op s).2) ∧
  (¬ may_fail op (memstore_view s) → succeeded op (memstore_handle op s).1).
Proof.
  intros Hwf. destruct (memstore_step op s Hwf) as [H1 H2].
  split_and!; [done..|]. intros Hmay. by apply memstore_reliable.
Qed.

(** The IDs that the [NextPreKeyID] calls of a sequence return, in order. *)
Definition id_of {R} (op : storeE R) : R → list Z :=
  match op in storeE R return R → list Z with
  | OpNextPreKeyID => λ r, match r with Ok id => [id] | Err _ => [] end
  | _ => λ _, []
  end.

Fixpoint allocated (calls : list store_call) (s : MemStore) : list Z :=
  match calls with
  | [] => []
  | existT _ op :: calls =>
      let '(r, s) := memstore_handle op s in id_of op r ++ allocated calls s
  end.

Lemma handle_next {R} (op : storeE R) s :
  (id_of op (memstore_handle op s).1 = [] ∧
    ms_nextPreKeyID (memstore_handle op s).2 = ms_nextPreKeyID s) ∨
  (id_of op (memstore_handle op s).1 = [u32_succ (ms_nextPreKeyID s)] ∧
    ms_nextPreKeyID (memstore_handle op s).2 = u32_succ (ms_nextPreKeyID s)).
Proof.
  destruct op; try (by left); [by right|left].
  simpl. unfold Store.ConsumePreKey. by destruct (ms_preKeys s !! id).
Qed.

Lemma allocated_seq calls s n :
  memstore_wf s → length (allocated calls s) = n →
  (ms_nextPreKeyID s + Z.of_nat n < u32_modulus)%Z →
  allocated calls s = seqZ (ms_nextPreKeyID s + 1) (Z.of_nat n).
Proof.
  revert s n. induction calls as [|[R op] calls IH]; intros s n Hwf; simpl;
    [by intros <-|].
  pose proof (handle_next op s) as Hnext. pose proof (proj1 (memstore_step op s Hwf)) as Hwf'.
  destruct (memstore_handle op s) as [r s']. simpl in *. rewrite length_app.
  destruct Hnext as [[-> Heq]|[-> Heq]]; simpl; intros Hlen Hmax.
  - rewrite <-Heq. apply IH; [done..|]. by rewrite Heq.
  - destruct n as [|n]; [done|]. destruct Hwf as [??].
    rewrite u32_succ_lt in * by (unfold is_u32; lia).
    rewrite (IH s' n) by (done || lia). rewrite Heq.
    rewrite (seqZ_cons (ms_nextPreKeyID s + 1)) by lia. f_equal. f_equal; lia.
Qed.

(** C33: in any sequence of calls on a new memstore with fewer than 2^32
    [NextPreKeyID] calls, whatever prekeys are put and consumed between them,
    the IDs returned are 1, 2, 3, ... in order, so none is ever repeated. *)
Theorem NextPreKeyID_never_repeats (calls : list store_call) :
  (Z.of_nat (length (allocated calls New)) < u32_modulus)%Z →
  allocated calls New = seqZ 1 (Z.of_nat (length (allocated calls New))) ∧
  NoDup (allocated calls New).
Proof.
  intros Hmax.
  assert (allocated calls New = seqZ 1 (Z.of_nat (length (allocated calls New)))) as Heq.
  { by apply (allocated_seq calls New). }
  split; [done|]. rewrite Heq. apply NoDup_seqZ.
Qed.

(** An absent prekey is reported by an error that is not
    [ErrPreKeyNotFound]. *)
Lemma ConsumePreKey_error_is_plain id s e :
  (Store.ConsumePreKey id s).1 = Err e → errors_Is e ErrPreKeyNotFound = false.
Proof. unfold Store.ConsumePreKey. destruct (ms_preKeys s !! id); by intros [= <-]. Qed.

(** The state after [n] allocations, and the answer of the next one. *)
Definition after_allocations (n : N) : MemStore :=
  N.iter n (λ s, (Store.NextPreKeyID s).2) New.

Lemma after_allocations_next n : ms_nextPreKeyID (after_allocations n) = u32 (Z.of_N n).
Proof.
  induction n as [|n IH] using N.peano_ind; [done|].
  unfold after_allocations. rewrite N.iter_succ.
  change (u32_succ (ms_nextPreKeyID (after_allocations n)) = u32 (Z.of_N (N.succ n))).
  rewrite IH. unfold u32_succ, u32. rewrite N2Z.inj_succ, <-Z.add_1_r.
  by rewrite Zplus_mod_idemp_l.
Qed.

(** C38: the width of the counter bounds the promise.  The [i]-th and [j]-th
    allocation of a memstore return the same ID exactly when [i] and [j] are
    equal modulo 2^32; in particular the 2^32-th returns 0 and the one after
    it repeats ID 1. *)
Theorem NextPreKeyID_period (i j : N) :
  ((Store.NextPreKeyID (after_allocations i)).1 =
     (Store.NextPreKeyID (after_allocations j)).1 ↔
   (Z.of_N i mod u32_modulus = Z.of_N j mod u32_modulus)%Z) ∧
  (Store.NextPreKeyID (after_allocations (2 ^ 32 - 1))).1 = Ok 0%Z ∧
  (Store.NextPreKeyID (after_allocations (2 ^ 32))).1 =
    (Store.NextPreKeyID (after_allocations 0)).1.
Proof.
  split_and!; unfold Store.NextPreKeyID; cbn [fst]; rewrite !after_allocations_next;
    [|done..].
  unfold u32_succ, u32. rewrite !Zplus_mod_idemp_l. split; [|intros H].
  - intros [= H]. unfold u32_modulus in *. Z.div_mod_to_equations. lia.
  - by rewrite <-(Zplus_mod_idemp_l (Z.of_N i)), <-(Zplus_mod_idemp_l (Z.of_N j)), H.
Qed.
End Memstore.

Section Init.
Context `{X : Xochimilco} {T : Transport} {GM : GoMapRange}.
Existing Instance memstore.

Lemma capacity_New k : (Z.of_nat k ≤ u32_modulus - 1)%Z → capacity (memstore_view New) k.
Proof.
  intros Hk. unfold capacity. by change (size (a_issued (memstore_view New))) with 0.
Qed.

Lemma fresh_batch_New k recs a n :
  a_issued a = ∅ → (0 ≤ n)%Z → fresh_batch a k recs →
  issued_upto n = list_to_set (ids recs) ∪ a_issued a →
  n = Z.of_nat k ∧ list_to_set (ids recs) = issued_upto (Z.of_nat k).
Proof.
  intros Hempty Hn [Hlen Hnd _] Heq. rewrite Hempty, (right_id_L ∅ (∪)) in Heq.
  assert (n = Z.of_nat k) as ->.
  { rewrite <-(size_issued_upto n) by done. rewrite Heq, size_list_to_set by done.
    unfold ids. by rewrite length_map, Hlen. }
  done.
Qed.

(** [InitIdentity] on a new memstore never blocks or panics, and when it
    reports success the store is a complete device: the pool holds exactly
    the prekeys 1 to 100, each filed under its own ID; the watermark is 100;
    the signed prekey has ID 1 and there is no stale one; sessions, trust and
    device lists are empty; and [NewManager] returns a Manager for the given
    JID, device ID and protocol whose identity key is usable. *)
Theorem InitIdentity_new_memstore {GL : GoCryptoLaws GC} jid id p w :
  d_store (w_data w) = New →
  wpr (InitIdentity jid id p)
    (λ r w', w_lk w' = w_lk w ∧
      (r = Ok tt →
        let s := d_store (w_data w') in
        dom (ms_preKeys s) = issued_upto 100 ∧
        (∀ i rec, ms_preKeys s !! i = Some rec → PKR_ID rec = i) ∧
        ms_nextPreKeyID s = 100%Z ∧
        SPKR_ID (ms_currentSPK s) = 1%Z ∧ ms_staleSPK s = None ∧
        ms_sessions s = ∅ ∧ ms_trust s = ∅ ∧ ms_devices s = ∅ ∧ ms_remoteID s = ∅ ∧
        wp (NewManager p [])
          (λ rm d', d_store d' = s ∧ ∃ k, usable_identity p k ∧
            rm = Ok (MkManager p k (MkDevice jid id) None)) (w_data w'))) w.
Proof.
  intros Hs.
  assert (av (w_data w) = memstore_view New) as Hav by (unfold av; by rewrite Hs).
  eapply wpr_mono; [apply InitIdentity_spec|].
  - unfold good. rewrite Hs. by split.
  - rewrite Hav. by apply capacity_New.
  - simpl. intros r w' (Hg & Hlk & _ & Hr). split; [done|]. intros ->.
    destruct (Hr eq_refl) as (k & spk & Hk & Hspk & recs & Hb & Hv).
    rewrite Hs in Hv, Hb. destruct w' as [[s e g] lk]. simpl in *.
    unfold memstore_view, rotate_spks, set_spks, set_pool, set_issued in Hv. simpl in Hv.
    injection Hv as Hid Hloc Hcur Hstale Hpool Hiss Hse Htr Hde Hre.
    destruct Hg as [Hpos _]. simpl in Hpos.
    edestruct fresh_batch_New as [Hnext Hset]; [|exact Hpos|exact Hb|exact Hiss|]; [done|].
    split_and!; try done; [..|by rewrite Hcur|].
    + by rewrite Hpool, put_prekeys_dom, Hset, dom_empty_L, (right_id_L ∅ (∪)).
    + rewrite Hpool. intros i rec Hi.
      destruct (decide (i ∈ ids recs)) as [Hin|Hout].
      * apply elem_of_ids in Hin as (rec' & Hrec' & <-).
        rewrite put_prekeys_lookup_new in Hi by (apply Hb || done). by simplify_eq.
      * by rewrite put_prekeys_lookup_old in Hi.
    + unfold NewManager. apply wp_try, wp_ask. simpl. apply wp_try, wp_ask. simpl.
      apply wp_pure. split; [done|]. exists k. by rewrite Hid, Hloc.
Qed.

(** The error memstore's ConsumePreKey gives for [id], as DecryptMessage
    passes it on. *)
Definition missing_prekey_error (id : Z) : error :=
  Wrapf "establish session"
    (Wrapf (consume_prefix id) (Errorf ("one-time prekey " +:+ pretty id +:+ " not found"))).

Lemma signedPreKeyByID_memstore id spk (d : data) :
  spk_by_id (av d) id = Some spk → eval (signedPreKeyByID id) d = (Ok spk, d).
Proof.
  destruct d as [s v g]. unfold spk_by_id, signedPreKeyByID, av.
  rewrite eval_try. simpl. case_decide; [by intros [= ->]|].
  rewrite eval_try. simpl. destruct (ms_staleSPK s); [|done].
  case_decide; [by intros [= ->]|done].
Qed.

Lemma consume_missing {A} id (k : PreKeyRecord → prog baseE (result A)) (d : data) :
  ms_preKeys (d_store d) !! id = None →
  eval (preKey <-? ask (OpConsumePreKey id) wrap (consume_prefix id); k preKey) d =
  (Err (Wrapf (consume_prefix id) (Errorf ("one-time prekey " +:+ pretty id +:+ " not found"))),
   d).
Proof.
  intros Hno. destruct d as [s v g]. simpl in Hno. rewrite eval_try. simpl.
  unfold Store.ConsumePreKey. by rewrite Hno.
Qed.

(** C28: a prekey that was already used, over memstore.  A message whose key
    exchange names a known signed prekey and a one-time prekey that is not in
    the pool fails for either protocol with one specific error, and nothing
    of the device's data changes; the error reads "establish session: consume
    one-time prekey N: one-time prekey N not found", and a caller that tests
    it with [errors.Is(err, ErrPreKeyNotFound)] is told no. *)
Theorem DecryptMessage_missing_prekey m msg key sid id spk w :
  quiet (w_lk w) →
  own_key (ID (m_localDevice m)) (Keys msg) = Some key → named_ids m key = Some (sid, id) →
  spk_by_id (av (w_data w)) sid = Some spk → ms_preKeys (d_store (w_data w)) !! id = None →
  wpr (DecryptMessage m msg)
    (λ r w', r = Err (missing_prekey_error id) ∧ w_data w' = w_data w) w ∧
  error_string (missing_prekey_error id) =
    "establish session: consume one-time prekey " +:+ pretty id +:+ ": one-time prekey " +:+
    pretty id +:+ " not found" ∧
  ∀ sent, errors_Is (missing_prekey_error id) sent = false.
Proof.
  intros Hq Hkey Hids Hspk Hno. split_and!; [|done|done].
  unfold DecryptMessage. rewrite Hkey. apply wpr_with_deviceLock; [done|].
  assert (eval (getOrCreateSessionForIncoming m (Sender msg) key) (w_data w) =
    (Err (Wrapf (consume_prefix id)
      (Errorf ("one-time prekey " +:+ pretty id +:+ " not found"))), w_data w)) as Hget.
  { unfold named_ids in Hids. unfold getOrCreateSessionForIncoming.
    destruct (RK_KeyExchange key) as [kx|]; [|done].
    cbn [mbind option_bind] in Hids. destruct (m_protocol m =? ProtocolV1)%Z.
    - destruct (PeekLegacyPreKeyIDs (RK_Data key)) as [[sid' id']|e];
        [injection Hids as -> ->|done].
      rewrite eval_try, eval_pure. cbn [fst snd].
      rewrite eval_try, (signedPreKeyByID_memstore _ _ _ Hspk). by apply consume_missing.
    - injection Hids as <- <-. rewrite eval_try, (signedPreKeyByID_memstore _ _ _ Hspk).
      by apply consume_missing. }
  unfold DecryptMessage_locked. apply wp_try. unfold wp. rewrite Hget. by intros lk' _.
Qed.
End Init.
