(* ===== verification/MemstoreCode.v ===== *)
(** * memstore statement by statement: memstore/memstore.go

    [Memstore] has each method as one function on the Go struct.  Here a method
    is the program between [s.mu.Lock()] and the deferred [s.mu.Unlock()], one
    effect per access to a field of the struct or to one of its maps, and is
    shown to compute the same function.  [MemstoreMutex] interleaves these
    programs. *)
From S2P Require Import Prelude Types Errors StoreSpec Transport Xochimilco Prog Memstore.

(** ** The struct's fields and maps *)
Inductive field : Type → Type :=
  | F_identityKey : field gobytes
  | F_localDevice : field Device
  | F_currentSPK : field SignedPreKeyRecord
  | F_staleSPK : field (option SignedPreKeyRecord)
  | F_nextPreKeyID : field Z.

Inductive table : Type → Type → Type :=
  | T_preKeys : table Z PreKeyRecord
  | T_sessions : table Device gobytes
  | T_trust : table (list byte) TrustState
  | T_devices : table string (list DeviceID)
  | T_remoteID : table Device gobytes.

Definition get_field {V} (f : field V) (s : MemStore) : V :=
  match f in field V return V with
  | F_identityKey => ms_identityKey s
  | F_localDevice => ms_localDevice s
  | F_currentSPK => ms_currentSPK s
  | F_staleSPK => ms_staleSPK s
  | F_nextPreKeyID => ms_nextPreKeyID s
  end.

Definition set_field {V} (f : field V) : V → MemStore → MemStore :=
  match f in field V return V → MemStore → MemStore with
  | F_identityKey => λ v s, MkMemStore v (ms_localDevice s) (ms_currentSPK s)
      (ms_staleSPK s) (ms_preKeys s) (ms_nextPreKeyID s) (ms_sessions s) (ms_trust s)
      (ms_devices s) (ms_remoteID s)
  | F_localDevice => λ v s, MkMemStore (ms_identityKey s) v (ms_currentSPK s)
      (ms_staleSPK s) (ms_preKeys s) (ms_nextPreKeyID s) (ms_sessions s) (ms_trust s)
      (ms_devices s) (ms_remoteID s)
  | F_currentSPK => λ v s, MkMemStore (ms_identityKey s) (ms_localDevice s) v
      (ms_staleSPK s) (ms_preKeys s) (ms_nextPreKeyID s) (ms_sessions s) (ms_trust s)
      (ms_devices s) (ms_remoteID s)
  | F_staleSPK => λ v s, MkMemStore (ms_identityKey s) (ms_localDevice s)
      (ms_currentSPK s) v (ms_preKeys s) (ms_nextPreKeyID s) (ms_sessions s) (ms_trust s)
      (ms_devices s) (ms_remoteID s)
  | F_nextPreKeyID => λ v s, Store.with_preKeys (ms_preKeys s) v s
  end.

(** [m[k]], [m[k] = v], [delete(m, k)] and [len(m)] on the maps. *)
Definition table_lookup {K V} (t : table K V) : K → MemStore → option V :=
  match t in table K V return K → MemStore → option V with
  | T_preKeys => λ k s, ms_preKeys s !! k
  | T_sessions => λ k s, ms_sessions s !! k
  | T_trust => λ k s, ms_trust s !! k
  | T_devices => λ k s, ms_devices s !! k
  | T_remoteID => λ k s, ms_remoteID s !! k
  end.

Definition with_trust (m : gmap (list byte) TrustState) (s : MemStore) : MemStore :=
  MkMemStore (ms_identityKey s) (ms_localDevice s) (ms_currentSPK s) (ms_staleSPK s)
    (ms_preKeys s) (ms_nextPreKeyID s) (ms_sessions s) m (ms_devices s) (ms_remoteID s).
Definition with_devices (m : gmap string (list DeviceID)) (s : MemStore) : MemStore :=
  MkMemStore (ms_identityKey s) (ms_localDevice s) (ms_currentSPK s) (ms_staleSPK s)
    (ms_preKeys s) (ms_nextPreKeyID s) (ms_sessions s) (ms_trust s) m (ms_remoteID s).
Definition with_remoteID (m : gmap Device gobytes) (s : MemStore) : MemStore :=
  MkMemStore (ms_identityKey s) (ms_localDevice s) (ms_currentSPK s) (ms_staleSPK s)
    (ms_preKeys s) (ms_nextPreKeyID s) (ms_sessions s) (ms_trust s) (ms_devices s) m.

(** [v = None] deletes the entry. *)
Definition table_update {K V} (t : table K V) : K → option V → MemStore → MemStore :=
  match t in table K V return K → option V → MemStore → MemStore with
  | T_preKeys => λ k v s,
      Store.with_preKeys (partial_alter (λ _, v) k (ms_preKeys s)) (ms_nextPreKeyID s) s
  | T_sessions => λ k v s, Store.with_sessions (partial_alter (λ _, v) k (ms_sessions s)) s
  | T_trust => λ k v s, with_trust (partial_alter (λ _, v) k (ms_trust s)) s
  | T_devices => λ k v s, with_devices (partial_alter (λ _, v) k (ms_devices s)) s
  | T_remoteID => λ k v s, with_remoteID (partial_alter (λ _, v) k (ms_remoteID s)) s
  end.

(** ** Accesses to the struct *)
Section Accesses.
Context `{GM : GoMapRange}.

Inductive memE : Type → Type :=
  | MGet {V} (f : field V) : memE V
  | MSet {V} (f : field V) (v : V) : memE unit
  | MLookup {K V} (t : table K V) (k : K) : memE (option V)
  | MInsert {K V} (t : table K V) (k : K) (v : V) : memE unit
  | MDelete {K V} (t : table K V) (k : K) : memE unit
  | MLenPreKeys : memE Z          (* len(s.preKeys) *)
  | MRangePreKeys : memE (list PreKeyRecord). (* the values a range visits, in order *)

Definition handle_mem {R} (e : memE R) (s : MemStore) : R * MemStore :=
  match e in memE R return R * MemStore with
  | MGet f => (get_field f s, s)
  | MSet f v => (tt, set_field f v s)
  | MLookup t k => (table_lookup t k s, s)
  | MInsert t k v => (tt, table_update t k (Some v) s)
  | MDelete t k => (tt, table_update t k None s)
  | MLenPreKeys => (Z.of_nat (size (ms_preKeys s)), s)
  | MRangePreKeys => (map_range (ms_preKeys s), s)
  end.

Fixpoint evalm {R} (p : prog memE R) (s : MemStore) : R * MemStore :=
  match p with
  | Ret r => (r, s)
  | Vis e k => let '(r, s') := handle_mem e s in evalm (k r) s'
  end.

Lemma evalm_bind {A B} (p : prog memE A) (f : A → prog memE B) s :
  evalm (p ≫= f) s = let '(a, s') := evalm p s in evalm (f a) s'.
Proof.
  revert s. induction p as [a|R e k IH]; intros s; [done|]. cbn.
  destruct (handle_mem e s) as [r s']. apply IH.
Qed.

Definition get {V} (f : field V) : prog memE V := trigger (MGet f).
Definition set {V} (f : field V) (v : V) : prog memE unit := trigger (MSet f v).
Definition lookup_in {K V} (t : table K V) (k : K) : prog memE (option V) :=
  trigger (MLookup t k).
Definition insert_in {K V} (t : table K V) (k : K) (v : V) : prog memE unit :=
  trigger (MInsert t k v).
Definition delete_in {K V} (t : table K V) (k : K) : prog memE unit :=
  trigger (MDelete t k).
End Accesses.

(** ** The methods, between [s.mu.Lock()] and [s.mu.Unlock()] *)
Module Code.
Definition IdentityKeyPair : prog memE (result gobytes) :=
  v ← get F_identityKey; mret (Ok v).

Definition SetIdentityKeyPair (priv : gobytes) : prog memE (result unit) :=
  set F_identityKey priv;; mret (Ok tt).

Definition LocalDevice : prog memE (result Device) :=
  v ← get F_localDevice; mret (Ok v).

Definition SetLocalDevice (dev : Device) : prog memE (result unit) :=
  set F_localDevice dev;; mret (Ok tt).

Definition CurrentSignedPreKey : prog memE (result SignedPreKeyRecord) :=
  v ← get F_currentSPK; mret (Ok v).

(** [s.staleSPK] is read for the nil check and again for [*s.staleSPK]; [mu]
    keeps it the same in between. *)
Definition StaleSignedPreKey : prog memE (result (option SignedPreKeyRecord)) :=
  p ← get F_staleSPK;
  match p with
  | None => mret (Ok None)
  | Some _ =>
      p ← get F_staleSPK;
      mret (Ok p)
  end.

Definition RotateSignedPreKey (next : SignedPreKeyRecord) : prog memE (result unit) :=
  cur ← get F_currentSPK;
  (if is_nil (SPKR_Public cur) then mret tt
   else prev ← get F_currentSPK; set F_staleSPK (Some prev));;
  set F_currentSPK next;;
  mret (Ok tt).

Definition PreKeyCount : prog memE (result Z) :=
  n ← trigger MLenPreKeys; mret (Ok n).

(** [make] takes its capacity from [len(s.preKeys)]; then the loop appends. *)
Definition PreKeys : prog memE (result (list PreKeyRecord)) :=
  _ ← trigger MLenPreKeys;
  visited ← trigger MRangePreKeys;
  mret (Ok (foldl (λ recs r, recs ++ [r]) [] visited)).

Definition NextPreKeyID : prog memE (result Z) :=
  n ← get F_nextPreKeyID;
  set F_nextPreKeyID (u32_succ n);;
  n ← get F_nextPreKeyID;
  mret (Ok n).

Fixpoint put_loop (recs : list PreKeyRecord) : prog memE unit :=
  match recs with
  | [] => mret tt
  | r :: recs => insert_in T_preKeys (PKR_ID r) r;; put_loop recs
  end.

Definition PutPreKeys (recs : list PreKeyRecord) : prog memE (result unit) :=
  put_loop recs;; mret (Ok tt).

Definition ConsumePreKey (id : Z) : prog memE (result PreKeyRecord) :=
  rec ← lookup_in T_preKeys id;
  match rec with
  | None => mret (Err (Errorf ("one-time prekey " +:+ pretty id +:+ " not found")))
  | Some rec => delete_in T_preKeys id;; mret (Ok rec)
  end.

Definition Session (dev : Device) : prog memE (result (option gobytes)) :=
  data ← lookup_in T_sessions dev; mret (Ok data).

Definition PutSession (dev : Device) (data : gobytes) : prog memE (result unit) :=
  insert_in T_sessions dev data;; mret (Ok tt).

Definition DeleteSession (dev : Device) : prog memE (result unit) :=
  delete_in T_sessions dev;; mret (Ok tt).

(** A missing key reads as the zero value of the map's element type. *)
Definition Trust (identityKey : gobytes) : prog memE (result TrustState) :=
  st ← lookup_in T_trust (go_string identityKey);
  mret (Ok (default TrustUndecided st)).

Definition SetTrust (identityKey : gobytes) (state : TrustState) : prog memE (result unit) :=
  insert_in T_trust (go_string identityKey) state;; mret (Ok tt).

Definition Devices (jid : string) : prog memE (result (list DeviceID)) :=
  ds ← lookup_in T_devices jid; mret (Ok (default [] ds)).

Definition SetDevices (jid : string) (devices : list DeviceID) : prog memE (result unit) :=
  insert_in T_devices jid devices;; mret (Ok tt).

Definition RemoteIdentityKey (dev : Device) : prog memE (result (option gobytes)) :=
  key ← lookup_in T_remoteID dev; mret (Ok key).

Definition PutRemoteIdentityKey (dev : Device) (key : gobytes) : prog memE (result unit) :=
  insert_in T_remoteID dev key;; mret (Ok tt).
End Code.

Definition method {R} (op : storeE R) : prog memE R :=
  match op in storeE R return prog memE R with
  | OpIdentityKeyPair => Code.IdentityKeyPair
  | OpSetIdentityKeyPair priv => Code.SetIdentityKeyPair priv
  | OpLocalDevice => Code.LocalDevice
  | OpSetLocalDevice dev => Code.SetLocalDevice dev
  | OpCurrentSignedPreKey => Code.CurrentSignedPreKey
  | OpStaleSignedPreKey => Code.StaleSignedPreKey
  | OpRotateSignedPreKey next => Code.RotateSignedPreKey next
  | OpPreKeyCount => Code.PreKeyCount
  | OpPreKeys => Code.PreKeys
  | OpNextPreKeyID => Code.NextPreKeyID
  | OpPutPreKeys recs => Code.PutPreKeys recs
  | OpConsumePreKey id => Code.ConsumePreKey id
  | OpSession dev => Code.Session dev
  | OpPutSession dev data => Code.PutSession dev data
  | OpDeleteSession dev => Code.DeleteSession dev
  | OpTrust key => Code.Trust key
  | OpSetTrust key st => Code.SetTrust key st
  | OpDevices jid => Code.Devices jid
  | OpSetDevices jid ds => Code.SetDevices jid ds
  | OpRemoteIdentityKey dev => Code.RemoteIdentityKey dev
  | OpPutRemoteIdentityKey dev key => Code.PutRemoteIdentityKey dev key
  end.

(** ** The statements compute the functions of [Memstore] *)
Section Correct.
Context `{GM : GoMapRange}.

Lemma put_loop_foldl recs s :
  evalm (Code.put_loop recs) s =
  (tt, Store.with_preKeys (foldl (λ m r, <[PKR_ID r := r]> m) (ms_preKeys s) recs)
    (ms_nextPreKeyID s) s).
Proof.
  revert s. induction recs as [|r recs IH]; intros s; [by destruct s|].
  cbn. rewrite IH. by destruct s.
Qed.

Lemma append_all {A} (l acc : list A) : foldl (λ recs r, recs ++ [r]) acc l = acc ++ l.
Proof.
  revert acc. induction l as [|x l IH]; intros acc; simpl; [by rewrite app_nil_r|].
  by rewrite IH, <-app_assoc.
Qed.

Lemma method_correct {R} (op : storeE R) s : evalm (method op) s = memstore_handle op s.
Proof.
  destruct op; try (by destruct s).
  - destruct s as [? ? ? [?|] ? ? ? ? ? ?]; done.
  - destruct s as [? ? [? [?|] ? ?] ? ? ? ? ? ? ?]; done.
  - simpl. by rewrite append_all.
  - cbn [method]. unfold Code.PutPreKeys. by rewrite evalm_bind, put_loop_foldl.
  - cbn. unfold Store.ConsumePreKey. by destruct (ms_preKeys s !! id).
Qed.
End Correct.
