(* ===== verification/FakeNetwork.v ===== *)
(** * An in-memory transport: the fakeNetwork of manager_test.go

    The stand-in for XMPP PEP the project's own tests use: published device
    lists and bundles in two maps.  It is an instance of [Transport], used to
    run the Manager on concrete inputs. *)
From S2P Require Import Prelude Types Errors Transport.

Record fakeNetwork := MkNetwork {
  net_devices : gmap string DeviceList;
  net_bundles : gmap Device Bundle }.

Definition newFakeNetwork : fakeNetwork := MkNetwork ∅ ∅.

Definition fake_FetchDeviceList (jid : string) (n : fakeNetwork) :
    result DeviceList * fakeNetwork :=
  match net_devices n !! jid with
  | None => (Err (Errorf ("no device list published for " +:+ jid)), n)
  | Some list => (Ok list, n)
  end.

Definition fake_PublishDeviceList (list : DeviceList) (n : fakeNetwork) :
    result unit * fakeNetwork :=
  (Ok tt, MkNetwork (<[DL_JID list := list]> (net_devices n)) (net_bundles n)).

Definition fake_FetchBundle (dev : Device) (n : fakeNetwork) : result Bundle * fakeNetwork :=
  match net_bundles n !! dev with
  | None => (Err (Errorf "no bundle published for device"), n)
  | Some b => (Ok b, n)
  end.

Definition fake_PublishBundle (bundle : Bundle) (n : fakeNetwork) :
    result unit * fakeNetwork :=
  (Ok tt, MkNetwork (net_devices n) (<[B_Device bundle := bundle]> (net_bundles n))).

#[export] Instance fakeTransport : Transport := {|
  env := fakeNetwork;
  FetchDeviceList := fake_FetchDeviceList;
  PublishDeviceList := fake_PublishDeviceList;
  FetchBundle := fake_FetchBundle;
  PublishBundle := fake_PublishBundle |}.
