(* ===== verification/ToyCrypto.v ===== *)
(** * A concrete backend to run the model with

    An instance of [GoCrypto] and [Xochimilco] that has the documented
    behaviour the theorems assume and no security: a public key is its private
    key, a shared secret is the list of the public values it is derived from,
    and a ratchet marks each message with its secret.  It exists so that the
    hypotheses on the backend are met by something and the Manager can be
    evaluated; nothing in it describes the real cryptography. *)
From S2P Require Import Prelude Types Errors Transport Xochimilco Signal SessionLaws.

(** ** Serialization through [Countable] *)

Fixpoint pos_bytes (p : positive) : list byte :=
  match p with
  | xH => []
  | xO p => Byte.x00 :: pos_bytes p
  | xI p => Byte.x01 :: pos_bytes p
  end.

Fixpoint bytes_pos (l : list byte) : positive :=
  match l with
  | [] => xH
  | Byte.x00 :: l => xO (bytes_pos l)
  | _ :: l => xI (bytes_pos l)
  end.

Lemma bytes_pos_bytes p : bytes_pos (pos_bytes p) = p.
Proof. induction p; simpl; congruence. Qed.

Definition toy_encode {A} `{Countable A} (a : A) : gobytes := Some (pos_bytes (encode a)).
Definition toy_decode {A} `{Countable A} (b : gobytes) : result A :=
  match decode (bytes_pos (go_string b)) with
  | Some a => Ok a
  | None => Err (Errorf "malformed data")
  end.

Lemma toy_decode_encode {A} `{Countable A} (a : A) : toy_decode (toy_encode a) = Ok a.
Proof. unfold toy_decode, toy_encode. simpl. by rewrite bytes_pos_bytes, decode_encode. Qed.

(** ** Randomness and keys: the state of the reader is a counter *)

Definition toy_byte (g : N) : byte := default Byte.x00 (Byte.of_N (g mod 256)).

Definition toy_pad (s : list byte) : list byte := take 32 (s ++ replicate 32 Byte.x00).

Lemma toy_pad_length s : length (toy_pad s) = 32.
Proof. unfold toy_pad. rewrite length_take, length_app, length_replicate. lia. Qed.

#[export] Instance toy_go : GoCrypto := {|
  rng := N;
  rand_bytes n g := (Ok (replicate n (toy_byte g)), N.succ g);
  ed25519_public := toy_pad;
  x25519_base := toy_pad |}.

#[export] Instance toy_go_laws : GoCryptoLaws toy_go.
Proof.
  split; simpl; [|apply toy_pad_length..]. intros n g l [= <-]. apply length_replicate.
Qed.

Definition toy_key (g : N) : gobytes := Some (replicate 32 (toy_byte g)).

(** The public half of an identity key in either format. *)
Definition toy_public (priv : gobytes) : gobytes :=
  Some (if decide (go_len priv = 64) then drop 32 (go_string priv) else toy_pad (go_string priv)).

Definition toy_sign (idKey pub : gobytes) : gobytes := toy_encode (toy_public idKey, pub).

(** ** X3DH: the secret is what it is derived from *)
Definition toy_secret : Type := list gobytes.

Definition toy_CreateNewSpk (idKey : gobytes) (g : N) :
    result (gobytes * gobytes * gobytes) * N :=
  (Ok (toy_key g, toy_key g, toy_sign idKey (toy_key g)), N.succ g).

Definition toy_Initiate (idKey peerIdKey spkPub sig opkPub : gobytes) (g : N) :
    result (toy_secret * gobytes) * N :=
  if decide (sig = toy_encode (peerIdKey, spkPub)) then
    (Ok ([toy_public idKey; peerIdKey; spkPub; opkPub; toy_key g], toy_key g), N.succ g)
  else (Err (Errorf "invalid signature on signed prekey"), g).

Definition toy_Respond (idKey peerIdKey spkPriv opkPriv ek : gobytes) : toy_secret :=
  [peerIdKey; toy_public idKey; spkPriv; opkPriv; ek].

(** ** Ratchets *)
Record toy_ratchet := MkToy { toy_sec : toy_secret; toy_owner : gobytes; toy_count : N }.

#[export] Instance toy_ratchet_eq_dec : EqDecision toy_ratchet.
Proof. unfold toy_secret. solve_decision. Defined.
#[export, program] Instance toy_ratchet_countable : Countable toy_ratchet :=
  inj_countable (λ r, (toy_sec r : list gobytes, toy_owner r, toy_count r))
    (λ x, Some (MkToy x.1.1 x.1.2 x.2)) _.
Next Obligation. by intros []. Qed.

Definition toy_tag (s : toy_secret) : list byte := go_string (toy_encode (s : list gobytes)).
Definition toy_tick (r : toy_ratchet) : toy_ratchet :=
  MkToy (toy_sec r) (toy_owner r) (N.succ (toy_count r)).

Definition toy_Encrypt (r : toy_ratchet) (km : gobytes) (g : N) :
    (result gobytes * toy_ratchet) * N :=
  ((Ok (Some (toy_tag (toy_sec r) ++ go_string km)), toy_tick r), g).

Definition toy_Decrypt (r : toy_ratchet) (c : gobytes) (g : N) :
    (result gobytes * toy_ratchet) * N :=
  let t := toy_tag (toy_sec r) in
  if decide (take (length t) (go_string c) = t)
  then ((Ok (Some (drop (length t) (go_string c))), toy_tick r), g)
  else ((Err (Errorf "message authentication failed"), r), g).

Definition toy_EncryptPreKey (r : toy_ratchet) (km ek : gobytes) (pk spk reg : Z) (g : N) :
    (result gobytes * toy_ratchet) * N :=
  ((Ok (toy_encode (spk, pk, toy_owner r, ek,
      Some (toy_tag (toy_sec r) ++ go_string km) : gobytes)), toy_tick r), g).

Definition toy_ParsePreKeyMessage (b : gobytes) : result PreKeyMessage :=
  match toy_decode (A := Z * Z * gobytes * gobytes * gobytes) b with
  | Ok (spk, pk, ik, ek, inner) => Ok (MkPreKeyMessage spk pk ik ek inner)
  | Err e => Err e
  end.

(** ** Payloads: the key is one byte, repeated in front of the ciphertext *)
Definition toy_EncryptPayload (pt : gobytes) (g : N) : result (gobytes * gobytes) * N :=
  (Ok (Some [toy_byte g], Some (toy_byte g :: go_string pt)), N.succ g).

Definition toy_DecryptPayload (km ct : gobytes) : result gobytes :=
  match ct with
  | Some (k :: l) => if decide (km = Some [k]) then Ok (Some l)
                     else Err (Errorf "payload authentication failed")
  | _ => Err (Errorf "payload too short")
  end.

#[export] Instance toy : Xochimilco := {|
  x3dh_key := toy_secret;
  x3dh_ad := unit;
  x3dh_CreateNewSpk := toy_CreateNewSpk;
  x3dh_CreateNewOpk g := (Ok (toy_key g, toy_key g), N.succ g);
  x3dh_CreateInitialMessage idKey peer spkPub sig opkPub g :=
    match toy_Initiate idKey peer spkPub sig opkPub g with
    | (Ok (s, ek), g) => (Ok (s, tt, ek), g)
    | (Err e, g) => (Err e, g)
    end;
  x3dh_ReceiveInitialMessage idKey peer spkPriv opkPriv ek g :=
    (Ok (toy_Respond idKey peer spkPriv opkPriv ek, tt), g);
  DoubleRatchet := toy_ratchet;
  dr_CreateActive s _ _ g := (Ok (MkToy s None 0), g);
  dr_CreatePassive s _ _ _ g := (Ok (MkToy s None 0), g);
  dr_Encrypt := toy_Encrypt;
  dr_Decrypt := toy_Decrypt;
  dr_MarshalBinary r := Ok (toy_encode r);
  dr_UnmarshalBinary := toy_decode;
  ls_x3dh := toy_secret;
  LegacySession := toy_ratchet;
  ls_CreateNewSpk := toy_CreateNewSpk;
  ls_CreateInitialMessage := toy_Initiate;
  ls_NewActiveSession idKey _ s g := (Ok (MkToy s (toy_public idKey) 0), g);
  ls_ParsePreKeyMessage := toy_ParsePreKeyMessage;
  ls_ReceiveInitialMessage idKey peer _ spkPriv opkPriv ek g :=
    (Ok (toy_Respond idKey peer spkPriv opkPriv ek), g);
  ls_NewPassiveSession idKey _ s g := (Ok (MkToy s (toy_public idKey) 0), g);
  ls_EncryptPreKeyWhisperMessage := toy_EncryptPreKey;
  ls_EncryptWhisperMessage := toy_Encrypt;
  ls_DecryptWhisperMessage := toy_Decrypt;
  ls_MarshalBinary r := Ok (toy_encode r);
  ls_UnmarshalBinary := toy_decode;
  xo_EncryptPayload := toy_EncryptPayload;
  xo_EncryptPayloadV1 pt g :=
    match toy_EncryptPayload pt g with
    | (Ok (km, ct), g) => (Ok (km, Some [toy_byte g], ct), g)
    | (Err e, g) => (Err e, g)
    end;
  xo_DecryptPayload := toy_DecryptPayload;
  xo_DecryptPayloadV1 km _ ct := toy_DecryptPayload km ct |}.

#[export] Instance toy_key_laws : XochimilcoKeyLaws toy.
Proof. split; intros k g pub priv sig [= <- _ _]; done. Qed.

#[export] Instance toy_codec_laws : XochimilcoCodecLaws toy.
Proof. split; intros s b [= <-]; apply toy_decode_encode. Qed.

(** ** The laws of a conversation *)

Definition toy_linked (a b : toy_ratchet) : Prop := toy_sec a = toy_sec b.

Lemma toy_deliver a b km c a' g g' :
  toy_linked a b → 0 < go_len km → (toy_Encrypt a km g).1 = (Ok c, a') →
  ∃ b', (toy_Decrypt b c g').1 = (Ok km, b') ∧ toy_linked a' b'.
Proof.
  unfold toy_linked. intros Hab Hkm [= <- <-]. unfold toy_Decrypt. simpl. rewrite <-Hab.
  rewrite take_app_length, decide_True by done. rewrite drop_app_length.
  destruct km as [km|]; [by eexists|]. by apply Nat.lt_irrefl in Hkm.
Qed.

Lemma toy_public_V2 k pub : IdentityPublicKey ProtocolV2 k = Ok pub → toy_public k = pub.
Proof.
  unfold IdentityPublicKey. simpl. case_decide as Hlen; [done|].
  intros [= <-]. unfold toy_public, ed25519_Public.
  by rewrite decide_True.
Qed.

Lemma toy_public_V1 k pub : IdentityPublicKey ProtocolV1 k = Ok pub → toy_public k = pub.
Proof.
  unfold IdentityPublicKey, x25519_NewPrivateKey. simpl. case_decide as Hlen; [|done].
  intros [= <-]. unfold toy_public. by rewrite decide_False by lia.
Qed.

Lemma toy_Initiate_secret kA pB spub sig opub g s ek :
  (toy_Initiate kA pB spub sig opub g).1 = Ok (s, ek) →
  s = [toy_public kA; pB; spub; opub; ek].
Proof. unfold toy_Initiate. case_decide; [|done]. by intros [= <- <-]. Qed.

Lemma toy_payload pt km ct g :
  (toy_EncryptPayload pt g).1 = Ok (km, ct) →
  0 < go_len km ∧ (pt ≠ None → ct ≠ None ∧
    ∃ out, toy_DecryptPayload km ct = Ok out ∧ go_string out = go_string pt).
Proof.
  intros [= <- <-]. split; [apply Nat.lt_0_1|]. intros _. split; [done|].
  unfold toy_DecryptPayload. rewrite decide_True by done. by eexists.
Qed.

#[export] Instance toy_session_laws : XochimilcoSessionLaws toy.
Proof.
  refine {| dr_fresh := (toy_linked : @DoubleRatchet _ toy → _ → Prop);
    dr_linked := (toy_linked : @DoubleRatchet _ toy → _ → Prop);
    ls_fresh := (toy_linked : @LegacySession _ toy → _ → Prop);
    ls_linked := (toy_linked : @LegacySession _ toy → _ → Prop) |}; simpl.
  - intros a b H. by symmetry.
  - intros a b H. by symmetry.
  - intros kA kB pA pB spub spriv sig opub opriv sk ad ek g g' _ _
      <-%toy_public_V2 <-%toy_public_V2 [g1 [= <- <- _]] [g2 [= <- <-]] Hx.
    destruct (toy_Initiate _ _ _ _ _ _) as [[[s ek']|e] g3] eqn:Hi; [|done].
    apply (f_equal fst) in Hi. apply toy_Initiate_secret in Hi as ->. by simplify_eq/=.
  - intros kB spub spriv sig sk ad a g g' _ [= <-]. by eexists.
  - intros kA kB pA pB spub spriv sig opub opriv x ek a g g1 g2
      <-%toy_public_V1 <-%toy_public_V1 [g3 [= <- <- _]] [g4 [= <- <-]]
      ->%toy_Initiate_secret [= <-].
    eexists. split; [done|]. intros _. by eexists.
  - intros kA pA pB x a km ek pk spk reg data a' g g' <-%toy_public_V1 [= <-] [= <- <-].
    eexists. split; [|by exists 0%N]. unfold toy_ParsePreKeyMessage.
    by rewrite toy_decode_encode.
  - intros a b km c a' g g' [Hab|Hab]; by apply (toy_deliver a b km c a' g g').
  - intros a b km c a' g g' [Hab|Hab]; by apply (toy_deliver a b km c a' g g').
  - done.
  - done.
  - intros pt km ct g. apply toy_payload.
  - intros pt km iv ct g [= <- <- <-]. by apply (toy_payload pt _ _ g).
Defined.

Lemma toy_initiates kA kB pB spub spriv sig opub g :
  toy_public kB = pB → (∃ g', (toy_CreateNewSpk kB g').1 = Ok (spub, spriv, sig)) →
  is_ok (toy_Initiate kA pB spub sig opub g).1.
Proof.
  intros HpB [g' [= <- _ <-]]. unfold toy_Initiate, toy_sign.
  by rewrite HpB, decide_True.
Qed.

#[export] Instance toy_total_laws : XochimilcoTotalLaws toy.
Proof.
  split; simpl; try done.
  - intros kA kB pA pB spub spriv sig opub opriv g _ _ _ HpB%toy_public_V2 Hspk _.
    pose proof (toy_initiates kA kB pB spub spriv sig opub g HpB Hspk) as H.
    by destruct (toy_Initiate _ _ _ _ _ _) as [[[s ek]|e] g'].
  - intros kA kB pA pB spub spriv sig opub opriv g _ HpB%toy_public_V1 Hspk _.
    by apply (toy_initiates kA kB pB spub spriv sig opub g HpB Hspk).
Qed.

(** In flight: data made with the shared secret. *)
Definition toy_made (s : toy_secret) (x : gobytes * gobytes) : Prop :=
  is_Some x.1 ∧ x.2 = Some (toy_tag s ++ go_string x.1).
Definition toy_channel (a b : toy_ratchet) (ab ba : in_flight) : Prop :=
  toy_linked a b ∧ Forall (toy_made (toy_sec a)) ab ∧ Forall (toy_made (toy_sec a)) ba.

Lemma toy_channel_idle a b : toy_channel a b [] [] ↔ toy_linked a b.
Proof. split; [by intros [? _]|by split]. Qed.
Lemma toy_channel_sym a b ab ba : toy_channel a b ab ba → toy_channel b a ba ab.
Proof. intros (Hl & Hab & Hba). split_and!; [done|by rewrite <-Hl..]. Qed.
Lemma toy_channel_send a b ab ba km c a' g :
  toy_channel a b ab ba → 0 < go_len km → (toy_Encrypt a km g).1 = (Ok c, a') →
  toy_channel a' b (ab ++ [(km, c)]) ba.
Proof.
  intros (Hl & Hab & Hba) Hkm [= <- <-]. split_and!; [done| |done].
  apply Forall_app. split; [done|]. apply Forall_singleton. split; [|done].
  destruct km; [by eexists|by apply Nat.lt_irrefl in Hkm].
Qed.
Lemma toy_channel_receive a b km c ab ba g :
  toy_channel a b ((km, c) :: ab) ba →
  ∃ b', (toy_Decrypt b c g).1 = (Ok km, b') ∧ toy_channel a b' ab ba.
Proof.
  intros (Hl & [([l Hkm] & Hc) Hab]%Forall_cons & Hba). simpl in Hkm, Hc. subst km c.
  unfold toy_Decrypt, toy_linked in *. simpl. rewrite <-Hl, take_app_length.
  rewrite decide_True by done. rewrite drop_app_length. by eexists.
Qed.

#[export] Instance toy_channel_laws : XochimilcoChannelLaws toy.
Proof.
  refine {| dr_channel := (toy_channel : @DoubleRatchet _ toy → _ → _ → _ → Prop);
    ls_channel := (toy_channel : @LegacySession _ toy → _ → _ → _ → Prop) |}.
  - apply toy_channel_idle.
  - apply toy_channel_idle.
  - apply toy_channel_sym.
  - apply toy_channel_sym.
  - apply toy_channel_send.
  - apply toy_channel_send.
  - apply toy_channel_receive.
  - apply toy_channel_receive.
  - done.
  - done.
Defined.

#[export] Instance toy_channel_total_laws : XochimilcoChannelTotalLaws toy.
Proof. by split. Qed.

#[export] Instance toy_keygen_laws : XochimilcoKeygenLaws toy.
Proof. split; simpl; try done. intros p k pub g _. by destruct (is_V1 p). Qed.
