(* ===== verification/Scenario.v ===== *)
(** * Concrete runs: the setup of manager_test.go

    Alice and Bob as the project's tests create them (memstore, fakeNetwork,
    the toy backend), evaluated in the kernel.  The theorems' witnesses use
    these worlds. *)
From S2P Require Import Prelude Types Errors StoreSpec Transport Xochimilco Prog.
From S2P Require Import Signal Memstore Manager ProgFacts LockFacts StoreFacts FakeNetwork.
From S2P Require Import ToyCrypto.

#[export, program] Instance sorted_range : GoMapRange :=
  {| map_range m := (map_to_list m).*2 |}.
Next Obligation. done. Qed.

Definition alice_jid : string := "alice@example.com".
Definition bob_jid : string := "bob@example.com".
Definition alice_dev : Device := MkDevice alice_jid 1%Z.
Definition bob_dev : Device := MkDevice bob_jid 2%Z.

Definition always_trust : TrustResolver := λ _ _ n, (None, n).

(** A program's final world and answer; the defaults are never reached. *)
Definition result_world {A} (o : outcome A) (w : world) : world :=
  match o with Done _ w => w | _ => w end.
Definition result_answer {A} (o : outcome A) (a : A) : A :=
  match o with Done a _ => a | _ => a end.

Definition new_world (pep : fakeNetwork) (seed : N) : world :=
  MkWorld (MkData New pep seed) fresh_locks.

(** [setup] of manager_test.go: the device's world and Manager once it has
    published its bundle and device list. *)
Definition setup (pep : fakeNetwork) (seed : N) (jid : string) (id : DeviceID)
    (p : Protocol) (opts : list Option_) : world * result Manager :=
  let w := result_world (run (InitIdentity jid id p) (new_world pep seed)) (new_world pep seed) in
  let '(rm, d) := eval (NewManager p opts) (w_data w) in
  match rm with
  | Err e => (w, Err e)
  | Ok m =>
      let d := (eval (Manager_PublishBundle m) d).2 in
      let d := (eval (net (OpPublishDeviceList (MkDeviceList jid [id]))) d).2 in
      (MkWorld d (w_lk w), Ok m)
  end.

Definition no_manager : Manager := MkManager ProtocolV2 None (MkDevice "" 0%Z) None.
Definition ok_or {A} (r : result A) (a : A) : A := match r with Ok x => x | Err _ => a end.

(** Alice's and Bob's devices after both have published; [pt] is the protocol,
    [opts] the options of Alice's Manager. *)
Record pair := MkPair { p_wA : world; p_mA : Manager; p_wB : world; p_mB : Manager }.

Definition new_pair (p : Protocol) (opts : list Option_) : pair :=
  let '(wA, rA) := setup newFakeNetwork 1 alice_jid 1%Z p opts in
  let '(wB, rB) := setup (d_env (w_data wA)) 150 bob_jid 2%Z p [] in
  MkPair (MkWorld (with_env (d_env (w_data wB)) (w_data wA)) (w_lk wA)) (ok_or rA no_manager)
    wB (ok_or rB no_manager).

Definition hello : gobytes := Some [Byte.x68; Byte.x69].

(** A call's answer and world. *)
Definition call_result {A} (p : prog eff A) (a : A) (w : world) : A * world :=
  (result_answer (run p w) a, result_world (run p w) w).

Definition no_results : encrypt_results := (None, [], None).
Definition no_message : EncryptedMessage := MkEncryptedMessage alice_dev [] None None.
Definition sent (r : encrypt_results) : EncryptedMessage := default no_message r.1.1.

(** The application stores a trust decision. *)
Definition decide_trust (key : gobytes) (st : TrustState) (w : world) : world :=
  result_world (run (lift (ask (OpSetTrust key st))) w) w.

(** ** A blocked device that readmits itself

    Alice trusts Bob's device and has a session with it, then blocks its key.
    Bob's device sends her a key exchange that claims a key she trusts (here
    her own) instead of its own, with data that decrypts to nothing. *)
Definition spoof_start : pair := new_pair ProtocolV2 [].
Definition bob_key : gobytes :=
  ok_or (IdentityPublicKey ProtocolV2 (m_identityKey (p_mB spoof_start))) None.
Definition trusted_key : gobytes :=
  ok_or (IdentityPublicKey ProtocolV2 (m_identityKey (p_mA spoof_start))) None.
Definition before_block : encrypt_results * world :=
  call_result (EncryptMessage (p_mA spoof_start) bob_jid hello) no_results
    (decide_trust trusted_key TrustTrusted (decide_trust bob_key TrustTrusted (p_wA spoof_start))).
Definition bob_after_hello : result gobytes * world :=
  call_result (DecryptMessage (p_mB spoof_start) (sent before_block.1)) (Ok None)
    (p_wB spoof_start).
Definition blocked_world : world := decide_trust bob_key TrustUntrusted before_block.2.
Definition blocked_attempt : encrypt_results * world :=
  call_result (EncryptMessage (p_mA spoof_start) bob_jid hello) no_results blocked_world.
Definition spoofed : EncryptedMessage :=
  MkEncryptedMessage bob_dev
    [MkRecipientKey 1%Z (Some [])
      (Some (MkKeyExchange trusted_key (Some []) 1%Z 1%Z))] None None.
Definition after_spoof : result gobytes * world :=
  call_result (DecryptMessage (p_mA spoof_start) spoofed) (Ok None) blocked_attempt.2.
Definition readmitted : encrypt_results * world :=
  call_result (EncryptMessage (p_mA spoof_start) bob_jid hello) no_results after_spoof.2.
Definition bob_reads : result gobytes :=
  (call_result (DecryptMessage (p_mB spoof_start) (sent readmitted.1)) (Ok None)
    bob_after_hello.2).1.

(** The run: Bob's message fails to decrypt at Alice's, and Bob reads what she
    writes next, with his key still blocked.  (The general statement is
    [blocked_device_readmitted] of Readmission.) *)
Example readmission_run :
  bob_after_hello.1 = Ok hello ∧
  blocked_attempt.1 = (None, [MkDeviceError bob_dev (Sentinel ErrBlockedDevice)],
    Some (Sentinel ErrNoRecipients)) ∧
  after_spoof.1 =
    Err (Wrapf "ratchet decrypt" (Errorf "message authentication failed")) ∧
  is_Some readmitted.1.1.1 ∧ bob_reads = Ok hello ∧
  trust_of (av (w_data readmitted.2)) bob_key = TrustUntrusted.
Proof. split_and!; try (by vm_compute). vm_compute. by eexists. Qed.
