(* ===== verification/Tests.v ===== *)
(** * The project's tests, executed in the kernel

    manager_test.go and memstore/memstore_test.go as programs: a test is a
    computation over its devices and the shared network that may stop with
    [t.Fatalf].  Each is run with the toy backend and shown to pass; the
    behaviours they sample are general theorems elsewhere. *)
From S2P Require Import Prelude Types Errors StoreSpec Transport Xochimilco Prog.
From S2P Require Import Signal Memstore Manager FakeNetwork ToyCrypto Scenario.

(** [[]byte(s)] and [[]byte{byte(id)}]. *)
Definition bytes_of (s : string) : gobytes := Some (String.list_byte_of_string s).
Definition byte_of_id (id : Z) : gobytes :=
  Some [default Byte.x00 (Byte.of_N (Z.to_N (id mod 256)))].

(** ** Tests *)

(** A device under test: its store, its locks and its Manager. *)
Record subject := MkSubject {
  sj_store : MemStore; sj_locks : lockstate; sj_mgr : Manager }.

(** What a test acts on: the network its transports share, the random source,
    and its devices, which it names by their position. *)
Record bed := MkBed { bed_net : fakeNetwork; bed_rng : N; bed_subjects : list subject }.

(** [inl msg]: the test stopped in [t.Fatalf(msg)]. *)
Definition TestM (A : Type) : Type := bed → (string + A) * bed.

#[export] Instance test_ret : MRet TestM := λ A a b, (inr a, b).
#[export] Instance test_bind : MBind TestM := λ A B f p b,
  match p b with (inl msg, b) => (inl msg, b) | (inr a, b) => f a b end.

Definition Fatalf {A} (msg : string) : TestM A := λ b, (inl msg, b).
Definition fatal_if (c : bool) (msg : string) : TestM unit :=
  if c then Fatalf msg else mret tt.
(** [if err != nil { t.Fatalf(...) }]. *)
Definition must {A} (r : result A) (msg : string) : TestM A :=
  match r with Ok a => mret a | Err _ => Fatalf msg end.

(** Runs [p] on a store of its own that joins the network. *)
Definition run_on {A} (s : MemStore) (lk : lockstate) (p : prog eff A) (b : bed) :
    string + A * MemStore * lockstate * bed :=
  match run p (MkWorld (MkData s (bed_net b) (bed_rng b)) lk) with
  | Done a w =>
      inr (a, d_store (w_data w), w_lk w,
        MkBed (d_env (w_data w)) (d_rng (w_data w)) (bed_subjects b))
  | Blocked => inl "test timed out"
  | Panicked msg => inl msg
  end.

(** A call on the Manager of device [i]. *)
Definition on {A} (i : nat) (p : Manager → prog eff A) : TestM A := λ b,
  match bed_subjects b !! i with
  | None => (inl "no such device", b)
  | Some sj =>
      match run_on (sj_store sj) (sj_locks sj) (p (sj_mgr sj)) b with
      | inl msg => (inl msg, b)
      | inr (a, s, lk, b) =>
          (inr a, MkBed (bed_net b) (bed_rng b)
            (<[i := MkSubject s lk (sj_mgr sj)]> (bed_subjects b)))
      end
  end.

(** [InitIdentity] on a new store and [NewManager] with [opts]: a new device. *)
Definition create (jid : string) (id : DeviceID) (protocol : Protocol)
    (opts : list Option_) : TestM nat := λ b,
  match run_on New fresh_locks
    (_ <-? InitIdentity jid id protocol wrap "InitIdentity";
     lift (mgr <-? NewManager protocol opts wrap "NewManager"; pure (Ok mgr))) b with
  | inl msg => (inl msg, b)
  | inr (Err e, _, _, b) => (inl (error_string e), b)
  | inr (Ok mgr, s, lk, b) =>
      (inr (length (bed_subjects b)),
       MkBed (bed_net b) (bed_rng b) (bed_subjects b ++ [MkSubject s lk mgr]))
  end.

Definition publish_bundle (i : nat) : TestM unit :=
  r ← on i (λ m, lift (Manager_PublishBundle m)); must r "PublishBundle".

Definition setup (jid : string) (id : DeviceID) (protocol : Protocol) : TestM nat :=
  i ← create jid id protocol [WithTrustResolver always_trust];
  publish_bundle i;;
  r ← on i (λ _, lift (net (OpPublishDeviceList (MkDeviceList jid [id]))));
  must r "PublishDeviceList";;
  mret i.

(** What a test that only calls [t.Fatalf] reports. *)
Definition outcome_of (t : TestM unit) : option string :=
  match (t (MkBed newFakeNetwork 1 [])).1 with inl msg => Some msg | inr _ => None end.

(** ** manager_test.go *)

Definition protocols : list Protocol := [ProtocolV2; ProtocolV1].

(** [msg, devErrs, err := ...] where the test expects a message. *)
Definition expect_sent (r : encrypt_results) (name : string) : TestM EncryptedMessage :=
  match r with
  | (_, _, Some _) => Fatalf name
  | (None, _, None) => Fatalf "nil pointer dereference"
  | (Some msg, devErrs, None) =>
      fatal_if (negb (bool_decide (length devErrs = 0))) "unexpected device errors";; mret msg
  end.

(** Exactly one recipient key, with or without a KeyExchange. *)
Definition one_key (with_kx : bool) (keys : list RecipientKey) : bool :=
  match keys with
  | [key] => bool_decide (with_kx = bool_decide (is_Some (RK_KeyExchange key)))
  | _ => false
  end.

Definition expect_text (r : result gobytes) (name text : string) : TestM unit :=
  plaintext ← must r name;
  fatal_if (negb (bool_decide (go_string plaintext = String.list_byte_of_string text)))
    "got another plaintext".

Definition testEndToEndConversation (protocol : Protocol) : TestM unit :=
  alice ← setup "alice@example.com" 1%Z protocol;
  bob ← setup "bob@example.com" 1%Z protocol;
  r ← on alice (λ m, EncryptMessage m "bob@example.com" (bytes_of "hello bob"));
  msg ← expect_sent r "EncryptMessage";
  fatal_if (negb (one_key true (Keys msg)))
    "expected exactly one recipient key carrying a KeyExchange";;
  r ← on bob (λ m, DecryptMessage m msg);
  expect_text r "DecryptMessage" "hello bob";;
  r ← on bob (λ m, EncryptMessage m "alice@example.com" (bytes_of "hi alice"));
  reply ← expect_sent r "EncryptMessage (reply)";
  fatal_if (negb (one_key false (Keys reply)))
    "expected reply to reuse the session without a KeyExchange";;
  r ← on alice (λ m, DecryptMessage m reply);
  expect_text r "DecryptMessage (reply)" "hi alice";;
  r ← on alice (λ m, EncryptMessage m "bob@example.com" (bytes_of "second message"));
  fatal_if (bool_decide (is_Some r.2)) "EncryptMessage (second)".

Definition testKeyTransport (protocol : Protocol) : TestM unit :=
  alice ← setup "alice@example.com" 1%Z protocol;
  bob ← setup "bob@example.com" 1%Z protocol;
  r ← on alice (λ m, EncryptKeyTransport m "bob@example.com");
  msg ← expect_sent r "EncryptKeyTransport";
  fatal_if (negb (is_nil (Payload msg))) "key-transport message must carry no payload";;
  r ← on bob (λ m, DecryptMessage m msg);
  plaintext ← must r "DecryptMessage";
  fatal_if (negb (is_nil plaintext)) "key-transport message should decrypt to nil plaintext".

(** [errors.Is(err, target)] of a possibly nil error. *)
Definition err_is (err : option error) (target : sentinel) : bool :=
  match err with Some e => errors_Is e target | None => false end.

Definition testUntrustedDeviceIsSkipped (protocol : Protocol) : TestM unit :=
  alice ← create "alice@example.com" 1%Z protocol [];
  publish_bundle alice;;
  _ ← setup "bob@example.com" 1%Z protocol;
  '(_, devErrs, err) ← on alice (λ m, EncryptMessage m "bob@example.com" (bytes_of "hi"));
  fatal_if (negb (err_is err ErrNoRecipients)) "expected ErrNoRecipients";;
  fatal_if (negb match devErrs with
                 | [de] => errors_Is (DE_Err de) ErrUntrustedDevice
                 | _ => false
                 end) "expected one ErrUntrustedDevice".

Example TestEndToEndConversation_passes :
  map (λ p, outcome_of (testEndToEndConversation p)) protocols = [None; None].
Proof. vm_compute. reflexivity. Qed.

Example TestKeyTransport_passes :
  map (λ p, outcome_of (testKeyTransport p)) protocols = [None; None].
Proof. vm_compute. reflexivity. Qed.

Example TestUntrustedDeviceIsSkipped_passes :
  map (λ p, outcome_of (testUntrustedDeviceIsSkipped p)) protocols = [None; None].
Proof. vm_compute. reflexivity. Qed.

(** ** memstore/memstore_test.go *)

(** The loop that allocates [n] prekeys, with [first] so far. *)
Fixpoint allocate (n : nat) (first : list PreKeyRecord) (s : MemStore) :
    result (list PreKeyRecord) * MemStore :=
  match n with
  | O => (Ok first, s)
  | S n =>
      match Store.NextPreKeyID s with
      | (Err e, s) => (Err e, s)
      | (Ok id, s) =>
          allocate n (first ++ [MkPreKeyRecord id (byte_of_id id) (byte_of_id id)]) s
      end
  end.

(** The loop that consumes the prekeys [id], [id + 1], ... *)
Fixpoint consume_from (id : Z) (n : nat) (s : MemStore) : result unit * MemStore :=
  match n with
  | O => (Ok tt, s)
  | S n =>
      match Store.ConsumePreKey id s with
      | (Err e, s) => (Err e, s)
      | (Ok _, s) => consume_from (u32_succ id) n s
      end
  end.

(** The loop over [recs]: whether ID 10 was found; [None] if its key changed. *)
Fixpoint find_ten (found : bool) (recs : list PreKeyRecord) : option bool :=
  match recs with
  | [] => Some found
  | r :: recs =>
      if decide (PKR_ID r = 10%Z) then
        if decide (head (go_string (PKR_Public r)) = Some Byte.x0a) then find_ten true recs
        else None
      else find_ten found recs
  end.

Definition TestNextPreKeyIDSurvivesConsumption : option string :=
  match allocate 10 [] New with
  | (Err e, _) => Some (error_string e)
  | (Ok first, s) =>
      let '(_, s) := Store.PutPreKeys first s in
      match consume_from 1 9 s with
      | (Err e, _) => Some (error_string e)
      | (Ok _, s) =>
          match Store.PreKeyCount s with
          | (Ok 1%Z, s) =>
              match Store.NextPreKeyID s with
              | (Err e, _) => Some (error_string e)
              | (Ok newID, s) =>
                  if decide (newID = 10%Z) then Some "new prekey ID collides"
                  else
                    let '(_, s) := Store.PutPreKeys
                      [MkPreKeyRecord newID (Some [Byte.x63]) (Some [Byte.x63])] s in
                    match Store.PreKeys s with
                    | (Err e, _) => Some (error_string e)
                    | (Ok recs, _) =>
                        match find_ten false recs with
                        | None => Some "prekey ID 10 was overwritten"
                        | Some false => Some "prekey ID 10 is missing"
                        | Some true => None
                        end
                    end
              end
          | _ => Some "expected 1 unconsumed prekey"
          end
      end
  end.

Example TestNextPreKeyIDSurvivesConsumption_passes :
  TestNextPreKeyIDSurvivesConsumption = None.
Proof. vm_compute. reflexivity. Qed.
