(* ===== verification/Glare.v ===== *)
(** * When first messages meet: two runs to the end

    The situations of [FirstContact] as programs over devices on one network
    (the devices and the network of [Tests]): what each DecryptMessage
    answers, and what it takes until the two devices understand each other
    again. *)
From S2P Require Import Prelude Types Errors StoreSpec Transport Xochimilco Prog.
From S2P Require Import Signal Memstore Manager FakeNetwork ToyCrypto Scenario Tests.

(** ** Steps *)

Definition say (i : nat) (jid text : string) : TestM EncryptedMessage :=
  r ← on i (λ m, EncryptMessage m jid (bytes_of text)); expect_sent r "EncryptMessage".
Definition hear (i : nat) (msg : EncryptedMessage) : TestM (result gobytes) :=
  on i (λ m, DecryptMessage m msg).

(** Device [i] resets its session with [dev], and sends a key transport. *)
Definition renew (i : nat) (dev : Device) : TestM EncryptedMessage :=
  r ← on i (λ m, ResetSession m dev); _ ← must r "ResetSession";
  r ← on i (λ m, EncryptKeyTransport m (JID dev)); expect_sent r "EncryptKeyTransport".

(** Device [i] writes [text] to the account [jid], and device [j] reads it. *)
Definition tell (i : nat) (jid : string) (j : nat) (text : string) : TestM (result gobytes) :=
  msg ← say i jid text; hear j msg.

Definition answers_of (t : TestM (list (result gobytes))) : string + list (result gobytes) :=
  (t (MkBed newFakeNetwork 1 [])).1.

(** ** Crossing *)

Definition meeting (p : Protocol) : TestM (nat * nat * list (result gobytes)) :=
  alice ← setup alice_jid 1%Z p;
  bob ← setup bob_jid 2%Z p;
  hello ← say alice bob_jid "hello bob";
  hi ← say bob alice_jid "hi alice";
  r1 ← hear bob hello;
  r2 ← hear alice hi;
  mret (alice, bob, [r1; r2]).

(** Both have read the other's first message; now each writes again. *)
Definition crossing (p : Protocol) : TestM (list (result gobytes)) :=
  '(alice, bob, rs) ← meeting p;
  r3 ← tell alice bob_jid bob "still there?";
  r4 ← tell bob alice_jid alice "and you?";
  mret (rs ++ [r3; r4]).

(** Alice renews the session, at first from the bundle she used before. *)
Definition crossing_mended (p : Protocol) : TestM (list (result gobytes)) :=
  '(alice, bob, _) ← meeting p;
  again ← renew alice bob_dev;
  r1 ← hear bob again;
  publish_bundle bob;;
  fresh ← renew alice bob_dev;
  r2 ← hear bob fresh;
  r3 ← tell alice bob_jid bob "better?";
  r4 ← tell bob alice_jid alice "better";
  mret [r1; r2; r3; r4].

(** Crossing ends the contact, and the documented remedy is not enough.
    Alice's and Bob's first messages cross (both protocols): each reads the
    other's, as [first_messages_cross] says.  From then on neither can read
    anything the other writes: both calls of [EncryptMessage] succeed, both of
    [DecryptMessage] fail in the ratchet.  Then Alice does what the comment on
    ResetSession asks for, [ResetSession] and [EncryptKeyTransport]: Bob refuses
    the result, because the published bundle still offers the prekey that her
    first message used up.  Only after Bob publishes a new bundle does the same
    remedy work, and both can write again. *)
Example crossing_run :
  Forall (λ p, answers_of (crossing p) =
    inr [Ok (bytes_of "hello bob"); Ok (bytes_of "hi alice");
         Err (Wrapf "ratchet decrypt" (Errorf "message authentication failed"));
         Err (Wrapf "ratchet decrypt" (Errorf "message authentication failed"))] ∧
    answers_of (crossing_mended p) =
    inr [Err (Wrapf "establish session" (Wrapf "consume one-time prekey 95"
           (Errorf "one-time prekey 95 not found")));
         Ok None; Ok (bytes_of "better?"); Ok (bytes_of "better")]) protocols.
Proof. repeat constructor; vm_compute; reflexivity. Qed.
