(* ===== verification/Handshake.v ===== *)
(** * One key between two devices

    What [encryptForDevice] makes for a device, [DecryptMessage] on that device
    opens: with a session both have stored, or with the key exchange the key
    carries.  The backend's behaviour ([XochimilcoSessionLaws]) and an honest
    bundle are hypotheses; the stores are any that meet the contract. *)
From S2P Require Import Prelude Types Errors StoreSpec Transport Xochimilco Prog.
From S2P Require Import ProgFacts StoreFacts Signal SessionLaws SignalFacts Manager LockFacts.
From S2P Require Import ManagerKeys ManagerEncrypt ManagerDecrypt.

Section Handshake.
Context `{X : Xochimilco} {T : Transport} {ST : Store} {SC : StoreContract ST}.
Context {CL : XochimilcoCodecLaws X} {SL : XochimilcoSessionLaws X}.
Implicit Types (d : data) (w : world) (m : Manager) (s t : Session).

(** ** Sessions *)

(** The two ends of a session with no message in flight. *)
Inductive linked : Session → Session → Prop :=
  | linked_V1 a b : ls_linked a b →
      linked (MkSession ProtocolV1 None (Some a) None) (MkSession ProtocolV1 None (Some b) None)
  | linked_V2 a b : dr_linked a b →
      linked (MkSession ProtocolV2 (Some a) None None) (MkSession ProtocolV2 (Some b) None None).

Lemma linked_sym s t : linked s t → linked t s.
Proof.
  intros []; constructor; [by apply ls_linked_sym|by apply dr_linked_sym].
Qed.

(** A linked end is stored and loaded back unchanged. *)
Lemma linked_stored s t : linked s t → ∃ y, Session_Marshal t = Ok y.
Proof.
  intros [a b Hab|a b Hab]; [apply ls_marshals in Hab|apply dr_marshals in Hab];
    unfold Session_Marshal; simpl;
    [destruct (ls_MarshalBinary b)|destruct (dr_MarshalBinary b)]; by eauto.
Qed.

(** The protocol a session of a Manager has: anything but [ProtocolV1] is
    treated as [ProtocolV2]. *)
Definition has_protocol (p : Protocol) (s : Session) : Prop :=
  is_V1 p = is_V1 (s_protocol s).

Lemma linked_load p s t y :
  linked s t → has_protocol p t → Session_Marshal t = Ok y → LoadSession p y = Ok t.
Proof.
  intros [a b Hab|a b Hab]; unfold has_protocol, Session_Marshal, LoadSession; simpl;
    intros -> Hy.
  - by rewrite (ls_unmarshal_marshal _ _ Hy).
  - by rewrite (dr_unmarshal_marshal _ _ Hy).
Qed.

(** [t] opens [c] as [km], and then satisfies [R]. *)
Definition opens_as (t : Session) (c km : gobytes) (R : Session → Prop) : Prop :=
  ∀ d, ∃ t', (eval (Session_Decrypt t c) d).1 = (Ok km, t') ∧ R t' ∧
    s_protocol t' = s_protocol t.

(** [t] opens [c] as [km] and is then linked with [s']. *)
Definition decrypts_to (t : Session) (c km : gobytes) (s' : Session) : Prop :=
  opens_as t c km (linked s').

(** Sessions that satisfy [R] survive being stored. *)
Definition storable (p : Protocol) (R : Session → Prop) : Prop :=
  ∀ t, R t → ∃ y, Session_Marshal t = Ok y ∧ (has_protocol p t → LoadSession p y = Ok t).

Lemma linked_storable p s : storable p (linked s).
Proof.
  intros t Hl. destruct (linked_stored _ _ Hl) as [y Hy]. exists y.
  split; [done|]. intros Hp. by eapply linked_load.
Qed.

Lemma deliver_V1 a b km c a' g :
  ls_fresh a b ∨ ls_linked a b → 0 < go_len km →
  (ls_EncryptWhisperMessage a km g).1 = (Ok c, a') →
  decrypts_to (MkSession ProtocolV1 None (Some b) None) c km
    (MkSession ProtocolV1 None (Some a') None).
Proof.
  intros Hab Hkm Henc d.
  destruct (ls_deliver a b km c a' g (d_rng d) Hab Hkm Henc) as (b' & Hdec & Hl).
  exists (MkSession ProtocolV1 None (Some b') None). unfold Session_Decrypt. simpl.
  destruct (ls_DecryptWhisperMessage b c (d_rng d)) as [x g'].
  simpl in *. subst x. split_and!; [done|by constructor|done].
Qed.

Lemma deliver_V2 a b km c a' g :
  dr_fresh a b ∨ dr_linked a b → 0 < go_len km → (dr_Encrypt a km g).1 = (Ok c, a') →
  decrypts_to (MkSession ProtocolV2 (Some b) None None) c km
    (MkSession ProtocolV2 (Some a') None None).
Proof.
  intros Hab Hkm Henc d.
  destruct (dr_deliver a b km c a' g (d_rng d) Hab Hkm Henc) as (b' & Hdec & Hl).
  exists (MkSession ProtocolV2 (Some b') None None). unfold Session_Decrypt. simpl.
  destruct (dr_Decrypt b c (d_rng d)) as [x g'].
  simpl in *. subst x. split_and!; [done|by constructor|done].
Qed.

Lemma linked_deliver s t km c s' d :
  linked s t → 0 < go_len km → (eval (Session_Encrypt s km) d).1 = (Ok c, s') →
  decrypts_to t c km s' ∧ s_protocol s' = s_protocol s.
Proof.
  intros [a b Hab|a b Hab] Hkm; unfold Session_Encrypt; simpl.
  - destruct (ls_EncryptWhisperMessage a km (d_rng d)) as [[r a'] g] eqn:He.
    intros [= -> <-]. split; [|done]. eapply deliver_V1; [by right|done|]. by rewrite He.
  - destruct (dr_Encrypt a km (d_rng d)) as [[r a'] g] eqn:He.
    intros [= -> <-]. split; [|done]. eapply deliver_V2; [by right|done|]. by rewrite He.
Qed.

(** ** The first message *)

Lemma IdentityPublicKey_V2 p k :
  is_V1 p = false → IdentityPublicKey p k = IdentityPublicKey ProtocolV2 k.
Proof. unfold IdentityPublicKey. by intros ->. Qed.

Lemma generated_spk_V2 p k pub priv sig :
  is_V1 p = false → generated_spk p k pub priv sig → generated_spk ProtocolV2 k pub priv sig.
Proof. unfold generated_spk. by intros ->. Qed.

Lemma generated_identity_V2 p k :
  is_V1 p = false → generated_identity p k → generated_identity ProtocolV2 k.
Proof. unfold generated_identity. by intros ->. Qed.

(** How the holder of the identity [kB] and the prekeys [spk] and [pk] opens
    a key that carries a key exchange of the identity [pA]: to [km], and to a
    session linked with [s']. *)
Definition handshake_opens (p : Protocol) (kB : gobytes) (spk : SignedPreKeyRecord)
    (pk : PreKeyRecord) (pA km : gobytes) (key : RecipientKey) (s' : Session) : Prop :=
  ∃ kx, RK_KeyExchange key = Some kx ∧
  if is_V1 p then
    PeekLegacyPreKeyIDs (RK_Data key) = Ok (SPKR_ID spk, PKR_ID pk) ∧
    ∀ d, ∃ t inner,
      (eval (NewPassiveSessionFromPreKeyBlob kB (SPKR_Public spk) (SPKR_Private spk)
        (PKR_Private pk) (RK_Data key)) d).1 = Ok (t, pA, inner) ∧
      has_protocol p t ∧ decrypts_to t inner km s'
  else
    KX_SignedPreKeyID kx = SPKR_ID spk ∧ KX_PreKeyID kx = PKR_ID pk ∧
    KX_IdentityKey kx = pA ∧
    ∀ d, ∃ t,
      (eval (NewPassiveSession kB pA (SPKR_Public spk) (SPKR_Private spk)
        (PKR_Private pk) (KX_EphemeralKey kx)) d).1 = Ok t ∧
      has_protocol p t ∧ decrypts_to t (RK_Data key) km s'.

(** The session [s] was created towards those prekeys. *)
Definition created_for (p : Protocol) (kA pB : gobytes) (spk : SignedPreKeyRecord)
    (pk : PreKeyRecord) (reg : Z) (s : Session) (ek : gobytes) : Prop :=
  ∃ d, (eval (NewActiveSession p kA pB (SPKR_Public spk) (SPKR_Signature spk)
    (PKR_Public pk) (SPKR_ID spk) (PKR_ID pk) reg) d).1 = Ok (s, ek).

Section Agreement.
Context (p : Protocol) (kA kB pA pB : gobytes).
Context (spk : SignedPreKeyRecord) (pk : PreKeyRecord) (reg : Z).
Hypothesis HkA : generated_identity p kA.
Hypothesis HkB : generated_identity p kB.
Hypothesis HpA : IdentityPublicKey p kA = Ok pA.
Hypothesis HpB : IdentityPublicKey p kB = Ok pB.
Hypothesis Hspk :
  generated_spk p kB (SPKR_Public spk) (SPKR_Private spk) (SPKR_Signature spk).
Hypothesis Hopk : generated_opk (PKR_Public pk) (PKR_Private pk).

Lemma created_V1 s ek :
  is_V1 p = true → created_for p kA pB spk pk reg s ek →
  ∃ x a g g', (ls_CreateInitialMessage kA pB (SPKR_Public spk) (SPKR_Signature spk)
      (PKR_Public pk) g).1 = Ok (x, ek) ∧
    (ls_NewActiveSession kA pB x g').1 = Ok a ∧
    s = MkSession ProtocolV1 None (Some a)
      (Some (MkPending ek (PKR_ID pk) (SPKR_ID spk) reg)).
Proof.
  intros HV [d Hd]. revert Hd. eval_to_wp.
  unfold NewActiveSession. rewrite HV. apply wp_try, wp_crypto.
  destruct (ls_CreateInitialMessage _ _ _ _ _ _) as [[[x ek']|e] g] eqn:Hi; [|done].
  apply wp_try, wp_crypto. simpl.
  destruct (ls_NewActiveSession kA pB x g) as [[a|e] g'] eqn:Ha; [|done].
  apply wp_pure. intros [= <- <-]. exists x, a, (d_rng d), g. by rewrite Hi, Ha.
Qed.

Lemma created_V2 s ek :
  is_V1 p = false → created_for p kA pB spk pk reg s ek →
  ∃ sk ad a g g', (x3dh_CreateInitialMessage kA pB (SPKR_Public spk) (SPKR_Signature spk)
      (PKR_Public pk) g).1 = Ok (sk, ad, ek) ∧
    (dr_CreateActive sk ad (SPKR_Public spk) g').1 = Ok a ∧
    s = MkSession ProtocolV2 (Some a) None None.
Proof.
  intros HV [d Hd]. revert Hd. eval_to_wp.
  unfold NewActiveSession. rewrite HV. apply wp_try, wp_crypto.
  destruct (x3dh_CreateInitialMessage _ _ _ _ _ _) as [[[[sk ad] ek']|e] g] eqn:Hi; [|done].
  apply wp_try, wp_crypto. simpl.
  destruct (dr_CreateActive sk ad (SPKR_Public spk) g) as [[a|e] g'] eqn:Ha; [|done].
  apply wp_pure. intros [= <- <-]. exists sk, ad, a, (d_rng d), g. by rewrite Hi, Ha.
Qed.

Lemma passive_V1 x ek a g g' data inner :
  (ls_CreateInitialMessage kA pB (SPKR_Public spk) (SPKR_Signature spk)
    (PKR_Public pk) g).1 = Ok (x, ek) →
  (ls_NewActiveSession kA pB x g').1 = Ok a → p = ProtocolV1 →
  ls_ParsePreKeyMessage data =
    Ok (MkPreKeyMessage (SPKR_ID spk) (PKR_ID pk) pA ek inner) →
  ∀ d, ∃ b, ls_fresh a b ∧
    (eval (NewPassiveSessionFromPreKeyBlob kB (SPKR_Public spk) (SPKR_Private spk)
      (PKR_Private pk) data) d).1 =
    Ok (MkSession ProtocolV1 None (Some b) None, pA, inner).
Proof.
  intros Hi Ha -> Hparse d.
  eval_to_wp.
  unfold NewPassiveSessionFromPreKeyBlob. rewrite Hparse.
  apply wp_try, wp_pure, wp_try, wp_crypto. simpl.
  destruct (ls_agreement _ _ _ _ _ _ _ _ _ _ _ _ _ _ (d_rng d) HpA HpB Hspk Hopk Hi Ha)
    as (x' & Hx' & Hb).
  destruct (ls_ReceiveInitialMessage _ _ _ _ _ _ _) as [r g2]. simpl in Hx'. subst r.
  apply wp_try, wp_crypto. simpl. destruct (Hb g2) as (b & Hb' & Hf).
  destruct (ls_NewPassiveSession kB pA x' g2) as [r g3]. simpl in *. subst r.
  apply wp_pure. by exists b.
Qed.

Lemma passive_V2 sk ad ek a g g' :
  (x3dh_CreateInitialMessage kA pB (SPKR_Public spk) (SPKR_Signature spk)
    (PKR_Public pk) g).1 = Ok (sk, ad, ek) →
  (dr_CreateActive sk ad (SPKR_Public spk) g').1 = Ok a → is_V1 p = false →
  ∀ d, ∃ b, dr_fresh a b ∧
    (eval (NewPassiveSession kB pA (SPKR_Public spk) (SPKR_Private spk)
      (PKR_Private pk) ek) d).1 = Ok (MkSession ProtocolV2 (Some b) None None).
Proof.
  intros Hi Ha HV d. rewrite IdentityPublicKey_V2 in HpA, HpB by done.
  apply generated_spk_V2 in Hspk as Hspk2; [|done].
  apply generated_identity_V2 in HkA as HkA2; [|done].
  apply generated_identity_V2 in HkB as HkB2; [|done].
  pose proof (x3dh_agreement _ _ _ _ _ _ _ _ _ _ _ _ _ (d_rng d) HkA2 HkB2 HpA HpB Hspk2
    Hopk Hi) as Hr.
  eval_to_wp.
  unfold NewPassiveSession. apply wp_try, wp_crypto. simpl.
  destruct (x3dh_ReceiveInitialMessage _ _ _ _ _ _) as [r g2]. simpl in Hr. subst r.
  apply wp_try, wp_crypto. simpl.
  destruct (dr_create _ _ _ _ _ _ _ _ g2 Hspk2 Ha) as (b & Hb & Hf).
  destruct (dr_CreatePassive _ _ _ _ _) as [r g3]. simpl in *. subst r.
  apply wp_pure. by exists b.
Qed.

(** The initiator's first message opens at the responder. *)
Lemma handshake s ek km c s' id d :
  created_for p kA pB spk pk reg s ek → 0 < go_len km →
  (eval (Session_Encrypt s km) d).1 = (Ok c, s') →
  handshake_opens p kB spk pk pA km
    (MkRecipientKey id c (Some (MkKeyExchange pA ek (SPKR_ID spk) (PKR_ID pk)))) s' ∧
  has_protocol p s' ∧ ∀ y, Session_Marshal s' = Ok y → LoadSession p y = Ok s'.
Proof.
  intros Hs Hkm. unfold handshake_opens, has_protocol, LoadSession, Session_Marshal.
  destruct (is_V1 p) eqn:HV.
  - destruct (created_V1 _ _ HV Hs) as (x & a & g & g' & Hi & Ha & ->).
    apply is_V1_true in HV. unfold Session_Encrypt. simpl.
    destruct (ls_EncryptPreKeyWhisperMessage _ _ _ _ _ _ _) as [[r a'] g2] eqn:He.
    intros [= -> <-]. simpl. pose proof HpA as HpA1. rewrite HV in HpA1.
    destruct (ls_prekey_message _ _ _ _ _ _ _ _ _ _ _ _ _ _ HpA1 Ha (f_equal fst He))
      as (inner & Hparse & g3 & Hinner).
    split_and!; [|done|intros y Hy; by rewrite (ls_unmarshal_marshal _ _ Hy)].
    eexists. split; [done|]. unfold PeekLegacyPreKeyIDs. simpl. rewrite Hparse.
    split; [done|]. intros d'.
    destruct (passive_V1 _ _ _ _ _ _ _ Hi Ha HV Hparse d') as (b & Hf & Hb).
    eexists _, inner. split_and!; [exact Hb|done|].
    eapply deliver_V1; [by left|done|exact Hinner].
  - destruct (created_V2 _ _ HV Hs) as (sk & ad & a & g & g' & Hi & Ha & ->).
    unfold Session_Encrypt. simpl.
    destruct (dr_Encrypt a km (d_rng d)) as [[r a'] g2] eqn:He.
    intros [= -> <-]. simpl.
    split_and!; [|done|intros y Hy; by rewrite (dr_unmarshal_marshal _ _ Hy)].
    eexists. split; [done|]. split_and!; [done..|]. intros d'.
    destruct (passive_V2 _ _ _ _ _ _ Hi Ha HV d') as (b & Hf & Hb).
    eexists. split_and!; [exact Hb|done|].
    eapply deliver_V2; [by left|done|by rewrite He].
Qed.
End Agreement.

(** ** Encrypting for a device, tracked by what its holder can open *)

(** Bob's keys come from the generators, and the pool is keyed by ID. *)
Record own_prekeys (p : Protocol) (kB : gobytes) (a : astore) : Prop := {
  own_identity : generated_identity p kB;
  own_spk : generated_spk p kB (SPKR_Public (a_current a)) (SPKR_Private (a_current a))
    (SPKR_Signature (a_current a));
  own_pool id r : a_pool a !! id = Some r →
    PKR_ID r = id ∧ generated_opk (PKR_Public r) (PKR_Private r) }.

Lemma bundle_prekey m a b k :
  own_prekeys (m_protocol m) (m_identityKey m) a → bundle_of m a b → k ∈ B_PreKeys b →
  ∃ pk, a_pool a !! PKR_ID pk = Some pk ∧ k = MkPreKey (PKR_ID pk) (PKR_Public pk).
Proof.
  intros Hown (_ & _ & _ & Hperm) Hk. rewrite Hperm in Hk.
  apply list_elem_of_fmap in Hk as (pk & -> & Hpk).
  apply list_elem_of_fmap in Hpk as ([id r] & -> & Hr).
  apply elem_of_map_to_list in Hr. destruct (own_pool _ _ _ Hown _ _ Hr) as [Hid _].
  exists r. simpl. split; [by rewrite Hid|done].
Qed.

(** The one-time prekey a session is created towards: the first of the bundle. *)
Definition offered (b : Bundle) (pk : PreKeyRecord) : Prop :=
  head (B_PreKeys b) = Some (MkPreKey (PKR_ID pk) (PKR_Public pk)).

(** The key is opened by [mB], whose store was [aB] when it published [b], with
    the key exchange it carries; [x] is the session the sender has stored by
    then. *)
Definition first_key (mA mB : Manager) (aB : astore) (b : Bundle) (km : gobytes)
    (key : RecipientKey) (x : gobytes) : Prop :=
  ∃ s' pk pA, IdentityPublicKey (m_protocol mA) (m_identityKey mA) = Ok pA ∧
    a_pool aB !! PKR_ID pk = Some pk ∧ offered b pk ∧
    LoadSession (m_protocol mA) x = Ok s' ∧ has_protocol (m_protocol mA) s' ∧
    handshake_opens (m_protocol mA) (m_identityKey mB) (a_current aB) pk pA km key s'.

(** The key is opened with the session [y] stored at the other end. *)
Definition next_key (p : Protocol) (y km : gobytes) (key : RecipientKey) (x : gobytes) : Prop :=
  RK_KeyExchange key = None ∧
  ∃ s' t, LoadSession p x = Ok s' ∧ has_protocol p s' ∧ LoadSession p y = Ok t ∧
    has_protocol p t ∧ decrypts_to t (RK_Data key) km s'.

(** The end of encryptForDevice: if it succeeds, the ratchet made the data of
    the key and the session after that is stored. *)
Lemma encrypt_tail m dev km s kx (K : RecipientKey → gobytes → Prop) d :
  good d →
  (∀ c s' d', (eval (Session_Encrypt s km) d').1 = (Ok c, s') →
    ∀ y, Session_Marshal s' = Ok y → K (MkRecipientKey (ID dev) c kx) y) →
  wp (known <-? ask (OpRemoteIdentityKey dev) wrap "load identity key";
      match known with
      | None => pure (Err (Errorf "no known identity key for device"))
      | Some idKey =>
          _ <-? checkTrust m dev idKey;
          '(r, sess) ← Session_Encrypt s km;
          data <-? pure r wrap "ratchet encrypt";
          _ <-? putSession dev sess;
          pure (Ok (MkRecipientKey (ID dev) data kx))
      end)
    (λ r d', ∀ key, r = Ok key → RK_Device key = ID dev ∧
      ∃ x, a_sessions (av d') !! dev = Some x ∧ K key x) d.
Proof.
  intros Hg HK. apply wp_try. read_step; [|done].
  destruct (a_remote (av d) !! dev) as [ik|]; [|by apply wp_pure].
  apply wp_try. eapply wp_mono; [by apply checkTrust_spec|].
  intros [[]|e] d1 (Hg1 & _); simpl; [|done]. apply wp_bind.
  eapply wp_mono; [apply wp_and; [apply wp_answer|
    by apply (wp_crypto_only _ (λ _ d', good d'))]|].
  intros [r s'] d2 [Hans Hg2]. apply wp_try, wp_pure. destruct r as [c|e]; [|done].
  apply wp_try. eapply wp_mono; [by apply putSession_spec|].
  intros [[]|e] d3 [_ Hp]; [|done]. destruct Hp as (y & Hy & Hav3).
  apply wp_pure. intros key [= <-]. split; [done|]. exists y. rewrite Hav3. simpl.
  split; [apply lookup_insert_eq|]. eapply HK; [by symmetry|done].
Qed.

(** With a stored session the key is what its ratchet makes. *)
Lemma encrypt_stored m dev km x s (K : RecipientKey → gobytes → Prop) d :
  good d → a_sessions (av d) !! dev = Some x → LoadSession (m_protocol m) x = Ok s →
  (∀ c s' d', (eval (Session_Encrypt s km) d').1 = (Ok c, s') →
    ∀ y, Session_Marshal s' = Ok y → K (MkRecipientKey (ID dev) c None) y) →
  wp (encryptForDevice_locked m dev km)
    (λ r d', ∀ key, r = Ok key → RK_Device key = ID dev ∧
      ∃ x', a_sessions (av d') !! dev = Some x' ∧ K key x') d.
Proof.
  intros Hg Hx Hs HK. unfold encryptForDevice_locked. apply wp_try.
  unfold getOrCreateActiveSession. apply wp_try. read_step; [|done]. rewrite Hx.
  apply wp_try, wp_pure. unfold signal_Protocol. rewrite Hs. apply wp_pure.
  by apply encrypt_tail.
Qed.

Lemma encrypt_next m dev km x y s t d :
  good d → a_sessions (av d) !! dev = Some x → LoadSession (m_protocol m) x = Ok s →
  LoadSession (m_protocol m) y = Ok t → linked s t → has_protocol (m_protocol m) s →
  has_protocol (m_protocol m) t → 0 < go_len km →
  wp (encryptForDevice_locked m dev km)
    (λ r d', ∀ key, r = Ok key → RK_Device key = ID dev ∧
      ∃ x', a_sessions (av d') !! dev = Some x' ∧
        next_key (m_protocol m) y km key x') d.
Proof.
  intros Hg Hx Hs Ht Hl Hps Hpt Hkm. eapply encrypt_stored; [done..|].
  intros c s' d2 Henc y' Hy'.
  destruct (linked_deliver s t km c s' d2 Hl Hkm Henc) as [Hdec Hp'].
  split; [done|]. exists s', t.
  assert (has_protocol (m_protocol m) s') as Hps' by (unfold has_protocol; by rewrite Hp').
  split_and!; try done.
  destruct (Hdec d) as (t' & _ & Hl' & _).
  eapply linked_load; [by apply linked_sym|done|done].
Qed.

Section OneDevice.
Context (mA mB : Manager) (aB : astore) (bundle : Bundle).
Let B : Device := m_localDevice mB.
Hypothesis Hprot : m_protocol mB = m_protocol mA.
Hypothesis HkA : generated_identity (m_protocol mA) (m_identityKey mA).
Hypothesis Hown : own_prekeys (m_protocol mB) (m_identityKey mB) aB.
Hypothesis Hbundle : bundle_of mB aB bundle.

Lemma getOrCreate_first d :
  good d → a_sessions (av d) !! B = None →
  (∀ b, (FetchBundle B (d_env d)).1 = Ok b → b = bundle) →
  wp (getOrCreateActiveSession mA B)
    (λ r d', good d' ∧ ∀ s kx, r = Ok (s, kx) →
      ∃ pA pk ek, IdentityPublicKey (m_protocol mA) (m_identityKey mA) = Ok pA ∧
        a_pool aB !! PKR_ID pk = Some pk ∧ offered bundle pk ∧
        created_for (m_protocol mA) (m_identityKey mA) (B_IdentityKey bundle)
          (a_current aB) pk (ID (m_localDevice mA)) s ek ∧
        kx = Some (MkKeyExchange pA ek (SPKR_ID (a_current aB)) (PKR_ID pk))) d.
Proof.
  intros Hg Hno Hfetch. unfold getOrCreateActiveSession. apply wp_try. read_step.
  2: { done. }
  rewrite Hno. destruct Hso as [Henv _]. rewrite <-Henv in Hfetch.
  apply wp_try, wp_net. simpl in *.
  destruct (FetchBundle B (d_env d0)) as [[b|e] v] eqn:Hf; simpl; [|done].
  rewrite (Hfetch b eq_refl). clear b Hf Hfetch.
  destruct (B_PreKeys bundle) as [|k ks] eqn:Hks; [by apply wp_pure|].
  destruct (bundle_prekey _ _ _ k Hown Hbundle) as (pk & Hpk & ->).
  { rewrite Hks. apply elem_of_cons. by left. }
  destruct Hbundle as (_ & _ & -> & _). simpl. apply wp_try.
  eapply wp_mono; [apply wp_and; [apply wp_answer|
    by apply (wp_crypto_only _ (λ _ d', good d'))]|].
  intros [[sess ek]|e] d1 [Hans Hg1]; simpl; [|done].
  apply wp_try. write_step; [|done].
  apply wp_try, wp_pure. unfold signal_Protocol.
  destruct (IdentityPublicKey _ _) as [pA|e] eqn:HpA; simpl; [|done].
  apply wp_pure. split; [done|]. intros s kx [= <- <-].
  exists pA, pk, ek. split_and!; [done|done|by unfold offered; rewrite Hks| |done].
  eexists. symmetry. exact Hans.
Qed.

(** Bob's key as the generator made it, for the session's constructor. *)
Lemma bundle_identity :
  IdentityPublicKey (m_protocol mA) (m_identityKey mB) = Ok (B_IdentityKey bundle).
Proof. rewrite <-Hprot. apply Hbundle. Qed.

Lemma encrypt_first km d :
  good d → a_sessions (av d) !! B = None → 0 < go_len km →
  (∀ b, (FetchBundle B (d_env d)).1 = Ok b → b = bundle) →
  wp (encryptForDevice_locked mA B km)
    (λ r d', ∀ key, r = Ok key → RK_Device key = ID B ∧
      ∃ x, a_sessions (av d') !! B = Some x ∧ first_key mA mB aB bundle km key x) d.
Proof.
  intros Hg Hno Hkm Hfetch. unfold encryptForDevice_locked. apply wp_try.
  eapply wp_mono; [by apply getOrCreate_first|].
  intros [[s kx]|e] d1 [Hg1 Hs]; simpl; [|done].
  destruct (Hs _ _ eq_refl) as (pA & pk & ek & HpA & Hpk & Hoff & Hcre & ->).
  apply encrypt_tail; [done|]. intros c s' d2 Henc.
  destruct (own_pool _ _ _ Hown _ _ Hpk) as [_ Hopk].
  pose proof (own_spk _ _ _ Hown) as Hspk. rewrite Hprot in Hspk.
  pose proof (own_identity _ _ _ Hown) as HkB. rewrite Hprot in HkB.
  destruct (handshake _ _ _ _ _ _ _ _ HkA HkB HpA bundle_identity Hspk Hopk
    s ek km c s' (ID B) d2 Hcre Hkm Henc) as (Hop & Hp & Hload).
  intros y Hy. exists s', pk, pA. split_and!; auto.
Qed.
End OneDevice.

(** ** Decrypting *)

(** The payload of [msg] opens as [pt] under [km]. *)
Definition carries (p : Protocol) (km pt : gobytes) (msg : EncryptedMessage) : Prop :=
  match pt with
  | None => Payload msg = None
  | Some _ => Payload msg ≠ None ∧
      ∃ out, DecryptPayload p km (IV msg) (Payload msg) = Ok out ∧ go_string out = go_string pt
  end.

(** The plaintext that was encrypted: the same bytes, and nil for nil. *)
Definition same_text (pt out : gobytes) : Prop :=
  go_string out = go_string pt ∧ (pt = None → out = None).

(** The session stored for [dev] satisfies [R]. *)
Definition stored (p : Protocol) (R : Session → Prop) (dev : Device) (a : astore) : Prop :=
  ∃ y t, a_sessions a !! dev = Some y ∧ LoadSession p y = Ok t ∧ has_protocol p t ∧ R t.

(** The session stored for [dev] is linked with [s]. *)
Definition stored_link (p : Protocol) (s : Session) (dev : Device) (a : astore) : Prop :=
  stored p (linked s) dev a.

Context {RS : ReliableStore ST}.

Lemma putSession_ok dev s y d :
  good d → Session_Marshal s = Ok y →
  wp (putSession dev s)
    (λ r d', r = Ok tt ∧ good d' ∧
      av d' = set_sessions (<[dev := y]> (a_sessions (av d))) (av d)) d.
Proof.
  intros Hg Hy. unfold putSession. rewrite Hy. apply wp_try, wp_pure, wp_try.
  write_ok. by apply wp_pure.
Qed.

Lemma decrypt_tail m msg key pt km R o d :
  storable (m_protocol m) R → carries (m_protocol m) km pt msg →
  wp (getOrCreateSessionForIncoming m (Sender msg) key)
    (λ r d', good d' ∧ a_remote (av d') !! Sender msg = o ∧
      ∃ t data, r = Ok (t, data) ∧ has_protocol (m_protocol m) t ∧
        opens_as t data km R) d →
  wp (DecryptMessage_locked m msg key)
    (λ r d', (∃ out, r = Ok out ∧ same_text pt out) ∧
      a_remote (av d') !! Sender msg = o ∧
      stored (m_protocol m) R (Sender msg) (av d')) d.
Proof.
  intros HR Hcar Hget. unfold DecryptMessage_locked. apply wp_try.
  eapply wp_mono; [exact Hget|]. intros r d1 (Hg1 & Ho & t & data & -> & Hpt & Hdec).
  apply wp_bind. eapply wp_mono; [apply wp_and; [apply wp_answer|
    by apply (wp_crypto_only _ (λ _ d', good d' ∧ av d' = av d1))]|].
  intros [r t'] d2 (Hans & Hg2 & Hav2). destruct (Hdec d1) as (t'' & Heq & Hl & Hpt').
  rewrite Heq in Hans. injection Hans as -> ->.
  destruct (HR _ Hl) as (y & Hy & Hload). apply wp_try, wp_pure, wp_try.
  eapply wp_mono; [by apply putSession_ok|]. intros r d3 (-> & Hg3 & Hav3).
  rewrite Hav2 in Hav3.
  assert (a_remote (av d3) !! Sender msg = o ∧
    stored (m_protocol m) R (Sender msg) (av d3)) as Hend.
  { rewrite Hav3. split; [done|]. exists y, t''. unfold has_protocol. rewrite Hpt'.
    split_and!; [apply lookup_insert_eq| |done|done].
    apply Hload. unfold has_protocol. by rewrite Hpt'. }
  destruct pt as [pt|]; [destruct Hcar as (Hp & out & Hdp & Hout)|].
  - destruct (Payload msg) as [pl|]; [|done]. apply wp_try, wp_pure.
    unfold signal_Protocol. rewrite Hdp. apply wp_pure. split; [|done].
    by exists out.
  - rewrite Hcar. apply wp_pure. split; [|done]. by exists None.
Qed.

Lemma decrypt_next m msg key pt km y R d :
  storable (m_protocol m) R → good d → carries (m_protocol m) km pt msg → a_sessions (av d) !! Sender msg = Some y →
  RK_KeyExchange key = None →
  (∃ t, LoadSession (m_protocol m) y = Ok t ∧ has_protocol (m_protocol m) t ∧
    opens_as t (RK_Data key) km R) →
  wp (DecryptMessage_locked m msg key)
    (λ r d', (∃ out, r = Ok out ∧ same_text pt out) ∧
      a_remote (av d') !! Sender msg = a_remote (av d) !! Sender msg ∧
      stored (m_protocol m) R (Sender msg) (av d')) d.
Proof.
  intros HR Hg Hcar Hy Hkx (t & Ht & Hpt & Hdec). eapply decrypt_tail; [done..|].
  unfold getOrCreateSessionForIncoming. rewrite Hkx. apply wp_try. read_ok. rewrite Hy.
  apply wp_try, wp_pure. unfold signal_Protocol. rewrite Ht. apply wp_pure.
  split; [done|]. rewrite Hav. split; [done|]. by exists t, (RK_Data key).
Qed.

Lemma named_spk id spk d Q :
  good d → spk_by_id (av d) id = Some spk →
  (∀ d', good d' → av d' = av d → Q (Ok spk) d') → wp (signedPreKeyByID id) Q d.
Proof.
  intros Hg Hspk HQ. eapply wp_mono; [by apply signedPreKeyByID_ok|].
  intros r d' (Hg' & Hav & ->). rewrite Hspk. auto.
Qed.

Lemma current_spk_by_id a : spk_by_id a (SPKR_ID (a_current a)) = Some (a_current a).
Proof. unfold spk_by_id. by rewrite decide_True. Qed.

Lemma consume_ok {A} id pk (k : PreKeyRecord → prog baseE (result A)) Q d :
  good d → a_pool (av d) !! id = Some pk →
  (∀ d', good d' → av d' = set_pool (delete id (a_pool (av d))) (av d) →
    wp (k pk) Q d') →
  wp (preKey <-? ask (OpConsumePreKey id) wrap (consume_prefix id); k preKey) Q d.
Proof.
  intros Hg Hpk Hk. apply wp_try, wp_ask_ok; [done|done|simpl; congruence|].
  intros r d' Hg' _ Hs Hr. simpl in Hs.
  destruct Hs as [(rec & -> & Hrec & Hav)|[[e ->] _]]; [|done].
  simplify_eq. by apply Hk.
Qed.

Lemma decrypt_first m msg key pt km s' spk pk pA d :
  good d → carries (m_protocol m) km pt msg →
  spk_by_id (av d) (SPKR_ID spk) = Some spk → a_pool (av d) !! PKR_ID pk = Some pk →
  handshake_opens (m_protocol m) (m_identityKey m) spk pk pA km key s' →
  wp (DecryptMessage_locked m msg key)
    (λ r d', (∃ out, r = Ok out ∧ same_text pt out) ∧
      a_remote (av d') !! Sender msg = Some pA ∧
      stored_link (m_protocol m) s' (Sender msg) (av d')) d.
Proof.
  intros Hg Hcar Hspk Hpk (kx & Hkx & Hcase).
  eapply decrypt_tail; [apply linked_storable|done|].
  unfold getOrCreateSessionForIncoming. rewrite Hkx.
  fold (is_V1 (m_protocol m)). destruct (is_V1 (m_protocol m)).
  - destruct Hcase as (Hpeek & Hopen). rewrite Hpeek. apply wp_try, wp_pure, wp_try.
    eapply named_spk; [done..|]. intros d1 Hg1 Hav1.
    eapply consume_ok; [done|by rewrite Hav1|]. intros d2 Hg2 Hav2. rewrite Hav1 in Hav2.
    apply wp_try. eapply wp_mono; [apply wp_and; [apply wp_answer|
      by apply (wp_crypto_only _ (λ _ d', good d' ∧ av d' = av d2))]|].
    intros r d3 (-> & Hg3 & Hav3). destruct (Hopen d2) as (t & inner & -> & Hpt & Hdec).
    apply wp_try. write_ok. apply wp_pure. split; [done|]. rewrite Hav. simpl.
    split; [apply lookup_insert_eq|]. by exists t, inner.
  - destruct Hcase as (Hs & Hp & Hik & Hopen). rewrite Hs, Hp, Hik. apply wp_try.
    eapply named_spk; [done..|]. intros d1 Hg1 Hav1.
    eapply consume_ok; [done|by rewrite Hav1|]. intros d2 Hg2 Hav2. rewrite Hav1 in Hav2.
    apply wp_try. eapply wp_mono; [apply wp_and; [apply wp_answer|
      by apply (wp_crypto_only _ (λ _ d', good d' ∧ av d' = av d2))]|].
    intros r d3 (-> & Hg3 & Hav3). destruct (Hopen d2) as (t & -> & Hpt & Hdec).
    apply wp_try. write_ok. apply wp_pure. split; [done|]. rewrite Hav. simpl.
    split; [apply lookup_insert_eq|]. by exists t, (RK_Data key).
Qed.
End Handshake.
