(* ===== verification/EndToEnd.v ===== *)
(** * End to end: what one device encrypts, the other decrypts

    The composition of the whole program, on two devices with their own stores:
    a first message bootstraps a session in both stores, later messages in
    either direction keep the two sessions in step.  The backend's behaviour
    ([XochimilcoSessionLaws]) and the honesty of the transport are hypotheses;
    the stores are any that meet the contract. *)
From S2P Require Import Prelude Types Errors StoreSpec Transport Xochimilco Prog.
From S2P Require Import ProgFacts StoreFacts Signal SessionLaws SignalFacts Manager LockFacts.
From S2P Require Import ManagerKeys ManagerEncrypt ManagerDecrypt Handshake.

Section EndToEnd.
Context `{X : Xochimilco} {T : Transport} {ST : Store} {SC : StoreContract ST}
  {RS : ReliableStore ST}.
Context {CL : XochimilcoCodecLaws X} {SL : XochimilcoSessionLaws X}.
Implicit Types (d : data) (w : world) (m : Manager) (s t : Session).

(** ** EncryptMessage: the key for one device among all recipients *)

(** What the application's side keeps true of its state ([env]) while the
    Manager fetches and resolves. *)
Record env_stable (I : env → Prop) (m : Manager) : Prop := {
  stable_list jid v : I v → I (FetchDeviceList jid v).2;
  stable_bundle dev v : I v → I (FetchBundle dev v).2;
  stable_resolver r dev key v : m_trustResolver m = Some r → I v → I (r dev key v).2 }.

Lemma payload_carries p pt km iv ct d :
  (eval (EncryptPayload p pt) d).1 = Ok (km, iv, ct) →
  0 < go_len km ∧ ∀ msg,
    (Payload msg, IV msg) = (if is_nil pt then (None, None) else (ct, iv)) →
    carries p km pt msg.
Proof.
  eval_to_wp. unfold EncryptPayload, carries, DecryptPayload. destruct (is_V1 p).
  - apply wp_crypto. intros H. apply payload_opens_V1 in H as [Hkm Hct].
    split; [done|]. intros [? ? pl v]. destruct pt as [pt|]; simpl; intros [= -> ->]; [|done].
    by apply Hct.
  - apply wp_try, wp_crypto. destruct (xo_EncryptPayload pt (d_rng d)) as [r g] eqn:Hr.
    apply (f_equal fst) in Hr. simpl in *. destruct r as [[km' ct']|e]; [|done].
    apply wp_pure. intros [= -> <- ->]. apply payload_opens in Hr as [Hkm Hct].
    split; [done|]. intros [? ? pl v]. destruct pt as [pt|]; simpl; intros [= -> ->]; [|done].
    by apply Hct.
Qed.

Lemma own_key_app id l1 l2 :
  own_key id (l1 ++ l2) = match own_key id l1 with Some k => Some k | None => own_key id l2 end.
Proof. induction l1 as [|k l1 IH]; simpl; [done|]. by case_decide. Qed.

(** ** Addressing: one device among all recipients

    A RecipientKey names its device by the ID alone.  [addresses mA jid B U]:
    in a store with [U], a message of [mA] to [jid] goes to [B] at most once,
    and to no other device with the ID of [B]. *)
Record addresses (mA : Manager) (jid : string) (B : Device) (U : astore → Prop) : Prop := {
  addr_devices a a' : a_devices a' = a_devices a → U a' → U a;
  addr_once a devs l1 l2 : U a → recipients mA jid a devs → devs = l1 ++ B :: l2 → B ∉ l2;
  addr_id a devs dev : U a → recipients mA jid a devs → dev ∈ devs → ID dev = ID B →
    dev = B ∨ dev = m_localDevice mA }.

Lemma once_app_l {A} (x : A) l1 l2 k1 k2 :
  NoDup l1 → x ∉ l2 → l1 ++ l2 = k1 ++ x :: k2 → x ∉ k2.
Proof.
  intros H1 Hno Heq Hin. apply app_eq_inv in Heq as [(k & -> & Heq)|(k & -> & ->)].
  - destruct k as [|y k]; simpl in *; [set_solver|]. injection Heq as <- ->.
    apply NoDup_app in H1 as (_ & _ & H1). apply NoDup_cons in H1 as [H1 _]. set_solver.
  - set_solver.
Qed.

Lemma once_app_r {A} (x : A) l1 l2 k1 k2 :
  x ∉ l1 → NoDup l2 → l1 ++ l2 = k1 ++ x :: k2 → x ∉ k2.
Proof.
  intros Hno H2 Heq. apply app_eq_inv in Heq as [(k & -> & Heq)|(k & -> & ->)].
  - destruct k as [|y k]; simpl in *; [|set_solver]. rewrite <-Heq in H2.
    by apply NoDup_cons in H2 as [].
  - apply NoDup_app in H2 as (_ & _ & H2). by apply NoDup_cons in H2 as [].
Qed.

Lemma NoDup_devices jid ids : NoDup ids → NoDup (map (MkDevice jid) ids).
Proof. apply NoDup_fmap_2. by intros ?? [=]. Qed.

Lemma elem_of_devices jid ids dev :
  dev ∈ map (MkDevice jid) ids ↔ JID dev = jid ∧ ID dev ∈ ids.
Proof.
  rewrite list_elem_of_fmap. split; [by intros (id & -> & Hid)|].
  intros [<- Hid]. exists (ID dev). by destruct dev.
Qed.

(** A message to the account of [B]: [B] is listed once for its account, and
    no other device of the sender's own account has its ID. *)
Definition unambiguous (mA : Manager) (B : Device) (a : astore) : Prop :=
  NoDup (devices_of a (JID B)) ∧
  (JID B ≠ JID (m_localDevice mA) →
   Forall (λ id, id = ID B → id = ID (m_localDevice mA))
     (devices_of a (JID (m_localDevice mA)))).

Lemma unambiguous_addresses mA B : addresses mA (JID B) B (unambiguous mA B).
Proof.
  assert (∀ a own dev, unambiguous mA B a →
    own = [] ∨ JID B ≠ JID (m_localDevice mA) ∧ own = devices_of a (JID (m_localDevice mA)) →
    dev ∈ map (MkDevice (JID (m_localDevice mA))) own → ID dev = ID B →
    JID B ≠ JID (m_localDevice mA) ∧ dev = m_localDevice mA) as Hclash.
  { intros a own dev [_ Hun] [->|[Hj ->]] [Hjid Hid]%elem_of_devices Heq; [set_solver|].
    split; [done|]. rewrite Forall_forall in Hun. specialize (Hun Hj _ Hid Heq).
    destruct dev, (m_localDevice mA). simpl in *. congruence. }
  split.
  - intros a a' Hd. unfold unambiguous, devices_of. by rewrite Hd.
  - intros a devs l1 l2 Hun (own & -> & Hown) Heq.
    eapply once_app_l; [apply NoDup_devices, Hun| |exact Heq].
    intros Hin. by destruct (Hclash a own B Hun Hown Hin eq_refl) as [? ->].
  - intros a devs dev Hun (own & -> & Hown) [[Hjid _]%elem_of_devices|Hdev]%elem_of_app Hid;
      [left|right; by eapply Hclash].
    destruct dev, B. simpl in *. congruence.
Qed.

(** A message to another account, seen from a device [B] of the sender's own
    account: [B] is listed once, and no device of the other account has its ID. *)
Definition unambiguous_own (jid : string) (B : Device) (a : astore) : Prop :=
  NoDup (devices_of a (JID B)) ∧ ID B ∉ devices_of a jid.

Lemma unambiguous_own_addresses mA jid B :
  JID B = JID (m_localDevice mA) → addresses mA jid B (unambiguous_own jid B).
Proof.
  intros HB. split.
  - intros a a' Hd. unfold unambiguous_own, devices_of. by rewrite Hd.
  - intros a devs l1 l2 [Hnd Hno] (own & -> & Hown) Heq.
    eapply once_app_r; [| |exact Heq]; [by intros [_ ?]%elem_of_devices|].
    apply NoDup_devices. destruct Hown as [->|[_ ->]]; [constructor|by rewrite <-HB].
  - intros a devs dev [_ Hno] (own & -> & _) [Hd|Hd]%elem_of_app Hid;
      apply elem_of_devices in Hd as [Hjid Hin]; [congruence|left].
    destruct dev, B. simpl in *. congruence.
Qed.

(** Either way: the sender's lists are clear about [B] in a message to [jid]. *)
Definition unambiguous_for (mA : Manager) (jid : string) (B : Device) (a : astore) : Prop :=
  if decide (JID B = jid) then unambiguous mA B a else unambiguous_own jid B a.

Lemma unambiguous_for_account mA B a :
  unambiguous mA B a → unambiguous_for mA (JID B) B a.
Proof. intros H. unfold unambiguous_for. by rewrite decide_True. Qed.

Lemma unambiguous_for_addresses mA jid B :
  JID B = jid ∨ JID B = JID (m_localDevice mA) →
  addresses mA jid B (unambiguous_for mA jid B).
Proof.
  intros HB. unfold unambiguous_for. case_decide as Hj.
  - subst jid. apply unambiguous_addresses.
  - apply unambiguous_own_addresses. by destruct HB.
Qed.

Section Fanout.
Context (mA : Manager) (jid : string) (B : Device) (o : option gobytes).
Context (I : env → Prop) (U : astore → Prop).
Context (K : gobytes → RecipientKey → gobytes → Prop).
Hypothesis HU : addresses mA jid B U.
Hypothesis HB : B ≠ m_localDevice mA.
Hypothesis HI : env_stable I mA.
Hypothesis HK : ∀ km d, good d → a_sessions (av d) !! B = o → 0 < go_len km → I (d_env d) →
  wp (encryptForDevice_locked mA B km)
    (λ r d', ∀ key, r = Ok key → RK_Device key = ID B ∧
      ∃ x, a_sessions (av d') !! B = Some x ∧ K km key x) d.

(** The programs run on the way keep [I]. *)
Class EnvInv {A} (p : prog baseE A) : Prop :=
  env_inv d : I (d_env d) → I (d_env (eval p d).2).

Lemma env_inv_wp {A} (p : prog baseE A) `{!EnvInv p} d :
  I (d_env d) → wp p (λ _ d', I (d_env d')) d.
Proof. apply env_inv. Qed.

Lemma env_inv_bind {A C} (p : prog baseE A) (f : A → prog baseE C) :
  EnvInv p → (∀ a, EnvInv (f a)) → EnvInv (p ≫= f).
Proof. intros Hp Hf d Hd. rewrite eval_bind. by apply Hf, Hp. Qed.
Lemma env_inv_try {A C} f (p : prog baseE (result A)) (k : A → prog baseE (result C)) :
  EnvInv p → (∀ a, EnvInv (k a)) → EnvInv (try f p k).
Proof. intros Hp Hk. apply env_inv_bind; [done|]. intros [a|e]; [apply Hk|by intros d]. Qed.
Lemma env_inv_ret {A} (a : A) : EnvInv (mret a).
Proof. by intros d. Qed.
Lemma env_inv_ask {R} (op : storeE R) : EnvInv (ask op).
Proof. intros d Hd. simpl. by destruct (handle_store op (d_store d)). Qed.
Lemma env_inv_crypto {R} (f : rng → R * rng) : EnvInv (crypto f).
Proof. intros d Hd. simpl. by destruct (f (d_rng d)). Qed.
Lemma env_inv_list j : EnvInv (net (OpFetchDeviceList j)).
Proof.
  intros d Hd. pose proof (stable_list _ _ HI j _ Hd). simpl.
  by destruct (FetchDeviceList j (d_env d)).
Qed.
Lemma env_inv_bundle dev : EnvInv (net (OpFetchBundle dev)).
Proof.
  intros d Hd. pose proof (stable_bundle _ _ HI dev _ Hd). simpl.
  by destruct (FetchBundle dev (d_env d)).
Qed.
Lemma env_inv_resolve r dev key :
  m_trustResolver mA = Some r → EnvInv (trigger (EResolve r dev key)).
Proof.
  intros Hr d Hd. pose proof (stable_resolver _ _ HI r dev key _ Hr Hd). simpl.
  by destruct (r dev key (d_env d)).
Qed.

Ltac env_step :=
  lazymatch goal with
  | |- EnvInv (mret _) => apply env_inv_ret
  | |- EnvInv (pure _) => apply env_inv_ret
  | |- EnvInv (crypto _) => apply env_inv_crypto
  | |- EnvInv (ask _) => apply env_inv_ask
  | |- EnvInv (net (OpFetchDeviceList _)) => apply env_inv_list
  | |- EnvInv (net (OpFetchBundle _)) => apply env_inv_bundle
  | |- EnvInv (trigger (EResolve _ _ _)) => by apply env_inv_resolve
  | |- EnvInv (try _ _ _) => apply env_inv_try; [|intros ?]
  | |- EnvInv (_ ≫= _) => apply env_inv_bind; [|intros ?]
  | |- EnvInv (let _ := _ in _) => cbv zeta
  | |- EnvInv (match ?x with _ => _ end) => destruct x eqn:?
  end.

Instance encryptForDevice_env dev km : EnvInv (encryptForDevice_locked mA dev km).
Proof.
  unfold encryptForDevice_locked, getOrCreateActiveSession, NewActiveSession, checkTrust,
    Session_Encrypt, putSession. repeat env_step.
Qed.

Instance devicesFor_env j : EnvInv (devicesFor j).
Proof. unfold devicesFor, SyncDevices. repeat env_step. Qed.

Instance recipientDevices_env j : EnvInv (recipientDevices mA j).
Proof. unfold recipientDevices, devicesFor, SyncDevices. repeat env_step. Qed.

Lemma DecryptMessage_locked_env m msg key : EnvInv (DecryptMessage_locked m msg key).
Proof.
  unfold DecryptMessage_locked, getOrCreateSessionForIncoming, signedPreKeyByID,
    NewPassiveSession, NewPassiveSessionFromPreKeyBlob, Session_Decrypt, putSession.
  repeat env_step.
Qed.

Lemma encrypt_loop_env km devices keys errs w :
  quiet (w_lk w) → good (w_data w) → I (d_env (w_data w)) →
  wpr (encrypt_loop mA km devices keys errs) (λ _ w', I (d_env (w_data w'))) w.
Proof.
  revert keys errs w. induction devices as [|dev devices IH]; intros keys errs w Hq Hg HIw;
    cbn [encrypt_loop]; [done|].
  case_decide; [by apply IH|]. apply wpr_bind, wpr_with_deviceLock; [done|].
  eapply wp_mono; [apply wp_and; [by apply encryptForDevice_locked_spec|
    by apply env_inv_wp; [apply _|]]|].
  intros [key|e] d' [(Hg' & _) HI'] lk' Hq'; by apply IH.
Qed.

(** What the fan-out does to the others leaves [B]'s session alone. *)
Lemma loop_others km devices keys errs w :
  quiet (w_lk w) → good (w_data w) → B ∉ devices →
  (∀ dev, dev ∈ devices → ID dev = ID B → dev = B ∨ dev = m_localDevice mA) →
  wpr (encrypt_loop mA km devices keys errs)
    (λ r w', own_key (ID B) r.1 = own_key (ID B) keys ∧
      a_sessions (av (w_data w')) !! B = a_sessions (av (w_data w)) !! B) w.
Proof.
  intros Hq Hg HBn Hids. eapply wpr_mono; [by apply encrypt_loop_spec|].
  intros r w' (_ & _ & Hst & os & -> & Hos & Hok & _). simpl. split.
  - rewrite own_key_app. destruct (own_key (ID B) keys); [done|].
    apply own_key_None. intros k Hk Hid. apply elem_of_outcome_keys in Hk as [dev Hin].
    destruct (Hok _ _ Hin) as [Hk _].
    assert (dev ∈ os.*1) as Hd by (apply list_elem_of_fmap; by exists (dev, Ok k)).
    rewrite Hos in Hd. apply list_elem_of_filter in Hd as [Hne Hd].
    destruct (Hids dev Hd) as [->|?]; [congruence|done|done].
  - apply (enc_others _ _ _ Hst). naive_solver.
Qed.

Lemma loop_key km devices keys errs w :
  quiet (w_lk w) → good (w_data w) → I (d_env (w_data w)) → 0 < go_len km →
  a_sessions (av (w_data w)) !! B = o → own_key (ID B) keys = None →
  (∀ l1 l2, devices = l1 ++ B :: l2 → B ∉ l2) →
  (∀ dev, dev ∈ devices → ID dev = ID B → dev = B ∨ dev = m_localDevice mA) →
  wpr (encrypt_loop mA km devices keys errs)
    (λ r w', ∀ key, own_key (ID B) r.1 = Some key →
      ∃ x, a_sessions (av (w_data w')) !! B = Some x ∧ K km key x) w.
Proof.
  revert keys errs w. induction devices as [|dev devices IH];
    intros keys errs w Hq Hg HIw Hkm Ho Hkeys Honce Hids; cbn [encrypt_loop].
  { apply wpr_ret. simpl. congruence. }
  assert (∀ l1 l2, devices = l1 ++ B :: l2 → B ∉ l2) as Honce'
    by (intros l1 l2 ->; by apply (Honce (dev :: l1))).
  assert (∀ dev, dev ∈ devices → ID dev = ID B → dev = B ∨ dev = m_localDevice mA)
    as Hids' by (intros; apply Hids; set_solver).
  case_decide as Hloc; [by apply IH|]. apply wpr_bind, wpr_with_deviceLock; [done|].
  destruct (decide (dev = B)) as [->|Hne].
  - assert (B ∉ devices) as HBn by (by apply (Honce [])).
    eapply wp_mono; [apply wp_and; [by apply encryptForDevice_locked_spec|by apply HK]|].
    intros [key|e] d' [(Hg' & _) Hr] lk' Hq';
      (eapply wpr_mono; [by apply loop_others|]); intros r w' [Hown Hse] key' Hkey'.
    + destruct (Hr _ eq_refl) as (Hid & x & Hx & HKx). rewrite Hown in Hkey'.
      rewrite own_key_app, Hkeys in Hkey'. simpl in Hkey'.
      rewrite decide_True in Hkey' by done. injection Hkey' as <-.
      exists x. by rewrite Hse.
    + congruence.
  - eapply wp_mono; [apply wp_and; [by apply encryptForDevice_locked_spec|
      by apply env_inv_wp; [apply _|]]|].
    intros r d' [(Hg' & Hst & Hr) HI'] lk' Hq'.
    assert (a_sessions (av d') !! B = o) as Ho'
      by (rewrite <-Ho; apply (enc_others _ _ _ Hst); congruence).
    destruct r as [key|e]; apply IH; try done.
    rewrite own_key_app, Hkeys. simpl. rewrite decide_False; [done|].
    destruct Hr as (-> & _). intros Hid.
    destruct (Hids dev) as [|]; [set_solver|done|done|done].
Qed.

(** The key for [B] of a message that [encrypt] returned. *)
Lemma encrypt_key pt w :
  quiet (w_lk w) → good (w_data w) → I (d_env (w_data w)) →
  a_sessions (av (w_data w)) !! B = o →
  wpr (encrypt mA jid pt)
    (λ r w', U (av (w_data w')) → ∀ msg errs err key,
      r = (Some msg, errs, err) → own_key (ID B) (Keys msg) = Some key →
      Sender msg = m_localDevice mA ∧ ∃ km x, carries (m_protocol mA) km pt msg ∧
        a_sessions (av (w_data w')) !! B = Some x ∧ K km key x) w.
Proof.
  intros Hq Hg HIw Ho. unfold encrypt. apply wpr_bind, wpr_lift.
  eapply wp_mono; [apply wp_and; [by apply recipientDevices_spec|
    by apply env_inv_wp; [apply _|]]|].
  intros [devs|e] d1 [(Hg1 & [Hst1 _] & Hrec) HI1]; [|by apply wpr_ret].
  specialize (Hrec _ eq_refl).
  assert (a_sessions (av d1) !! B = o) as Ho1 by (by rewrite Hst1).
  apply wpr_bind, wpr_lift. eapply wp_mono; [apply wp_and; [apply wp_answer|
    by apply (wp_crypto_only _ (λ _ d', good d' ∧ av d' = av d1 ∧ d_env d' = d_env d1))]|].
  intros [[[km iv] ct]|e] d2 (Hans & Hg2 & Hav2 & He2); [|by apply wpr_ret].
  destruct (payload_carries _ _ _ _ _ _ (eq_sym Hans)) as [Hkm Hcar].
  destruct (if is_nil pt then _ else _) as [ct' iv'] eqn:Hnil. apply wpr_bind.
  eapply wpr_mono; [eapply (wpr_assuming _ _ (λ _ w', U (av (w_data w'))));
    [by apply encrypt_loop_spec|]|].
  - intros [keys errs] w' (_ & _ & Hst & _) Hun. simpl in Hst.
    apply (addr_devices _ _ _ _ HU (av d1)) in Hun;
      [|rewrite <-Hav2; apply (enc_keys _ _ _ Hst)].
    apply (loop_key km); simpl; try done; [by rewrite He2|by rewrite Hav2| |].
    + intros l1 l2. by apply (addr_once _ _ _ _ HU _ _ _ _ Hun Hrec).
    + intros dev. by apply (addr_id _ _ _ _ HU _ _ _ Hun Hrec).
  - intros [keys errs] w' Hkey. case_decide; apply wpr_ret; [done|].
    intros Hun msg errs' err key [= <- <- <-] Hown. split; [done|].
    destruct (Hkey Hun key Hown) as (x & Hx & HKx). exists km, x. split_and!; [|done|done].
    by apply Hcar.
Qed.
End Fanout.

(** ** The theorems *)

(** The sessions two devices have stored for each other are linked. *)
Definition in_step (mA mB : Manager) (aA aB : astore) : Prop :=
  m_protocol mB = m_protocol mA ∧
  ∃ x s, a_sessions aA !! m_localDevice mB = Some x ∧
    LoadSession (m_protocol mA) x = Ok s ∧ has_protocol (m_protocol mA) s ∧
    stored_link (m_protocol mA) s (m_localDevice mA) aB.

Lemma in_step_sym mA mB aA aB : in_step mA mB aA aB → in_step mB mA aB aA.
Proof.
  intros (Hp & x & s & Hx & Hs & Hps & y & t & Hy & Ht & Hpt & Hl). split; [done|].
  rewrite Hp. exists y, t. split_and!; [done..|]. exists x, s.
  split_and!; [done..|]. by apply linked_sym.
Qed.

Lemma DecryptMessage_run m msg key Q w :
  quiet (w_lk w) → own_key (ID (m_localDevice m)) (Keys msg) = Some key →
  wp (DecryptMessage_locked m msg key)
    (λ r d', ∀ lk', quiet lk' → Q r (MkWorld d' lk')) (w_data w) →
  wpr (DecryptMessage m msg) Q w.
Proof.
  intros Hq Hkey H. unfold DecryptMessage. rewrite Hkey. by apply wpr_with_deviceLock.
Qed.

(** The one-time prekey that senders take from the bundle, the first one, is still
    there. *)
Definition first_kept (b : Bundle) (aPub aB : astore) : Prop :=
  ∀ k, head (B_PreKeys b) = Some k → a_pool aB !! PK_ID k = a_pool aPub !! PK_ID k.

(** [mB], whose store is [aB], can open what [mA] sends next: the two have a
    session in step, or [mA] has none and is served a bundle that [mB] published
    when its store was [aPub], and [aB] still has the keys it will name. *)
Inductive reachable (I : env → Prop) (mA mB : Manager) (aA aB : astore) : Prop :=
  | reach_session : in_step mA mB aA aB → reachable I mA mB aA aB
  | reach_bundle aPub bundle :
      m_protocol mB = m_protocol mA → a_sessions aA !! m_localDevice mB = None →
      own_prekeys (m_protocol mB) (m_identityKey mB) aPub → bundle_of mB aPub bundle →
      (∀ v b, I v → (FetchBundle (m_localDevice mB) v).1 = Ok b → b = bundle) →
      spk_by_id aB (SPKR_ID (a_current aPub)) = Some (a_current aPub) →
      first_kept bundle aPub aB → generated_identity (m_protocol mA) (m_identityKey mA) →
      reachable I mA mB aA aB.

(** The one argument behind every delivery theorem. *)
Lemma message_delivered mA mB jid U I pt wA wB :
  addresses mA jid (m_localDevice mB) U → m_localDevice mB ≠ m_localDevice mA →
  quiet (w_lk wA) → good (w_data wA) → quiet (w_lk wB) → good (w_data wB) →
  env_stable I mA → I (d_env (w_data wA)) →
  reachable I mA mB (av (w_data wA)) (av (w_data wB)) →
  wpr (encrypt mA jid pt)
    (λ r wA', U (av (w_data wA')) → ∀ msg errs err key, r = (Some msg, errs, err) →
      own_key (ID (m_localDevice mB)) (Keys msg) = Some key →
      wpr (DecryptMessage mB msg)
        (λ r' wB', (∃ out, r' = Ok out ∧ same_text pt out) ∧
          (if a_sessions (av (w_data wA)) !! m_localDevice mB is Some _
           then a_remote (av (w_data wB')) !! m_localDevice mA =
             a_remote (av (w_data wB)) !! m_localDevice mA
           else is_Some (a_remote (av (w_data wB')) !! m_localDevice mA)) ∧
          in_step mA mB (av (w_data wA')) (av (w_data wB'))) wB) wA.
Proof.
  intros HU HB HqA HgA HqB HgB Hst HIA
    [(Hp & x & s & Hx & Hs & Hps & y & t & Hy & Ht & Hpt & Hl)|
     aPub bundle Hp Hno Hown Hb Hserve Hspk Hpool HkA].
  - eapply wpr_mono; [apply (encrypt_key mA jid (m_localDevice mB) (Some x) I U
      (next_key (m_protocol mA) y) HU HB Hst)|]; try done.
    { intros km d Hg Hse Hkm _. by eapply encrypt_next. }
    intros r wA' Hkey Hun msg errs err key -> Hkeys.
    destruct (Hkey Hun _ _ _ _ eq_refl Hkeys) as (Hsender & km & x' & Hcar & Hx' & Hk).
    destruct Hk as (Hkx & s' & t0 & Hs' & Hps' & Ht0 & Hpt0 & Hdec).
    rewrite <-Hp in Hcar, Ht0, Hpt0. eapply DecryptMessage_run; [done..|].
    eapply wp_mono; [eapply (decrypt_next _ _ _ _ _ _ (linked s')); try done;
      [apply linked_storable|by rewrite Hsender|by exists t0]|].
    intros r' d' (Hout & Hre & Hlink) lk' _. rewrite Hsender, Hp in *. simpl.
    rewrite Hx. split_and!; [done|done|]. split; [done|]. exists x', s'. by split_and!.
  - eapply wpr_mono; [apply (encrypt_key mA jid (m_localDevice mB) None I U
      (first_key mA mB aPub bundle) HU HB Hst)|]; try done.
    { intros km d Hg Hs Hkm HI. apply (encrypt_first mA mB _ bundle); eauto. }
    intros r wA' Hkey Hun msg errs err key -> Hkeys.
    destruct (Hkey Hun _ _ _ _ eq_refl Hkeys) as (Hsender & km & x & Hcar & Hx & Hk).
    destruct Hk as (s' & pk & pA & HpA & Hpk & Hoff & Hs' & Hps' & Hopen).
    pose proof (Hpool _ Hoff) as HpkB. simpl in HpkB. rewrite Hpk in HpkB.
    rewrite <-Hp in Hopen, Hcar. eapply DecryptMessage_run; [done..|].
    eapply wp_mono; [by eapply decrypt_first|].
    intros r' d' (Hout & Hre & Hlink) lk' _. rewrite Hsender in *. simpl.
    rewrite Hno. split_and!; [done|by eexists|]. split; [done|]. exists x, s'.
    rewrite Hp in Hlink. by split_and!.
Qed.

Lemma DecryptMessage_env I m msg w :
  quiet (w_lk w) → I (d_env (w_data w)) →
  wpr (DecryptMessage m msg) (λ _ w', I (d_env (w_data w'))) w.
Proof.
  intros Hq HId. unfold DecryptMessage. destruct (own_key _ _) as [key|]; [|done].
  apply wpr_with_deviceLock; [done|].
  eapply wp_mono; [by apply (env_inv_wp I _ (EnvInv0 := DecryptMessage_locked_env I m msg key))|].
  done.
Qed.

(** C4: a first message arrives.  Alice has no session with Bob's device,
    the transport serves the bundle Bob published, and Bob's store still has
    what that bundle describes.  Whatever else Alice's account and Bob's
    account contain, if [EncryptMessage] returns a message with a key for
    Bob's device then Bob's [DecryptMessage] returns exactly the plaintext
    (nil for a key transport), records Alice's identity key, and leaves the
    sessions both have stored linked.  (Alice's own devices must not share
    Bob's device ID: see the header on device IDs.)  For both protocols. *)
Theorem first_message_roundtrip mA mB bundle I pt wA wB :
  m_protocol mB = m_protocol mA → m_localDevice mB ≠ m_localDevice mA →
  quiet (w_lk wA) → good (w_data wA) → quiet (w_lk wB) → good (w_data wB) →
  a_sessions (av (w_data wA)) !! m_localDevice mB = None →
  generated_identity (m_protocol mA) (m_identityKey mA) →
  own_prekeys (m_protocol mB) (m_identityKey mB) (av (w_data wB)) →
  bundle_of mB (av (w_data wB)) bundle →
  env_stable I mA → I (d_env (w_data wA)) →
  (∀ v b, I v → (FetchBundle (m_localDevice mB) v).1 = Ok b → b = bundle) →
  wpr (EncryptMessage mA (JID (m_localDevice mB)) pt)
    (λ r wA', unambiguous mA (m_localDevice mB) (av (w_data wA')) →
      ∀ msg errs err key, r = (Some msg, errs, err) →
      own_key (ID (m_localDevice mB)) (Keys msg) = Some key →
      wpr (DecryptMessage mB msg)
        (λ r' wB', (∃ out, r' = Ok out ∧ same_text pt out) ∧
          is_Some (a_remote (av (w_data wB')) !! m_localDevice mA) ∧
          in_step mA mB (av (w_data wA')) (av (w_data wB'))) wB) wA.
Proof.
  intros Hp HB HqA HgA HqB HgB Hno HkA Hown Hb Hst HIA Hserve. unfold EncryptMessage.
  eapply wpr_mono; [apply (message_delivered mA mB _ (unambiguous mA (m_localDevice mB)) I pt
    wA wB); try done; [apply unambiguous_addresses|]|].
  { eapply (reach_bundle _ _ _ _ _ _ bundle); try done. apply current_spk_by_id. }
  intros r wA' H Hun msg errs err key Hr Hkey.
  eapply wpr_mono; [by apply (H Hun _ _ _ _ Hr Hkey)|]. rewrite Hno. naive_solver.
Qed.

(** C5: the conversation goes on.  As long as the two stored sessions are
    linked, in either direction ([in_step_sym]), a message that
    [EncryptMessage] returns with a key for the other device decrypts there
    to exactly the plaintext, and the sessions are linked again. *)
Theorem next_message_roundtrip mA mB pt wA wB :
  m_localDevice mB ≠ m_localDevice mA →
  quiet (w_lk wA) → good (w_data wA) → quiet (w_lk wB) → good (w_data wB) →
  in_step mA mB (av (w_data wA)) (av (w_data wB)) →
  wpr (EncryptMessage mA (JID (m_localDevice mB)) pt)
    (λ r wA', unambiguous mA (m_localDevice mB) (av (w_data wA')) →
      ∀ msg errs err key, r = (Some msg, errs, err) →
      own_key (ID (m_localDevice mB)) (Keys msg) = Some key →
      wpr (DecryptMessage mB msg)
        (λ r' wB', (∃ out, r' = Ok out ∧ same_text pt out) ∧
          in_step mA mB (av (w_data wA')) (av (w_data wB')) ∧
          in_step mB mA (av (w_data wB')) (av (w_data wA'))) wB) wA.
Proof.
  intros HB HqA HgA HqB HgB Hin. unfold EncryptMessage.
  eapply wpr_mono; [apply (message_delivered mA mB _ (unambiguous mA (m_localDevice mB))
    (λ _, True) pt wA wB); try done; [apply unambiguous_addresses|by apply reach_session]|].
  intros r wA' H Hun msg errs err key Hr Hkey.
  eapply wpr_mono; [by apply (H Hun _ _ _ _ Hr Hkey)|].
  intros r' wB' (Hout & _ & Hin'). split_and!; [done|done|]. by apply in_step_sym.
Qed.

(** Carbon copies.  A message to another account also reaches the sender's
    other devices: if [mB] is a second device of the sender's own account, in
    step with the sender or published (even some changes of its store ago, as
    long as it still has the keys the first message will name), then whenever [EncryptMessage]
    for the other account returns a message with a key for it, its
    [DecryptMessage] returns exactly the plaintext and the two devices are in
    step.  (No device of the recipient may share its ID: see the header.) *)
Theorem own_device_receives mA mB jid I pt wA wB :
  JID (m_localDevice mB) = JID (m_localDevice mA) → m_localDevice mB ≠ m_localDevice mA →
  quiet (w_lk wA) → good (w_data wA) → quiet (w_lk wB) → good (w_data wB) →
  env_stable I mA → I (d_env (w_data wA)) →
  reachable I mA mB (av (w_data wA)) (av (w_data wB)) →
  wpr (EncryptMessage mA jid pt)
    (λ r wA', unambiguous_own jid (m_localDevice mB) (av (w_data wA')) →
      ∀ msg errs err key, r = (Some msg, errs, err) →
      own_key (ID (m_localDevice mB)) (Keys msg) = Some key →
      wpr (DecryptMessage mB msg)
        (λ r' wB', (∃ out, r' = Ok out ∧ same_text pt out) ∧
          in_step mA mB (av (w_data wA')) (av (w_data wB')) ∧
          in_step mB mA (av (w_data wB')) (av (w_data wA'))) wB) wA.
Proof.
  intros Hjid HB HqA HgA HqB HgB Hst HIA Hreach. unfold EncryptMessage.
  eapply wpr_mono; [apply (message_delivered mA mB jid
    (unambiguous_own jid (m_localDevice mB)) I pt wA wB); try done;
    by apply unambiguous_own_addresses|].
  intros r wA' H Hun msg errs err key Hr Hkey.
  eapply wpr_mono; [by apply (H Hun _ _ _ _ Hr Hkey)|].
  intros r' wB' (Hout & _ & Hin'). split_and!; [done|done|]. by apply in_step_sym.
Qed.

(** C30: the rotation grace period, end to end.  Alice builds her first message
    from a bundle Bob published; before it arrives Bob rotates his signed
    prekey.  Bob's device still opens it: [RotateSignedPreKey] followed by
    [DecryptMessage] returns the plaintext and leaves the two in step. *)
Theorem first_message_survives_rotation mA mB bundle I pt wA wB :
  m_protocol mB = m_protocol mA → m_localDevice mB ≠ m_localDevice mA →
  quiet (w_lk wA) → good (w_data wA) → quiet (w_lk wB) → good (w_data wB) →
  a_sessions (av (w_data wA)) !! m_localDevice mB = None →
  generated_identity (m_protocol mA) (m_identityKey mA) →
  own_prekeys (m_protocol mB) (m_identityKey mB) (av (w_data wB)) →
  SPKR_Public (a_current (av (w_data wB))) ≠ None →
  bundle_of mB (av (w_data wB)) bundle →
  env_stable I mA → I (d_env (w_data wA)) →
  (∀ v b, I v → (FetchBundle (m_localDevice mB) v).1 = Ok b → b = bundle) →
  wpr (EncryptMessage mA (JID (m_localDevice mB)) pt)
    (λ r wA', unambiguous mA (m_localDevice mB) (av (w_data wA')) →
      ∀ msg errs err key, r = (Some msg, errs, err) →
      own_key (ID (m_localDevice mB)) (Keys msg) = Some key →
      wpr (_ ← lift (Manager_RotateSignedPreKey mB); DecryptMessage mB msg)
        (λ r' wB', (∃ out, r' = Ok out ∧ same_text pt out) ∧
          in_step mA mB (av (w_data wA')) (av (w_data wB'))) wB) wA.
Proof.
  intros Hp HB HqA HgA HqB HgB Hno HkA Hown Hpub Hb Hst HIA Hserve. unfold EncryptMessage.
  destruct (Manager_RotateSignedPreKey_spec mB (w_data wB) HgB) as [HgR Hr].
  remember (eval (Manager_RotateSignedPreKey mB) (w_data wB)) as rot eqn:Hrot.
  assert (spk_by_id (av rot.2) (SPKR_ID (a_current (av (w_data wB)))) =
      Some (a_current (av (w_data wB))) ∧ a_pool (av rot.2) = a_pool (av (w_data wB)))
    as [Hspk Hpool].
  { destruct rot as [[u|e] d1]; simpl in *.
    - destruct Hr as (next & Hid & ->). split; [by apply rotate_keeps_previous|done].
    - rewrite Hr. split; [apply current_spk_by_id|done]. }
  eapply wpr_mono; [apply (message_delivered mA mB _ (unambiguous mA (m_localDevice mB)) I pt
    wA (MkWorld rot.2 (w_lk wB))); try done; [apply unambiguous_addresses|]|].
  { eapply (reach_bundle _ _ _ _ _ (av (w_data wB)) bundle); try done.
    intros k _. simpl. by rewrite Hpool. }
  intros r wA' H Hun msg errs err key Hr' Hkey.
  apply wpr_bind, wpr_lift. unfold wp. rewrite <-Hrot.
  eapply wpr_mono; [by apply (H Hun _ _ _ _ Hr' Hkey)|]. naive_solver.
Qed.
End EndToEnd.
