(* ===== verification/Delivery.v ===== *)
(** * Delivery: when a message is sure to arrive

    [EndToEnd] shows that a key the sender made opens at the receiver.  Here
    the sender is shown to make it: with a backend that does not fail
    ([XochimilcoTotalLaws]: the random reader works), a store without I/O
    errors, a device list that names the receiver, a session in step or a
    bundle that is served, and a key the sender trusts, [EncryptMessage]
    returns a message and the receiver reads it, whatever happens to the other
    recipients. *)
From S2P Require Import Prelude Types Errors StoreSpec Transport Xochimilco Prog.
From S2P Require Import ProgFacts StoreFacts Signal SessionLaws SignalFacts Manager LockFacts.
From S2P Require Import ManagerKeys ManagerEncrypt ManagerDecrypt Handshake EndToEnd.

Section Delivery.
Context `{X : Xochimilco} {T : Transport} {ST : Store} {SC : StoreContract ST}
  {RS : ReliableStore ST}.
Context {CL : XochimilcoCodecLaws X} {SL : XochimilcoSessionLaws X}.
Context {TL : XochimilcoTotalLaws X}.
Implicit Types (d : data) (w : world) (m : Manager) (s t : Session).

(** ** Sessions encrypt *)

Definition encrypts (s : Session) : Prop :=
  ∀ km d, 0 < go_len km → is_ok (eval (Session_Encrypt s km) d).1.1.

Lemma linked_encrypts s t : linked s t → encrypts s.
Proof.
  intros [a b Hab|a b Hab] km d Hkm; unfold Session_Encrypt; simpl.
  - pose proof (ls_encrypts a b km (d_rng d) (or_intror Hab) Hkm).
    by destruct (ls_EncryptWhisperMessage a km (d_rng d)) as [[r a'] g].
  - pose proof (dr_encrypts a b km (d_rng d) (or_intror Hab) Hkm).
    by destruct (dr_Encrypt a km (d_rng d)) as [[r a'] g].
Qed.

Section Created.
Context (p : Protocol) (kA kB pA pB : gobytes).
Context (spk : SignedPreKeyRecord) (pk : PreKeyRecord) (reg : Z).
Hypothesis HkA : generated_identity p kA.
Hypothesis HkB : generated_identity p kB.
Hypothesis HpA : IdentityPublicKey p kA = Ok pA.
Hypothesis HpB : IdentityPublicKey p kB = Ok pB.
Hypothesis Hspk :
  generated_spk p kB (SPKR_Public spk) (SPKR_Private spk) (SPKR_Signature spk).
Hypothesis Hopk : generated_opk (PKR_Public pk) (PKR_Private pk).

Lemma created_encrypts s ek : created_for p kA pB spk pk reg s ek → encrypts s.
Proof.
  intros Hs km d Hkm. unfold Session_Encrypt. destruct (is_V1 p) eqn:HV.
  - destruct (created_V1 p kA pB spk pk reg s ek HV Hs) as (x & a & g & g' & Hi & Ha & ->).
    apply is_V1_true in HV as Hp. simpl.
    pose proof HpA as HpA1. pose proof HpB as HpB1. pose proof Hspk as Hspk1.
    rewrite Hp in HpA1, HpB1, Hspk1.
    destruct (ls_agreement _ _ _ _ _ _ _ _ _ _ _ _ _ _ (d_rng d) HpA1 HpB1 Hspk1 Hopk Hi Ha)
      as (x' & _ & Hb). destruct (Hb (d_rng d)) as (b & _ & Hf).
    pose proof (ls_encrypts_prekey a b km ek (PKR_ID pk) (SPKR_ID spk) reg (d_rng d) Hf Hkm).
    by destruct (ls_EncryptPreKeyWhisperMessage _ _ _ _ _ _ _) as [[r a'] g2].
  - destruct (created_V2 p kA pB spk pk reg s ek HV Hs)
      as (sk & ad & a & g & g' & Hi & Ha & ->). simpl.
    apply generated_spk_V2 in Hspk as Hspk2; [|done].
    destruct (dr_create _ _ _ _ _ _ _ _ (d_rng d) Hspk2 Ha) as (b & _ & Hf).
    pose proof (dr_encrypts a b km (d_rng d) (or_introl Hf) Hkm).
    by destruct (dr_Encrypt a km (d_rng d)) as [[r a'] g2].
Qed.

(** The X3DH of the initiator succeeds on keys the generators made. *)
Lemma NewActiveSession_succeeds d :
  ∃ s ek, (eval (NewActiveSession p kA pB (SPKR_Public spk) (SPKR_Signature spk)
    (PKR_Public pk) (SPKR_ID spk) (PKR_ID pk) reg) d).1 = Ok (s, ek).
Proof.
  eval_to_wp. unfold NewActiveSession. destruct (is_V1 p) eqn:HV.
  - apply is_V1_true in HV as Hp. pose proof HpA as HpA1. pose proof HpB as HpB1.
    pose proof Hspk as Hspk1. rewrite Hp in HpA1, HpB1, Hspk1. apply wp_try, wp_crypto.
    pose proof (ls_initiates _ _ _ _ _ _ _ _ _ (d_rng d) HpA1 HpB1 Hspk1 Hopk) as Hi.
    destruct (ls_CreateInitialMessage _ _ _ _ _ _) as [[[x ek]|e] g] eqn:Hx; [|done].
    apply (f_equal fst) in Hx. apply wp_try, wp_crypto. simpl.
    pose proof (ls_creates _ _ _ _ _ _ _ _ g Hx) as Ha.
    destruct (ls_NewActiveSession kA pB x g) as [[a|e] g']; [|done]. apply wp_pure. eauto.
  - apply generated_spk_V2 in Hspk as Hspk2; [|done].
    pose proof HpA as HpA2. pose proof HpB as HpB2.
    rewrite IdentityPublicKey_V2 in HpA2, HpB2 by done. apply wp_try, wp_crypto.
    apply generated_identity_V2 in HkA as HkA2; [|done].
    apply generated_identity_V2 in HkB as HkB2; [|done].
    pose proof (x3dh_initiates _ _ _ _ _ _ _ _ _ (d_rng d) HkA2 HkB2 HpA2 HpB2 Hspk2 Hopk) as Hi.
    destruct (x3dh_CreateInitialMessage _ _ _ _ _ _) as [[[[sk ad] ek]|e] g]; [|done].
    apply wp_try, wp_crypto. simpl.
    pose proof (dr_creates _ _ _ _ sk ad g Hspk2) as Ha.
    destruct (dr_CreateActive sk ad (SPKR_Public spk) g) as [[a|e] g']; [|done].
    apply wp_pure. eauto.
Qed.
End Created.

(** ** Trust *)

(** [m] will encrypt for a device whose recorded key is [ik]: the key is
    trusted, or undecided and the resolver approves it whenever it is asked. *)
Definition accepts (I : env → Prop) (m : Manager) (dev : Device) (ik : gobytes) (a : astore) :
    Prop :=
  trust_of a ik = TrustTrusted ∨
  (trust_of a ik ≠ TrustUntrusted ∧
   ∃ f, m_trustResolver m = Some f ∧ ∀ v, I v → (f dev ik v).1 = None).

Lemma accepts_step I m dev ik a a' :
  trust_step a a' → accepts I m dev ik a → accepts I m dev ik a'.
Proof.
  intros Hst Hacc. unfold accepts in *. destruct (Hst ik) as [->|(_ & _ & ->)]; [done|].
  by left.
Qed.

Lemma checkTrust_accepts I m dev ik d :
  good d → I (d_env d) → accepts I m dev ik (av d) →
  wp (checkTrust m dev ik)
    (λ r d', r = Ok tt ∧ good d' ∧ a_sessions (av d') = a_sessions (av d)) d.
Proof.
  intros Hg HId Hacc. unfold checkTrust. apply wp_try. read_ok.
  destruct (_ =? TrustTrusted)%Z eqn:Ht; [|apply Z.eqb_neq in Ht].
  { apply wp_pure. by rewrite Hav. }
  destruct Hacc as [|(Hu & f & -> & Hf)]; [done|].
  rewrite (proj2 (Z.eqb_neq _ _)) by done. apply wp_bind, wp_resolve.
  destruct Hso as [-> _]. specialize (Hf _ HId).
  destruct (f dev ik (d_env d)) as [r v]. simpl in *. subst r.
  write_ok. by rewrite Hav0, av_with_env, Hav.
Qed.

(** ** One device *)

(** The end of encryptForDevice, once there is a session [s] that encrypts
    and whose next state can be stored. *)
Lemma encrypt_tail_ok I m dev km s kx ik d :
  good d → I (d_env d) → a_remote (av d) !! dev = Some ik → accepts I m dev ik (av d) →
  encrypts s → 0 < go_len km →
  (∀ c s' d', (eval (Session_Encrypt s km) d').1 = (Ok c, s') → is_ok (Session_Marshal s')) →
  wp (known <-? ask (OpRemoteIdentityKey dev) wrap "load identity key";
      match known with
      | None => pure (Err (Errorf "no known identity key for device"))
      | Some idKey =>
          _ <-? checkTrust m dev idKey;
          '(r, sess) ← Session_Encrypt s km;
          data <-? pure r wrap "ratchet encrypt";
          _ <-? putSession dev sess;
          pure (Ok (MkRecipientKey (ID dev) data kx))
      end)
    (λ r _, is_ok r) d.
Proof.
  intros Hg HId Hik Hacc Henc Hkm Hm. apply wp_try. read_ok. rewrite Hik.
  destruct Hso as [He _]. apply wp_try. eapply wp_mono.
  { apply (checkTrust_accepts I); [done|by rewrite He|by rewrite Hav]. }
  intros r d1 (-> & Hg1 & _). apply wp_bind.
  eapply wp_mono; [apply wp_and; [apply wp_answer|
    by apply (wp_crypto_only _ (λ _ d', good d'))]|].
  intros [r s'] d2 [Hans Hg2]. pose proof (Henc km d1 Hkm) as Hok.
  rewrite <-Hans in Hok. destruct r as [c|e]; [|done]. symmetry in Hans.
  apply Hm in Hans. apply wp_try, wp_pure, wp_try.
  destruct (Session_Marshal s') as [y|e] eqn:Hy; [|done].
  eapply wp_mono; [by eapply putSession_ok|]. intros r d3 (-> & _). by apply wp_pure.
Qed.

Lemma linked_marshals s t km c s' d :
  linked s t → 0 < go_len km → (eval (Session_Encrypt s km) d).1 = (Ok c, s') →
  is_ok (Session_Marshal s').
Proof.
  intros Hl Hkm Henc. destruct (linked_deliver s t km c s' d Hl Hkm Henc) as [Hdec _].
  destruct (Hdec d) as (t' & _ & Hl' & _). apply linked_sym in Hl'.
  by destruct (linked_stored _ _ Hl') as [y ->].
Qed.

(** A stored session that encrypts, and whose next state can be stored. *)
Lemma encrypt_stored_ok I m dev km x ik s d :
  good d → I (d_env d) → a_sessions (av d) !! dev = Some x →
  LoadSession (m_protocol m) x = Ok s → a_remote (av d) !! dev = Some ik →
  accepts I m dev ik (av d) → 0 < go_len km → encrypts s →
  (∀ c s' d', (eval (Session_Encrypt s km) d').1 = (Ok c, s') → is_ok (Session_Marshal s')) →
  wp (encryptForDevice_locked m dev km) (λ r _, is_ok r) d.
Proof.
  intros Hg HId Hx Hs Hik Hacc Hkm Henc Hm. unfold encryptForDevice_locked. apply wp_try.
  unfold getOrCreateActiveSession. apply wp_try. read_ok. rewrite Hx.
  apply wp_try, wp_pure. unfold signal_Protocol. rewrite Hs. apply wp_pure.
  destruct Hso as [He _].
  by apply (encrypt_tail_ok I _ _ _ _ _ ik); rewrite ?He, ?Hav.
Qed.

Lemma encrypt_next_ok I m dev km x ik s t d :
  good d → I (d_env d) → a_sessions (av d) !! dev = Some x →
  LoadSession (m_protocol m) x = Ok s → linked s t → a_remote (av d) !! dev = Some ik →
  accepts I m dev ik (av d) → 0 < go_len km →
  wp (encryptForDevice_locked m dev km) (λ r _, is_ok r) d.
Proof.
  intros Hg HId Hx Hs Hl Hik Hacc Hkm. eapply encrypt_stored_ok; [done..| |].
  - by eapply linked_encrypts.
  - intros c s' d' Henc. by eapply linked_marshals.
Qed.

Section First.
Context (I : env → Prop) (mA mB : Manager) (aB : astore) (bundle : Bundle) (pA : gobytes).
Let B : Device := m_localDevice mB.
Hypothesis Hprot : m_protocol mB = m_protocol mA.
Hypothesis Hown : own_prekeys (m_protocol mB) (m_identityKey mB) aB.
Hypothesis Hbundle : bundle_of mB aB bundle.
Hypothesis Hpool : a_pool aB ≠ ∅.
Hypothesis HkA : generated_identity (m_protocol mA) (m_identityKey mA).
Hypothesis HpA : IdentityPublicKey (m_protocol mA) (m_identityKey mA) = Ok pA.

Lemma bundle_first : ∃ pk ks, a_pool aB !! PKR_ID pk = Some pk ∧
  B_PreKeys bundle = MkPreKey (PKR_ID pk) (PKR_Public pk) :: ks.
Proof.
  destruct (B_PreKeys bundle) as [|k ks] eqn:Hks.
  - destruct Hbundle as (_ & _ & _ & Hperm). rewrite Hks in Hperm.
    apply symmetry, Permutation_nil_r, fmap_nil_inv, fmap_nil_inv in Hperm.
    by apply map_to_list_empty_iff in Hperm.
  - destruct (bundle_prekey _ _ _ k Hown Hbundle) as (pk & Hpk & ->).
    { rewrite Hks. apply elem_of_cons. by left. }
    by exists pk, ks.
Qed.

Lemma encrypt_first_ok km d :
  good d → I (d_env d) → I (FetchBundle B (d_env d)).2 → a_sessions (av d) !! B = None →
  (FetchBundle B (d_env d)).1 = Ok bundle → 0 < go_len km →
  accepts I mA B (B_IdentityKey bundle) (av d) →
  wp (encryptForDevice_locked mA B km) (λ r _, is_ok r) d.
Proof.
  intros Hg HId HI2 Hno Hfetch Hkm Hacc.
  destruct bundle_first as (pk & ks & Hpk & Hks).
  destruct (own_pool _ _ _ Hown _ _ Hpk) as [_ Hopk].
  pose proof (own_spk _ _ _ Hown) as Hspk. rewrite Hprot in Hspk.
  pose proof (own_identity _ _ _ Hown) as HkB. rewrite Hprot in HkB.
  pose proof (bundle_identity mA mB aB bundle Hprot Hbundle) as HpB.
  unfold encryptForDevice_locked. apply wp_try.
  unfold getOrCreateActiveSession. apply wp_try. read_ok. rewrite Hno.
  destruct Hso as [He _]. apply wp_try, wp_net. simpl. rewrite He.
  destruct (FetchBundle B (d_env d)) as [r v] eqn:Hf. simpl in *. subst r. rewrite Hks.
  destruct Hbundle as (_ & _ & -> & _). simpl. apply wp_try.
  destruct (NewActiveSession_succeeds _ _ _ _ _ _ _ (ID (m_localDevice mA)) HkA HkB HpA HpB Hspk Hopk
    (with_env v d0)) as (s & ek & Hnew).
  eapply wp_mono; [apply wp_and; [apply wp_answer|
    by apply (wp_crypto_only _ (λ _ d', good d' ∧ av d' = av d0 ∧ d_env d' = v))]|].
  unfold signal_Protocol. intros r d1 (-> & Hg1 & Hav1 & He1). rewrite Hnew. simpl.
  apply wp_try. write_ok. destruct Hso as [He2 _]. apply wp_try, wp_pure.
  rewrite HpA. apply wp_pure.
  assert (created_for (m_protocol mA) (m_identityKey mA) (B_IdentityKey bundle)
    (a_current aB) pk (ID (m_localDevice mA)) s ek) as Hcre by (by eexists).
  apply (encrypt_tail_ok I _ _ _ _ _ (B_IdentityKey bundle)); try done.
  - congruence.
  - rewrite Hav0. apply lookup_insert_eq.
  - by rewrite Hav0, Hav1, Hav.
  - exact (created_encrypts _ _ _ _ _ _ _ _ HpA HpB Hspk Hopk _ _ Hcre).
  - intros c s' d' Henc.
    destruct (handshake _ _ _ _ _ _ _ _ HkA HkB HpA HpB Hspk Hopk s ek km c s' (ID B) d'
      Hcre Hkm Henc)
      as ((kx & _ & Hopen) & _).
    assert (∃ t c', decrypts_to t c' km s') as (t & c' & Hdec).
    { destruct (is_V1 (m_protocol mA)).
      - destruct Hopen as (_ & Hopen). destruct (Hopen d') as (t & inner & _ & _ & Hdec).
        by exists t, inner.
      - destruct Hopen as (_ & _ & _ & Hopen). destruct (Hopen d') as (t & _ & _ & Hdec).
        by exists t, (RK_Data (MkRecipientKey (ID B) c (Some kx))). }
    destruct (Hdec d') as (t' & _ & Hl' & _). apply linked_sym in Hl'.
    by destruct (linked_stored _ _ Hl') as [y ->].
Qed.
End First.

(** ** Among all recipients *)

(** The sender's store lists [B], or lists nothing for its account yet and is
    served a list with it. *)
Definition finds (I : env → Prop) (B : Device) (a : astore) : Prop :=
  ID B ∈ devices_of a (JID B) ∨
  (devices_of a (JID B) = [] ∧
   ∀ v, I v → ∃ l, (FetchDeviceList (JID B) v).1 = Ok l ∧ ID B ∈ DL_Devices l).

Lemma devicesFor_finds I B d :
  good d → I (d_env d) → finds I B (av d) →
  wp (devicesFor (JID B)) (λ r _, ∃ ds, r = Ok ds ∧ ID B ∈ ds) d.
Proof.
  intros Hg HId Hf. unfold devicesFor. apply wp_try. read_ok.
  destruct Hso as [He _]. case_decide as Hlen.
  { apply wp_pure. eexists. split; [done|].
    destruct Hf as [|[Hnil _]]; [done|]. rewrite Hnil in Hlen. simpl in Hlen. lia. }
  destruct Hf as [Hin|[_ Hf]].
  { destruct (devices_of (av d) (JID B)); [by apply elem_of_nil in Hin|simpl in *; lia]. }
  destruct (Hf _ HId) as (l & Hl & Hin). apply wp_try, wp_try, wp_net. simpl. rewrite He.
  destruct (FetchDeviceList (JID B) (d_env d)) as [r v]. simpl in *. subst r.
  write_ok. read_ok. rewrite Hav0. eexists. split; [done|]. unfold devices_of. simpl.
  by rewrite lookup_insert_eq.
Qed.

(** The sender's store lists devices of [jid], or the transport serves a list. *)
Definition lists (I : env → Prop) (jid : string) (a : astore) : Prop :=
  devices_of a jid ≠ [] ∨ ∀ v, I v → is_ok (FetchDeviceList jid v).1.

Lemma devicesFor_lists I jid d :
  good d → I (d_env d) → lists I jid (av d) → wp (devicesFor jid) (λ r _, is_ok r) d.
Proof.
  intros Hg HId Hl. unfold devicesFor. apply wp_try. read_ok.
  destruct Hso as [He _]. case_decide as Hlen; [by apply wp_pure|].
  destruct Hl as [Hne|Hl].
  { destruct (devices_of (av d) jid); [done|simpl in *; lia]. }
  specialize (Hl _ HId). apply wp_try, wp_try, wp_net. simpl. rewrite He.
  destruct (FetchDeviceList jid (d_env d)) as [[l|e] v]; simpl in *; [|done].
  write_ok. read_ok. done.
Qed.

(** [B] is among the devices a message to [jid] goes to: it is a device of that
    account, or another device of the sender's own. *)
Inductive goes_to (I : env → Prop) (m : Manager) (jid : string) (B : Device) (a : astore) :
    Prop :=
  | goes_account : JID B = jid → finds I B a → goes_to I m jid B a
  | goes_own :
      jid ≠ JID (m_localDevice m) → JID B = JID (m_localDevice m) → lists I jid a →
      finds I B a → goes_to I m jid B a.

Lemma recipientDevices_finds I m jid B d :
  env_stable I m → good d → I (d_env d) → goes_to I m jid B (av d) →
  wp (recipientDevices m jid) (λ r _, ∃ devs, r = Ok devs ∧ B ∈ devs) d.
Proof.
  intros HI Hg HId [<- Hf|Hj HB Hl Hf]; unfold recipientDevices; apply wp_try.
  - eapply wp_mono; [by eapply devicesFor_finds|]. intros r d1 (ds & -> & Hin). cbv zeta.
    assert (B ∈ map (MkDevice (JID B)) ds) as HB by (by apply elem_of_devices).
    case_decide; [apply wp_pure; eauto|]. apply wp_bind.
    eapply (wp_mono _ (λ _ _, True)); [done|]. intros r d2 _.
    destruct r as [own|e]; apply wp_pure; [|eauto].
    eexists. split; [done|]. apply elem_of_app. by left.
  - eapply wp_mono; [apply wp_and; [by apply devicesFor_spec|apply wp_and;
      [by apply (@env_inv_wp _ _ _ I _ _ (devicesFor_env m I HI jid))|
       by eapply devicesFor_lists]]|].
    intros [ds|e] d1 ((Hg1 & _ & Hother & _) & HI1 & Hok); [|done]. cbv zeta.
    rewrite decide_False by done. apply wp_bind. rewrite <-HB in Hj |- *.
    eapply wp_mono; [apply (devicesFor_finds I B d1); try done|].
    { unfold finds in *. by rewrite Hother. }
    intros r d2 (own & -> & Hin). apply wp_pure. eexists. split; [done|].
    apply elem_of_app. right. by apply elem_of_devices.
Qed.

Section Fanout.
Context (mA : Manager) (B : Device) (I : env → Prop) (P : astore → Prop).
Hypothesis HB : B ≠ m_localDevice mA.
Hypothesis HI : env_stable I mA.
Hypothesis HPdevices : ∀ a a', devices_step a a' → P a → P a'.
Hypothesis HPothers : ∀ a a' dev, dev ≠ B → enc_step (λ x, x = dev) a a' → P a → P a'.
Hypothesis HS : ∀ km d, good d → I (d_env d) → P (av d) → 0 < go_len km →
  wp (encryptForDevice_locked mA B km) (λ r _, is_ok r) d.

Lemma loop_keeps_key id km devices keys errs w :
  quiet (w_lk w) → good (w_data w) → is_Some (own_key id keys) →
  wpr (encrypt_loop mA km devices keys errs) (λ r _, is_Some (own_key id r.1)) w.
Proof.
  intros Hq Hg [k Hk]. eapply wpr_mono; [by apply encrypt_loop_spec|].
  intros r w' (_ & _ & _ & os & -> & _). simpl. rewrite own_key_app, Hk. by eexists.
Qed.

Lemma loop_reaches km devices keys errs w :
  quiet (w_lk w) → good (w_data w) → I (d_env (w_data w)) → P (av (w_data w)) →
  0 < go_len km → B ∈ devices →
  wpr (encrypt_loop mA km devices keys errs) (λ r _, is_Some (own_key (ID B) r.1)) w.
Proof.
  revert keys errs w. induction devices as [|dev devices IH];
    intros keys errs w Hq Hg HIw HPw Hkm Hin; [by apply elem_of_nil in Hin|].
  cbn [encrypt_loop]. case_decide as Hloc.
  { apply IH; try done. apply elem_of_cons in Hin as [->|]; done. }
  apply wpr_bind, wpr_with_deviceLock; [done|]. destruct (decide (dev = B)) as [->|Hne].
  - eapply wp_mono; [apply wp_and; [by apply encryptForDevice_locked_spec|by apply HS]|].
    intros [key|e] d' [(Hg' & _ & Hr) Hok] lk' Hq'; [destruct Hr as [Hid _]|done].
    apply loop_keeps_key; [done..|]. rewrite own_key_app. simpl.
    destruct (own_key (ID B) keys); [by eexists|]. rewrite decide_True by done. by eexists.
  - apply elem_of_cons in Hin as [|Hin]; [done|].
    eapply wp_mono; [apply wp_and; [by apply encryptForDevice_locked_spec|
      by apply (@env_inv_wp _ _ _ I _ _ (encryptForDevice_env mA I HI dev km))]|].
    intros [key|e] d' [(Hg' & Hst & _) HI'] lk' Hq'; apply IH; try done; by eapply HPothers.
Qed.

Lemma EncryptPayload_ok p pt d :
  ∃ km iv ct, (eval (EncryptPayload p pt) d).1 = Ok (km, iv, ct).
Proof.
  eval_to_wp. unfold EncryptPayload. destruct (is_V1 p).
  - apply wp_crypto. pose proof (payload_seals_V1 pt (d_rng d)) as H.
    destruct (xo_EncryptPayloadV1 pt (d_rng d)) as [[[[km iv] ct]|e] g]; [eauto|done].
  - apply wp_try, wp_crypto. pose proof (payload_seals pt (d_rng d)) as H.
    destruct (xo_EncryptPayload pt (d_rng d)) as [[[km ct]|e] g]; [|done].
    apply wp_pure. eauto.
Qed.

Lemma encrypt_reaches jid pt w :
  quiet (w_lk w) → good (w_data w) → I (d_env (w_data w)) → P (av (w_data w)) →
  goes_to I mA jid B (av (w_data w)) →
  wpr (encrypt mA jid pt)
    (λ r _, ∃ msg errs key, r = (Some msg, errs, None) ∧
      own_key (ID B) (Keys msg) = Some key) w.
Proof.
  intros Hq Hg HIw HPw Hf. unfold encrypt. apply wpr_bind, wpr_lift.
  eapply wp_mono; [apply wp_and; [by apply recipientDevices_spec|apply wp_and;
    [by apply (@env_inv_wp _ _ _ I _ _ (recipientDevices_env mA I HI jid))|
     by eapply recipientDevices_finds]]|].
  intros r d1 ((Hg1 & [Hst1 _] & _) & HI1 & devs & -> & Hin).
  apply wpr_bind, wpr_lift. eapply wp_mono; [apply wp_and; [apply wp_answer|
    by apply (wp_crypto_only _ (λ _ d', good d' ∧ av d' = av d1 ∧ d_env d' = d_env d1))]|].
  intros r d2 (Hans & Hg2 & Hav2 & He2).
  destruct (EncryptPayload_ok (m_protocol mA) pt d1) as (km & iv & ct & Hp).
  unfold signal_Protocol in Hans. simpl in Hans. rewrite Hp in Hans. subst r.
  destruct (payload_carries _ _ _ _ _ _ Hp) as [Hkm _].
  destruct (if is_nil pt then _ else _) as [ct' iv']. apply wpr_bind.
  eapply wpr_mono; [apply loop_reaches; simpl; try done; [by rewrite He2|]|].
  { rewrite Hav2. by eapply HPdevices. }
  intros [keys errs] w' [key Hkey]. simpl in Hkey. case_decide as Hlen.
  - destruct keys; [done|simpl in Hlen; lia].
  - apply wpr_ret. by eexists _, _, key.
Qed.
End Fanout.

(** ** The theorem *)

(** [mB] can answer a handshake for the bundle the transport serves for it,
    which it published when its store was [aPub]: it still has the bundle's signed
    prekey and the first of the bundle's one-time prekeys. *)
Record answers (I : env → Prop) (mA mB : Manager) (aB aPub : astore) (bundle : Bundle) : Prop := {
  an_protocol : m_protocol mB = m_protocol mA;
  an_own : own_prekeys (m_protocol mB) (m_identityKey mB) aPub;
  an_bundle : bundle_of mB aPub bundle;
  an_pool : a_pool aPub ≠ ∅;
  an_served v : I v → (FetchBundle (m_localDevice mB) v).1 = Ok bundle;
  an_spk : spk_by_id aB (SPKR_ID (a_current aPub)) = Some (a_current aPub);
  an_kept : first_kept bundle aPub aB;
  an_identity : generated_identity (m_protocol mA) (m_identityKey mA) ∧
    ∃ pA, IdentityPublicKey (m_protocol mA) (m_identityKey mA) = Ok pA }.

(** [mB] can be reached from [mA], and [ik] is the identity key [mA] then
    knows it by: the one recorded with their session in step, or the one in a
    bundle that it answers for. *)
Inductive contactable (I : env → Prop) (mA mB : Manager) (aA aB : astore) (ik : gobytes) :
    Prop :=
  | contact_session :
      in_step mA mB aA aB → a_remote aA !! m_localDevice mB = Some ik →
      contactable I mA mB aA aB ik
  | contact_bundle aPub bundle :
      answers I mA mB aB aPub bundle → a_sessions aA !! m_localDevice mB = None →
      ik = B_IdentityKey bundle → contactable I mA mB aA aB ik.

Lemma contactable_reachable I mA mB aA aB ik :
  contactable I mA mB aA aB ik → reachable I mA mB aA aB.
Proof.
  intros [Hin _|aPub bundle [Hp Hown Hb _ Hserve Hspk Hpool [HkA _]] Hno _]; [by apply reach_session|].
  eapply reach_bundle; try done. intros v b Hv. rewrite Hserve by done. by intros [= <-].
Qed.

(** What the rest of a fan-out keeps: the sender's view of [B]. *)
Definition sees (I : env → Prop) m (B : Device) (ik : gobytes) (o rk : option gobytes)
    (a : astore) : Prop :=
  a_sessions a !! B = o ∧ a_remote a !! B = rk ∧ accepts I m B ik a.

Lemma sees_devices I m B ik o rk a a' :
  devices_step a a' → sees I m B ik o rk a → sees I m B ik o rk a'.
Proof. by intros ->. Qed.

Lemma sees_others I m B ik o rk a a' dev :
  dev ≠ B → enc_step (λ x, x = dev) a a' → sees I m B ik o rk a → sees I m B ik o rk a'.
Proof.
  intros Hne Hst (Ho & Hr & Hacc).
  destruct (enc_others _ _ _ Hst B) as [Hs' Hr']; [congruence|].
  split_and!; [by rewrite Hs'|by rewrite Hr'|].
  eapply accepts_step, Hacc. apply (enc_trust _ _ _ Hst).
Qed.

Lemma contactable_encrypts I mA mB aB ik km d aA :
  env_stable I mA → good d → I (d_env d) → 0 < go_len km →
  contactable I mA mB aA aB ik →
  sees I mA (m_localDevice mB) ik (a_sessions aA !! m_localDevice mB)
    (a_remote aA !! m_localDevice mB) (av d) →
  wp (encryptForDevice_locked mA (m_localDevice mB) km) (λ r _, is_ok r) d.
Proof.
  intros HI Hg HId Hkm Hcon (Ho & Hr & Hacc).
  destruct Hcon as [(Hp & x & s & Hx & Hs & _ & y & t & _ & _ & _ & Hl) Hik|
    aPub bundle [Hp Hown Hb Hne Hserve _ _ [HkA [pA HpA]]] Hno ->].
  - apply (encrypt_next_ok I _ _ _ x ik s t); try done; congruence.
  - apply (encrypt_first_ok I mA mB aPub bundle pA); try done; [|congruence|by apply Hserve].
    by apply (stable_bundle _ _ HI).
Qed.

(** [mB] has read [pt] in world [wB'], and the two stored sessions are in step. *)
Definition received mA mB pt (wA' : world) (r : result gobytes) (wB' : world) : Prop :=
  (∃ out, r = Ok out ∧ same_text pt out) ∧
  in_step mA mB (av (w_data wA')) (av (w_data wB')) ∧
  in_step mB mA (av (w_data wB')) (av (w_data wA')).

Lemma goes_to_account I m jid B a :
  goes_to I m jid B a → JID B = jid ∨ JID B = JID (m_localDevice m).
Proof. intros []; auto. Qed.

Lemma goes_to_devices I m jid B a a' :
  a_devices a' = a_devices a → goes_to I m jid B a → goes_to I m jid B a'.
Proof.
  intros Hd [Hj Hf|Hj HB Hl Hf]; [apply goes_account|apply goes_own]; try done;
    unfold finds, lists, devices_of in *; by rewrite Hd.
Qed.

(** Looking lists up keeps [B] findable. *)
Lemma devicesFor_keeps_finds I jid B d :
  good d → I (d_env d) → finds I B (av d) →
  wp (devicesFor jid) (λ _ d', finds I B (av d')) d.
Proof.
  intros Hg HId Hf. destruct (decide (JID B = jid)) as [<-|Hne].
  - eapply wp_mono; [apply wp_and; [by apply devicesFor_spec|by eapply devicesFor_finds]|].
    intros r d' ((_ & _ & _ & Hds & _) & ds & -> & Hin). left. by rewrite <-(Hds _ eq_refl).
  - eapply wp_mono; [by apply devicesFor_spec|]. intros r d' (_ & _ & Hother & _).
    unfold finds in *. by rewrite Hother.
Qed.

Lemma devicesFor_keeps_lists I jid j d :
  good d → lists I j (av d) → wp (devicesFor jid) (λ _ d', lists I j (av d')) d.
Proof.
  intros Hg [Hne|Hl]; (eapply wp_mono; [by apply devicesFor_spec|]);
    intros r d' (_ & _ & Hother & _ & Hk); [left|by right].
  destruct (decide (j = jid)) as [->|Hj]; [by destruct (Hk Hne) as [-> _]|by rewrite Hother].
Qed.

Lemma recipientDevices_goes I m jid B d :
  env_stable I m → good d → I (d_env d) → goes_to I m jid B (av d) →
  wp (recipientDevices m jid) (λ _ d', goes_to I m jid B (av d')) d.
Proof.
  intros HI Hg HId Hgo.
  assert (∀ j d1, good d1 → I (d_env d1) → goes_to I m jid B (av d1) →
    wp (devicesFor j) (λ _ d', good d' ∧ I (d_env d') ∧ goes_to I m jid B (av d')) d1) as H.
  { intros j d1 Hg1 HI1 Hgo1.
    eapply (wp_mono _ (λ _ d', (good d' ∧ I (d_env d')) ∧ goes_to I m jid B (av d')));
      [|naive_solver].
    apply wp_and; [eapply wp_mono; [apply wp_and; [by apply devicesFor_spec|
      by apply (@env_inv_wp _ _ _ I _ _ (devicesFor_env m I HI j))]|naive_solver]|].
    destruct Hgo1 as [Hj Hf|Hj HB Hl Hf].
    - eapply wp_mono; [by apply devicesFor_keeps_finds|]. intros r d' Hf'. by apply goes_account.
    - eapply wp_mono; [apply wp_and; [by apply devicesFor_keeps_finds|
        by apply devicesFor_keeps_lists]|]. intros r d' [Hf' Hl']. by apply goes_own. }
  unfold recipientDevices. apply wp_try. eapply wp_mono; [by apply H|].
  intros [ds|e] d1 (Hg1 & HI1 & Hgo1); [|done]. cbv zeta.
  case_decide; [by apply wp_pure|]. apply wp_bind. eapply wp_mono; [by apply H|].
  intros [own|e] d2 (_ & _ & Hgo2); by apply wp_pure.
Qed.

(** What holds of the store once the recipients are looked up, and survives
    encrypting, holds after [encrypt]. *)
Lemma encrypt_carries I m jid pt (P : astore → Prop) w :
  env_stable I m → quiet (w_lk w) → good (w_data w) → I (d_env (w_data w)) →
  (∀ D a a', enc_step D a a' → P a → P a') →
  wp (recipientDevices m jid) (λ _ d', P (av d')) (w_data w) →
  wpr (encrypt m jid pt)
    (λ _ w', quiet (w_lk w') ∧ good (w_data w') ∧ I (d_env (w_data w')) ∧
      P (av (w_data w'))) w.
Proof.
  intros HI Hq Hg HId HP Hrec. unfold encrypt. apply wpr_bind, wpr_lift.
  eapply wp_mono; [apply wp_and; [by apply recipientDevices_spec|apply wp_and;
    [by apply (@env_inv_wp _ _ _ I _ _ (recipientDevices_env m I HI jid))|exact Hrec]]|].
  intros r d1 ((Hg1 & _) & HI1 & HP1). destruct r as [devs|e]; [|by apply wpr_ret].
  apply wpr_bind, wpr_lift. eapply wp_mono; [by apply
    (wp_crypto_only _ (λ _ d', good d' ∧ av d' = av d1 ∧ d_env d' = d_env d1))|].
  intros r d2 (Hg2 & Hav2 & He2). destruct r as [[[km iv] ct]|e].
  2: { apply wpr_ret. simpl. by rewrite Hav2, He2. }
  destruct (if is_nil pt then _ else _) as [ct' iv']. apply wpr_bind.
  eapply wpr_mono; [apply wpr_and; [by apply encrypt_loop_spec|
    apply (encrypt_loop_env m I HI); simpl; [done|done|by rewrite He2]]|].
  intros [keys errs] [d' lk'] [(Hq' & Hg' & Hst & _) HI']. simpl in *. rewrite Hav2 in Hst.
  case_decide; apply wpr_ret; (split_and!; [done..|]); by eapply HP.
Qed.

(** Who can be contacted gets a key, without an error for the call. *)
Lemma encrypt_contacts mA mB jid I ik pt wA aB :
  m_localDevice mB ≠ m_localDevice mA → quiet (w_lk wA) → good (w_data wA) →
  env_stable I mA → I (d_env (w_data wA)) → contactable I mA mB (av (w_data wA)) aB ik →
  accepts I mA (m_localDevice mB) ik (av (w_data wA)) →
  goes_to I mA jid (m_localDevice mB) (av (w_data wA)) →
  wpr (encrypt mA jid pt)
    (λ r _, ∃ msg errs key, r = (Some msg, errs, None) ∧
      own_key (ID (m_localDevice mB)) (Keys msg) = Some key) wA.
Proof.
  intros HB HqA HgA HI HIA Hcon Hacc Hgo.
  apply (encrypt_reaches mA (m_localDevice mB) I
    (sees I mA (m_localDevice mB) ik (a_sessions (av (w_data wA)) !! m_localDevice mB)
      (a_remote (av (w_data wA)) !! m_localDevice mB))); try done;
    [apply sees_devices|apply sees_others|].
  intros km d Hg HId Hsees Hkm. by eapply contactable_encrypts.
Qed.

(** The delivery theorems together: the message is made, and is read. *)
Lemma encrypt_arrives mA mB jid I ik pt wA wB :
  m_localDevice mB ≠ m_localDevice mA →
  quiet (w_lk wA) → good (w_data wA) → quiet (w_lk wB) → good (w_data wB) →
  env_stable I mA → I (d_env (w_data wA)) →
  contactable I mA mB (av (w_data wA)) (av (w_data wB)) ik →
  accepts I mA (m_localDevice mB) ik (av (w_data wA)) →
  goes_to I mA jid (m_localDevice mB) (av (w_data wA)) →
  wpr (encrypt mA jid pt)
    (λ r wA', ∃ msg errs key, r = (Some msg, errs, None) ∧
      own_key (ID (m_localDevice mB)) (Keys msg) = Some key ∧
      (unambiguous_for mA jid (m_localDevice mB) (av (w_data wA')) →
        wpr (DecryptMessage mB msg)
          (λ r' wB', received mA mB pt wA' r' wB' ∧
            (if a_sessions (av (w_data wA)) !! m_localDevice mB is Some _
             then a_remote (av (w_data wB')) !! m_localDevice mA =
               a_remote (av (w_data wB)) !! m_localDevice mA
             else is_Some (a_remote (av (w_data wB')) !! m_localDevice mA))) wB)) wA.
Proof.
  intros HB HqA HgA HqB HgB HI HIA Hcon Hacc Hgo.
  eapply wpr_mono; [apply wpr_and; [
    apply (message_delivered mA mB jid (unambiguous_for mA jid (m_localDevice mB)) I pt wA wB);
      try done; [by eapply unambiguous_for_addresses, goes_to_account|
        by eapply contactable_reachable]|
    by eapply encrypt_contacts]|].
  intros r wA' [Hdel (msg & errs & key & -> & Hkey)]. exists msg, errs, key.
  split_and!; [done..|]. intros Hun.
  eapply wpr_mono; [by apply (Hdel Hun msg errs None key)|].
  intros r' wB' (Hout & Hre & Hin). split; [|done].
  split_and!; [done|done|]. by apply in_step_sym.
Qed.

(** A message arrives.  With a working random reader and store, if the
    sender's store or the transport lists the receiver, the two have a session
    in step or the receiver's published bundle is served, and the sender
    trusts the receiver's key (or its resolver approves it), then
    [EncryptMessage] does return a message, without error, and the receiver's
    [DecryptMessage] returns exactly the plaintext and leaves them in step:
    for both protocols, for a first and for later messages, and whatever
    fails for other recipients. *)
Theorem message_arrives mA mB I ik pt wA wB :
  m_localDevice mB ≠ m_localDevice mA →
  quiet (w_lk wA) → good (w_data wA) → quiet (w_lk wB) → good (w_data wB) →
  env_stable I mA → I (d_env (w_data wA)) →
  contactable I mA mB (av (w_data wA)) (av (w_data wB)) ik →
  accepts I mA (m_localDevice mB) ik (av (w_data wA)) →
  finds I (m_localDevice mB) (av (w_data wA)) →
  wpr (EncryptMessage mA (JID (m_localDevice mB)) pt)
    (λ r wA', unambiguous mA (m_localDevice mB) (av (w_data wA')) →
      ∃ msg errs, r = (Some msg, errs, None) ∧
        wpr (DecryptMessage mB msg)
          (λ r' wB', (∃ out, r' = Ok out ∧ same_text pt out) ∧
            in_step mA mB (av (w_data wA')) (av (w_data wB')) ∧
            in_step mB mA (av (w_data wB')) (av (w_data wA'))) wB) wA.
Proof.
  intros HB HqA HgA HqB HgB HI HIA Hcon Hacc Hf.
  eapply wpr_mono; [apply (encrypt_arrives mA mB (JID (m_localDevice mB)) I ik pt wA wB);
    try done; by apply goes_account|].
  intros r wA' (msg & errs & key & -> & Hkey & Hdec) Hun.
  exists msg, errs. split; [done|].
  eapply wpr_mono; [by apply Hdec, unambiguous_for_account|]. by intros r' wB' [Hrec _].
Qed.

(** ** All the devices of a message *)

(** A device that waits for the message: its Manager, the identity key the
    sender knows it by, and the world it runs in. *)
Record peer := MkPeer { pr_manager : Manager; pr_key : gobytes; pr_world : world }.

Definition pr_device (p : peer) : Device := m_localDevice (pr_manager p).

Record awaits (I : env → Prop) (mA : Manager) (jid : string) (wA : world) (p : peer) :
    Prop := {
  aw_other : pr_device p ≠ m_localDevice mA;
  aw_quiet : quiet (w_lk (pr_world p));
  aw_good : good (w_data (pr_world p));
  aw_contact :
    contactable I mA (pr_manager p) (av (w_data wA)) (av (w_data (pr_world p))) (pr_key p);
  aw_accepted : accepts I mA (pr_device p) (pr_key p) (av (w_data wA));
  aw_goes : goes_to I mA jid (pr_device p) (av (w_data wA)) }.

(** C8: one message for everybody.  Let any number of devices wait for it, of the
    recipient's account and of the sender's own, each with its own store, each
    listed, in step or with a published bundle it can answer for, and trusted.
    Then one call of [EncryptMessage] makes one message, without error, and
    every one of these devices reads exactly the plaintext from it and is in step
    with the sender afterwards, whatever fails for the devices that do not wait.
    (Device IDs must tell the devices apart: see the header.) *)
Theorem every_device_receives mA jid I pt wA (peers : list peer) :
  peers ≠ [] → quiet (w_lk wA) → good (w_data wA) →
  env_stable I mA → I (d_env (w_data wA)) →
  Forall (awaits I mA jid wA) peers →
  wpr (EncryptMessage mA jid pt)
    (λ r wA', ∃ msg errs, r = (Some msg, errs, None) ∧
      Forall (λ p, unambiguous_for mA jid (pr_device p) (av (w_data wA')) →
        wpr (DecryptMessage (pr_manager p) msg) (received mA (pr_manager p) pt wA')
          (pr_world p)) peers) wA.
Proof.
  intros Hne Hq Hg HI HIA Hall. unfold EncryptMessage.
  eapply wpr_mono; [apply (wpr_Forall _ peers); [done|]; eapply Forall_impl; [exact Hall|];
    intros p []; by eapply encrypt_arrives|].
  intros r wA' Hr. destruct peers as [|p peers]; [done|].
  pose proof (Forall_inv Hr) as (msg & errs & key & -> & _). exists msg, errs.
  split; [done|]. eapply Forall_impl; [exact Hr|].
  intros q (msg' & errs' & key' & [= <- <-] & _ & Hdec) Hun.
  eapply wpr_mono; [by apply Hdec|]. by intros r' wB' [Hrec _].
Qed.
End Delivery.
