(* ===== verification/Recovery.v ===== *)
(** * Recovery: mending a broken session

    manager.go's comment on ResetSession: when a session has gone bad, discard
    it and follow with an EncryptKeyTransport, "so the far side also picks up
    the new session".  Whatever sessions the two devices hold, this leaves them
    in step, provided the bundle it starts from is one that the far side can
    still answer for ([FirstContact] has the case where it cannot). *)
From S2P Require Import Prelude Types Errors StoreSpec Transport Xochimilco Prog.
From S2P Require Import ProgFacts StoreFacts Signal SessionLaws SignalFacts Manager LockFacts.
From S2P Require Import ManagerKeys ManagerEncrypt ManagerDecrypt Handshake EndToEnd Delivery.

Section Recovery.
Context `{X : Xochimilco} {T : Transport} {ST : Store} {SC : StoreContract ST}
  {RS : ReliableStore ST}.
Context {CL : XochimilcoCodecLaws X} {SL : XochimilcoSessionLaws X}.
Context {TL : XochimilcoTotalLaws X}.
Implicit Types (d : data) (w : world) (m : Manager).

Lemma ResetSession_ok m dev w :
  quiet (w_lk w) → good (w_data w) →
  wpr (ResetSession m dev)
    (λ r w', r = Ok tt ∧ quiet (w_lk w') ∧ good (w_data w') ∧
      d_env (w_data w') = d_env (w_data w) ∧
      av (w_data w') = set_sessions (delete dev (a_sessions (av (w_data w)))) (av (w_data w))) w.
Proof.
  intros Hq Hg. apply wpr_with_deviceLock; [done|]. unfold ResetSession_locked.
  apply wp_try. write_ok. apply wp_pure. intros lk' Hq'. by destruct Hso as [He _].
Qed.

(** C12: a broken session is mended, if the other side can still answer for its
    bundle.  Let the transport serve a bundle of the other device whose signed
    prekey and first one-time prekey that device still has ([answers]), and let
    the sender find the device listed ([finds]) and accept the key in the bundle
    ([accepts]).  Then, whatever is stored on the two sides as their session
    (nothing, garbage, or ratchets that have lost each other), [ResetSession] on
    one side succeeds, the [EncryptKeyTransport] that its comment asks for makes a
    message, without error, and when the other side decrypts it (its own old
    session notwithstanding) it gets nil, and the two stored sessions are in step,
    in both directions.  (With a bundle whose first one-time prekey is used up
    the remedy fails: [reset_needs_new_bundle].) *)
Theorem reset_recovers mA mB I aPub bundle wA wB :
  m_localDevice mB ≠ m_localDevice mA →
  quiet (w_lk wA) → good (w_data wA) → quiet (w_lk wB) → good (w_data wB) →
  env_stable I mA → I (d_env (w_data wA)) →
  answers I mA mB (av (w_data wB)) aPub bundle →
  accepts I mA (m_localDevice mB) (B_IdentityKey bundle) (av (w_data wA)) →
  finds I (m_localDevice mB) (av (w_data wA)) →
  wpr (ResetSession mA (m_localDevice mB)) (λ r0 wA1, r0 = Ok tt ∧
    wpr (EncryptKeyTransport mA (JID (m_localDevice mB)))
      (λ r wA', unambiguous mA (m_localDevice mB) (av (w_data wA')) →
        ∃ msg errs, r = (Some msg, errs, None) ∧
          wpr (DecryptMessage mB msg)
            (λ r' wB', r' = Ok None ∧
              in_step mA mB (av (w_data wA')) (av (w_data wB')) ∧
              in_step mB mA (av (w_data wB')) (av (w_data wA'))) wB) wA1) wA.
Proof.
  intros HB HqA HgA HqB HgB HI HIA Hans Hacc Hf.
  eapply wpr_mono; [by apply ResetSession_ok|].
  intros r0 wA1 (-> & Hq1 & Hg1 & He1 & Hav1). split; [done|].
  unfold EncryptKeyTransport. eapply wpr_mono;
    [apply (encrypt_arrives mA mB (JID (m_localDevice mB)) I (B_IdentityKey bundle) None wA1 wB);
      try done|].
  - by rewrite He1.
  - eapply contact_bundle; [done| |done]. rewrite Hav1. apply lookup_delete_eq.
  - by rewrite Hav1.
  - apply goes_account; [done|]. by rewrite Hav1.
  - intros r wA' (msg & errs & key & -> & _ & Hdec) Hun.
    exists msg, errs. split; [done|].
    eapply wpr_mono; [by apply Hdec, unambiguous_for_account|].
    intros r' wB' (((out & -> & _ & Hnil) & Hin) & _). by rewrite Hnil.
Qed.
End Recovery.
