(* ===== verification/FirstContact.v ===== *)
(** * First contact: what happens when two first messages meet

    [Delivery] follows one first message at a time.  Two of them can meet: two
    devices write to each other before either has read the other's message, or
    two devices build their sessions from the same published bundle.  In the
    first case both messages are read, but each device's stored session ends up
    being the counterpart of one that the other has replaced; in the second the
    later one is refused.  Resetting the session mends neither by itself, as long
    as the receiver has not published a new bundle.  [Glare] runs the first case
    to the end. *)
From S2P Require Import Prelude Types Errors StoreSpec Transport Xochimilco Prog.
From S2P Require Import ProgFacts StoreFacts Signal SessionLaws SignalFacts Manager LockFacts.
From S2P Require Import ManagerKeys ManagerEncrypt ManagerDecrypt Handshake EndToEnd Delivery.
From S2P Require Import Recovery.

Section FirstContact.
Context `{X : Xochimilco} {T : Transport} {ST : Store} {SC : StoreContract ST}
  {RS : ReliableStore ST}.
Context {CL : XochimilcoCodecLaws X} {SL : XochimilcoSessionLaws X}.
Context {TL : XochimilcoTotalLaws X}.
Implicit Types (d : data) (w : world) (m : Manager).

(** [m], in the world [w], is about to write its first message to [mB] with a
    message to the account [jid]: it has no session, is served the bundle that
    [mB] published when its store was [aPub] and can still answer for, and
    accepts the key in it. *)
Record approaches (I : env → Prop) (m : Manager) (jid : string) (w : world) (mB : Manager)
    (aB aPub : astore) (bundle : Bundle) : Prop := {
  ap_other : m_localDevice mB ≠ m_localDevice m;
  ap_quiet : quiet (w_lk w);
  ap_good : good (w_data w);
  ap_stable : env_stable I m;
  ap_env : I (d_env (w_data w));
  ap_answers : answers I m mB aB aPub bundle;
  ap_new : a_sessions (av (w_data w)) !! m_localDevice mB = None;
  ap_accepts :
    accepts I m (m_localDevice mB) (B_IdentityKey bundle) (av (w_data w));
  ap_goes : goes_to I m jid (m_localDevice mB) (av (w_data w)) }.

(** ** The receiver's own messages do not disturb its prekeys *)

Definition same_prekeys (a a' : astore) : Prop :=
  a_current a' = a_current a ∧ a_stale a' = a_stale a ∧ a_pool a' = a_pool a.

Lemma encrypt_same_prekeys m jid pt w :
  quiet (w_lk w) → good (w_data w) →
  wpr (encrypt m jid pt)
    (λ _ w', quiet (w_lk w') ∧ good (w_data w') ∧
      same_prekeys (av (w_data w)) (av (w_data w'))) w.
Proof.
  intros Hq Hg. eapply wpr_mono; [by apply encrypt_spec|].
  intros r w' (Hq' & Hg' & a1 & [Hst1 _] & Hcase). split_and!; [done..|].
  unfold same_prekeys. destruct Hcase as [(e & _ & ->)|(devs & os & _ & _ & Hst & _)].
  - by rewrite Hst1.
  - destruct (enc_keys _ _ _ Hst) as (_ & _ & -> & -> & -> & _). by rewrite Hst1.
Qed.

Lemma answers_same_prekeys I m mB aB aB' aPub bundle :
  same_prekeys aB aB' → answers I m mB aB aPub bundle → answers I m mB aB' aPub bundle.
Proof.
  intros (Hc & Hs & Hp) []. split; try done; unfold spk_by_id, first_kept in *.
  - by rewrite Hc, Hs.
  - by rewrite Hp.
Qed.

(** What the sender's [encrypt] does while the receiver's store is [wB]'s. *)
Lemma approach_arrives I m jid w mB aB aPub bundle pt wB :
  approaches I m jid w mB aB aPub bundle → quiet (w_lk wB) → good (w_data wB) →
  same_prekeys aB (av (w_data wB)) →
  wpr (encrypt m jid pt)
    (λ r w', ∃ msg errs key, r = (Some msg, errs, None) ∧
      own_key (ID (m_localDevice mB)) (Keys msg) = Some key ∧
      (unambiguous_for m jid (m_localDevice mB) (av (w_data w')) →
        wpr (DecryptMessage mB msg) (received m mB pt w') wB)) w.
Proof.
  intros [Hne Hq Hg HI HIw Hans Hno Hacc Hgo] HqB HgB Hpre.
  eapply wpr_mono; [apply (encrypt_arrives m mB jid I (B_IdentityKey bundle) pt w wB); try done|].
  { eapply contact_bundle; [|done..]. by eapply answers_same_prekeys. }
  intros r w' (msg & errs & key & -> & Hkey & Hdec). exists msg, errs, key.
  split_and!; [done..|]. intros Hun.
  eapply wpr_mono; [by apply Hdec|]. by intros r' wB' [Hrec _].
Qed.

(** ** Crossing *)

(** C9: two first messages that cross.  Two devices without a session write to
    each other (or to accounts whose messages reach the other device), each
    from the other's published bundle, before either has read anything.  Both
    calls of [EncryptMessage] return a message, and each device reads exactly
    the text the other wrote.  But each [DecryptMessage] replaces the session
    that the device's own message had started: what either has stored in the
    end is in step with the session that the other stored when it wrote, and has
    just thrown away. *)
Theorem first_messages_cross mA mB IA IB jidA jidB ptA ptB pubA pubB bA bB wA wB :
  approaches IA mA jidA wA mB (av (w_data wB)) pubB bB →
  approaches IB mB jidB wB mA (av (w_data wA)) pubA bA →
  wpr (EncryptMessage mA jidA ptA) (λ rA wA1,
    wpr (EncryptMessage mB jidB ptB) (λ rB wB1,
      unambiguous_for mA jidA (m_localDevice mB) (av (w_data wA1)) →
      unambiguous_for mB jidB (m_localDevice mA) (av (w_data wB1)) →
      ∃ msgA errsA msgB errsB, rA = (Some msgA, errsA, None) ∧ rB = (Some msgB, errsB, None) ∧
        wpr (DecryptMessage mA msgB) (λ qA wA2,
          wpr (DecryptMessage mB msgA) (λ qB wB2,
            (∃ out, qA = Ok out ∧ same_text ptB out) ∧
            (∃ out, qB = Ok out ∧ same_text ptA out) ∧
            in_step mA mB (av (w_data wA1)) (av (w_data wB2)) ∧
            in_step mB mA (av (w_data wB1)) (av (w_data wA2))) wB1) wA1) wB) wA.
Proof.
  intros HA HB. unfold EncryptMessage.
  pose proof (encrypt_same_prekeys mA jidA ptA wA (ap_quiet _ _ _ _ _ _ _ _ HA)
    (ap_good _ _ _ _ _ _ _ _ HA)) as HpA.
  pose proof (encrypt_same_prekeys mB jidB ptB wB (ap_quiet _ _ _ _ _ _ _ _ HB)
    (ap_good _ _ _ _ _ _ _ _ HB)) as HpB.
  pose proof (λ w, approach_arrives IA mA jidA wA mB _ pubB bB ptA w HA) as HaA.
  pose proof (λ w, approach_arrives IB mB jidB wB mA _ pubA bA ptB w HB) as HaB.
  unfold wpr at 1 in HpA. unfold wpr at 1 in HpB. unfold wpr at 1 in HaA.
  unfold wpr at 1 in HaB. unfold wpr at 1 2.
  destruct (run (encrypt mA jidA ptA) wA) as [rA wA1| |]; [|done..].
  destruct (run (encrypt mB jidB ptB) wB) as [rB wB1| |]; [|done..].
  destruct HpA as (HqA & HgA & HprA), HpB as (HqB & HgB & HprB). intros HunA HunB.
  destruct (HaA wB1) as (msgA & errsA & keyA & -> & _ & HdB); [done..|].
  destruct (HaB wA1) as (msgB & errsB & keyB & -> & _ & HdA); [done..|].
  exists msgA, errsA, msgB, errsB. split_and!; [done..|].
  eapply wpr_mono; [by apply HdA|]. intros qA wA2 (HoA & HstA & _).
  eapply wpr_mono; [by apply HdB|]. by intros qB wB2 (HoB & HstB & _).
Qed.

(** ** One bundle, two readers *)

Lemma first_key_named mA mB aB b km key x :
  m_protocol mB = m_protocol mA → first_key mA mB aB b km key x →
  is_Some (RK_KeyExchange key) ∧
  ∃ k, head (B_PreKeys b) = Some k ∧ named_prekey mB key = Some (PK_ID k).
Proof.
  intros Hp (s' & pk & pA & _ & _ & Hoff & _ & _ & kx & Hkx & Hopen). rewrite Hkx.
  split; [by eexists|]. eexists. split; [exact Hoff|]. unfold named_prekey. rewrite Hkx, Hp.
  unfold is_V1 in Hopen. destruct (_ =? ProtocolV1)%Z.
  - by destruct Hopen as [-> _].
  - by destruct Hopen as (_ & -> & _).
Qed.

(** The key of a first message names the first prekey of the bundle. *)
Lemma approach_names I m jid w mB aB aPub bundle pt :
  approaches I m jid w mB aB aPub bundle →
  wpr (encrypt m jid pt)
    (λ r w', unambiguous_for m jid (m_localDevice mB) (av (w_data w')) →
      ∀ msg errs err key, r = (Some msg, errs, err) →
      own_key (ID (m_localDevice mB)) (Keys msg) = Some key →
      is_Some (RK_KeyExchange key) ∧
      ∃ k, head (B_PreKeys bundle) = Some k ∧ named_prekey mB key = Some (PK_ID k)) w.
Proof.
  intros [Hne Hq Hg HI HIw [Hp Hown Hb Hpool Hserve _ _ [HkA _]] Hno Hacc Hgo].
  eapply wpr_mono; [apply (encrypt_key m jid (m_localDevice mB) None I
    (unambiguous_for m jid (m_localDevice mB)) (first_key m mB aPub bundle)); try done|].
  - by eapply unambiguous_for_addresses, goes_to_account.
  - intros km d Hgd Hs Hkm HId. apply encrypt_first; try done.
    intros b Hf. rewrite Hserve in Hf by done. by injection Hf.
  - intros r w' Hkey Hun msg errs err key -> Hown'.
    destruct (Hkey Hun _ _ _ _ eq_refl Hown') as (_ & km & x & _ & _ & Hk).
    by eapply first_key_named.
Qed.

(** C11: a published bundle is good for one first contact.  Two devices without
    a session with [mB] are served the same bundle of it and write to it; both
    calls of [EncryptMessage] succeed, and [mB] reads the first message.  The
    second is then refused: both were made from the first one-time prekey of the
    bundle ([bundle.PreKeys[0]] in getOrCreateActiveSession), however many it
    offers.  Refusing it changes no session and no prekey, so the two cannot
    talk until one side resets. *)
Theorem second_contact_refused m1 m2 mB I1 I2 jid1 jid2 pt1 pt2 aPub bundle w1 w2 wB :
  quiet (w_lk wB) → good (w_data wB) →
  approaches I1 m1 jid1 w1 mB (av (w_data wB)) aPub bundle →
  approaches I2 m2 jid2 w2 mB (av (w_data wB)) aPub bundle →
  wpr (EncryptMessage m1 jid1 pt1) (λ r1 w1',
    wpr (EncryptMessage m2 jid2 pt2) (λ r2 w2',
      unambiguous_for m1 jid1 (m_localDevice mB) (av (w_data w1')) →
      unambiguous_for m2 jid2 (m_localDevice mB) (av (w_data w2')) →
      ∃ msg1 errs1 msg2 errs2, r1 = (Some msg1, errs1, None) ∧ r2 = (Some msg2, errs2, None) ∧
        wpr (DecryptMessage mB msg1) (λ q1 wB1, received m1 mB pt1 w1' q1 wB1 ∧
          wpr (DecryptMessage mB msg2) (λ q2 wB2, (∃ e, q2 = Err e) ∧
            a_sessions (av (w_data wB2)) = a_sessions (av (w_data wB1)) ∧
            a_pool (av (w_data wB2)) = a_pool (av (w_data wB1))) wB1) wB) w2) w1.
Proof.
  intros HqB HgB H1 H2. unfold EncryptMessage.
  eapply wpr_mono; [apply wpr_and; [by apply (approach_arrives _ _ _ _ _ _ _ _ _ wB H1)|
    by apply (approach_names _ _ _ _ _ _ _ _ _ H1)]|].
  intros r1 w1' [(msg1 & errs1 & key1 & -> & Hkey1 & Hdec1) Hn1].
  eapply wpr_mono; [apply wpr_and; [by apply (approach_arrives _ _ _ _ _ _ _ _ _ wB H2)|
    by apply (approach_names _ _ _ _ _ _ _ _ _ H2)]|].
  intros r2 w2' [(msg2 & errs2 & key2 & -> & Hkey2 & _) Hn2] Hun1 Hun2.
  destruct (Hn1 Hun1 _ _ _ _ eq_refl Hkey1) as (Hkx1 & k & Hk & Hid1).
  destruct (Hn2 Hun2 _ _ _ _ eq_refl Hkey2) as ([kx2 Hkx2] & k' & Hk' & Hid2).
  rewrite Hk in Hk'. injection Hk' as <-.
  exists msg1, errs1, msg2, errs2. split_and!; [done..|].
  eapply wpr_mono; [apply wpr_and; [by apply Hdec1|by apply DecryptMessage_consumes]|].
  intros q1 wB1 (Hrec & HqB1 & HgB1 & Hgone). split; [done|].
  destruct Hgone as (id & Hid & Hgone); [by destruct Hrec as [(out & -> & _) _]|].
  rewrite Hid1 in Hid. injection Hid as <-. by eapply DecryptMessage_used_prekey.
Qed.

(** C10: resetting is not enough once the published bundle is spent.  Whatever
    sessions the two devices hold (after a crossing, say), let the bundle that
    [mB] published, and that [m] is still served, begin with a one-time prekey
    [mB] no longer has: [m]'s, or anybody's, first message used it up.  Then what
    the comment on ResetSession recommends, [ResetSession] followed by
    [EncryptKeyTransport], succeeds at [m] and even makes a key for [mB], but
    [mB] refuses the message, and refusing it changes no session and no prekey.
    ([reset_recovers] is the case where that prekey is still there.) *)
Theorem reset_needs_new_bundle m mB I aPub bundle k w wB :
  m_localDevice mB ≠ m_localDevice m →
  quiet (w_lk w) → good (w_data w) → quiet (w_lk wB) → good (w_data wB) →
  env_stable I m → I (d_env (w_data w)) →
  answers I m mB aPub aPub bundle →
  accepts I m (m_localDevice mB) (B_IdentityKey bundle) (av (w_data w)) →
  finds I (m_localDevice mB) (av (w_data w)) →
  head (B_PreKeys bundle) = Some k → a_pool (av (w_data wB)) !! PK_ID k = None →
  wpr (ResetSession m (m_localDevice mB)) (λ r0 w1, r0 = Ok tt ∧
    wpr (EncryptKeyTransport m (JID (m_localDevice mB)))
      (λ r w2, unambiguous m (m_localDevice mB) (av (w_data w2)) →
        ∃ msg errs, r = (Some msg, errs, None) ∧
          is_Some (own_key (ID (m_localDevice mB)) (Keys msg)) ∧
          wpr (DecryptMessage mB msg) (λ r' wB', (∃ e, r' = Err e) ∧
            a_sessions (av (w_data wB')) = a_sessions (av (w_data wB)) ∧
            a_pool (av (w_data wB')) = a_pool (av (w_data wB))) wB) w1) w.
Proof.
  intros HB Hq Hg HqB HgB HI HIw Hans Hacc Hf Hk Hgone.
  eapply wpr_mono; [by apply ResetSession_ok|].
  intros r0 w1 (-> & Hq1 & Hg1 & He1 & Hav1). split; [done|].
  assert (approaches I m (JID (m_localDevice mB)) w1 mB aPub aPub bundle) as Hap.
  { split; try done; rewrite ?He1, ?Hav1; try done; [apply lookup_delete_eq|].
    by apply goes_account. }
  unfold EncryptKeyTransport. eapply wpr_mono; [apply wpr_and; [
    by apply (approach_names _ _ _ _ _ _ _ _ None Hap)|
    apply (encrypt_contacts m mB _ I (B_IdentityKey bundle) None w1 aPub)]|]; try by apply Hap.
  { eapply contact_bundle; [by apply Hap..|done]. }
  intros r w2 [Hn (msg & errs & key & -> & Hkey)] Hun. exists msg, errs.
  split; [done|]. rewrite Hkey. split; [by eexists|].
  destruct (Hn (unambiguous_for_account _ _ _ Hun) _ _ _ _ eq_refl Hkey)
    as ([kx Hkx] & k' & Hk' & Hid).
  rewrite Hk in Hk'. injection Hk' as <-. by eapply DecryptMessage_used_prekey.
Qed.
End FirstContact.
