(* ===== verification/Conversation.v ===== *)
(** * Conversations: any number of messages, in any order of turns

    Two devices that are in step exchange a list of messages; each is encrypted
    by the one whose turn it is and handed to the other.  The run is executable
    ([converse]); the theorem follows it by induction on the list. *)
From S2P Require Import Prelude Types Errors StoreSpec Transport Xochimilco Prog.
From S2P Require Import ProgFacts StoreFacts Signal SessionLaws SignalFacts Manager LockFacts.
From S2P Require Import ManagerKeys ManagerEncrypt ManagerDecrypt Handshake EndToEnd Delivery.

(** Who writes next ([t_back]: the second device), and what. *)
Record turn := MkTurn { t_back : bool; t_text : gobytes }.

(** What became of a message: the answer of the receiver's DecryptMessage, or
    the errors of an EncryptMessage that made no key for the receiver. *)
Inductive delivery :=
  | Delivered (r : result gobytes)
  | NotSent (errs : list DeviceError) (err : option error)
  | Stuck.

Section Conversation.
Context `{X : Xochimilco} {T : Transport} {ST : Store}.
Implicit Types (w : world) (m : Manager).

(** [mS] writes [pt] to the account of [mR]'s device, which decrypts it. *)
Definition exchange mS mR (pt : gobytes) wS wR : delivery * world * world :=
  match run (EncryptMessage mS (JID (m_localDevice mR)) pt) wS with
  | Done (None, errs, err) wS' => (NotSent errs err, wS', wR)
  | Done (Some msg, errs, err) wS' =>
      match own_key (ID (m_localDevice mR)) (Keys msg) with
      | None => (NotSent errs err, wS', wR)
      | Some _ =>
          match run (DecryptMessage mR msg) wR with
          | Done r wR' => (Delivered r, wS', wR')
          | _ => (Stuck, wS', wR)
          end
      end
  | _ => (Stuck, wS, wR)
  end.

Fixpoint converse mA mB (turns : list turn) wA wB : list delivery * world * world :=
  match turns with
  | [] => ([], wA, wB)
  | t :: turns =>
      let '(dl, wA, wB) :=
        if t_back t
        then let '(dl, wB, wA) := exchange mB mA (t_text t) wB wA in (dl, wA, wB)
        else exchange mA mB (t_text t) wA wB in
      let '(dls, wA, wB) := converse mA mB turns wA wB in
      (dl :: dls, wA, wB)
  end.

(** The message arrived as it was written, or the writer was told that this
    device gets nothing. *)
Definition accounted (pt : gobytes) (peer : Device) (dl : delivery) : Prop :=
  match dl with
  | Delivered r => ∃ out, r = Ok out ∧ same_text pt out
  | NotSent errs err => is_Some err ∨ ∃ e, MkDeviceError peer e ∈ errs
  | Stuck => False
  end.

Definition accounted_turn mA mB (t : turn) (dl : delivery) : Prop :=
  accounted (t_text t) (m_localDevice (if t_back t then mA else mB)) dl.

(** The message arrived as it was written. *)
Definition arrived (pt : gobytes) (dl : delivery) : Prop :=
  ∃ out, dl = Delivered (Ok out) ∧ same_text pt out.
Definition arrived_turn (t : turn) (dl : delivery) : Prop := arrived (t_text t) dl.

(** What every exchange between two devices keeps, whoever writes, a
    conversation keeps. *)
Lemma converse_inv (Inv : Manager → Manager → world → world → Prop)
    (Q : gobytes → Manager → delivery → Prop) mA mB turns wA wB :
  (∀ mS mR wS wR, Inv mS mR wS wR → Inv mR mS wR wS) →
  (∀ mS mR pt wS wR, Inv mS mR wS wR →
    let '(dl, wS', wR') := exchange mS mR pt wS wR in Q pt mR dl ∧ Inv mS mR wS' wR') →
  Inv mA mB wA wB →
  let '(dls, wA', wB') := converse mA mB turns wA wB in
  Forall2 (λ t dl, Q (t_text t) (if t_back t then mA else mB) dl) turns dls ∧
  Inv mA mB wA' wB'.
Proof.
  intros Hsym Hx. revert wA wB.
  induction turns as [|[back pt] turns IH]; intros wA wB Hinv; simpl; [by split|].
  destruct back; simpl; [specialize (Hx mB mA pt wB wA (Hsym _ _ _ _ Hinv))|
    specialize (Hx mA mB pt wA wB Hinv)];
    destruct (exchange _ _ pt _ _) as [[dl w1] w2]; destruct Hx as [HQ Hinv'].
  - specialize (IH w2 w1 (Hsym _ _ _ _ Hinv')).
    destruct (converse mA mB turns w2 w1) as [[dls wA'] wB']. destruct IH.
    split; [by constructor|done].
  - specialize (IH w1 w2 Hinv').
    destruct (converse mA mB turns w1 w2) as [[dls wA'] wB']. destruct IH.
    split; [by constructor|done].
Qed.

Context {SC : StoreContract ST}.
Context {CL : XochimilcoCodecLaws X} {SL : XochimilcoSessionLaws X}.

(** The device lists the two accounts need are known, and list [B]. *)
Definition settled m (B : Device) (a : astore) : Prop :=
  ID B ∈ devices_of a (JID B) ∧ devices_of a (JID (m_localDevice m)) ≠ [] ∧
  unambiguous m B a.

Lemma settled_devices m B a a' :
  a_devices a' = a_devices a → settled m B a → settled m B a'.
Proof. intros Hd. unfold settled, unambiguous, devices_of. by rewrite Hd. Qed.

(** Everything a turn needs and keeps; [S] writes, [R] reads. *)
Record ready mS mR wS wR : Prop := {
  rd_S : quiet (w_lk wS) ∧ good (w_data wS);
  rd_R : quiet (w_lk wR) ∧ good (w_data wR);
  rd_step : in_step mS mR (av (w_data wS)) (av (w_data wR));
  rd_Ssettled : settled mS (m_localDevice mR) (av (w_data wS));
  rd_Rsettled : settled mR (m_localDevice mS) (av (w_data wR)) }.

(** Each side trusts the key it has recorded for the other. *)
Definition mutual_trust mA mB wA wB : Prop :=
  trusted_session (m_localDevice mB) (av (w_data wA)) ∧
  trusted_session (m_localDevice mA) (av (w_data wB)).

Context {RS : ReliableStore ST}.

Lemma ready_sym mS mR wS wR : ready mS mR wS wR → ready mR mS wR wS.
Proof. intros []. split; try done. by apply in_step_sym. Qed.

Lemma in_step_sessions mA mB aA aA' aB :
  a_sessions aA' !! m_localDevice mB = a_sessions aA !! m_localDevice mB →
  in_step mA mB aA aB → in_step mA mB aA' aB.
Proof. intros Hs (Hp & x & s & Hx & Hl). split; [done|]. exists x, s. by rewrite Hs. Qed.

(** What a settled sender's [encrypt] does, besides making keys: the device
    lists stay, and the device that got no key has an error and its session. *)
Lemma encrypt_settled m B pt w :
  quiet (w_lk w) → good (w_data w) → B ≠ m_localDevice m → settled m B (av (w_data w)) →
  wpr (encrypt m (JID B) pt)
    (λ r w', quiet (w_lk w') ∧ good (w_data w') ∧
      a_devices (av (w_data w')) = a_devices (av (w_data w)) ∧
      (∀ dev, trusted_session dev (av (w_data w)) → trusted_session dev (av (w_data w'))) ∧
      (∀ msg, r.1.1 = Some msg → Sender msg = m_localDevice m) ∧
      ((∀ msg, r.1.1 = Some msg → own_key (ID B) (Keys msg) = None) →
        (is_Some r.2 ∨ ∃ e, MkDeviceError B e ∈ r.1.2) ∧
        a_sessions (av (w_data w')) !! B = a_sessions (av (w_data w)) !! B)) w.
Proof.
  intros Hq Hg HB (Hlist & Hown & _). eapply wpr_mono; [by apply encrypt_spec|].
  intros r w' (Hq' & Hg' & a1 & [_ Hkeep] & Hcase).
  rewrite Hkeep in Hcase by (try done; intros Hnil; by rewrite Hnil in Hlist; set_solver).
  split_and!; [done|done| | | |].
  { destruct Hcase as [(e & _ & ->)|(devs & os & _ & _ & Hst & _)]; [done|].
    by apply (enc_keys _ _ _ Hst). }
  { intros dev. destruct Hcase as [(e & _ & ->)|(devs & os & _ & _ & Hst & _)]; [done|].
    by eapply trusted_session_step. }
  { intros msg Hmsg. destruct Hcase as [(e & -> & _)|(devs & os & _ & _ & _ & _ & _ & Hr)];
      [done|]. destruct Hr as [[_ ->]|(msg' & _ & -> & Hs & _)]; [done|].
    by injection Hmsg as <-. }
  intros Hnone.
  destruct Hcase as [(e & -> & ->)|(devs & os & Hrec & Hos & Hst & Hok & Honly & Hr)].
  { split; [by left; eexists|done]. }
  assert (∀ k, (B, Ok k) ∉ os) as Hno.
  { intros k Hin. destruct (Hok _ _ Hin) as [Hid _].
    assert (k ∈ outcome_keys os) as Hk by (apply elem_of_outcome_keys; by exists B).
    destruct Hr as [[Hnil _]|(msg & _ & -> & _ & HK & _)]; [rewrite Hnil in Hk; set_solver|].
    specialize (Hnone msg eq_refl). rewrite own_key_None, HK in Hnone. by eapply Hnone. }
  split; [|by apply Honly].
  assert (B ∈ os.*1) as HB1.
  { rewrite Hos. apply list_elem_of_filter. split; [done|].
    destruct Hrec as (own & -> & _). apply elem_of_app. left.
    apply elem_of_devices. split; [done|]. unfold devices_of in *.
    by rewrite (proj2 (proj2 (proj2 (proj2 (proj2 (proj2 (enc_keys _ _ _ Hst))))))). }
  apply list_elem_of_fmap in HB1 as ([dev [k|e]] & -> & Hin); [by destruct (Hno k)|].
  simpl. destruct Hr as [(_ & ->)|(msg & _ & -> & _)]; [by left; eexists|right].
  exists e. simpl. apply list_elem_of_omap. by exists (dev, Err e).
Qed.

Lemma in_step_session mA mB aA aB :
  in_step mA mB aA aB → is_Some (a_sessions aA !! m_localDevice mB).
Proof. intros (_ & x & s & Hx & _). by eexists. Qed.

(** Trust survives a decryption that records no other key. *)
Lemma trusted_session_decrypt sender o a a' :
  dec_step sender o a a' → is_Some (a_sessions a' !! sender) →
  a_remote a' !! sender = a_remote a !! sender →
  trusted_session sender a → trusted_session sender a'.
Proof.
  intros Hst Hs Hr [_ (ik & Hik & Htr)]. split; [done|]. exists ik.
  rewrite Hr. split; [done|]. unfold trust_of in *.
  by destruct (dec_keys _ _ _ _ Hst) as (_ & _ & _ & _ & _ & -> & _).
Qed.

(** A settled sender that trusts the receiver does send, if the session it has
    stored works. *)
Lemma encrypt_trusted_stored {TL : XochimilcoTotalLaws X} m B x s pt w :
  quiet (w_lk w) → good (w_data w) → B ≠ m_localDevice m → settled m B (av (w_data w)) →
  trusted_session B (av (w_data w)) →
  a_sessions (av (w_data w)) !! B = Some x → LoadSession (m_protocol m) x = Ok s →
  encrypts s →
  (∀ km c s' d', 0 < go_len km → (eval (Session_Encrypt s km) d').1 = (Ok c, s') →
    is_ok (Session_Marshal s')) →
  wpr (encrypt m (JID B) pt)
    (λ r _, ∃ msg errs key, r = (Some msg, errs, None) ∧
      own_key (ID B) (Keys msg) = Some key) w.
Proof.
  intros Hq Hg HB [Hlist _] [_ (ik & Hik & Htr)] Hx Hs Henc Hm.
  apply (encrypt_reaches m B (λ _, True) (sees (λ _, True) m B ik (Some x) (Some ik)));
    try done.
  - apply sees_devices.
  - apply sees_others.
  - intros km d Hgd _ (Ho & Hr & Hacc) Hkm.
    apply (encrypt_stored_ok (λ _, True) m B km x ik s d); try done.
    intros c s' d'. by apply Hm.
  - split_and!; [done..|]. by left.
  - apply goes_account; [done|]. by left.
Qed.

Lemma encrypt_trusted {TL : XochimilcoTotalLaws X} mS mR pt wS wR :
  m_localDevice mR ≠ m_localDevice mS → ready mS mR wS wR →
  trusted_session (m_localDevice mR) (av (w_data wS)) →
  wpr (encrypt mS (JID (m_localDevice mR)) pt)
    (λ r _, ∃ msg errs key, r = (Some msg, errs, None) ∧
      own_key (ID (m_localDevice mR)) (Keys msg) = Some key) wS.
Proof.
  intros HB [[HqS HgS] _ (_ & x & s & Hx & Hs & _ & y & t & _ & _ & _ & Hl) HsS _] Htr.
  eapply encrypt_trusted_stored; [done..|by eapply linked_encrypts|].
  intros km c s' d' Hkm. by eapply linked_marshals.
Qed.

Lemma exchange_ready mS mR pt wS wR :
  m_localDevice mR ≠ m_localDevice mS → ready mS mR wS wR →
  let '(dl, wS', wR') := exchange mS mR pt wS wR in
  accounted pt (m_localDevice mR) dl ∧ ready mS mR wS' wR' ∧
  (XochimilcoTotalLaws X → mutual_trust mS mR wS wR →
    arrived pt dl ∧ mutual_trust mS mR wS' wR').
Proof.
  intros HB Hready. pose proof Hready as [[HqS HgS] [HqR HgR] Hin HsS HsR].
  pose proof (encrypt_settled mS (m_localDevice mR) pt wS HqS HgS HB HsS) as H1.
  pose proof (message_delivered mS mR _ _ (λ _, True) pt wS wR (unambiguous_addresses _ _) HB
    HqS HgS HqR HgR ltac:(by split) Logic.I (reach_session _ _ _ _ _ Hin)) as H2.
  pose proof (λ TL, encrypt_trusted (TL := TL) mS mR pt wS wR HB Hready) as H4.
  unfold exchange, EncryptMessage, mutual_trust in *. unfold wpr at 1 in H1.
  unfold wpr at 1 in H2. unfold wpr in H4.
  destruct (run (encrypt mS _ pt) wS) as [[[om errs] err] wS'| |]; [|done..].
  destruct H1 as (Hq' & Hg' & Hd' & Htr' & Hsender & Hnone). simpl in Hnone.
  pose proof (settled_devices _ _ _ _ Hd' HsS) as HsS'.
  destruct om as [msg|]; simpl.
  2: { destruct Hnone as [Hacc Hse]; [done|]. split_and!; [done| |].
       - split; try done. by eapply in_step_sessions.
       - intros TL [Ht _]. by destruct (H4 TL Ht) as (? & ? & ? & [=] & _). }
  destruct (own_key _ (Keys msg)) as [key|] eqn:Hkey; simpl.
  2: { destruct Hnone as [Hacc Hse]; [by intros ? [= <-]|]. split_and!; [done| |].
       - split; try done. by eapply in_step_sessions.
       - intros TL [Ht _]. destruct (H4 TL Ht) as (? & ? & key & [= <- _ _] & ?). congruence. }
  specialize (H2 (proj2 (proj2 HsS')) msg errs err key eq_refl Hkey).
  pose proof (DecryptMessage_spec mR msg key wR HqR HgR Hkey) as H3.
  unfold wpr in H2, H3. destruct (run (DecryptMessage mR msg) wR) as [r wR'| |]; [|done..].
  destruct H2 as (Hout & Hre & Hin'), H3 as (HqR' & HgR' & Hst & _).
  split_and!; [done| |].
  - split; try done. eapply settled_devices; [|exact HsR].
    by destruct (dec_keys _ _ _ _ Hst) as (?&?&?&?&?&?&?).
  - intros TL [HtS HtR]. split; [destruct Hout as (out & -> & Hsame); by exists out|].
    split; [by apply Htr'|]. rewrite (Hsender msg eq_refl) in Hst.
    destruct (in_step_session _ _ _ _ Hin) as [x Hx]. rewrite Hx in Hre.
    eapply trusted_session_decrypt; try done.
    by apply (in_step_session _ _ _ _ (in_step_sym _ _ _ _ Hin')).
Qed.

(** A whole conversation.  Two devices in step, which know each other's
    device lists, exchange any number of messages in any order of turns (a
    side may write several times in a row, and key transports may be among
    them).  Every message is accounted for: it is decrypted to exactly the
    text written, or the writer's [EncryptMessage] reported an error for that
    device.  No call blocks or panics, a message that could not be sent does
    not disturb the ones after it, and the devices are in step at the end.
    If moreover the random reader works and each side trusts the key it has
    recorded for the other, every message arrives. *)
Theorem conversation_delivered mA mB turns wA wB :
  m_localDevice mA ≠ m_localDevice mB → ready mA mB wA wB →
  let '(dls, wA', wB') := converse mA mB turns wA wB in
  Forall2 (accounted_turn mA mB) turns dls ∧ ready mA mB wA' wB' ∧
  (XochimilcoTotalLaws X → mutual_trust mA mB wA wB →
    Forall2 arrived_turn turns dls ∧ mutual_trust mA mB wA' wB').
Proof.
  intros HAB Hr.
  pose proof (converse_inv
    (λ mS mR wS wR, m_localDevice mS ≠ m_localDevice mR ∧ ready mS mR wS wR)
    (λ pt mR dl, accounted pt (m_localDevice mR) dl) mA mB turns wA wB) as H1.
  pose proof (converse_inv
    (λ mS mR wS wR, m_localDevice mS ≠ m_localDevice mR ∧ ready mS mR wS wR ∧
      mutual_trust mS mR wS wR)
    (λ pt _ dl, arrived pt dl) mA mB turns wA wB) as H2.
  destruct (converse mA mB turns wA wB) as [[dls wA'] wB'].
  destruct H1 as (Hacc & _ & Hr'); [| |done|].
  - intros mS mR wS wR [Hne H]. split; [done|by apply ready_sym].
  - intros mS mR pt wS wR [Hne H].
    pose proof (exchange_ready mS mR pt wS wR (not_eq_sym Hne) H).
    destruct (exchange mS mR pt wS wR) as [[dl wS'] wR']. naive_solver.
  - split_and!; [done..|]. intros TL Ht. destruct H2 as (Harr & _ & _ & Ht'); [| |done|done].
    + intros mS mR wS wR (Hne & H & [? ?]). split_and!; [done|by apply ready_sym|done].
    + intros mS mR pt wS wR (Hne & H & Hm).
      pose proof (exchange_ready mS mR pt wS wR (not_eq_sym Hne) H) as Hx.
      destruct (exchange mS mR pt wS wR) as [[dl wS'] wR'].
      destruct Hx as (_ & ? & Hx). by destruct (Hx TL Hm).
Qed.
End Conversation.
