(* ===== verification/Readmission.v ===== *)
(** * Blocking a device: what it stops, and what it does not

    manager.go checks the trust of the identity key that is recorded for a device
    each time it encrypts for it, and DecryptMessage records the key that an
    incoming key exchange claims.  So a blocked device stays out only as long as
    it sends no key exchange. *)
From S2P Require Import Prelude Types Errors StoreSpec Transport Xochimilco Prog.
From S2P Require Import ProgFacts StoreFacts Signal SessionLaws SignalFacts Manager LockFacts.
From S2P Require Import ManagerKeys ManagerEncrypt ManagerDecrypt Handshake EndToEnd Delivery.
From S2P Require Import FirstContact Conversation.

Section Readmission.
Context `{X : Xochimilco} {T : Transport} {ST : Store} {SC : StoreContract ST}
  {RS : ReliableStore ST}.
Context {CL : XochimilcoCodecLaws X} {SL : XochimilcoSessionLaws X}.
Context {TL : XochimilcoTotalLaws X}.
Implicit Types (d : data) (w : world) (m : Manager).

(** A device with a session and a blocked key gets no key. *)
Lemma encrypt_blocked m jid B ik pt w :
  quiet (w_lk w) → good (w_data w) → B ≠ m_localDevice m →
  JID B = jid ∨ JID B = JID (m_localDevice m) →
  is_Some (a_sessions (av (w_data w)) !! B) → a_remote (av (w_data w)) !! B = Some ik →
  trust_of (av (w_data w)) ik = TrustUntrusted →
  wpr (encrypt m jid pt)
    (λ r w', unambiguous_for m jid B (av (w_data w')) → ∀ msg errs err,
      r = (Some msg, errs, err) → own_key (ID B) (Keys msg) = None) w.
Proof.
  intros Hq Hg HB Hj Hs Hre Htr. eapply wpr_mono; [by apply encrypt_spec|].
  intros r w' (_ & _ & a1 & [Hdev _] & Hcase) Hun msg errs err ->.
  destruct Hcase as [(e & [=] & _)|(devs & os & Hrec & Hos & Hst & Hok & _ & Hr)].
  destruct Hr as [[_ [=]]|(msg' & _ & [= -> -> ->] & _ & -> & _)].
  apply own_key_None. intros k Hk Hid. apply elem_of_outcome_keys in Hk as [dev Hin].
  destruct (Hok _ _ Hin) as (Hlab & _ & ik' & Hre' & Htr').
  assert (dev ∈ os.*1) as Hd by (apply list_elem_of_fmap; by exists (dev, Ok k)).
  rewrite Hos in Hd. apply list_elem_of_filter in Hd as [Hne Hd].
  destruct (addr_id _ _ _ _ (unambiguous_for_addresses m jid B Hj) _ _ dev Hun Hrec Hd)
    as [->|?]; [congruence| |done].
  assert (a_sessions a1 = a_sessions (av (w_data w)) ∧ a_remote a1 = a_remote (av (w_data w)))
    as [Hs1 Hr1] by (by rewrite Hdev).
  destruct (enc_kept _ _ _ Hst B) as [_ Hkept]; [by rewrite Hs1|].
  rewrite Hkept, Hr1, Hre in Hre'. injection Hre' as <-.
  pose proof (devices_step_trust _ _ ik Hdev) as Ht1.
  destruct (enc_trust _ _ _ Hst ik) as [Heq|(_ & Hnu & _)]; [|congruence].
  rewrite Htr', Ht1, Htr in Heq. done.
Qed.

(** C40: a blocked device can have itself encrypted for again.  [m] and [mB] have
    sessions in step, and [m] has marked [mB]'s identity key [TrustUntrusted]: a
    message of [EncryptMessage] that would go to [mB] has no key for it.  Now let [mB]'s device send [m] any message whose key exchange merely
    claims to come from a key [m] trusts.  The ratchet rejects it, but
    [DecryptMessage] has already recorded the claimed key (manager.go, before the
    ratchet authenticates anything); [mB]'s own key is still blocked, and yet the
    next [EncryptMessage] makes a key for [mB] again, with the session the two had
    before, and [mB] reads the message. *)
Theorem blocked_device_readmitted m mB jid I ik tk claim key pt w wB :
  m_localDevice mB ≠ m_localDevice m →
  quiet (w_lk w) → good (w_data w) → quiet (w_lk wB) → good (w_data wB) →
  env_stable I m → I (d_env (w_data w)) →
  in_step m mB (av (w_data w)) (av (w_data wB)) →
  goes_to I m jid (m_localDevice mB) (av (w_data w)) →
  a_remote (av (w_data w)) !! m_localDevice mB = Some ik →
  trust_of (av (w_data w)) ik = TrustUntrusted →
  Sender claim = m_localDevice mB →
  own_key (ID (m_localDevice m)) (Keys claim) = Some key → claimed_key m key = Some tk →
  trust_of (av (w_data w)) tk = TrustTrusted →
  wpr (EncryptMessage m jid pt)
    (λ r w', unambiguous_for m jid (m_localDevice mB) (av (w_data w')) → ∀ msg errs err,
      r = (Some msg, errs, err) → own_key (ID (m_localDevice mB)) (Keys msg) = None) w ∧
  wpr (DecryptMessage m claim) (λ r1 w1, ∀ e, r1 = Err (Wrapf "ratchet decrypt" e) →
    trust_of (av (w_data w1)) ik = TrustUntrusted ∧
    wpr (EncryptMessage m jid pt)
      (λ r w2, unambiguous_for m jid (m_localDevice mB) (av (w_data w2)) →
        ∃ msg errs, r = (Some msg, errs, None) ∧
          wpr (DecryptMessage mB msg) (received m mB pt w2) wB) w1) w.
Proof.
  intros HB Hq Hg HqB HgB HI HIw Hin Hgo Hre Hblock Hsend Hkey Hclaim Htk. split.
  { apply (encrypt_blocked m jid (m_localDevice mB) ik); try done;
      [by eapply goes_to_account|]. by eapply in_step_session. }
  assert (is_Some (RK_KeyExchange key)) as Hkx.
  { unfold claimed_key in Hclaim. by destruct (RK_KeyExchange key). }
  eapply wpr_mono; [apply wpr_and; [by apply (DecryptMessage_spec m claim key)|
    by apply (DecryptMessage_env I)]|].
  intros r1 w1 [(Hq1 & Hg1 & Hst & Hr) HI1] e ->. destruct Hr as [_ Hr].
  destruct (Hr e eq_refl) as [Hse Hid]. destruct (Hid Hkx) as (tk' & Htk' & Hclaim').
  rewrite Hclaim in Hclaim'. injection Hclaim' as <-. rewrite Hsend in *.
  destruct (dec_keys _ _ _ _ Hst) as (_ & _ & _ & _ & _ & Ht & Hd).
  assert (∀ k, trust_of (av (w_data w1)) k = trust_of (av (w_data w)) k) as Htrust
    by (intros k; unfold trust_of; by rewrite Ht).
  split; [by rewrite Htrust|].
  eapply wpr_mono; [apply (encrypt_arrives m mB jid I tk pt w1 wB); try done|].
  - apply contact_session; [|done]. eapply in_step_sessions; [by rewrite Hse|done].
  - left. by rewrite Htrust.
  - by eapply goes_to_devices.
  - intros r w2 (msg & errs & key2 & -> & _ & Hdec) Hun. exists msg, errs. split; [done|].
    eapply wpr_mono; [by apply Hdec|]. by intros r' wB' [Hrec _].
Qed.
End Readmission.
