(* ===== verification/InFlight.v ===== *)
(** * Messages in flight: conversations without turns

    [Conversation] hands each message over before the next is written.  Here the
    two devices write whenever they like and read whenever they like; what has
    been written and not yet read travels in two queues, one in each direction,
    in order.  [channel] lifts the ratchets' relation of [XochimilcoChannelLaws] to
    sessions, [open_channel] to what the two stores and the two queues hold;
    reading and writing, on either side, keep it. *)
From S2P Require Import Prelude Types Errors StoreSpec Transport Xochimilco Prog.
From S2P Require Import ProgFacts StoreFacts Signal SessionLaws SignalFacts Manager LockFacts.
From S2P Require Import ManagerKeys ManagerEncrypt ManagerDecrypt Handshake EndToEnd Delivery.
From S2P Require Import Conversation.

(** ** The run *)

(** A message on its way, with the text it was made from. *)
Record flight := MkFlight { fl_text : gobytes; fl_msg : EncryptedMessage }.

(** Somebody writes [pt], or somebody reads the oldest message sent to them;
    [ev_back]: the message travels from the second device to the first. *)
Inductive action := Write (pt : gobytes) | Read.
Record event := MkEvent { ev_back : bool; ev_action : action }.

Inductive report :=
  | Sent                                       (* on its way *)
  | Refused (errs : list DeviceError) (err : option error)   (* no key for the peer *)
  | Got (pt : gobytes) (r : result gobytes)    (* DecryptMessage's answer to [pt] *)
  | Nothing                                    (* no message to read *)
  | Halted.

Section InFlight.
Context `{X : Xochimilco} {T : Transport} {ST : Store}.
Implicit Types (w : world) (m : Manager) (s t : Session).

(** The two devices' worlds, and what is on its way from the first to the
    second and back, the oldest first. *)
Record talk := MkTalk { tk_A : world; tk_B : world; tk_AB : list flight; tk_BA : list flight }.

Definition turned (k : talk) : talk := MkTalk (tk_B k) (tk_A k) (tk_BA k) (tk_AB k).
Definition orient (back : bool) (k : talk) : talk := if back then turned k else k.

(** From the first device to the second. *)
Definition act mA mB (x : action) (k : talk) : report * talk :=
  match x with
  | Write pt =>
      match run (EncryptMessage mA (JID (m_localDevice mB)) pt) (tk_A k) with
      | Done (om, errs, err) w =>
          match om with
          | None => (Refused errs err, MkTalk w (tk_B k) (tk_AB k) (tk_BA k))
          | Some msg =>
              match own_key (ID (m_localDevice mB)) (Keys msg) with
              | None => (Refused errs err, MkTalk w (tk_B k) (tk_AB k) (tk_BA k))
              | Some _ => (Sent, MkTalk w (tk_B k) (tk_AB k ++ [MkFlight pt msg]) (tk_BA k))
              end
          end
      | _ => (Halted, k)
      end
  | Read =>
      match tk_AB k with
      | [] => (Nothing, k)
      | f :: ab =>
          match run (DecryptMessage mB (fl_msg f)) (tk_B k) with
          | Done r w => (Got (fl_text f) r, MkTalk (tk_A k) w ab (tk_BA k))
          | _ => (Halted, k)
          end
      end
  end.

Fixpoint happen mA mB (events : list event) (k : talk) : list report * talk :=
  match events with
  | [] => ([], k)
  | e :: events =>
      let b := ev_back e in
      let '(r, k) := act (if b then mB else mA) (if b then mA else mB) (ev_action e)
        (orient b k) in
      let k := orient b k in
      let '(rs, k) := happen mA mB events k in
      (r :: rs, k)
  end.

(** What an event sends, and what it takes out of a queue, in one direction. *)
Definition sent_text (back : bool) (e : event) (r : report) : list gobytes :=
  match e, r with
  | MkEvent b (Write pt), Sent => if decide (b = back) then [pt] else []
  | _, _ => []
  end.
Definition read_text (back : bool) (e : event) (r : report) : list gobytes :=
  match e, r with
  | MkEvent b Read, Got pt _ => if decide (b = back) then [pt] else []
  | _, _ => []
  end.
Definition sent_texts back (events : list event) (rs : list report) : list gobytes :=
  concat (zip_with (sent_text back) events rs).
Definition read_texts back (events : list event) (rs : list report) : list gobytes :=
  concat (zip_with (read_text back) events rs).
Definition waiting (back : bool) (k : talk) : list gobytes :=
  map fl_text (if back then tk_BA k else tk_AB k).

(** ** What is expected of each event *)

(** A message read is the text written; a writer whose message is not sent is
    told so. *)
Definition proper (peer : Device) (x : action) (r : report) : Prop :=
  match x, r with
  | Write _, Sent => True
  | Write _, Refused errs err => is_Some err ∨ ∃ e, MkDeviceError peer e ∈ errs
  | Read, Got pt q => ∃ out, q = Ok out ∧ same_text pt out
  | Read, Nothing => True
  | _, _ => False
  end.
Definition proper_event mA mB (e : event) (r : report) : Prop :=
  proper (m_localDevice (if ev_back e then mA else mB)) (ev_action e) r.

(** Nothing is refused. *)
Definition taken (r : report) : Prop := match r with Refused _ _ => False | _ => True end.

(** ** Sessions with messages in flight *)
Context {SC : StoreContract ST} {RS : ReliableStore ST}.
Context {CL : XochimilcoCodecLaws X} {SL : XochimilcoSessionLaws X}.
Context {CH : XochimilcoChannelLaws X}.

Inductive channel : Session → Session → in_flight → in_flight → Prop :=
  | channel_V1 a b ab ba : ls_channel a b ab ba →
      channel (MkSession ProtocolV1 None (Some a) None)
        (MkSession ProtocolV1 None (Some b) None) ab ba
  | channel_V2 a b ab ba : dr_channel a b ab ba →
      channel (MkSession ProtocolV2 (Some a) None None)
        (MkSession ProtocolV2 (Some b) None None) ab ba.

Lemma channel_sym s t ab ba : channel s t ab ba → channel t s ba ab.
Proof. intros []; constructor; [by apply ls_channel_sym|by apply dr_channel_sym]. Qed.

Lemma channel_idle s t : channel s t [] [] ↔ linked s t.
Proof.
  split; intros H; inversion H; subst; constructor;
    [by apply ls_channel_idle|by apply dr_channel_idle..|by apply ls_channel_idle|
     by apply dr_channel_idle].
Qed.

Lemma channel_storable p t ab ba : storable p (λ s, channel s t ab ba).
Proof.
  intros s [a b ab' ba' H|a b ab' ba' H];
    [apply ls_channel_marshals in H|apply dr_channel_marshals in H];
    unfold Session_Marshal, has_protocol, LoadSession; simpl.
  - destruct (ls_MarshalBinary a) as [y|] eqn:Hy; [|done]. exists y. split; [done|].
    intros ->. by rewrite (ls_unmarshal_marshal _ _ Hy).
  - destruct (dr_MarshalBinary a) as [y|] eqn:Hy; [|done]. exists y. split; [done|].
    intros ->. by rewrite (dr_unmarshal_marshal _ _ Hy).
Qed.

Lemma channel_send s t ab ba km c s' d :
  channel s t ab ba → 0 < go_len km → (eval (Session_Encrypt s km) d).1 = (Ok c, s') →
  channel s' t (ab ++ [(km, c)]) ba ∧ s_protocol s' = s_protocol s.
Proof.
  intros [a b ab' ba' H|a b ab' ba' H] Hkm; unfold Session_Encrypt; simpl.
  - destruct (ls_EncryptWhisperMessage a km (d_rng d)) as [[r a'] g] eqn:He.
    intros [= -> <-]. split; [constructor|done].
    eapply ls_channel_send; [done..|]. by rewrite He.
  - destruct (dr_Encrypt a km (d_rng d)) as [[r a'] g] eqn:He.
    intros [= -> <-]. split; [constructor|done].
    eapply dr_channel_send; [done..|]. by rewrite He.
Qed.

Lemma channel_receive s t km c ab ba :
  channel s t ((km, c) :: ab) ba → opens_as t c km (λ t', channel s t' ab ba).
Proof.
  intros H d. unfold Session_Decrypt. inversion H as [a b ab' ba' Hc|a b ab' ba' Hc]; subst; simpl.
  - destruct (ls_channel_receive _ _ _ _ _ _ (d_rng d) Hc) as (b' & Hd & Hc').
    destruct (ls_DecryptWhisperMessage b c (d_rng d)) as [q g]. simpl in *. subst q.
    eexists. split_and!; [done|by constructor|done].
  - destruct (dr_channel_receive _ _ _ _ _ _ (d_rng d) Hc) as (b' & Hd & Hc').
    destruct (dr_Decrypt b c (d_rng d)) as [q g]. simpl in *. subst q.
    eexists. split_and!; [done|by constructor|done].
Qed.

(** ** The two stores and the two queues *)

(** The message [f] from [A] has a key for [B], the ratchet data and the key
    material of which are [x]. *)
Definition carried (p : Protocol) (A B : Device) (f : flight) (x : gobytes * gobytes) : Prop :=
  Sender (fl_msg f) = A ∧ carries p x.1 (fl_text f) (fl_msg f) ∧
  ∃ key, own_key (ID B) (Keys (fl_msg f)) = Some key ∧
    RK_KeyExchange key = None ∧ RK_Data key = x.2.

Definition open_channel mA mB (aA aB : astore) (ab ba : list flight) : Prop :=
  m_protocol mB = m_protocol mA ∧
  ∃ xab xba, Forall2 (carried (m_protocol mA) (m_localDevice mA) (m_localDevice mB)) ab xab ∧
    Forall2 (carried (m_protocol mA) (m_localDevice mB) (m_localDevice mA)) ba xba ∧
    stored (m_protocol mA) (λ s,
      stored (m_protocol mA) (λ t, channel s t xab xba) (m_localDevice mA) aB)
      (m_localDevice mB) aA.

Lemma open_channel_sym mA mB aA aB ab ba :
  open_channel mA mB aA aB ab ba → open_channel mB mA aB aA ba ab.
Proof.
  intros (Hp & xab & xba & Hab & Hba & x & s & Hx & Hs & Hps & y & t & Hy & Ht & Hpt & Hc).
  split; [done|]. rewrite Hp. exists xba, xab. split_and!; [done..|].
  exists y, t. split_and!; [done..|]. exists x, s. split_and!; [done..|]. by apply channel_sym.
Qed.

(** With nothing in flight, the devices are in step. *)
Lemma open_channel_idle mA mB aA aB :
  open_channel mA mB aA aB [] [] ↔ in_step mA mB aA aB.
Proof.
  split.
  - intros (Hp & xab & xba & ->%Forall2_nil_inv_l & ->%Forall2_nil_inv_l &
      x & s & Hx & Hs & Hps & y & t & Hy & Ht & Hpt & Hc).
    split; [done|]. exists x, s. split_and!; [done..|]. exists y, t.
    split_and!; [done..|]. by apply channel_idle.
  - intros (Hp & x & s & Hx & Hs & Hps & y & t & Hy & Ht & Hpt & Hl).
    split; [done|]. exists [], []. split_and!; [done..|]. exists x, s. split_and!; [done..|].
    exists y, t. split_and!; [done..|]. by apply channel_idle.
Qed.

(** Everything an event needs and keeps. *)
Record talking mA mB (k : talk) : Prop := {
  tg_A : quiet (w_lk (tk_A k)) ∧ good (w_data (tk_A k));
  tg_B : quiet (w_lk (tk_B k)) ∧ good (w_data (tk_B k));
  tg_open : open_channel mA mB (av (w_data (tk_A k))) (av (w_data (tk_B k))) (tk_AB k) (tk_BA k);
  tg_Asettled : settled mA (m_localDevice mB) (av (w_data (tk_A k)));
  tg_Bsettled : settled mB (m_localDevice mA) (av (w_data (tk_B k))) }.

Lemma talking_turned mA mB k : talking mA mB k → talking mB mA (turned k).
Proof. intros []. split; try done. by apply open_channel_sym. Qed.

Lemma talking_idle mA mB wA wB : talking mA mB (MkTalk wA wB [] []) ↔ ready mA mB wA wB.
Proof.
  split; intros []; split; simpl in *; try done; by apply open_channel_idle.
Qed.

(** ** Writing *)

(** The session stored at [mA] for [B] and the one stored at [B] (store [aB]) for
    [mA], with this in flight. *)
Definition channelled mA (B : Device) (aA aB : astore) (xab xba : in_flight) : Prop :=
  stored (m_protocol mA) (λ s,
    stored (m_protocol mA) (λ t, channel s t xab xba) (m_localDevice mA) aB) B aA.

Lemma encrypt_channelled mA B pt aB xab xba w :
  quiet (w_lk w) → good (w_data w) → B ≠ m_localDevice mA →
  channelled mA B (av (w_data w)) aB xab xba →
  wpr (encrypt mA (JID B) pt)
    (λ r w', unambiguous mA B (av (w_data w')) → ∀ msg errs err key,
      r = (Some msg, errs, err) → own_key (ID B) (Keys msg) = Some key →
      ∃ x, carried (m_protocol mA) (m_localDevice mA) B (MkFlight pt msg) x ∧
        channelled mA B (av (w_data w')) aB (xab ++ [x]) xba) w.
Proof.
  intros Hq Hg HB (x & s & Hx & Hs & Hps & y & t & Hy & Ht & Hpt & Hc).
  eapply wpr_mono; [apply (encrypt_key mA (JID B) B (Some x) (λ _, True) (unambiguous mA B)
    (λ km key x', RK_KeyExchange key = None ∧ ∃ s', LoadSession (m_protocol mA) x' = Ok s' ∧
      has_protocol (m_protocol mA) s' ∧ channel s' t (xab ++ [(km, RK_Data key)]) xba));
    try done; [apply unambiguous_addresses|]|].
  - intros km d Hgd Hse Hkm _. apply (encrypt_stored mA B km x s); [done..|].
    intros c s' d' Henc y' Hy'. split; [done|].
    destruct (channel_send _ _ _ _ _ _ _ _ Hc Hkm Henc) as [Hc' Hp'].
    destruct (channel_storable (m_protocol mA) _ _ _ _ Hc') as (y'' & Hy'' & Hload).
    rewrite Hy' in Hy''. injection Hy'' as <-.
    assert (has_protocol (m_protocol mA) s') as Hps' by (unfold has_protocol; by rewrite Hp').
    exists s'. split_and!; [by apply Hload|done..].
  - intros r w' Hkey Hun msg errs err key -> Hown.
    destruct (Hkey Hun _ _ _ _ eq_refl Hown)
      as (Hsender & km & x' & Hcar & Hx' & Hkx & s' & Hs' & Hps' & Hc').
    exists (km, RK_Data key). split; [split_and!; [done..|by exists key]|].
    exists x', s'. split_and!; [done..|]. by exists y, t.
Qed.

(** The queues after an event, from its report. *)
Definition moved (x : action) (r : report) (k k' : talk) : Prop :=
  tk_BA k' = tk_BA k ∧
  match x, r with
  | Write pt, Sent => map fl_text (tk_AB k') = map fl_text (tk_AB k) ++ [pt]
  | Read, Got pt _ => map fl_text (tk_AB k) = pt :: map fl_text (tk_AB k')
  | _, _ => tk_AB k' = tk_AB k
  end.

Lemma channelled_open mA mB aA aB ab ba xab xba :
  m_protocol mB = m_protocol mA →
  Forall2 (carried (m_protocol mA) (m_localDevice mA) (m_localDevice mB)) ab xab →
  Forall2 (carried (m_protocol mA) (m_localDevice mB) (m_localDevice mA)) ba xba →
  channelled mA (m_localDevice mB) aA aB xab xba → open_channel mA mB aA aB ab ba.
Proof. intros Hp Hab Hba Hc. split; [done|]. by exists xab, xba. Qed.

Lemma channelled_sessions mA B aA aA' aB xab xba :
  a_sessions aA' !! B = a_sessions aA !! B →
  channelled mA B aA aB xab xba → channelled mA B aA' aB xab xba.
Proof. intros Hs (x & s & Hx & H). exists x, s. by rewrite Hs. Qed.

Lemma write_talking mA mB pt k :
  m_localDevice mB ≠ m_localDevice mA → talking mA mB k →
  let '(r, k') := act mA mB (Write pt) k in
  proper (m_localDevice mB) (Write pt) r ∧ talking mA mB k' ∧ moved (Write pt) r k k' ∧
  (∀ dev, trusted_session dev (av (w_data (tk_A k))) →
    trusted_session dev (av (w_data (tk_A k')))) ∧ tk_B k' = tk_B k.
Proof.
  intros HB [[HqA HgA] HokB (Hp & xab & xba & Hab & Hba & Hc) HsA HsB].
  pose proof (encrypt_settled mA (m_localDevice mB) pt _ HqA HgA HB HsA) as H1.
  pose proof (encrypt_channelled mA (m_localDevice mB) pt _ _ _ _ HqA HgA HB Hc) as H2.
  unfold act, EncryptMessage. unfold wpr at 1 in H1. unfold wpr at 1 in H2.
  destruct (run (encrypt mA _ pt) (tk_A k)) as [[[om errs] err] w'| |]; [|done..].
  destruct H1 as (Hq' & Hg' & Hd' & Htr' & Hsender & Hnone). simpl in Hnone.
  pose proof (settled_devices _ _ _ _ Hd' HsA) as HsA'.
  assert ((∀ msg, om = Some msg → own_key (ID (m_localDevice mB)) (Keys msg) = None) →
    (is_Some err ∨ ∃ e, MkDeviceError (m_localDevice mB) e ∈ errs) ∧
    talking mA mB (MkTalk w' (tk_B k) (tk_AB k) (tk_BA k))) as Hfail.
  { intros Hno. destruct (Hnone Hno) as [Hacc Hse]. split; [done|]. split; try done. simpl.
    eapply channelled_open; [done..|]. by eapply channelled_sessions. }
  destruct om as [msg|]; simpl.
  2: { destruct Hfail as [Hacc Ht]; [done|]. by split_and!. }
  destruct (own_key (ID (m_localDevice mB)) (Keys msg)) as [key|] eqn:Hkey; simpl.
  2: { destruct Hfail as [Hacc Ht]; [by intros ? [= <-]|]. by split_and!. }
  destruct (H2 (proj2 (proj2 HsA')) msg errs err key eq_refl Hkey) as (x & Hx & Hc').
  split_and!; [done| |split; [done|]; simpl; by rewrite map_app|done..].
  split; try done. simpl.
  eapply channelled_open; [done| |done|exact Hc']. apply Forall2_app; [done|].
  by apply Forall2_cons.
Qed.

(** ** Reading *)
Lemma read_talking mA mB k :
  m_localDevice mB ≠ m_localDevice mA → talking mA mB k →
  let '(r, k') := act mA mB Read k in
  proper (m_localDevice mB) Read r ∧ talking mA mB k' ∧ moved Read r k k' ∧
  (trusted_session (m_localDevice mA) (av (w_data (tk_B k))) →
    trusted_session (m_localDevice mA) (av (w_data (tk_B k')))) ∧ tk_A k' = tk_A k.
Proof.
  intros HB Htg. pose proof Htg as [HokA [HqB HgB]
    (Hp & xab & xba & Hab & Hba & x & s & Hx & Hs & Hps & y & t & Hy & Ht & Hpt & Hc) HsA HsB].
  unfold act. destruct (tk_AB k) as [|f ab] eqn:Hq; [split_and!; try done|].
  apply Forall2_cons_inv_l in Hab as ([km c] & xab' & Hf & Hab & ->).
  destruct Hf as (Hsender & Hcar & key & Hkey & Hkx & Hdata). simpl in Hcar, Hdata. subst c.
  rewrite <-Hp in Hcar, Ht, Hpt.
  assert (wpr (DecryptMessage mB (fl_msg f))
    (λ r w', (∃ out, r = Ok out ∧ same_text (fl_text f) out) ∧
      a_remote (av (w_data w')) !! m_localDevice mA =
        a_remote (av (w_data (tk_B k))) !! m_localDevice mA ∧
      stored (m_protocol mB) (λ t', channel s t' xab' xba) (m_localDevice mA)
        (av (w_data w'))) (tk_B k)) as H1.
  { eapply DecryptMessage_run; [done..|]. rewrite <-Hsender in Hy |- *.
    eapply wp_mono; [eapply (decrypt_next _ _ _ _ _ _ (λ t', channel s t' xab' xba)); try done|].
    - intros t' Hc'. apply channel_sym in Hc'. by eapply channel_storable.
    - exists t. split_and!; [done..|]. by apply channel_receive.
    - by intros r d' H lk' _. }
  pose proof (DecryptMessage_spec mB (fl_msg f) key (tk_B k) HqB HgB Hkey) as H2.
  unfold wpr in H1, H2.
  destruct (run (DecryptMessage mB (fl_msg f)) (tk_B k)) as [r w'| |]; [|done..].
  destruct H1 as (Hout & Hre & Hst'), H2 as (Hq' & Hg' & Hst & _).
  rewrite Hp in Hst'. rewrite Hsender in Hst.
  split_and!; [done| |split; [done|]; simpl; by rewrite Hq| |done].
  - split; try done; simpl.
    + split; [done|]. exists xab', xba. split_and!; [done..|]. by exists x, s.
    + eapply settled_devices; [|exact HsB].
      by destruct (dec_keys _ _ _ _ Hst) as (?&?&?&?&?&?&?).
  - intros Htr. simpl. destruct Hst' as (y' & t' & Hy' & _).
    by eapply trusted_session_decrypt.
Qed.

(** ** The theorem *)

Definition mutual (mA mB : Manager) (k : talk) : Prop := mutual_trust mA mB (tk_A k) (tk_B k).

Lemma write_taken {TL : XochimilcoTotalLaws X} {CT : XochimilcoChannelTotalLaws X} mA mB pt k :
  m_localDevice mB ≠ m_localDevice mA → talking mA mB k → mutual mA mB k →
  taken (act mA mB (Write pt) k).1.
Proof.
  intros HB [[HqA HgA] _ (_ & xab & xba & _ & _ & x & s & Hx & Hs & _ & y & t & _ & _ & _ & Hc)
    HsA _] [Htr _].
  pose proof (encrypt_trusted_stored mA (m_localDevice mB) x s pt _ HqA HgA HB HsA Htr Hx Hs)
    as H. unfold act, EncryptMessage. unfold wpr in H.
  destruct (run (encrypt mA _ pt) (tk_A k)) as [[[om errs] err] w'| |]; [|done..].
  destruct H as (msg & errs' & key & [= -> _ _] & Hkey).
  - inversion Hc as [a b ab ba Hc'|a b ab ba Hc']; subst; intros km d Hkm;
      unfold Session_Encrypt; simpl.
    + pose proof (ls_channel_encrypts _ _ _ _ km (d_rng d) Hc' Hkm) as Hok.
      by destruct (ls_EncryptWhisperMessage a km (d_rng d)) as [[r a'] g].
    + pose proof (dr_channel_encrypts _ _ _ _ km (d_rng d) Hc' Hkm) as Hok.
      by destruct (dr_Encrypt a km (d_rng d)) as [[r a'] g].
  - intros km c s' d' Hkm Henc. destruct (channel_send _ _ _ _ _ _ _ _ Hc Hkm Henc) as [Hc2 _].
    by destruct (channel_storable (m_protocol mA) _ _ _ _ Hc2) as (y' & -> & _).
  - simpl. by rewrite Hkey.
Qed.

(** Every event, in its own direction. *)
Lemma act_talking mA mB x k :
  m_localDevice mB ≠ m_localDevice mA → talking mA mB k →
  let '(r, k') := act mA mB x k in
  proper (m_localDevice mB) x r ∧ talking mA mB k' ∧ moved x r k k' ∧
  (XochimilcoTotalLaws X → XochimilcoChannelTotalLaws X → mutual mA mB k →
    taken r ∧ mutual mA mB k').
Proof.
  intros HB Htg. destruct x as [pt|].
  - pose proof (write_talking mA mB pt k HB Htg) as H.
    pose proof (λ TL CT, write_taken (TL := TL) (CT := CT) mA mB pt k HB Htg) as Hs.
    destruct (act mA mB (Write pt) k) as [r k']. destruct H as (H1 & H2 & H3 & Htr & HkB).
    split_and!; [done..|]. intros TL CT Hm. split; [by apply Hs|]. destruct Hm as [HtA HtB].
    split; [by apply Htr|by rewrite HkB].
  - pose proof (read_talking mA mB k HB Htg) as H.
    destruct (act mA mB Read k) as [r k']. destruct H as (H1 & H2 & H3 & Htr & HkA).
    split_and!; [done..|]. intros TL CT [HtA HtB]. split; [by destruct r|].
    split; [by rewrite HkA|by apply Htr].
Qed.

Lemma moved_waiting c b x r k k' :
  moved x r (orient c k) (orient c k') →
  waiting b k ++ sent_text b (MkEvent c x) r = read_text b (MkEvent c x) r ++ waiting b k'.
Proof.
  intros [Hother H]. unfold waiting, sent_text, read_text.
  destruct b, c; simpl in *; rewrite ?Hother; destruct x as [pt|], r; simpl in *;
    rewrite ?H, ?app_nil_r; done.
Qed.

Lemma talking_orient (back : bool) mA mB k :
  talking mA mB k ↔
  talking (if back then mB else mA) (if back then mA else mB) (orient back k).
Proof.
  destruct back; [|done]. split; [apply talking_turned|].
  intros H%talking_turned. by destruct k.
Qed.

Lemma mutual_orient (back : bool) mA mB k :
  mutual mA mB k ↔
  mutual (if back then mB else mA) (if back then mA else mB) (orient back k).
Proof. destruct back; [|done]. unfold mutual, mutual_trust. simpl. naive_solver. Qed.

Lemma happen_talking mA mB events k :
  m_localDevice mA ≠ m_localDevice mB → talking mA mB k →
  let '(rs, k') := happen mA mB events k in
  Forall2 (proper_event mA mB) events rs ∧ talking mA mB k' ∧
  (∀ b, waiting b k ++ sent_texts b events rs = read_texts b events rs ++ waiting b k') ∧
  (XochimilcoTotalLaws X → XochimilcoChannelTotalLaws X → mutual mA mB k →
    Forall taken rs ∧ mutual mA mB k').
Proof.
  intros HAB. revert k. induction events as [|[b x] events IH]; intros k Htg; simpl.
  { split_and!; [done..| |done]. intros b. by rewrite app_nil_r. }
  apply (talking_orient b) in Htg.
  pose proof (act_talking (if b then mB else mA) (if b then mA else mB) x (orient b k)) as H.
  destruct (act _ _ x (orient b k)) as [r k1].
  destruct H as (Hok & Htg1 & Hmv & Hlive); [by destruct b|done|].
  assert (orient b (orient b k1) = k1) as Hinv by (by destruct b, k1).
  rewrite <-Hinv in Htg1, Hmv. apply talking_orient in Htg1. specialize (IH _ Htg1).
  destruct (happen mA mB events (orient b k1)) as [rs k'].
  destruct IH as (Hoks & Htg' & Htexts & Hlives). split_and!; [|done| |].
  - constructor; [|done]. unfold proper_event. simpl. by destruct b.
  - intros c. pose proof (moved_waiting b c x r k (orient b k1) Hmv) as H1.
    specialize (Htexts c). unfold sent_texts, read_texts in *. cbn [zip_with concat].
    rewrite app_assoc, H1, <-!app_assoc. by f_equal.
  - intros TL CT Hm. apply (mutual_orient b) in Hm.
    destruct (Hlive TL CT Hm) as [Ht Hm1]. rewrite <-Hinv in Hm1. apply mutual_orient in Hm1.
    destruct (Hlives TL CT Hm1). split; [by constructor|done].
Qed.

(** C6: conversations without turns.  Two devices in step, which know each
    other's device lists, write and read in any order whatever: both may
    write at the same time, and any number of messages may be on their way in
    both directions.  Then no call blocks or panics; every message that is read
    is decrypted to exactly the text it was made from; in each direction the
    texts read, followed by those still on their way, are the texts sent, in
    order; a message that is not sent is reported to its writer and disturbs
    nothing; and whenever nothing is on its way the devices are in step.  If
    moreover the random reader works and each side trusts the key it has
    recorded for the other, every message written is sent. *)
Theorem interleaved_conversation mA mB events wA wB :
  m_localDevice mA ≠ m_localDevice mB → ready mA mB wA wB →
  let '(rs, k) := happen mA mB events (MkTalk wA wB [] []) in
  Forall2 (proper_event mA mB) events rs ∧
  (∀ b, sent_texts b events rs = read_texts b events rs ++ waiting b k) ∧
  (tk_AB k = [] → tk_BA k = [] → ready mA mB (tk_A k) (tk_B k)) ∧
  (XochimilcoTotalLaws X → XochimilcoChannelTotalLaws X → mutual_trust mA mB wA wB →
    Forall taken rs).
Proof.
  intros HAB Hr%talking_idle.
  pose proof (happen_talking mA mB events _ HAB Hr) as H.
  destruct (happen _ _ _ _) as [rs k]. destruct H as (Hok & Htg & Htexts & Hlive).
  split_and!; [done| | |].
  - intros b. rewrite <-Htexts. by destruct b.
  - intros Hab Hba. apply talking_idle. destruct k. simpl in *. by subst.
  - intros TL CT Hm. by destruct (Hlive TL CT Hm).
Qed.
End InFlight.
