(* ===== verification/LockProtocol.v ===== *)
(** * The locking protocol of the Manager

    [follows] is a weakest precondition for the locking protocol, in terms of
    the [phase] a goroutine is in; every API call ([call_prog]), and so every
    sequence of calls ([goroutine]), follows the protocol.  [AllOps] says which
    store calls a lock-free program makes; it is found by case analysis on the
    program ([solve_ops]). *)
From S2P Require Import Prelude Types Errors StoreSpec Transport Xochimilco Prog.
From S2P Require Import Signal Manager.

(** ** The protocol *)

(** Where a goroutine is, and what it knows about the [locks] map there. *)
Inductive phase :=
  | Idle                                (* holds nothing *)
  | MapMu                               (* holds locksMu *)
  | MapMiss (dev : Device)              (* ... and saw that dev has no entry *)
  | MapNew (dev : Device) (m : mutex)   (* ... and allocated m for it *)
  | MapHit (dev : Device) (m : mutex)   (* ... and the entry of dev is m *)
  | Known (dev : Device) (m : mutex)    (* holds nothing; the entry of dev is m *)
  | Inside (dev : Device) (m : mutex).  (* holds m, the entry of dev *)

(** The mutex a phase holds. *)
Definition holds (ph : phase) : option mutex :=
  match ph with
  | Idle | Known _ _ => None
  | MapMu | MapMiss _ | MapNew _ _ | MapHit _ _ => Some LocksMu
  | Inside _ m => Some m
  end.

(** The device whose session state a store call reads or writes. *)
Definition session_device {R} (op : storeE R) : option Device :=
  match op with
  | OpSession dev | OpPutSession dev _ | OpDeleteSession dev
  | OpRemoteIdentityKey dev | OpPutRemoteIdentityKey dev _ => Some dev
  | _ => None
  end.

Section Protocol.
Context `{GC : GoCrypto} {T : Transport}.

(** Session state of [dev] only inside the lock of [dev]; no calls at all
    while [locksMu] is held. *)
Definition base_allowed {R} (ph : phase) (e : baseE R) : Prop :=
  match ph with
  | Idle => if e is EStore op then session_device op = None else True
  | Inside dev _ =>
      if e is EStore op then
        session_device op = None ∨ session_device op = Some dev
      else True
  | _ => False
  end.

(** What a phase may do next, and the phase after each answer. *)
Definition allowed {R} (e : eff R) (ph : phase) (F : R → phase → Prop) : Prop :=
  match e in eff R return (R → phase → Prop) → Prop with
  | EBase e => λ F, base_allowed ph e ∧ ∀ r, F r ph
  | ELock m => λ F,
      match ph with
      | Idle => m = LocksMu ∧ F tt MapMu
      | Known dev m' => m = m' ∧ F tt (Inside dev m)
      | _ => False
      end
  | EUnlock m => λ F,
      match ph with
      | MapHit dev m' => m = LocksMu ∧ F tt (Known dev m')
      | Inside _ m' => m = m' ∧ F tt Idle
      | _ => False
      end
  | ELocksGet dev => λ F,
      ph = MapMu ∧ F None (MapMiss dev) ∧ ∀ m, F (Some m) (MapHit dev m)
  | ENewMutex => λ F, ∃ dev, ph = MapMiss dev ∧ ∀ m, F m (MapNew dev m)
  | ELocksSet dev m => λ F, ph = MapNew dev m ∧ F tt (MapHit dev m)
  | EPanic _ => λ _, False
  end F.

Fixpoint follows {A} (p : prog eff A) (ph : phase) (Q : A → phase → Prop) : Prop :=
  match p with
  | Ret a => Q a ph
  | Vis e k => allowed e ph (λ r ph', follows (k r) ph' Q)
  end.

Lemma allowed_mono {R} (e : eff R) ph (F G : R → phase → Prop) :
  (∀ r ph', F r ph' → G r ph') → allowed e ph F → allowed e ph G.
Proof. intros HFG. destruct e, ph; simpl; naive_solver. Qed.

Lemma follows_mono {A} (p : prog eff A) ph (P Q : A → phase → Prop) :
  (∀ a ph', P a ph' → Q a ph') → follows p ph P → follows p ph Q.
Proof.
  intros HPQ. revert ph. induction p as [a|R e k IH]; intros ph; simpl; [apply HPQ|].
  apply allowed_mono. intros r ph'. apply IH.
Qed.

Lemma follows_bind {A B} (p : prog eff A) (f : A → prog eff B) ph Q :
  follows p ph (λ a ph', follows (f a) ph' Q) → follows (p ≫= f) ph Q.
Proof.
  revert ph. induction p as [a|R e k IH]; intros ph; simpl; [done|].
  apply allowed_mono. intros r ph'. apply IH.
Qed.

(** ** Lock-free programs, by the store calls they make *)
Fixpoint all_ops {A} (P : ∀ R, storeE R → Prop) (p : prog baseE A) : Prop :=
  match p with
  | Ret _ => True
  | Vis e k => (if e is EStore op then P _ op else True) ∧ ∀ r, all_ops P (k r)
  end.

Class AllOps {A} (P : ∀ R, storeE R → Prop) (p : prog baseE A) : Prop :=
  all_ops_ok : all_ops P p.

#[global] Instance ops_ret {A} P (a : A) : AllOps P (mret a).
Proof. done. Qed.
#[global] Instance ops_pure {A} P (a : A) : AllOps P (pure a).
Proof. done. Qed.
#[global] Instance ops_crypto {R} P (f : rng → R * rng) : AllOps P (crypto f).
Proof. by repeat split. Qed.
#[global] Instance ops_net {R} P (op : transportE R) : AllOps P (net op).
Proof. by repeat split. Qed.
#[global] Instance ops_resolve P f dev key : AllOps P (trigger (EResolve f dev key)).
Proof. by repeat split. Qed.
#[global] Instance ops_bind {A B} P (p : prog baseE A) (f : A → prog baseE B) :
  AllOps P p → (∀ a, AllOps P (f a)) → AllOps P (p ≫= f).
Proof.
  unfold AllOps. intros Hp Hf. induction p as [a|R e k IH]; [apply Hf|].
  destruct Hp as [He Hk]. split; [done|]. intros r. by apply IH.
Qed.
#[global] Instance ops_try {A B} P f (p : prog baseE (result A))
    (k : A → prog baseE (result B)) :
  AllOps P p → (∀ a, AllOps P (k a)) → AllOps P (try f p k).
Proof. intros Hp Hk. apply ops_bind; [done|]. intros [a|e]; [apply Hk|apply ops_ret]. Qed.
Lemma ops_ask {R} P (op : storeE R) : P R op → AllOps P (ask op).
Proof. by repeat split. Qed.
Lemma ops_mono {A} (P P' : ∀ R, storeE R → Prop) (p : prog baseE A) :
  (∀ R op, P R op → P' R op) → AllOps P p → AllOps P' p.
Proof.
  unfold AllOps. intros HP. induction p as [a|R e k IH]; [done|]. intros [He Hk].
  split; [destruct e; auto|]. intros r. by apply IH.
Qed.

(** The store calls that add one-time prekeys. *)
Definition adds_prekeys {R} (op : storeE R) : bool :=
  match op with OpNextPreKeyID | OpPutPreKeys _ => true | _ => false end.

(** Session state of the device [D] only; and no adding of prekeys either. *)
Definition session_op (D : option Device) R (op : storeE R) : Prop :=
  session_device op = None ∨ session_device op = D.
Definition plain_op (D : option Device) R (op : storeE R) : Prop :=
  adds_prekeys op = false ∧ session_op D R op.

Lemma plain_uses {A} D (p : prog baseE A) : AllOps (plain_op D) p → AllOps (session_op D) p.
Proof. apply ops_mono. by intros R op []. Qed.

Lemma follows_lift_idle {A} (p : prog baseE A) Q :
  AllOps (session_op None) p → (∀ a, Q a Idle) → follows (lift p) Idle Q.
Proof.
  unfold AllOps. intros Hp HQ. induction p as [a|R e k IH]; simpl; [apply HQ|].
  destruct Hp as [He Hk]. split; [|intros r; by apply IH].
  unfold session_op in He. destruct e; naive_solver.
Qed.

Lemma follows_lift_inside {A} dev m (p : prog baseE A) Q :
  AllOps (session_op (Some dev)) p → (∀ a, Q a (Inside dev m)) → follows (lift p) (Inside dev m) Q.
Proof.
  unfold AllOps. intros Hp HQ. induction p as [a|R e k IH]; simpl; [apply HQ|].
  destruct Hp as [He Hk]. split; [|intros r; by apply IH].
  unfold session_op in He. destruct e; naive_solver.
Qed.

Lemma follows_deviceLock dev Q :
  (∀ m, Q m (Known dev m)) → follows (deviceLock dev) Idle Q.
Proof.
  intros HQ. unfold deviceLock. apply follows_bind. split; [done|].
  apply follows_bind. split_and!; [done| |].
  - apply follows_bind. cbn. exists dev. split; [done|]. intros m. split; [done|].
    split; [done|]. apply HQ.
  - intros m. apply follows_bind. cbn. split; [done|]. apply HQ.
Qed.

Lemma follows_with_deviceLock {A} dev (body : prog baseE A) Q :
  AllOps (session_op (Some dev)) body → (∀ a, Q a Idle) → follows (with_deviceLock dev body) Idle Q.
Proof.
  intros Hb HQ. unfold with_deviceLock. apply follows_bind, follows_deviceLock.
  intros m. apply follows_bind. split; [done|]. apply follows_bind.
  apply follows_lift_inside; [done|]. intros a. apply follows_bind. cbn.
  split; [done|]. apply HQ.
Qed.
End Protocol.

Abbreviation Uses D := (AllOps (session_op D)).
Abbreviation Plain D := (AllOps (plain_op D)).

(** [AllOps] goals: the instances above, case analysis on the program's own
    matches, and each store call by computation. *)
Ltac ops_step :=
  lazymatch goal with
  | |- AllOps _ (mret _) => apply ops_ret
  | |- AllOps _ (pure _) => apply ops_pure
  | |- AllOps _ (crypto _) => apply ops_crypto
  | |- AllOps _ (net _) => apply ops_net
  | |- AllOps _ (trigger (EResolve _ _ _)) => apply ops_resolve
  | |- AllOps _ (ask _) =>
      apply ops_ask; repeat split; by first [left; reflexivity | right; reflexivity]
  | |- AllOps _ (try _ _ _) => apply ops_try; [|intros ?]
  | |- AllOps _ (_ ≫= _) => apply ops_bind; [|intros ?]
  | |- AllOps _ (let _ := _ in _) => cbv zeta
  | |- AllOps _ (match ?x with _ => _ end) => destruct x
  end.
Ltac solve_ops := repeat ops_step.

(** ** The entry points of the package follow the protocol *)
Section Calls.
Context `{X : Xochimilco} {T : Transport}.

Lemma uses_generate_loop D k recs : Uses D (generate_loop k recs).
Proof.
  revert recs. induction k as [|k IH]; intros recs; cbn [generate_loop];
    unfold GenerateOneTimePreKey; solve_ops; apply IH.
Qed.

Lemma plain_Manager_Bundle D m : Plain D (Manager_Bundle m).
Proof. unfold Manager_Bundle. solve_ops. Qed.

Lemma plain_Manager_PublishBundle D m : Plain D (Manager_PublishBundle m).
Proof. unfold Manager_PublishBundle, Manager_Bundle. solve_ops. Qed.

Lemma plain_Manager_RotateSignedPreKey D m : Plain D (Manager_RotateSignedPreKey m).
Proof.
  unfold Manager_RotateSignedPreKey, nextSignedPreKeyID, GenerateSignedPreKey. solve_ops.
Qed.

Lemma plain_NeedsMorePreKeys D m : Plain D (NeedsMorePreKeys m).
Proof. unfold NeedsMorePreKeys. solve_ops. Qed.

Lemma plain_SyncDevices D jid : Plain D (SyncDevices jid).
Proof. unfold SyncDevices. solve_ops. Qed.

Lemma plain_recipientDevices D m jid : Plain D (recipientDevices m jid).
Proof. unfold recipientDevices, devicesFor, SyncDevices. solve_ops. Qed.

Lemma plain_EncryptPayload D p plaintext : Plain D (EncryptPayload p plaintext).
Proof. unfold EncryptPayload. solve_ops. Qed.

Lemma plain_ResetSession_locked dev : Plain (Some dev) (ResetSession_locked dev).
Proof. unfold ResetSession_locked. solve_ops. Qed.

Lemma plain_encryptForDevice_locked m dev km :
  Plain (Some dev) (encryptForDevice_locked m dev km).
Proof.
  unfold encryptForDevice_locked, getOrCreateActiveSession, NewActiveSession, checkTrust,
    Session_Encrypt, putSession. solve_ops.
Qed.

Lemma plain_DecryptMessage_locked m msg key :
  Plain (Some (Sender msg)) (DecryptMessage_locked m msg key).
Proof.
  unfold DecryptMessage_locked, getOrCreateSessionForIncoming, signedPreKeyByID,
    NewPassiveSessionFromPreKeyBlob, NewPassiveSession, Session_Decrypt, putSession.
  solve_ops.
Qed.

(** The API calls a goroutine can make on a shared Manager, their results
    dropped. *)
Inductive call :=
  | CallBundle | CallPublishBundle | CallRotateSignedPreKey | CallNeedsMorePreKeys
  | CallGenerateOneTimePreKeys (n : Z)
  | CallSyncDevices (jid : string)
  | CallResetSession (dev : Device)
  | CallEncryptMessage (jid : string) (plaintext : gobytes)
  | CallEncryptKeyTransport (jid : string)
  | CallDecryptMessage (msg : EncryptedMessage).

Definition ignore {A} (p : prog eff A) : prog eff unit := p ≫= λ _, mret tt.

Definition call_prog (m : Manager) (c : call) : prog eff unit :=
  match c with
  | CallBundle => ignore (lift (Manager_Bundle m))
  | CallPublishBundle => ignore (lift (Manager_PublishBundle m))
  | CallRotateSignedPreKey => ignore (lift (Manager_RotateSignedPreKey m))
  | CallNeedsMorePreKeys => ignore (lift (NeedsMorePreKeys m))
  | CallGenerateOneTimePreKeys n => ignore (GenerateOneTimePreKeys m n)
  | CallSyncDevices jid => ignore (lift (SyncDevices jid))
  | CallResetSession dev => ignore (ResetSession m dev)
  | CallEncryptMessage jid plaintext => ignore (EncryptMessage m jid plaintext)
  | CallEncryptKeyTransport jid => ignore (EncryptKeyTransport m jid)
  | CallDecryptMessage msg => ignore (DecryptMessage m msg)
  end.

(** A negative count makes [generateOneTimePreKeys] panic
    ([GenerateOneTimePreKeys_negative]); the theorems about all calls leave that
    one out. *)
Definition call_ok (c : call) : bool :=
  match c with CallGenerateOneTimePreKeys n => (0 <=? n)%Z | _ => true end.

(** A goroutine makes calls one after the other. *)
Definition goroutine (m : Manager) (cs : list call) : prog eff unit :=
  foldr (λ c p, call_prog m c;; p) (mret tt) cs.

Definition ends_idle {A} (p : prog eff A) (ph : phase) : Prop :=
  follows p ph (λ _ ph', ph' = Idle).

Lemma idle_ignore {A} (p : prog eff A) : ends_idle p Idle → ends_idle (ignore p) Idle.
Proof. intros H. apply follows_bind. eapply follows_mono, H. done. Qed.

Lemma idle_lift {A} (p : prog baseE A) : Uses None p → ends_idle (lift p) Idle.
Proof. intros H. by apply follows_lift_idle. Qed.

Lemma idle_bind {A B} (p : prog eff A) (f : A → prog eff B) :
  ends_idle p Idle → (∀ a, ends_idle (f a) Idle) → ends_idle (p ≫= f) Idle.
Proof.
  intros Hp Hf. apply follows_bind. eapply follows_mono, Hp.
  intros a ph ->. apply Hf.
Qed.

Lemma idle_with_deviceLock {A} dev (body : prog baseE A) :
  Uses (Some dev) body → ends_idle (with_deviceLock dev body) Idle.
Proof. intros H. by apply follows_with_deviceLock. Qed.

Lemma idle_encrypt_loop m km devices keys errs :
  ends_idle (encrypt_loop m km devices keys errs) Idle.
Proof.
  revert keys errs. induction devices as [|dev devices IH]; intros keys errs; [done|].
  cbn [encrypt_loop]. case_decide; [apply IH|]. apply idle_bind.
  - apply idle_with_deviceLock, plain_uses, plain_encryptForDevice_locked.
  - intros [key|err]; apply IH.
Qed.

Lemma idle_encrypt m jid plaintext : ends_idle (encrypt m jid plaintext) Idle.
Proof.
  apply idle_bind; [apply idle_lift, plain_uses, plain_recipientDevices|].
  intros [devices|err]; [|done].
  apply idle_bind; [apply idle_lift, plain_uses, plain_EncryptPayload|].
  intros [[[km iv] ct]|err]; [|done]. destruct (if is_nil plaintext then _ else _) as [ct' iv'].
  apply idle_bind; [apply idle_encrypt_loop|]. intros [keys errs]. by case_decide.
Qed.

Lemma idle_call m c : call_ok c → ends_idle (call_prog m c) Idle.
Proof.
  intros Hok. destruct c; apply idle_ignore.
  - apply idle_lift, plain_uses, plain_Manager_Bundle.
  - apply idle_lift, plain_uses, plain_Manager_PublishBundle.
  - apply idle_lift, plain_uses, plain_Manager_RotateSignedPreKey.
  - apply idle_lift, plain_uses, plain_NeedsMorePreKeys.
  - unfold GenerateOneTimePreKeys, generateOneTimePreKeys. simpl in Hok.
    apply Is_true_true, Z.leb_le in Hok. rewrite (proj2 (Z.ltb_ge _ _)) by done.
    apply idle_lift, ops_try; [apply uses_generate_loop|]. intros recs. solve_ops.
  - apply idle_lift, plain_uses, plain_SyncDevices.
  - apply idle_with_deviceLock, plain_uses, plain_ResetSession_locked.
  - apply idle_encrypt.
  - apply idle_encrypt.
  - unfold DecryptMessage. destruct (own_key _ _); [|done].
    apply idle_with_deviceLock, plain_uses, plain_DecryptMessage_locked.
Qed.

Lemma idle_goroutine m cs : Forall call_ok cs → ends_idle (goroutine m cs) Idle.
Proof.
  induction 1 as [|c cs Hc _ IH]; [done|]. apply idle_bind; [by apply idle_call|done].
Qed.
End Calls.

