(* ===== verification/Concurrency.v ===== *)
(** * Goroutines on a shared Manager

    A Manager is documented as safe for concurrent use, with session state
    guarded per remote device.  Goroutines are programs of [eff] interleaved
    effect by effect over one shared world ([step]).  Because every API call
    follows the locking protocol ([LockProtocol]), mutual exclusion, absence of
    crashes, absence of deadlock and termination hold for every interleaving of
    any number of goroutines. *)
From S2P Require Import Prelude Types Errors StoreSpec Transport Xochimilco Prog.
From S2P Require Import ProgFacts Signal Manager StoreFacts LockFacts LockProtocol.

(** ** Interleavings *)
Section Steps.
Context `{X : Xochimilco} {T : Transport} {ST : Store}.

(** One effect of one goroutine; a finished goroutine does nothing more. *)
Definition advance (p : prog eff unit) (w : world) : reply (prog eff unit) :=
  match p with
  | Ret _ => Wait
  | Vis e k =>
      match handle e w with
      | Reply r w' => Reply (k r) w'
      | Wait => Wait
      | Crash msg => Crash msg
      end
  end.

Definition config : Type := list (prog eff unit) * world.

(** The scheduler lets goroutine [i] perform its next effect. *)
Inductive step_by (i : nat) : config → config → Prop :=
  | step_thread p p' ps w w' :
      ps !! i = Some p → advance p w = Reply p' w' →
      step_by i (ps, w) (<[i := p']> ps, w').

Definition step (c c' : config) : Prop := ∃ i, step_by i c c'.

Definition crashes (c : config) : Prop :=
  ∃ i p msg, c.1 !! i = Some p ∧ advance p c.2 = Crash msg.

Definition finished (p : prog eff unit) : bool :=
  match p with Ret _ => true | Vis _ _ => false end.

(** What the next effect of a goroutine accesses, of the state that the
    Manager's mutexes guard. *)
Inductive guarded := LocksMap | SessionState (dev : Device).

Definition next_access (p : prog eff unit) : option guarded :=
  match p with
  | Vis (EBase (EStore op)) _ => SessionState <$> session_device op
  | Vis (ELocksGet _) _ | Vis (ELocksSet _ _) _ => Some LocksMap
  | _ => None
  end.

Definition lock_operation (p : prog eff unit) : bool :=
  match p with Vis (ELock _) _ | Vis (EUnlock _) _ => true | _ => false end.

(** Steps of the program in which goroutine [i] locks and unlocks nothing. *)
Definition section_step (i : nat) (c c' : config) : Prop :=
  ∃ j, step_by j c c' ∧ (j = i → ∀ p, c.1 !! i = Some p → ¬ lock_operation p).

(** What a phase says about the state of the locks. *)
Definition phase_ok (lk : lockstate) (ph : phase) : Prop :=
  match ph with
  | Idle | MapMu => True
  | MapMiss dev => locks lk !! dev = None
  | MapNew dev m =>
      locks lk !! dev = None ∧ (∃ n, m = DeviceMu n ∧ (n < next_mutex lk)%N) ∧
      (∀ dev', locks lk !! dev' ≠ Some m)
  | MapHit dev m | Known dev m | Inside dev m => locks lk !! dev = Some m
  end.

(** The invariant of a configuration, with the phase of each goroutine. *)
Record inv (c : config) (phs : list phase) : Prop := {
  inv_follows : Forall2 ends_idle c.1 phs;
  inv_wf : locks_wf (w_lk c.2);
  inv_phases i ph : phs !! i = Some ph → phase_ok (w_lk c.2) ph;
  inv_held m : m ∈ held (w_lk c.2) ↔ ∃ i ph, phs !! i = Some ph ∧ holds ph = Some m;
  inv_excl i j ph1 ph2 m :
    phs !! i = Some ph1 → phs !! j = Some ph2 →
    holds ph1 = Some m → holds ph2 = Some m → i = j }.

(** A goroutine in phase [ph] moves to [ph'] and owns what [ph'] holds. *)
Lemma inv_update ps w phs i ph p' ph' w' :
  inv (ps, w) phs → phs !! i = Some ph →
  ends_idle p' ph' → locks_wf (w_lk w') → phase_ok (w_lk w') ph' →
  (∀ j ph0, j ≠ i → phs !! j = Some ph0 → phase_ok (w_lk w') ph0) →
  (∀ m, m ∈ held (w_lk w') ↔
    holds ph' = Some m ∨ (m ∈ held (w_lk w) ∧ holds ph ≠ Some m)) →
  (∀ m, holds ph' = Some m → holds ph = Some m ∨ m ∉ held (w_lk w)) →
  inv (<[i := p']> ps, w') (<[i := ph']> phs).
Proof.
  intros [Hf Hwf Hphs Hheld Hexcl] Hi Hp' Hwf' Hph' Hothers Hheld' Hacq. simpl in *.
  assert (i < length phs) as Hlen by eauto using lookup_lt_Some.
  assert (∀ j ph0, <[i:=ph']> phs !! j = Some ph0 →
    (j = i ∧ ph0 = ph') ∨ (j ≠ i ∧ phs !! j = Some ph0)) as Hins.
  { intros j ph0 [(-> & -> & _)|[??]]%list_lookup_insert_Some; auto. }
  split; simpl; [by apply Forall2_insert|done| | |].
  - intros j ph0 [[-> ->]|[??]]%Hins; eauto.
  - intros m. rewrite Hheld'. split.
    + intros [Hm|[(j & ph0 & Hj & Hm)%Hheld Hne]].
      * exists i, ph'. by rewrite list_lookup_insert_eq.
      * exists j, ph0. rewrite list_lookup_insert_ne; [done|congruence].
    + intros (j & ph0 & [[-> ->]|[Hne Hj]]%Hins & Hm); [by left|right].
      split; [apply Hheld; eauto|]. intros Hm'. by destruct (Hne (Hexcl _ _ _ _ _ Hj Hi Hm Hm')).
  - assert (∀ j ph0 m, j ≠ i → phs !! j = Some ph0 → holds ph0 = Some m →
      holds ph' = Some m → False) as Hown.
    { intros j ph0 m Hne Hj Hm [Hm'|Hm']%Hacq.
      - by destruct (Hne (Hexcl _ _ _ _ _ Hj Hi Hm Hm')).
      - destruct Hm'. apply Hheld. eauto. }
    intros j1 j2 ph1 ph2 m [[-> ->]|[Hne1 H1]]%Hins [[-> ->]|[Hne2 H2]]%Hins Hm1 Hm2;
      [done|exfalso; eauto..|eauto].
Qed.

(** The same when the [locks] map does not change. *)
Lemma inv_update_held ps w phs i ph p' ph' d h :
  inv (ps, w) phs → phs !! i = Some ph →
  ends_idle p' ph' → phase_ok (w_lk w) ph' →
  (∀ m, m ∈ h ↔ holds ph' = Some m ∨ (m ∈ held (w_lk w) ∧ holds ph ≠ Some m)) →
  (∀ m, holds ph' = Some m → holds ph = Some m ∨ m ∉ held (w_lk w)) →
  inv (<[i := p']> ps, MkWorld d (MkLocks (locks (w_lk w)) (next_mutex (w_lk w)) h))
    (<[i := ph']> phs).
Proof.
  intros Hinv Hi Hp' Hph' Hh Hacq. eapply inv_update; [done..| | | | |]; simpl.
  - apply locks_wf_held, (inv_wf _ _ Hinv).
  - by destruct ph'.
  - intros j ph0 _ Hj. apply (inv_phases _ _ Hinv) in Hj. by destruct ph0.
  - done.
  - done.
Qed.

(** What is held is unchanged by a goroutine that keeps what it holds. *)
Lemma inv_held_same ps w phs i ph :
  inv (ps, w) phs → phs !! i = Some ph →
  ∀ m, m ∈ held (w_lk w) ↔
    holds ph = Some m ∨ (m ∈ held (w_lk w) ∧ holds ph ≠ Some m).
Proof.
  intros Hinv Hi m. split.
  - intros Hm. destruct (decide (holds ph = Some m)); auto.
  - intros [Hm|[??]]; [|done]. apply (inv_held _ _ Hinv). eauto.
Qed.

Lemma inv_acquire ps w phs i ph p' ph' m :
  inv (ps, w) phs → phs !! i = Some ph →
  holds ph = None → holds ph' = Some m → m ∉ held (w_lk w) →
  ends_idle p' ph' → phase_ok (w_lk w) ph' →
  inv (<[i := p']> ps, with_held ({[m]} ∪ held (w_lk w)) w) (<[i := ph']> phs).
Proof.
  intros Hinv Hi Hn Hs Hm Hp' Hok. eapply inv_update_held; [done..| |]; rewrite Hn, Hs.
  - set_solver.
  - intros m' [= <-]. by right.
Qed.

Lemma inv_release ps w phs i ph p' ph' m :
  inv (ps, w) phs → phs !! i = Some ph →
  holds ph = Some m → holds ph' = None → ends_idle p' ph' → phase_ok (w_lk w) ph' →
  inv (<[i := p']> ps, with_held (held (w_lk w) ∖ {[m]}) w) (<[i := ph']> phs).
Proof.
  intros Hinv Hi Hs Hn Hp' Hok. eapply inv_update_held; [done..| |]; rewrite Hn, Hs;
    [set_solver|done].
Qed.

Lemma inv_keep ps w phs i ph p' ph' d :
  inv (ps, w) phs → phs !! i = Some ph → holds ph' = holds ph →
  ends_idle p' ph' → phase_ok (w_lk w) ph' →
  inv (<[i := p']> ps, MkWorld d (w_lk w)) (<[i := ph']> phs).
Proof.
  intros Hinv Hi Hh Hp' Hok. pose proof (inv_held_same _ _ _ _ _ Hinv Hi) as Hsame.
  destruct w as [d0 [ls n h]].
  apply (inv_update_held _ (MkWorld d0 (MkLocks ls n h)) _ _ ph _ _ d h); [done..| |];
    rewrite Hh; [done|by left].
Qed.

(** The mutexes held elsewhere are not [locksMu] while this goroutine has it. *)
Lemma inv_other ps w phs i j ph ph0 :
  inv (ps, w) phs → phs !! i = Some ph → phs !! j = Some ph0 → j ≠ i →
  holds ph = Some LocksMu → holds ph0 ≠ Some LocksMu.
Proof. intros Hinv Hi Hj Hne H H0. apply Hne. by eapply (inv_excl _ _ Hinv). Qed.

(** The map gets its entry: the goroutine holds [locksMu], so no other one
    has just read that the entry is missing. *)
Lemma inv_set ps w phs i p' dev m :
  inv (ps, w) phs → phs !! i = Some (MapNew dev m) → ends_idle p' (MapHit dev m) →
  inv (<[i := p']> ps, MkWorld (w_data w)
        (MkLocks (<[dev := m]> (locks (w_lk w))) (next_mutex (w_lk w)) (held (w_lk w))))
    (<[i := MapHit dev m]> phs).
Proof.
  intros Hinv Hi Hp'. destruct (inv_phases _ _ Hinv _ _ Hi) as (Hnone & Hn & Hfresh).
  pose proof (inv_held_same _ _ _ _ _ Hinv Hi) as Hsame.
  eapply inv_update; [done..| | | | |]; simpl.
  - destruct (inv_wf _ _ Hinv) as [Hal Hinj]. split; simpl.
    + intros dev' m'. rewrite lookup_insert. case_decide; [by intros [= <-]|apply Hal].
    + intros dev1 dev2 m'. rewrite !lookup_insert. repeat case_decide; subst; try done.
      * intros [= <-] Hm. by destruct (Hfresh dev2).
      * intros Hm [= <-]. by destruct (Hfresh dev1).
      * apply Hinj.
  - apply lookup_insert_eq.
  - intros j ph0 Hne Hj. pose proof (inv_other _ _ _ _ _ _ _ Hinv Hi Hj Hne eq_refl).
    apply (inv_phases _ _ Hinv) in Hj. destruct ph0; try done; simpl in *;
      (rewrite lookup_insert_ne; [done|congruence]).
  - done.
  - by left.
Qed.

Lemma inv_alloc ps w phs i p' dev :
  inv (ps, w) phs → phs !! i = Some (MapMiss dev) →
  ends_idle p' (MapNew dev (DeviceMu (next_mutex (w_lk w)))) →
  inv (<[i := p']> ps, MkWorld (w_data w)
        (MkLocks (locks (w_lk w)) (N.succ (next_mutex (w_lk w))) (held (w_lk w))))
    (<[i := MapNew dev (DeviceMu (next_mutex (w_lk w)))]> phs).
Proof.
  intros Hinv Hi Hp'. pose proof (inv_phases _ _ Hinv _ _ Hi) as Hnone.
  pose proof (inv_held_same _ _ _ _ _ Hinv Hi) as Hsame.
  destruct (inv_wf _ _ Hinv) as [Hal Hinj]. simpl in *.
  eapply inv_update; [done..| | | | |]; simpl.
  - split; simpl; [|done]. intros dev' m (n & -> & Hn)%Hal. exists n. split; [done|]. lia.
  - split_and!; [done| |].
    + eexists. split; [done|]. lia.
    + intros dev' (n & [= <-] & Hn)%Hal. lia.
  - intros j ph0 Hne Hj. pose proof (inv_other _ _ _ _ _ _ _ Hinv Hi Hj Hne eq_refl).
    apply (inv_phases _ _ Hinv) in Hj. by destruct ph0.
  - done.
  - by left.
Qed.

(** What a goroutine in a known phase does next: it is finished, or it waits
    for a held mutex, or it moves on and the invariant is kept. *)
Lemma advance_inv ps w phs i p ph :
  inv (ps, w) phs → ps !! i = Some p → phs !! i = Some ph →
  match advance p w with
  | Reply p' w' => ∃ ph', inv (<[i := p']> ps, w') (<[i := ph']> phs)
  | Wait => ph = Idle ∧ finished p ∨
      (∃ m, m ∈ held (w_lk w) ∧
         (ph = Idle ∧ m = LocksMu ∨ ∃ dev, ph = Known dev m))
  | Crash _ => False
  end.
Proof.
  intros Hinv Hp Hph. pose proof Hinv as [Hf Hwf Hphs Hheld Hexcl]. simpl in *.
  assert (ends_idle p ph) as Hfol.
  { rewrite Forall2_lookup in Hf. specialize (Hf i). rewrite Hp, Hph in Hf. by inv Hf. }
  pose proof (Hphs _ _ Hph) as Hok.
  destruct p as [a|R e k]; [by left|]. unfold ends_idle in Hfol. cbn in Hfol |- *.
  destruct e as [R e|m|m|dev|dev m| |msg]; cbn in Hfol |- *.
  - destruct Hfol as [_ Hk]. destruct (handle_base e (w_data w)) as [r d].
    exists ph. apply (inv_keep ps w phs i ph); [done..|apply Hk|done].
  - case_decide as Hm.
    + right. exists m. destruct ph; naive_solver.
    + destruct ph as [| | | | |dev m'|]; try done; destruct Hfol as [-> Hk].
      * exists MapMu. by eapply inv_acquire.
      * exists (Inside dev m'). by eapply inv_acquire.
  - destruct ph as [| | | |dev m'| |dev m']; try done; destruct Hfol as [-> Hk];
      rewrite decide_True by (apply Hheld; eauto).
    + exists (Known dev m'). by eapply inv_release.
    + exists Idle. by eapply inv_release.
  - destruct Hfol as (-> & Hnone & Hsome). destruct w as [d lk]. simpl in *.
    destruct (locks lk !! dev) as [m|] eqn:Hdev; 
      [exists (MapHit dev m)|exists (MapMiss dev)];
      apply (inv_keep ps (MkWorld d lk) phs i MapMu); auto; apply Hsome.
  - destruct Hfol as (-> & Hk). exists (MapHit dev m). by apply inv_set.
  - destruct Hfol as (dev & -> & Hk). eexists. apply inv_alloc; [done..|apply Hk].
  - done.
Qed.

Lemma inv_init ps w :
  Forall (λ p, ends_idle p Idle) ps → quiet (w_lk w) →
  inv (ps, w) (replicate (length ps) Idle).
Proof.
  intros Hps [Hwf Hheld]. split; simpl; [|done| | |].
  - by apply Forall2_replicate_r.
  - by intros i ph [-> _]%lookup_replicate.
  - intros m. rewrite Hheld. split; [set_solver|].
    by intros (i & ph & [-> _]%lookup_replicate & ?).
  - by intros i j ph1 ph2 m [-> _]%lookup_replicate.
Qed.

Lemma step_inv c c' phs : inv c phs → step c c' → ∃ phs', inv c' phs'.
Proof.
  intros Hinv [i Hstep]. destruct Hstep as [p p' ps w w' Hp Hadv].
  destruct (Forall2_lookup_l _ _ _ _ _ (inv_follows _ _ Hinv) Hp) as (ph & Hph & _).
  pose proof (advance_inv _ _ _ _ _ _ Hinv Hp Hph) as H. rewrite Hadv in H. naive_solver.
Qed.

Lemma steps_inv c c' phs : inv c phs → rtc step c c' → ∃ phs', inv c' phs'.
Proof.
  intros Hinv Hsteps. revert phs Hinv.
  induction Hsteps as [|c1 c2 c3 H12 _ IH]; [eauto|].
  intros phs Hinv. destruct (step_inv _ _ _ Hinv H12) as [phs' H']. eauto.
Qed.

Lemma inv_no_crash c phs : inv c phs → ¬ crashes c.
Proof.
  intros Hinv (i & p & msg & Hp & Hadv). destruct c as [ps w]. simpl in *.
  destruct (Forall2_lookup_l _ _ _ _ _ (inv_follows _ _ Hinv) Hp) as (ph & Hph & _).
  pose proof (advance_inv _ _ _ _ _ _ Hinv Hp Hph) as H. by rewrite Hadv in H.
Qed.

Lemma next_access_session p ph dev :
  ends_idle p ph → next_access p = Some (SessionState dev) → ∃ m, ph = Inside dev m.
Proof.
  destruct p as [a|R e k]; [done|]. unfold ends_idle. cbn.
  destruct e as [R e| | | | | |]; try done. destruct e as [R op| | |]; try done. cbn.
  intros [Hal _] (dev' & Hdev & [= ->])%fmap_Some.
  destruct ph as [| | | | | |? m]; simpl in Hal; try done; [congruence|].
  exists m. destruct Hal; congruence.
Qed.

Lemma next_access_locks p ph :
  ends_idle p ph → next_access p = Some LocksMap → holds ph = Some LocksMu.
Proof.
  destruct p as [a|R e k]; [done|]. unfold ends_idle. cbn.
  destruct e as [R e| | |dev|dev m| |]; try done.
  - destruct e as [R op| | |]; try done. cbn. by destruct (session_device op).
  - by intros [-> _].
  - by intros [-> _].
Qed.

(** The mutex that guards a resource, by the current [locks] map. *)
Definition guard (lk : lockstate) (g : guarded) : option mutex :=
  match g with LocksMap => Some LocksMu | SessionState dev => locks lk !! dev end.

Lemma next_access_guarded c phs i p g :
  inv c phs → c.1 !! i = Some p → next_access p = Some g →
  ∃ ph m, phs !! i = Some ph ∧ holds ph = Some m ∧ guard (w_lk c.2) g = Some m.
Proof.
  intros Hinv Hp Hg.
  destruct (Forall2_lookup_l _ _ _ _ _ (inv_follows _ _ Hinv) Hp) as (ph & Hph & Hf).
  destruct g as [|dev].
  - exists ph, LocksMu. eauto using next_access_locks.
  - destruct (next_access_session _ _ _ Hf Hg) as [m ->].
    exists (Inside dev m), m. split_and!; [done..|]. apply (inv_phases _ _ Hinv _ _ Hph).
Qed.

Lemma inv_mutual_exclusion c phs i j p1 p2 g :
  inv c phs → c.1 !! i = Some p1 → c.1 !! j = Some p2 →
  next_access p1 = Some g → next_access p2 = Some g → i = j.
Proof.
  intros Hinv H1 H2 Hn1 Hn2.
  destruct (next_access_guarded _ _ _ _ _ Hinv H1 Hn1) as (ph1 & m1 & ? & ? & ?).
  destruct (next_access_guarded _ _ _ _ _ Hinv H2 Hn2) as (ph2 & m2 & ? & ? & ?).
  eapply (inv_excl _ _ Hinv); [done..|]. congruence.
Qed.

(** A goroutine inside a device lock stays there until it unlocks. *)
Lemma section_step_inside c c' phs i dev m :
  inv c phs → phs !! i = Some (Inside dev m) → section_step i c c' →
  ∃ phs', inv c' phs' ∧ phs' !! i = Some (Inside dev m).
Proof.
  intros Hinv Hi (j & Hstep & Hnolock). destruct Hstep as [p p' ps w w' Hp Hadv].
  destruct (Forall2_lookup_l _ _ _ _ _ (inv_follows _ _ Hinv) Hp) as (ph & Hph & Hf).
  destruct (decide (j = i)) as [->|Hne].
  - rewrite Hi in Hph. inv Hph. specialize (Hnolock eq_refl p Hp). exists phs.
    split; [|done]. destruct p as [a|R e k]; [done|]. unfold ends_idle in Hf. cbn in Hf, Hadv.
    destruct e as [R e|m'|m'|dev'|dev' m'| |msg]; cbn in Hf, Hnolock; try done; try naive_solver.
    simpl in Hadv. destruct (handle_base e (w_data w)) as [r d]. inv Hadv.
    rewrite <- (list_insert_id phs i (Inside dev m)) by done.
    apply (inv_keep ps w phs i (Inside dev m)); [done..|apply Hf|].
    apply (inv_phases _ _ Hinv _ _ Hi).
  - pose proof (advance_inv _ _ _ _ _ _ Hinv Hp Hph) as H. rewrite Hadv in H.
    destruct H as [ph' H]. eexists. split; [done|]. by rewrite list_lookup_insert_ne.
Qed.

Lemma section_steps_inside c c' phs i dev m :
  inv c phs → phs !! i = Some (Inside dev m) → rtc (section_step i) c c' →
  ∃ phs', inv c' phs' ∧ phs' !! i = Some (Inside dev m).
Proof.
  intros Hinv Hi Hsteps. revert phs Hinv Hi.
  induction Hsteps as [|c1 c2 c3 H12 _ IH]; [eauto|]. intros phs Hinv Hi.
  destruct (section_step_inside _ _ _ _ _ _ Hinv Hi H12) as (phs' & H' & Hi'). eauto.
Qed.

(** Nobody else is about to access a device's session state meanwhile. *)
Lemma inside_excludes c phs i j p dev m :
  inv c phs → phs !! i = Some (Inside dev m) → j ≠ i → c.1 !! j = Some p →
  next_access p ≠ Some (SessionState dev).
Proof.
  intros Hinv Hi Hne Hp Hacc.
  destruct (next_access_guarded _ _ _ _ _ Hinv Hp Hacc) as (ph & m' & Hph & Hm' & Hg).
  pose proof (inv_phases _ _ Hinv _ _ Hi) as Hm. apply Hne.
  eapply (inv_excl _ _ Hinv); [done..|]. simpl in *. congruence.
Qed.

(** A goroutine that holds a mutex can always move on. *)
Lemma inv_holder_moves ps w phs i ph m :
  inv (ps, w) phs → phs !! i = Some ph → holds ph = Some m → ∃ c', step (ps, w) c'.
Proof.
  intros Hinv Hph Hm.
  destruct (Forall2_lookup_r _ _ _ _ _ (inv_follows _ _ Hinv) Hph) as (p & Hp & _).
  pose proof (advance_inv _ _ _ _ _ _ Hinv Hp Hph) as H.
  destruct (advance p w) as [p' w'| |] eqn:Hadv; [eexists; exists i; by econstructor| |done].
  destruct H as [[-> _]|(m' & _ & [[-> _]|[dev ->]])]; done.
Qed.

Lemma inv_progress ps w phs i p :
  inv (ps, w) phs → ps !! i = Some p → ¬ finished p → ∃ c', step (ps, w) c'.
Proof.
  intros Hinv Hp Hfin.
  destruct (Forall2_lookup_l _ _ _ _ _ (inv_follows _ _ Hinv) Hp) as (ph & Hph & _).
  pose proof (advance_inv _ _ _ _ _ _ Hinv Hp Hph) as H.
  destruct (advance p w) as [p' w'| |] eqn:Hadv; [eexists; exists i; by econstructor| |done].
  destruct H as [[_ ?]|(m & Hm & _)]; [done|].
  apply (inv_held _ _ Hinv) in Hm as (j & ph' & Hj & Hm).
  by eapply inv_holder_moves.
Qed.

Lemma inv_progress_or_done c phs :
  inv c phs → (∃ c', step c c') ∨ Forall (λ p, finished p) c.1.
Proof.
  intros Hinv. destruct (decide (Forall (λ p, finished p) c.1)) as [|Hfin]; [by right|left].
  apply not_Forall_Exists in Hfin; [|apply _].
  apply Exists_exists in Hfin as (p & (i & Hi)%list_elem_of_lookup & Hp).
  destruct c as [ps w]. by eapply inv_progress.
Qed.
End Steps.

(** ** Every interleaving ends *)
Section Termination.
Context `{X : Xochimilco} {T : Transport} {ST : Store}.

Definition child (p' p : prog eff unit) : Prop :=
  ∃ w w', advance p w = Reply p' w'.

Lemma child_wf : well_founded child.
Proof.
  intros p. induction p as [a|R e k IH]; constructor; intros p' (w & w' & H); [done|].
  simpl in H. destruct (handle e w); inv H. apply IH.
Qed.

Lemma step_terminates c : Acc (flip step) c.
Proof.
  destruct c as [ps w]. revert w.
  induction (one_of_wf child child_wf ps) as [ps _ IH]. intros w. constructor.
  intros c' [i Hstep]. inv Hstep. apply IH. exists i, p, p'. split_and!; [done| |done].
  by exists w, w'.
Qed.
End Termination.

(** ** What the calls promise to concurrent callers *)
Section Promises.
Context `{X : Xochimilco} {T : Transport} {ST : Store}.
Implicit Types c : config.

(** The state in which goroutines make [css] on the Manager [m]. *)
Definition start (m : Manager) (css : list (list call)) (w : world) : config :=
  (goroutine m <$> css, w).

Lemma start_inv m css w c :
  Forall (Forall call_ok) css → quiet (w_lk w) → rtc step (start m css w) c →
  ∃ phs, inv c phs.
Proof.
  intros Hcss Hq Hc. eapply steps_inv, Hc. apply inv_init; [|done].
  apply Forall_fmap. eapply Forall_impl; [done|]. intros cs. apply idle_goroutine.
Qed.

(** C19: two goroutines are never both about to access the session state of
    one device, or the [locks] map, whatever the calls (top-ups by a negative
    number, which panic, excepted: [call_ok]) and the scheduling: there is no data race on the state that "session state is guarded per
    remote device" (Manager's doc) talks about. *)
Theorem concurrent_calls_mutual_exclusion m css w c i j p1 p2 g :
  Forall (Forall call_ok) css → quiet (w_lk w) → rtc step (start m css w) c →
  c.1 !! i = Some p1 → c.1 !! j = Some p2 →
  next_access p1 = Some g → next_access p2 = Some g → i = j.
Proof.
  intros Hcss Hq Hc. destruct (start_inv _ _ _ _ Hcss Hq Hc) as [phs Hinv].
  by eapply inv_mutual_exclusion.
Qed.

(** C18: no interleaving crashes, none goes on for ever, and none is stuck
    before every goroutine has made all its calls: there is no deadlock.  The calls
    are any but [GenerateOneTimePreKeys] with a negative count, which panics
    ([call_ok]). *)
Theorem concurrent_calls_complete m css w c :
  Forall (Forall call_ok) css → quiet (w_lk w) → rtc step (start m css w) c →
  ¬ crashes c ∧ Acc (flip step) c ∧
  ((∃ c', step c c') ∨ Forall (λ p, finished p) c.1).
Proof.
  intros Hcss Hq Hc. destruct (start_inv _ _ _ _ Hcss Hq Hc) as [phs Hinv].
  split_and!; [by eapply inv_no_crash|apply step_terminates|by eapply inv_progress_or_done].
Qed.

Context {SC : StoreContract ST}.

(** The session state of a device in a configuration. *)
Definition session_state (dev : Device) (w : world) : option gobytes * option gobytes :=
  (a_sessions (av (w_data w)) !! dev, a_remote (av (w_data w)) !! dev).

Lemma store_spec_session_frame {R} (op : storeE R) a r a' dev :
  store_spec op a r a' → session_device op ≠ Some dev →
  a_sessions a' !! dev = a_sessions a !! dev ∧ a_remote a' !! dev = a_remote a !! dev.
Proof.
  destruct op; simpl; unfold reads, writes, fails; intros Hspec Hdev.
  all: try by naive_solver.
  all: try (destruct Hspec as [[_ ->]|[_ ->]]; [|done]; simpl;
    rewrite ?lookup_insert_ne, ?lookup_delete_ne by congruence; done).
  destruct Hspec as [(id & _ & _ & _ & H)|[_ ->]]; [|done].
  split; [apply (f_equal a_sessions) in H|apply (f_equal a_remote) in H]; simpl in H;
    by rewrite H.
Qed.

Lemma handle_base_good {R} (e : baseE R) d : good d → good (handle_base e d).2.
Proof.
  intros Hg. destruct e as [R op|R op|f dev key|R f]; simpl.
  - destruct (store_step op (d_store d) Hg) as [Hwf _]. by destruct (handle_store _ _).
  - by destruct (handle_transport _ _).
  - by destruct (f _ _ _).
  - by destruct (f _).
Qed.

Lemma step_session_frame c c' i p dev :
  step_by i c c' → c.1 !! i = Some p → next_access p ≠ Some (SessionState dev) →
  good (w_data c.2) →
  good (w_data c'.2) ∧ session_state dev c'.2 = session_state dev c.2.
Proof.
  intros Hstep Hp Hacc Hg. destruct Hstep as [p0 p' ps w w' Hp0 Hadv]. simpl in *.
  assert (p0 = p) as -> by congruence. clear Hp0.
  destruct p as [a|R e k]; [done|]. simpl in Hadv.
  destruct e as [R e|m|m|dev'|dev' m| |msg]; simpl in Hadv;
    repeat case_decide; simplify_eq; try done.
  pose proof (handle_base_good e (w_data w) Hg) as Hg'.
  destruct (handle_base e (w_data w)) as [r d] eqn:He. simplify_eq. simpl in *.
  split; [done|]. unfold session_state, av. simpl.
  destruct e as [R op|R op|f dev' key|R f]; simpl in He.
  - destruct (store_step op (d_store (w_data w)) Hg) as [_ Hs].
    destruct (handle_store op (d_store (w_data w))) as [r' s']. simplify_eq. simpl in *.
    destruct (store_spec_session_frame op _ _ _ dev Hs) as [-> ->]; [|done].
    intros H. by rewrite H in Hacc.
  - destruct (handle_transport op (d_env (w_data w))). by simplify_eq.
  - destruct (f dev' key (d_env (w_data w))). by simplify_eq.
  - destruct (f (d_rng (w_data w))). by simplify_eq.
Qed.

Lemma step_good c c' : step c c' → good (w_data c.2) → good (w_data c'.2).
Proof.
  intros [i Hstep] Hg. destruct Hstep as [p p' ps w w' Hp Hadv]. simpl in *.
  destruct p as [a|R e k]; [done|]. simpl in Hadv.
  destruct e as [R e|m|m|dev'|dev' m| |msg]; simpl in Hadv;
    repeat case_decide; simplify_eq; try done.
  pose proof (handle_base_good e (w_data w) Hg) as Hg'.
  by destruct (handle_base e (w_data w)); simplify_eq.
Qed.

Lemma steps_good c c' : rtc step c c' → good (w_data c.2) → good (w_data c'.2).
Proof. induction 1; eauto using step_good. Qed.

Lemma section_steps_steps i c c' : rtc (section_step i) c c' → rtc step c c'.
Proof.
  induction 1 as [|c1 c2 c3 (j & Hj & _) _ IH]; [done|]. eapply rtc_l, IH. by exists j.
Qed.

(** C20: from the moment a goroutine is about to access the session state of
    a device until it next locks or unlocks a mutex, every step of every
    other goroutine leaves the session and the identity key stored for that
    device as they are.  So what the goroutine read is still there when it
    writes: no ratchet step is lost or made twice.  The calls are any but
    [GenerateOneTimePreKeys] with a negative count, which panics ([call_ok]). *)
Theorem device_section_isolated m css w c c' c'' i j p dev :
  Forall (Forall call_ok) css → quiet (w_lk w) → good (w_data w) →
  rtc step (start m css w) c →
  c.1 !! i = Some p → next_access p = Some (SessionState dev) →
  rtc (section_step i) c c' → step_by j c' c'' → j ≠ i →
  session_state dev c''.2 = session_state dev c'.2.
Proof.
  intros Hcss Hq Hg Hc Hp Hacc Hsec Hstep Hne.
  destruct (start_inv _ _ _ _ Hcss Hq Hc) as [phs Hinv].
  destruct (next_access_guarded _ _ _ _ _ Hinv Hp Hacc) as (ph & mu & Hph & _).
  destruct (Forall2_lookup_r _ _ _ _ _ (inv_follows _ _ Hinv) Hph) as (p' & Hp' & Hf).
  assert (p' = p) as -> by congruence.
  destruct (next_access_session _ _ _ Hf Hacc) as [mu' ->].
  destruct (section_steps_inside _ _ _ _ _ _ Hinv Hph Hsec) as (phs' & Hinv' & Hi').
  assert (good (w_data c'.2)) as Hg'.
  { eapply steps_good; [by eapply section_steps_steps|]. eapply steps_good; [done|]. done. }
  assert (∃ q, c'.1 !! j = Some q) as [q Hq'] by (destruct Hstep; eauto).
  apply (step_session_frame c' c'' j q); [done..| |done].
  by eapply inside_excludes.
Qed.
End Promises.
