(* ===== verification/MemstoreMutex.v ===== *)
(** * The Manager over memstore's mutex

    [Concurrency] interleaves goroutines with a store call as one step.  Here a
    store call is what memstore makes of it: lock [s.mu], access the fields and
    maps one by one ([MemstoreCode]), unlock.  Every execution of this finer
    machine is one of the coarser machine, with each call taking effect when it
    gets the mutex ([sim]); so everything [Concurrency] shows of goroutines on
    an atomic store holds of goroutines on memstore, and the mutex adds no
    deadlock. *)
From S2P Require Import Prelude Types Errors StoreSpec Transport Xochimilco Prog Memstore.
From S2P Require Import MemstoreCode ProgFacts Signal Manager StoreFacts LockFacts.
From S2P Require Import LockProtocol Concurrency.

Section Machine.
Context `{GM : GoMapRange} `{X : Xochimilco} {T : Transport}.
#[local] Existing Instance memstore.

(** A goroutine is in the Manager's code or inside a method of the store, with
    what is left of the method and what the Manager does with the answer. *)
Inductive thread : Type :=
  | Running (p : prog eff unit)
  | InStore {R} (body : prog memE R) (k : R → prog eff unit).

Definition set_store (s : MemStore) (w : world) : world :=
  MkWorld (with_store s (w_data w)) (w_lk w).
Definition the_store (w : world) : MemStore := d_store (w_data w).

(** The answer to one step of a goroutine, given [s.mu]. *)
Inductive freply :=
  | FReply (t : thread) (w : world) (mu : bool)
  | FWait
  | FCrash (msg : string).

Definition fadvance (t : thread) (w : world) (mu : bool) : freply :=
  match t with
  | Running (Vis (EBase (EStore op)) k) =>
      if mu then FWait else FReply (InStore (method op) k) w true
  | Running p =>
      match advance p w with
      | Reply p' w' => FReply (Running p') w' mu
      | Wait => FWait
      | Crash msg => FCrash msg
      end
  | InStore (Vis e body) k =>
      let '(r, s) := handle_mem e (the_store w) in FReply (InStore (body r) k) (set_store s w) mu
  | InStore (Ret r) k =>
      if mu then FReply (Running (k r)) w false
      else FCrash "sync: unlock of unlocked mutex"
  end.

Record fconfig := MkF { f_threads : list thread; f_world : world; f_mu : bool }.

Inductive fstep_by (i : nat) : fconfig → fconfig → Prop :=
  | fstep_thread t t' ts w w' mu mu' :
      ts !! i = Some t → fadvance t w mu = FReply t' w' mu' →
      fstep_by i (MkF ts w mu) (MkF (<[i := t']> ts) w' mu').

Definition fstep (c c' : fconfig) : Prop := ∃ i, fstep_by i c c'.

Definition fcrashes (c : fconfig) : Prop :=
  ∃ i t msg, f_threads c !! i = Some t ∧ fadvance t (f_world c) (f_mu c) = FCrash msg.

Definition ffinished (t : thread) : bool :=
  match t with Running p => finished p | InStore _ _ => false end.

(** About to access a field or a map of the store. *)
Definition in_store (t : thread) : bool :=
  match t with InStore _ _ => true | Running _ => false end.

(** The steps of goroutines [l], in this order. *)
Inductive scheduled {C} (by_ : nat → relation C) : list nat → relation C :=
  | sched_nil c : scheduled by_ [] c c
  | sched_cons i l c1 c2 c3 :
      by_ i c1 c2 → scheduled by_ l c2 c3 → scheduled by_ (i :: l) c1 c3.

Lemma scheduled_steps {C} (by_ : nat → relation C) l c c' :
  scheduled by_ l c c' → rtc (λ c c', ∃ i, by_ i c c') c c'.
Proof. induction 1; [done|]. eapply rtc_l; [by eexists|done]. Qed.

Lemma steps_scheduled {C} (by_ : nat → relation C) c c' :
  rtc (λ c c', ∃ i, by_ i c c') c c' → ∃ l, scheduled by_ l c c'.
Proof.
  induction 1 as [c|c1 c2 c3 [i H12] _ [l IH]]; [exists []; constructor|].
  exists (i :: l). by econstructor.
Qed.

(** ** What a step of the coarse machine depends on *)

Definition store_call (p : prog eff unit) : bool :=
  match p with Vis (EBase (EStore _)) _ => true | _ => false end.

Lemma fadvance_running p w mu :
  store_call p = false → fadvance (Running p) w mu =
    match advance p w with
    | Reply p' w' => FReply (Running p') w' mu
    | Wait => FWait
    | Crash msg => FCrash msg
    end.
Proof.
  destruct p as [a|R e k]; [done|]. destruct e as [R e| | | | | |]; [|done..].
  by destruct e.
Qed.

Lemma store_call_inv p : store_call p = true →
  ∃ R (op : storeE R) k, p = Vis (EBase (EStore op)) k.
Proof.
  destruct p as [a|R e k]; [done|]. destruct e as [R e| | | | | |]; [|done..].
  destruct e; try done. eauto.
Qed.

(** A step that calls no store method neither reads nor changes the store. *)
Lemma advance_other_store p s w :
  store_call p = false → advance p (set_store s w) =
    match advance p w with
    | Reply p' w' => Reply p' (set_store s w')
    | Wait => Wait
    | Crash msg => Crash msg
    end.
Proof.
  destruct p as [a|R e k]; [done|]. intros Hp.
  destruct e as [R e|m|m|dev|dev m| |msg]; simpl; try done; try by case_decide.
  destruct w as [[s0 v g] lk]. destruct e as [R op|R op|f dev key|R f]; simpl.
  - done.
  - by destruct (handle_transport op v).
  - by destruct (f dev key v).
  - by destruct (f g).
Qed.

Lemma advance_keeps_store p p' w w' :
  store_call p = false → advance p w = Reply p' w' → the_store w' = the_store w.
Proof.
  destruct p as [a|R e k]; [done|]. intros Hp.
  destruct e as [R e|m|m|dev|dev m| |msg]; simpl; try case_decide; intros Hadv; simplify_eq;
    try done.
  destruct w as [[s v g] lk]. unfold the_store.
  destruct e as [R op|R op|f dev key|R f]; simpl in *; [done|..].
  - destruct (handle_transport op v). by simplify_eq.
  - destruct (f dev key v). by simplify_eq.
  - destruct (f g). by simplify_eq.
Qed.

Lemma advance_store {R} (op : storeE R) k w :
  advance (Vis (EBase (EStore op)) k) w =
    Reply (k (evalm (method op) (the_store w)).1) (set_store (evalm (method op) (the_store w)).2 w).
Proof.
  rewrite method_correct. unfold set_store, the_store. simpl.
  by destruct (memstore_handle op (d_store (w_data w))).
Qed.

(** ** The simulation *)

(** No goroutine is inside the store and the machines agree; or one is, has
    [s.mu], and is at the coarse machine past its call already. *)
Inductive sim : fconfig → config → Prop :=
  | sim_free ps w : sim (MkF (Running <$> ps) w false) (ps, w)
  | sim_busy ps w i R (body : prog memE R) k :
      i < length ps →
      sim (MkF (<[i := InStore body k]> (Running <$> ps)) w true)
        (<[i := k (evalm body (the_store w)).1]> ps,
         set_store (evalm body (the_store w)).2 w).

Lemma sim_step i c c' a :
  sim c a → fstep_by i c c' → sim c' a ∨ ∃ a', step_by i a a' ∧ sim c' a'.
Proof.
  intros Hsim Hstep. destruct Hstep as [t t' ts w w' mu mu' Ht Hadv].
  inv Hsim.
  - rewrite list_lookup_fmap in Ht. destruct (ps !! i) as [p|] eqn:Hp; inv Ht.
    right. destruct (store_call p) eqn:Hc.
    + destruct (store_call_inv p) as (R & op & k & ->); [done|].
      simpl in Hadv. inv Hadv. eexists. split.
      * econstructor; [done|]. apply advance_store.
      * apply sim_busy. by eapply lookup_lt_Some.
    + rewrite fadvance_running in Hadv by done.
      destruct (advance p w) as [p' w2| |] eqn:Ha; inv Hadv.
      exists (<[i:=p']> ps, w'). split; [by econstructor|].
      rewrite <-list_fmap_insert. apply sim_free.
  - rename i0 into j. destruct (decide (i = j)) as [->|Hne].
    + rewrite list_lookup_insert_eq in Ht by (by rewrite length_fmap). inv Ht.
      left. rewrite list_insert_insert_eq. destruct body as [r|R' e body]; simpl in Hadv.
      * inv Hadv. rewrite <-list_fmap_insert. simpl.
        replace (set_store (the_store w') w') with w' by (by destruct w' as [[] ?]).
        apply sim_free.
      * destruct (handle_mem e (the_store w)) as [r s] eqn:He. inv Hadv.
        replace (evalm (Vis e body) (the_store w)) with (evalm (body r) s)
          by (cbn; by rewrite He).
        assert (the_store (set_store s w) = s) as Hs by done.
        pose proof (sim_busy ps (set_store s w) j _ (body r) k ltac:(done)) as Hb.
        rewrite Hs in Hb. exact Hb.
    + right. rewrite list_lookup_insert_ne in Ht by done.
      rewrite list_lookup_fmap in Ht. destruct (ps !! i) as [p|] eqn:Hp; inv Ht.
      destruct (store_call p) eqn:Hc.
      { destruct (store_call_inv p) as (R' & op & k' & ->); [done|]. done. }
      rewrite fadvance_running in Hadv by done.
      destruct (advance p w) as [p' w2| |] eqn:Ha; inv Hadv.
      eexists. split.
      * econstructor; [by rewrite list_lookup_insert_ne|].
        rewrite advance_other_store by done. by rewrite Ha.
      * rewrite list_insert_insert_ne by done. rewrite <-list_fmap_insert.
        rewrite list_insert_insert_ne by done.
        rewrite <-(advance_keeps_store _ _ _ _ Hc Ha).
        apply sim_busy. by rewrite length_insert.
Qed.

Lemma sim_schedule l c c' a :
  sim c a → scheduled fstep_by l c c' →
  ∃ l' a', l' `sublist_of` l ∧ scheduled step_by l' a a' ∧ sim c' a'.
Proof.
  intros Hsim Hl. revert a Hsim.
  induction Hl as [c|i l c1 c2 c3 H12 _ IH]; intros a Hsim.
  { exists [], a. split_and!; [done|constructor|done]. }
  destruct (sim_step _ _ _ _ Hsim H12) as [H|(a1 & Ha & H)];
    destruct (IH _ H) as (l' & a2 & Hsub & Hl' & Hsim').
  - exists l', a2. split_and!; [by constructor|done|done].
  - exists (i :: l'), a2. split_and!; [by constructor|by econstructor|done].
Qed.

(** At most one goroutine is inside the store. *)
Lemma sim_one_inside c a i j t1 t2 :
  sim c a → f_threads c !! i = Some t1 → f_threads c !! j = Some t2 →
  in_store t1 = true → in_store t2 = true → i = j.
Proof.
  assert (∀ (ps : list (prog eff unit)) n t, (Running <$> ps) !! n = Some t → in_store t = false) as Hrun.
  { intros ps n t (p & -> & _)%list_lookup_fmap_Some. done. }
  intros Hsim. destruct Hsim as [ps w|ps w n R body k Hn]; simpl.
  - intros H1 _ H. rewrite (Hrun _ _ _ H1) in H. done.
  - intros [(<- & _ & _)|[_ H1]]%list_lookup_insert_Some
      [(<- & _ & _)|[_ H2]]%list_lookup_insert_Some Hs1 Hs2; [done|..];
      first [by rewrite (Hrun _ _ _ H1) in Hs1|by rewrite (Hrun _ _ _ H2) in Hs2].
Qed.

(** The finer machine crashes only where the coarser one does. *)
Lemma sim_crash c a : sim c a → fcrashes c → crashes a.
Proof.
  intros Hsim (i & t & msg & Ht & Hadv). destruct Hsim as [ps w|ps w n R body k Hn]; simpl in *.
  - apply list_lookup_fmap_Some in Ht as (p & -> & Hp). exists i, p, msg. split; [done|].
    destruct (store_call p) eqn:Hc.
    + destruct (store_call_inv p) as (R & op & k & ->); [done|]. done.
    + rewrite fadvance_running in Hadv by done. simpl. by destruct (advance p w); simplify_eq.
  - apply list_lookup_insert_Some in Ht as [(<- & <- & _)|[Hne Ht]].
    { destruct body as [r|R' e body]; simpl in Hadv; [done|]. by destruct (handle_mem e _). }
    apply list_lookup_fmap_Some in Ht as (p & -> & Hp). exists i, p, msg. simpl.
    rewrite list_lookup_insert_ne by done. split; [done|].
    destruct (store_call p) eqn:Hc.
    + destruct (store_call_inv p) as (R' & op & k' & ->); [done|]. done.
    + rewrite fadvance_running in Hadv by done. rewrite advance_other_store by done.
      by destruct (advance p w); simplify_eq.
Qed.

(** It can go on whenever the coarser one can, and is done only when that is. *)
Lemma sim_progress c a :
  sim c a → (∃ a', step a a') ∨ Forall (λ p, finished p) a.1 →
  (∃ c', fstep c c') ∨ Forall (λ t, ffinished t) (f_threads c).
Proof.
  intros Hsim Ha. destruct Hsim as [ps w|ps w n R body k Hn]; simpl in *.
  - destruct Ha as [(a' & i & Hstep)|Hfin]; [left|right; by apply Forall_fmap].
    inv Hstep. destruct (store_call p) eqn:Hc.
    + destruct (store_call_inv p) as (R & op & k & ->); [done|]. eexists. exists i.
      econstructor; [by rewrite list_lookup_fmap, H1|done].
    + eexists. exists i. econstructor; [by rewrite list_lookup_fmap, H1|].
      rewrite fadvance_running by done. by rewrite H3.
  - left. assert ((<[n:=InStore body k]> (Running <$> ps)) !! n = Some (InStore body k)) as Hin.
    { apply list_lookup_insert_eq. by rewrite length_fmap. }
    destruct body as [r|R' e body]; eexists; exists n; (econstructor; [exact Hin|]); simpl;
      [done|]. by rewrite (surjective_pairing (handle_mem e _)).
Qed.

(** ** Termination *)
Definition fchild (t' t : thread) : Prop :=
  ∃ w mu w' mu', fadvance t w mu = FReply t' w' mu'.

Lemma in_store_acc {R} (body : prog memE R) k :
  (∀ r, Acc fchild (Running (k r))) → Acc fchild (InStore body k).
Proof.
  intros Hk. induction body as [r|R' e body IH]; constructor; intros t' (w & mu & w' & mu' & H);
    simpl in H.
  - destruct mu; by simplify_eq.
  - destruct (handle_mem e _). simplify_eq. apply IH.
Qed.

Lemma fchild_wf : well_founded fchild.
Proof.
  assert (∀ p, Acc fchild (Running p)) as Hrun.
  { intros p. induction p as [a|R e k IH]; constructor; intros t' (w & mu & w' & mu' & H); [done|].
    destruct (store_call (Vis e k)) eqn:Hc.
    - destruct e as [R e| | | | | |]; [|done..]. destruct e as [R op| | |]; [|done..].
      simpl in H. destruct mu; simplify_eq. by apply in_store_acc.
    - rewrite fadvance_running in H by done. simpl in H. destruct (handle e w); simplify_eq.
      apply IH. }
  intros [p|R body k]; [done|]. by apply in_store_acc.
Qed.
Lemma fstep_terminates c : Acc (flip fstep) c.
Proof.
  destruct c as [ts w mu]. revert w mu.
  induction (one_of_wf fchild fchild_wf ts) as [ts _ IH]. intros w mu. constructor.
  intros c' [i Hstep]. inv Hstep. apply IH. exists i, t, t'. split_and!; [done| |done].
  by exists w, mu, w', mu'.
Qed.

(** ** What goroutines on a memstore may rely on *)

(** The state in which goroutines make [css] on a Manager over a memstore. *)
Definition fstart (m : Manager) (css : list (list call)) (w : world) : fconfig :=
  MkF (Running <$> (goroutine m <$> css)) w false.

Lemma fstart_sim m css w : sim (fstart m css w) (start m css w).
Proof. apply sim_free. Qed.

(** C13: memstore's methods are atomic.  Whatever goroutines do on Managers over
    a memstore, with every access to its fields and maps a step of its own, is
    done with store calls as single steps: there is a schedule of the atomic
    model, in which each goroutine moves only when it moves in the fine one
    (a call takes effect between its beginning and its end), that leads to the
    same state; while a goroutine is inside a method, the atomic model has made
    its call already ([sim_busy]). *)
Theorem memstore_calls_atomic m css w l c :
  scheduled fstep_by l (fstart m css w) c →
  ∃ l' ps w', l' `sublist_of` l ∧ scheduled step_by l' (start m css w) (ps, w') ∧
    sim c (ps, w') ∧
    (f_mu c = false → f_threads c = Running <$> ps ∧ f_world c = w').
Proof.
  intros Hl. destruct (sim_schedule _ _ _ _ (fstart_sim m css w) Hl)
    as (l' & [ps w'] & Hsub & Hl' & Hsim).
  exists l', ps, w'. split_and!; [done..|]. intros Hmu.
  inversion Hsim; subst; done.
Qed.

(** C14: goroutines over a memstore, accessing it field by field, never crash,
    never run for ever and never deadlock (a method is only entered with
    [s.mu], under which no other mutex is taken); and two of them are never
    both inside the store, so its fields and maps are free of data races.  The
    calls are any but [GenerateOneTimePreKeys] with a negative count, which
    panics ([call_ok], [GenerateOneTimePreKeys_negative]). *)
Theorem memstore_concurrent_complete m css w c :
  Forall (Forall call_ok) css → quiet (w_lk w) → rtc fstep (fstart m css w) c →
  ¬ fcrashes c ∧ Acc (flip fstep) c ∧
  ((∃ c', fstep c c') ∨ Forall (λ t, ffinished t) (f_threads c)) ∧
  (∀ i j t1 t2, f_threads c !! i = Some t1 → f_threads c !! j = Some t2 →
    in_store t1 = true → in_store t2 = true → i = j).
Proof.
  intros Hcss Hq [l Hl]%steps_scheduled.
  destruct (sim_schedule _ _ _ _ (fstart_sim m css w) Hl) as (l' & a & _ & Hl' & Hsim).
  apply scheduled_steps in Hl'. destruct (start_inv _ _ _ _ Hcss Hq Hl') as [phs Hinv].
  split_and!.
  - intros Hc. by eapply inv_no_crash, sim_crash.
  - apply fstep_terminates.
  - eapply sim_progress; [done|]. by eapply inv_progress_or_done.
  - intros i j t1 t2. by apply (sim_one_inside c a).
Qed.
End Machine.
