(* ===== verification/PreKeyOwnership.v ===== *)
(** * One-time prekeys under concurrency

    No lock of the Manager guards the prekey pool: top-ups and decryptions of
    different senders interleave freely, and only single store calls are
    atomic.  The argument is by ownership: an ID that [NextPreKeyID] handed to
    a goroutine belongs to it until it is put into the pool; what a goroutine
    puts is its own ([disciplined]); so no put overwrites a pooled prekey, no
    consumed ID comes back, and each prekey is consumed at most once in any
    interleaving. *)
From S2P Require Import Prelude Types Errors StoreSpec Transport Xochimilco Prog.
From S2P Require Import ProgFacts Signal Manager StoreFacts ManagerKeys.
From S2P Require Import LockProtocol Concurrency.

(** ** The discipline of a program *)
Section Discipline.
Context `{GC : GoCrypto} {T : Transport}.

(** One store call of a goroutine that owns the IDs [O] and may still allocate
    [b] of them; [F]: what must hold after each answer. *)
Definition own_store {R} (op : storeE R) (O : gset Z) (b : nat)
    (F : R → gset Z → nat → Prop) : Prop :=
  match op in storeE R return (R → gset Z → nat → Prop) → Prop with
  | OpNextPreKeyID => λ F, 0 < b ∧ (∀ e, F (Err e) O (pred b)) ∧
      ∀ id, id ∉ O → F (Ok id) ({[id]} ∪ O) (pred b)
  | OpPutPreKeys recs => λ F, list_to_set (ids recs) ⊆ O ∧
      ∀ r, F r (O ∖ list_to_set (ids recs)) b
  | _ => λ F, ∀ r, F r O b
  end F.

Definition own_step {R} (e : eff R) (O : gset Z) (b : nat)
    (F : R → gset Z → nat → Prop) : Prop :=
  match e in eff R return (R → gset Z → nat → Prop) → Prop with
  | EBase e => λ F,
      match e in baseE R return (R → gset Z → nat → Prop) → Prop with
      | EStore op => own_store op O b
      | _ => λ F, ∀ r, F r O b
      end F
  | _ => λ F, ∀ r, F r O b
  end F.

Fixpoint disciplined {A} (p : prog eff A) (O : gset Z) (b : nat)
    (Q : A → gset Z → nat → Prop) : Prop :=
  match p with
  | Ret a => Q a O b
  | Vis e k => own_step e O b (λ r O b, disciplined (k r) O b Q)
  end.

Lemma own_step_mono {R} (e : eff R) O b (F G : R → gset Z → nat → Prop) :
  (∀ r O b, F r O b → G r O b) → own_step e O b F → own_step e O b G.
Proof.
  intros HFG. destruct e as [R e|m|m|dev|dev m| |msg]; simpl; auto.
  destruct e as [R op|R op|f dev key|R f]; simpl; auto.
  destruct op; simpl; try naive_solver.
Qed.

Lemma disciplined_mono {A} (p : prog eff A) O b (P Q : A → gset Z → nat → Prop) :
  (∀ a O b, P a O b → Q a O b) → disciplined p O b P → disciplined p O b Q.
Proof.
  intros HPQ. revert O b. induction p as [a|R e k IH]; intros O b; simpl; [apply HPQ|].
  apply own_step_mono. intros r O' b'. apply IH.
Qed.

Lemma disciplined_bind {A B} (p : prog eff A) (f : A → prog eff B) O b Q :
  disciplined p O b (λ a O b, disciplined (f a) O b Q) → disciplined (p ≫= f) O b Q.
Proof.
  revert O b. induction p as [a|R e k IH]; intros O b; [done|].
  apply own_step_mono. intros r O' b'. apply IH.
Qed.

Lemma disciplined_lift_bind {A B} (p : prog baseE A) (f : A → prog baseE B) O b Q :
  disciplined (lift p) O b (λ a O b, disciplined (lift (f a)) O b Q) →
  disciplined (lift (p ≫= f)) O b Q.
Proof.
  revert O b. induction p as [a|R e k IH]; intros O b; [done|].
  apply own_step_mono. intros r O' b'. apply IH.
Qed.

(** A program that adds no prekeys. *)
Lemma disciplined_lift {A} D (p : prog baseE A) O b Q :
  Plain D p → (∀ a, Q a O b) → disciplined (lift p) O b Q.
Proof.
  unfold AllOps. intros Hp HQ. induction p as [a|R e k IH]; simpl; [apply HQ|].
  destruct Hp as [He Hk]. destruct e as [R op|R op|f dev key|R f]; simpl; auto.
  destruct He as [Hadd _]. destruct op; simpl in *; try done; auto.
Qed.

Lemma disciplined_with_deviceLock {A} dev (body : prog baseE A) O b Q :
  Plain (Some dev) body → (∀ a, Q a O b) →
  disciplined (with_deviceLock dev body) O b Q.
Proof.
  intros Hb HQ. unfold with_deviceLock. apply disciplined_bind.
  unfold deviceLock. apply disciplined_bind. intros ?. apply disciplined_bind.
  assert (∀ l, disciplined (Unlock LocksMu;; mret l) O b (λ lock O b,
    disciplined (Lock lock;; r ← lift body; Unlock lock;; mret r) O b Q)) as Hrest.
  { intros l ?. intros ?. apply disciplined_bind. eapply disciplined_lift; [done|].
    intros a ?. apply HQ. }
  intros [l|]; [apply disciplined_bind, Hrest|].
  apply disciplined_bind, disciplined_bind. intros l ?. apply Hrest.
Qed.
End Discipline.

(** ** The API calls are disciplined *)
Section Calls.
Context `{X : Xochimilco} {T : Transport}.

(** How many IDs a call, and a goroutine, may allocate. *)
Definition call_demand (c : call) : nat :=
  match c with CallGenerateOneTimePreKeys n => Z.to_nat n | _ => 0 end.
Definition demand (cs : list call) : nat := sum_list_with call_demand cs.

(** Ends owning anything, with at least the budget [b]. *)
Definition leaves {A} (b : nat) : A → gset Z → nat → Prop := λ _ _ b', b ≤ b'.

#[local] Ltac solve_leaves := intros; simpl; unfold leaves; lia.

Lemma generate_loop_owns k recs O b :
  list_to_set (ids recs) ⊆ O → k ≤ b →
  disciplined (lift (generate_loop k recs)) O b
    (λ r O' b', b - k ≤ b' ∧ ∀ l, r = Ok l → list_to_set (ids l) ⊆ O').
Proof.
  revert recs O b. induction k as [|k IH]; intros recs O b Hrecs Hb.
  { split; [lia|]. by intros l [= <-]. }
  split; [lia|]. split; [intros e; split; [lia|done]|]. intros id Hid r.
  destruct r as [[pub priv]|e]; [|split; [lia|done]].
  eapply disciplined_mono, IH; [|unfold ids in *; rewrite map_app, list_to_set_app_L; set_solver|
    lia].
  intros r O' b' [Hb' Hl]. split; [lia|done].
Qed.

Lemma generate_owns n O b :
  Z.to_nat n ≤ b → disciplined (generateOneTimePreKeys n) O b (leaves (b - Z.to_nat n)).
Proof.
  intros Hb. unfold generateOneTimePreKeys.
  destruct (n <? 0)%Z; [unfold panic; simpl; by intros []|].
  apply disciplined_lift_bind. eapply disciplined_mono; [|by apply generate_loop_owns].
  intros [l|e] O' b' [Hb' Hl]; [|done]. split; [by apply Hl|]. done.
Qed.

Lemma ignore_leaves {A} (p : prog eff A) O b k :
  disciplined p O b (leaves k) → disciplined (ignore p) O b (leaves k).
Proof. intros H. apply disciplined_bind. eapply disciplined_mono, H. done. Qed.

Lemma plain_leaves {A} D (p : prog baseE A) O b :
  Plain D p → disciplined (lift p) O b (leaves b).
Proof. intros Hp. eapply disciplined_lift; [done|]. solve_leaves. Qed.

Lemma encrypt_loop_leaves m km devices keys errs O b :
  disciplined (encrypt_loop m km devices keys errs) O b (λ _ O' b', O' = O ∧ b' = b).
Proof.
  revert keys errs. induction devices as [|dev devices IH]; intros keys errs; [done|].
  cbn [encrypt_loop]. case_decide; [apply IH|]. apply disciplined_bind.
  apply disciplined_with_deviceLock; [apply plain_encryptForDevice_locked|].
  intros [key|err]; apply IH.
Qed.

Lemma encrypt_leaves m jid pt O b : disciplined (encrypt m jid pt) O b (leaves b).
Proof.
  apply disciplined_bind. eapply disciplined_lift; [apply (plain_recipientDevices None)|].
  intros [devices|e]; [|solve_leaves]. apply disciplined_bind.
  eapply disciplined_lift; [apply (plain_EncryptPayload None)|].
  intros [[[km iv] ct]|e]; [|solve_leaves].
  destruct (if is_nil pt then _ else _) as [ct' iv']. apply disciplined_bind.
  eapply disciplined_mono, encrypt_loop_leaves. intros [keys errs] O' b' [-> ->].
  case_decide; solve_leaves.
Qed.

Lemma call_owns m c O b :
  call_demand c ≤ b → disciplined (call_prog m c) O b (leaves (b - call_demand c)).
Proof.
  intros Hb. destruct c; cbn [call_prog call_demand] in *; rewrite ?Nat.sub_0_r;
    apply ignore_leaves.
  - apply (plain_leaves None), plain_Manager_Bundle.
  - apply (plain_leaves None), plain_Manager_PublishBundle.
  - apply (plain_leaves None), plain_Manager_RotateSignedPreKey.
  - apply (plain_leaves None), plain_NeedsMorePreKeys.
  - by apply generate_owns.
  - apply (plain_leaves None), plain_SyncDevices.
  - apply disciplined_with_deviceLock; [apply plain_ResetSession_locked|solve_leaves].
  - apply encrypt_leaves.
  - apply encrypt_leaves.
  - unfold DecryptMessage. destruct (own_key _ _); [|solve_leaves].
    apply disciplined_with_deviceLock; [apply plain_DecryptMessage_locked|solve_leaves].
Qed.

Lemma goroutine_owns m cs O b :
  demand cs ≤ b → disciplined (goroutine m cs) O b (λ _ _ _, True).
Proof.
  revert O b. induction cs as [|c cs IH]; intros O b Hb; [done|]. simpl in Hb.
  apply disciplined_bind. eapply disciplined_mono; [|apply call_owns; lia].
  intros ? O' b' Hb'. apply IH. unfold leaves in Hb'. unfold demand in *. simpl in Hb. lia.
Qed.
End Calls.

(** ** Every interleaving *)
Section Interleavings.
Context `{X : Xochimilco} {T : Transport} {ST : Store} {SC : StoreContract ST}.

(** The prekey a successful ConsumePreKey took. *)
Definition consumed_store {R} (op : storeE R) : R → list Z :=
  match op in storeE R return R → list Z with
  | OpConsumePreKey id => λ r, if is_ok r then [id] else []
  | _ => λ _, []
  end.
Definition consumed_eff {R} (e : eff R) : R → list Z :=
  match e in eff R return R → list Z with
  | EBase e => match e in baseE R return R → list Z with
               | EStore op => consumed_store op
               | _ => λ _, []
               end
  | _ => λ _, []
  end.
Definition consumed_next (p : prog eff unit) (w : world) : list Z :=
  match p with
  | Ret _ => []
  | Vis e k => match handle e w with Reply r _ => consumed_eff e r | _ => [] end
  end.

(** Executions, with the prekeys consumed on the way, in order. *)
Inductive exec : config → list Z → config → Prop :=
  | exec_refl c : exec c [] c
  | exec_step c log c1 i p c2 :
      exec c log c1 → c1.1 !! i = Some p → step_by i c1 c2 →
      exec c (log ++ consumed_next p c1.2) c2.

(** What each goroutine owns and may still allocate. *)
Abbreviation ghost := (gset Z * nat)%type.

Record owned (pool0 : gmap Z PreKeyRecord) (ps : list (prog eff unit)) (a : astore)
    (log : list Z) (gs : list ghost) : Prop := {
  own_threads : Forall2 (λ p g, disciplined p g.1 g.2 (λ _ _ _, True)) ps gs;
  own_disjoint i j g1 g2 : gs !! i = Some g1 → gs !! j = Some g2 → i ≠ j → g1.1 ## g2.1;
  own_fresh i g : gs !! i = Some g →
    g.1 ⊆ a_issued a ∧ g.1 ## dom (a_pool a) ∧ g.1 ## list_to_set log;
  own_issued : dom (a_pool a) ⊆ a_issued a ∧ list_to_set log ⊆ a_issued a;
  own_log : NoDup log ∧ dom (a_pool a) ## list_to_set log;
  own_capacity : capacity a (sum_list_with snd gs);
  own_kept id rec : pool0 !! id = Some rec → a_pool a !! id = Some rec ∨ id ∈ log }.

(** One goroutine [i] moves from [g] to [g'], owning nothing anyone else has. *)
Lemma owned_update pool0 ps a log gs i p' g g' a' log' :
  owned pool0 ps a log gs → gs !! i = Some g →
  disciplined p' g'.1 g'.2 (λ _ _ _, True) →
  (∀ j gj, gs !! j = Some gj → j ≠ i →
    g'.1 ## gj.1 ∧ gj.1 ⊆ a_issued a' ∧ gj.1 ## dom (a_pool a') ∧
    gj.1 ## list_to_set log') →
  g'.1 ⊆ a_issued a' ∧ g'.1 ## dom (a_pool a') ∧ g'.1 ## list_to_set log' →
  dom (a_pool a') ⊆ a_issued a' ∧ list_to_set log' ⊆ a_issued a' →
  NoDup log' ∧ dom (a_pool a') ## list_to_set log' →
  size (a_issued a') + g'.2 ≤ size (a_issued a) + g.2 →
  (∀ id rec, a_pool a !! id = Some rec ∨ id ∈ log →
    a_pool a' !! id = Some rec ∨ id ∈ log') →
  owned pool0 (<[i := p']> ps) a' log' (<[i := g']> gs).
Proof.
  intros Hown Hi Hp' Hothers Hmine Hiss Hlog Hcap Hkept. split; [| | |done|done| |].
  - apply Forall2_insert; [apply Hown|done].
  - intros j k g1 g2. rewrite !list_lookup_insert_Some.
    intros [(<- & <- & _)|[Hj H1]] [(<- & <- & _)|[Hk H2]] Hjk; [done|..].
    + by apply (Hothers k).
    + symmetry. by apply (Hothers j).
    + by eapply (own_disjoint _ _ _ _ _ Hown j k).
  - intros j g1 [(<- & <- & _)|[Hj H1]]%list_lookup_insert_Some; [done|].
    by apply (Hothers j g1).
  - pose proof (own_capacity _ _ _ _ _ Hown) as Hc. unfold capacity in *.
    pose proof (sum_list_with_insert snd _ _ _ g' Hi). lia.
  - intros id rec Hrec. eapply Hkept, (own_kept _ _ _ _ _ Hown); eauto.
Qed.

(** A step that touches neither the pool nor the record of issued IDs. *)
Lemma owned_frame pool0 ps a log gs i p' g a' :
  owned pool0 ps a log gs → gs !! i = Some g →
  disciplined p' g.1 g.2 (λ _ _ _, True) →
  a_pool a' = a_pool a → a_issued a' = a_issued a →
  owned pool0 (<[i := p']> ps) a' log gs.
Proof.
  intros Hown Hi Hp' Hpool Hiss. rewrite <-(list_insert_id gs i g) by done.
  destruct (own_fresh _ _ _ _ _ Hown _ _ Hi) as (? & ? & ?).
  eapply owned_update; try done; rewrite ?Hpool, ?Hiss; try done.
  - intros j gj Hj Hne. split; [|by apply (own_fresh _ _ _ _ _ Hown j)].
    by eapply (own_disjoint _ _ _ _ _ Hown i j).
  - apply Hown.
  - apply Hown.
Qed.

Lemma owned_next pool0 ps a log gs i p' g id :
  owned pool0 ps a log gs → gs !! i = Some g → 0 < g.2 → id ∉ a_issued a →
  disciplined p' ({[id]} ∪ g.1) (pred g.2) (λ _ _ _, True) →
  owned pool0 (<[i := p']> ps) (set_issued ({[id]} ∪ a_issued a) a) log
    (<[i := ({[id]} ∪ g.1, pred g.2)]> gs).
Proof.
  intros Hown Hi Hb Hid Hp'. destruct (own_fresh _ _ _ _ _ Hown _ _ Hi) as (Hiss & Hpool & Hlog).
  destruct (own_issued _ _ _ _ _ Hown) as [Hp Hl].
  eapply owned_update; try done; simpl; [|set_solver|set_solver|apply Hown|].
  - intros j gj Hj Hne. destruct (own_fresh _ _ _ _ _ Hown _ _ Hj) as (? & ? & ?).
    pose proof (own_disjoint _ _ _ _ _ Hown i j _ _ Hi Hj (not_eq_sym Hne)).
    split_and!; set_solver.
  - rewrite size_union, size_singleton by set_solver. lia.
Qed.

Lemma owned_fail_next pool0 ps a log gs i p' g :
  owned pool0 ps a log gs → gs !! i = Some g →
  disciplined p' g.1 (pred g.2) (λ _ _ _, True) →
  owned pool0 (<[i := p']> ps) a log (<[i := (g.1, pred g.2)]> gs).
Proof.
  intros Hown Hi Hp'. destruct (own_fresh _ _ _ _ _ Hown _ _ Hi) as (? & ? & ?).
  eapply owned_update; try done; simpl; try apply Hown; [|lia].
  intros j gj Hj Hne. split; [|by apply (own_fresh _ _ _ _ _ Hown j)].
  by eapply (own_disjoint _ _ _ _ _ Hown i j).
Qed.

Lemma owned_put pool0 ps a log gs i p' g recs :
  owned pool0 ps a log gs → gs !! i = Some g → list_to_set (ids recs) ⊆ g.1 →
  disciplined p' (g.1 ∖ list_to_set (ids recs)) g.2 (λ _ _ _, True) →
  owned pool0 (<[i := p']> ps) (set_pool (put_prekeys recs (a_pool a)) a) log
    (<[i := (g.1 ∖ list_to_set (ids recs), g.2)]> gs).
Proof.
  intros Hown Hi Hrecs Hp'.
  destruct (own_fresh _ _ _ _ _ Hown _ _ Hi) as (Hiss & Hpool & Hlog).
  destruct (own_issued _ _ _ _ _ Hown) as [Hp Hl]. destruct (own_log _ _ _ _ _ Hown).
  eapply owned_update; try done; simpl; rewrite ?put_prekeys_dom.
  - intros j gj Hj Hne. destruct (own_fresh _ _ _ _ _ Hown _ _ Hj) as (? & ? & ?).
    pose proof (own_disjoint _ _ _ _ _ Hown i j _ _ Hi Hj (not_eq_sym Hne)).
    split_and!; set_solver.
  - split_and!; set_solver.
  - split; set_solver.
  - split; [done|set_solver].
  - intros id rec [Hid|Hid]; [left|by right]. rewrite put_prekeys_lookup_old; [done|].
    intros Hin. apply elem_of_dom_2 in Hid. set_solver.
Qed.

(** A put that fails only makes the goroutine forget its IDs. *)
Lemma owned_fail_put pool0 ps a log gs i p' g O :
  owned pool0 ps a log gs → gs !! i = Some g →
  disciplined p' (g.1 ∖ O) g.2 (λ _ _ _, True) →
  owned pool0 (<[i := p']> ps) a log (<[i := (g.1 ∖ O, g.2)]> gs).
Proof.
  intros Hown Hi Hp'. destruct (own_fresh _ _ _ _ _ Hown _ _ Hi) as (? & ? & ?).
  eapply owned_update; try done; simpl; try apply Hown.
  - intros j gj Hj Hne. split; [|by apply (own_fresh _ _ _ _ _ Hown j)].
    pose proof (own_disjoint _ _ _ _ _ Hown i j _ _ Hi Hj (not_eq_sym Hne)). set_solver.
  - split_and!; set_solver.
Qed.

Lemma owned_consume pool0 ps a log gs i p' g id rec :
  owned pool0 ps a log gs → gs !! i = Some g → a_pool a !! id = Some rec →
  disciplined p' g.1 g.2 (λ _ _ _, True) →
  owned pool0 (<[i := p']> ps) (set_pool (delete id (a_pool a)) a) (log ++ [id]) gs.
Proof.
  intros Hown Hi Hrec Hp'. rewrite <-(list_insert_id gs i g) by done.
  destruct (own_issued _ _ _ _ _ Hown) as [Hp Hl]. destruct (own_log _ _ _ _ _ Hown) as [Hnd Hpl].
  apply elem_of_dom_2 in Hrec as Hid.
  assert (∀ O : gset Z, O ## dom (a_pool a) → O ## list_to_set log →
    O ## dom (delete id (a_pool a)) ∧ O ## list_to_set (C := gset Z) (log ++ [id])) as Hdisj.
  { intros O. rewrite dom_delete_L, list_to_set_app_L. set_solver. }
  destruct (own_fresh _ _ _ _ _ Hown _ _ Hi) as (? & ? & ?).
  eapply owned_update; try done; simpl.
  - intros j gj Hj Hne. destruct (own_fresh _ _ _ _ _ Hown _ _ Hj) as (? & ? & ?).
    split; [by eapply (own_disjoint _ _ _ _ _ Hown i j)|]. split; [done|by apply Hdisj].
  - split; [done|by apply Hdisj].
  - rewrite dom_delete_L, list_to_set_app_L. split; set_solver.
  - split.
    + apply NoDup_app. split_and!; [done|set_solver|apply NoDup_singleton].
    + rewrite dom_delete_L, list_to_set_app_L. set_solver.
  - intros id' rec' [Hid'|Hid']; [|right; set_solver].
    destruct (decide (id' = id)) as [->|Hne]; [right; set_solver|left].
    by rewrite lookup_delete_ne.
Qed.

Lemma store_spec_pool_frame {R} (op : storeE R) a r a' :
  store_spec op a r a' → adds_prekeys op = false → consumed_store op r = [] →
  a_pool a' = a_pool a ∧ a_issued a' = a_issued a.
Proof.
  destruct op; simpl; unfold reads, writes, fails; intros Hspec Hadd Hcon; try done.
  all: try (destruct Hspec as [[_ ->]|[_ ->]]; done).
  - by destruct Hspec as [(l & _ & _ & ->)|[_ ->]].
  - by destruct Hspec as [(rec & -> & _)|[_ ->]].
Qed.

(** One store call. *)
Lemma owned_store {R} (op : storeE R) pool0 ps a log gs i g k r a' :
  owned pool0 ps a log gs → gs !! i = Some g →
  own_store op g.1 g.2 (λ r O b, disciplined (k r) O b (λ _ _ _, True)) →
  store_spec op a r a' →
  ∃ gs', owned pool0 (<[i := k r]> ps) a' (log ++ consumed_store op r) gs'.
Proof.
  intros Hown Hi Hop Hspec.
  destruct (adds_prekeys op) eqn:Hadd.
  - destruct op; try done; simpl in *; rewrite app_nil_r.
    + destruct Hop as (Hb & Herr & Hok). destruct Hspec as [(id & -> & _ & Hfresh & _)|[[e ->] ->]].
      * destruct Hfresh as [Hid ->].
        { pose proof (own_capacity _ _ _ _ _ Hown) as Hc. unfold capacity, ids_left in *.
          pose proof (sum_list_with_insert snd _ _ _ (∅, 0) Hi). simpl in *. lia. }
        eexists. eapply owned_next; try done. apply Hok.
        destruct (own_fresh _ _ _ _ _ Hown _ _ Hi). set_solver.
      * eexists. by eapply owned_fail_next.
    + destruct Hop as [Hrecs Hk]. destruct Hspec as [[-> ->]|[[e ->] ->]]; eexists.
      * by eapply owned_put.
      * by eapply owned_fail_put.
  - assert (∀ r, disciplined (k r) g.1 g.2 (λ _ _ _, True)) as Hk
      by (destruct op; done || apply Hop).
    destruct (consumed_store op r) as [|id l] eqn:Hcon.
    + rewrite app_nil_r. exists gs.
      destruct (store_spec_pool_frame _ _ _ _ Hspec Hadd Hcon). by eapply owned_frame.
    + destruct op; try done. simpl in *. unfold fails in Hspec.
      destruct Hspec as [(rec & -> & Hrec & ->)|[[e ->] _]]; simplify_eq/=.
      exists gs. by eapply owned_consume.
Qed.

Lemma step_owned pool0 i ps w log gs p c' :
  good (w_data w) → owned pool0 ps (av (w_data w)) log gs →
  ps !! i = Some p → step_by i (ps, w) c' →
  ∃ gs', owned pool0 c'.1 (av (w_data c'.2)) (log ++ consumed_next p w) gs'.
Proof.
  intros Hg Hown Hp Hstep. remember (ps, w) as c0 eqn:Hc0.
  destruct Hstep as [p0 p' ps0 w0 w' Hp0 Hadv]. injection Hc0 as -> ->.
  assert (p0 = p) as -> by congruence. clear Hp0.
  destruct (Forall2_lookup_l _ _ _ _ _ (own_threads _ _ _ _ _ Hown) Hp) as (g & Hi & Hd).
  destruct p as [a|R e k]; [done|]. simpl in *.
  destruct (handle e w) as [r w1| |] eqn:Hh; simplify_eq.
  destruct e as [R e|m|m|dev|dev m| |msg]; simpl in *; repeat case_decide; simplify_eq;
    try (rewrite app_nil_r; exists gs; by eapply owned_frame).
  destruct e as [R op|R op|f dev key|R f]; simpl in Hh.
  2-4: repeat case_match; simplify_eq; rewrite app_nil_r; exists gs; by eapply owned_frame.
  pose proof (store_step op (d_store (w_data w)) Hg) as [_ Hspec].
  destruct (handle_store op (d_store (w_data w))) as [r' s']. simplify_eq. simpl in *.
  by eapply owned_store.
Qed.

Lemma exec_good c log c' : exec c log c' → good (w_data c.2) → good (w_data c'.2).
Proof.
  induction 1 as [|c log c1 i p c2 _ IH _ Hstep]; [done|]. intros Hg.
  eapply step_good; [by exists i|auto].
Qed.

Lemma exec_owned pool0 c log c' gs :
  exec c log c' → good (w_data c.2) → owned pool0 c.1 (av (w_data c.2)) [] gs →
  ∃ gs', owned pool0 c'.1 (av (w_data c'.2)) log gs'.
Proof.
  intros Hexec Hg Hown. induction Hexec as [|c log c1 i p c2 Hc IH Hp Hstep]; [eauto|].
  destruct (IH Hg Hown) as [gs1 Hown1]. destruct c1 as [ps w].
  eapply step_owned; try done. apply (exec_good _ _ _ Hc Hg).
Qed.

(** The executions are the interleavings. *)
Lemma exec_steps c c' : rtc step c c' ↔ ∃ log, exec c log c'.
Proof.
  split.
  - revert c'. apply rtc_ind_r; [exists []; constructor|].
    intros c1 c2 _ [i Hstep] [log Hexec].
    assert (∃ p, c1.1 !! i = Some p) as [p Hp] by (destruct Hstep; eauto).
    eexists. by eapply exec_step.
  - intros [log Hexec]. induction Hexec as [|c log c1 i p c2 _ IH _ Hstep]; [done|].
    eapply rtc_r; [done|by exists i].
Qed.

Lemma owned_start m css w :
  pool_issued (av (w_data w)) → capacity (av (w_data w)) (sum_list_with demand css) →
  owned (a_pool (av (w_data w))) (goroutine m <$> css) (av (w_data w)) []
    ((λ cs, (∅, demand cs)) <$> css).
Proof.
  intros Hp Hcap. split.
  - apply Forall2_fmap, Forall_Forall2_diag, Forall_true. intros cs. by apply goroutine_owns.
  - intros i j g1 g2 Hg1 _ _. apply list_lookup_fmap_Some in Hg1 as (cs & -> & _).
    set_solver.
  - intros i g Hg. apply list_lookup_fmap_Some in Hg as (cs & -> & _). set_solver.
  - set_solver.
  - split; [constructor|set_solver].
  - by rewrite sum_list_with_fmap.
  - by left.
Qed.

(** C15: each one-time prekey is used once, however calls interleave.  On any
    store that meets the contract, with room for the IDs the calls may
    allocate, consider any number of goroutines making any API calls on one
    Manager and any interleaving of them.  The prekeys taken from the pool on
    the way are all different, none of them is in the pool again, every
    prekey that was in the pool at the start is still there unchanged or was
    taken (concurrent top-ups overwrite nothing), and every pooled ID remains
    recorded as issued. *)
Theorem concurrent_prekeys_used_once m css w log c :
  good (w_data w) → pool_issued (av (w_data w)) →
  capacity (av (w_data w)) (sum_list_with demand css) →
  exec (start m css w) log c →
  let pool := a_pool (av (w_data c.2)) in
  NoDup log ∧ (∀ id, id ∈ log → pool !! id = None) ∧
  (∀ id rec, a_pool (av (w_data w)) !! id = Some rec → pool !! id = Some rec ∨ id ∈ log) ∧
  pool_issued (av (w_data c.2)).
Proof.
  intros Hg Hp Hcap Hexec.
  destruct (exec_owned _ _ _ _ _ Hexec Hg (owned_start m css w Hp Hcap)) as [gs Hown].
  destruct (own_log _ _ _ _ _ Hown) as [Hnd Hpl]. split_and!; [done| |apply Hown|apply Hown].
  intros id Hid. apply not_elem_of_dom. set_solver.
Qed.
End Interleavings.
