(* ===== verification/Equivalence.v ===== *)
(** * Programs that make the same calls

    [p ≡ q] on programs: the same effects in the same order, with equal
    answers, and equal results.  It is coarser than equality of trees (their
    continuations are functions) and finer than equality of results: two
    equivalent programs cannot be told apart by running them alone ([run]) or
    among other goroutines ([Concurrency.step]).  The monad laws hold up to it.

    With it the accumulating loop of [encrypt] is shown equal to a reference
    definition without loops or flags. *)
From S2P Require Import Prelude Types Errors StoreSpec Transport Xochimilco Prog.
From S2P Require Import ProgFacts StoreFacts Signal SignalFacts Manager LockFacts ManagerEncrypt.
From S2P Require Import LockProtocol Concurrency.

Section Equiv.
Context {E : Type → Type}.

Fixpoint same_calls {A} (p q : prog E A) : Prop :=
  match p with
  | Ret a => q = Ret a
  | Vis e k => ∃ k', q = Vis e k' ∧ ∀ r, same_calls (k r) (k' r)
  end.

#[global] Instance prog_equiv {A} : Equiv (prog E A) := same_calls.

#[global] Instance prog_equivalence {A} : Equivalence (≡@{prog E A}).
Proof.
  unfold equiv, prog_equiv. split.
  - intros p. induction p as [a|R e k IH]; [done|]. by exists k.
  - intros p. induction p as [a|R e k IH]; intros q; simpl; [by intros ->|].
    intros (k' & -> & Hk). exists k. split; [done|]. intros r. by apply IH.
  - intros p. induction p as [a|R e k IH]; intros q s; simpl; [by intros ->|].
    intros (k1 & -> & H1) (k2 & -> & H2). exists k2. split; [done|].
    intros r. by eapply IH.
Qed.

Lemma equiv_vis {A R} (e : E R) (k k' : R → prog E A) :
  (∀ r, k r ≡ k' r) → Vis e k ≡ Vis e k'.
Proof. intros Hk. by exists k'. Qed.

Lemma equiv_ret_inv {A} (a : A) (q : prog E A) : Ret a ≡ q → q = Ret a.
Proof. done. Qed.
Lemma equiv_vis_inv {A R} (e : E R) (k : R → prog E A) q :
  Vis e k ≡ q → ∃ k', q = Vis e k' ∧ ∀ r, k r ≡ k' r.
Proof. done. Qed.

Lemma bind_cong {A B} (p q : prog E A) (f g : A → prog E B) :
  p ≡ q → (∀ a, f a ≡ g a) → p ≫= f ≡ q ≫= g.
Proof.
  intros Hpq Hfg. revert q Hpq. induction p as [a|R e k IH]; intros q;
    [intros ->%equiv_ret_inv; apply Hfg|].
  intros (k' & -> & Hk)%equiv_vis_inv. apply equiv_vis. intros r. by apply IH.
Qed.

#[global] Instance bind_proper {A B} :
  Proper (pointwise_relation A (≡@{prog E B}) ==> (≡@{prog E A}) ==> (≡))
    (@mbind (prog E) _ A B).
Proof. intros f g Hfg p q Hpq. by apply bind_cong. Qed.

Lemma bind_ret {A B} (a : A) (f : A → prog E B) : mret a ≫= f = f a.
Proof. done. Qed.
Lemma bind_assoc {A B C} (p : prog E A) (f : A → prog E B) (g : B → prog E C) :
  (p ≫= f) ≫= g ≡ p ≫= λ a, f a ≫= g.
Proof. induction p as [a|R e k IH]; [done|]. apply equiv_vis. apply IH. Qed.
End Equiv.

Section Run.
Context `{X : Xochimilco} {T : Transport} {ST : Store}.

Lemma lift_bind {A B} (p : prog baseE A) (f : A → prog baseE B) :
  lift (p ≫= f) ≡ lift p ≫= λ a, lift (f a).
Proof.
  induction p as [a|R e k IH]; [done|]. apply equiv_vis. apply IH.
Qed.

Lemma run_proper {A} (p q : prog eff A) w : p ≡ q → run p w = run q w.
Proof.
  revert q w. induction p as [a|R e k IH]; intros q w; [by intros ->%equiv_ret_inv|].
  intros (k' & -> & Hk)%equiv_vis_inv. simpl. destruct (handle e w) as [r w'| |]; [|done..].
  by apply IH.
Qed.

(** Equivalent goroutines take the same steps in every interleaving. *)
Lemma step_by_equiv i ps qs w c :
  Forall2 (≡) ps qs → step_by i (ps, w) c →
  ∃ qs', step_by i (qs, w) (qs', c.2) ∧ Forall2 (≡) c.1 qs'.
Proof.
  intros Heq Hstep. remember (ps, w) as c0 eqn:Hc0.
  destruct Hstep as [p p' ps0 w0 w' Hp Hadv]. injection Hc0 as -> ->.
  destruct (Forall2_lookup_l _ _ _ _ _ Heq Hp) as (q & Hq & Hpq).
  destruct p as [a|R e k]; [done|]. apply equiv_vis_inv in Hpq as (k' & -> & Hk).
  simpl in Hadv. destruct (handle e w) as [r w1| |] eqn:Hh; simplify_eq.
  exists (<[i := k' r]> qs). split.
  - econstructor; [done|]. simpl. by rewrite Hh.
  - simpl. by apply Forall2_insert.
Qed.
End Run.

Section Reference.
Context `{X : Xochimilco} {T : Transport}.
Implicit Types m : Manager.

(** What encrypt needs before the first device: the recipients, the key
    material and the payload. *)
Definition prepare m (jid : string) (plaintext : gobytes) :
    prog baseE (result (list Device * gobytes * (gobytes * gobytes))) :=
  devices <-? recipientDevices m jid;
  '(km, iv, ciphertext) <-? EncryptPayload (m_protocol m) plaintext wrap "encrypt payload";
  pure (Ok (devices, km,
    match plaintext with None => (None, None) | Some _ => (ciphertext, iv) end)).

(** Each recipient but the sending device is tried once, in order. *)
Definition attempts m (km : gobytes) (devices : list Device) : prog eff outcomes :=
  mapM (λ dev, r ← encryptForDevice m dev km; mret (dev, r))
    (filter (λ dev, dev ≠ m_localDevice m) devices).

Definition report m (body : gobytes * gobytes) (os : outcomes) : encrypt_results :=
  match outcome_keys os with
  | [] => (None, outcome_errs os, Some (Sentinel ErrNoRecipients))
  | keys =>
      (Some (MkEncryptedMessage (m_localDevice m) keys body.1 body.2), outcome_errs os, None)
  end.

Definition encrypt_reference m (jid : string) (plaintext : gobytes) :
    prog eff encrypt_results :=
  r ← lift (prepare m jid plaintext);
  match r with
  | Err err => mret (None, [], Some err)
  | Ok (devices, km, body) => os ← attempts m km devices; mret (report m body os)
  end.

Lemma encrypt_loop_reference m km devices keys errs :
  encrypt_loop m km devices keys errs ≡
  os ← attempts m km devices; mret (keys ++ outcome_keys os, errs ++ outcome_errs os).
Proof.
  revert keys errs. induction devices as [|dev devices IH]; intros keys errs;
    cbn [encrypt_loop]; unfold attempts; rewrite ?filter_nil, ?filter_cons.
  { cbn [mapM]. rewrite bind_ret. by rewrite !app_nil_r. }
  case_decide as Hdev; [rewrite decide_False by naive_solver|rewrite decide_True by done].
  { apply IH. }
  cbn [mapM]. rewrite !bind_assoc. apply bind_cong; [done|]. intros r.
  rewrite bind_ret, bind_assoc. setoid_rewrite bind_ret.
  destruct r as [key|e]; rewrite IH; apply bind_cong; try done;
    intros os; simpl; by rewrite <-app_assoc.
Qed.

(** C22: [EncryptMessage] is its reference definition: prepare, then try each
    recipient other than the sending device once and in order, then report
    the successes as keys and the failures as device errors.  The two make
    the same calls in the same order whatever is answered, so no caller can
    tell them apart, on any store, transport and backend. *)
Theorem encrypt_equals_reference {ST : Store} m jid plaintext :
  EncryptMessage m jid plaintext ≡ encrypt_reference m jid plaintext ∧
  ∀ w, run (EncryptMessage m jid plaintext) w = run (encrypt_reference m jid plaintext) w.
Proof.
  assert (EncryptMessage m jid plaintext ≡ encrypt_reference m jid plaintext) as Heq.
  { unfold EncryptMessage, encrypt, encrypt_reference, prepare, try.
    rewrite lift_bind, bind_assoc. apply bind_cong; [done|].
    intros [devices|e]; [|done]. rewrite lift_bind, bind_assoc.
    apply bind_cong; [done|]. intros [[[km iv] ct]|e]; [|done].
    change (lift (pure ?x)) with (mret (M := prog eff) x). rewrite bind_ret.
    destruct plaintext as [pt|]; simpl; (rewrite encrypt_loop_reference, bind_assoc;
      apply bind_cong; [done|]); intros os; rewrite bind_ret; simpl; unfold report;
      destruct (outcome_keys os); done. }
  split; [done|]. intros w. by apply run_proper.
Qed.
End Reference.
