(* ===== verification/Termination.v ===== *)
(** * Every call returns, after a bounded number of transport calls

    Here nothing is assumed of the store, the transport, the resolver or the
    backend: whatever they answer, each API call run alone ends without
    blocking or panicking, releases its locks, and uses the network only as
    often as [net_budget] says.  [net_calls] counts the transport calls of a
    run; [wpc] is [wpr] with that count. *)
From S2P Require Import Prelude Types Errors StoreSpec Transport Xochimilco Prog.
From S2P Require Import ProgFacts Signal Manager LockFacts LockProtocol Concurrency.

Section Count.
Context `{X : Xochimilco} {T : Transport} {ST : Store}.
Implicit Types (d : data) (w : world).

Fixpoint base_calls {A} (p : prog baseE A) d : nat :=
  match p with
  | Ret _ => 0
  | Vis e k =>
      (if e is ETransport _ then 1 else 0) +
      base_calls (k (handle_base e d).1) (handle_base e d).2
  end.

Fixpoint net_calls {A} (p : prog eff A) w : nat :=
  match p with
  | Ret _ => 0
  | Vis e k =>
      (if e is EBase (ETransport _) then 1 else 0) +
      match handle e w with Reply r w' => net_calls (k r) w' | _ => 0 end
  end.

Lemma base_calls_bind {A B} (p : prog baseE A) (f : A → prog baseE B) d :
  base_calls (p ≫= f) d = base_calls p d + base_calls (f (eval p d).1) (eval p d).2.
Proof.
  revert d. induction p as [a|R e k IH]; intros d; [done|].
  change (Vis e k ≫= f) with (Vis e (λ r, k r ≫= f)). cbn [base_calls eval].
  rewrite IH. destruct (handle_base e d). simpl. lia.
Qed.

Lemma net_calls_lift {A} (p : prog baseE A) w :
  net_calls (lift p) w = base_calls p (w_data w).
Proof.
  revert w. induction p as [a|R e k IH]; intros [d lk]; [done|].
  cbn [lift net_calls base_calls handle w_data w_lk].
  destruct (handle_base e d) as [r d']. cbn [fst snd]. rewrite IH. by destruct e.
Qed.

(** ** The weakest precondition with the count *)
Definition wpc {A} (p : prog eff A) (Q : A → world → nat → Prop) w : Prop :=
  match run p w with Done a w' => Q a w' (net_calls p w) | _ => False end.

Lemma wpc_mono {A} (p : prog eff A) (P Q : A → world → nat → Prop) w :
  wpc p P w → (∀ a w' n, P a w' n → Q a w' n) → wpc p Q w.
Proof. unfold wpc. destruct (run p w); [|done..]. auto. Qed.

Lemma net_calls_bind {A B} (p : prog eff A) (f : A → prog eff B) w :
  net_calls (p ≫= f) w =
  net_calls p w + match run p w with Done a w' => net_calls (f a) w' | _ => 0 end.
Proof.
  revert w. induction p as [a|R e k IH]; intros w; [done|].
  change (Vis e k ≫= f) with (Vis e (λ r, k r ≫= f)). cbn [net_calls run].
  destruct (handle e w); [rewrite IH|..]; lia.
Qed.

Lemma wpc_bind {A B} (p : prog eff A) (f : A → prog eff B) Q w :
  wpc p (λ a w' n, wpc (f a) (λ b w'' k, Q b w'' (n + k)) w') w → wpc (p ≫= f) Q w.
Proof. unfold wpc. rewrite run_bind, net_calls_bind. by destruct (run p w). Qed.

Lemma wpc_ret {A} (a : A) Q w : Q a w 0 → wpc (mret a) Q w.
Proof. done. Qed.

(** A program without transport calls counts nothing: [wpr] is enough. *)
Lemma wpc_wpr {A} (p : prog eff A) (Q : A → world → Prop) n w :
  wpr p Q w → net_calls p w ≤ n → wpc p (λ a w' k, Q a w' ∧ k ≤ n) w.
Proof. unfold wpr, wpc. by destruct (run p w). Qed.

(** ** Bounds by the shape of lock-free programs *)
Definition AtMost {A} (n : nat) (p : prog baseE A) : Prop := ∀ d, base_calls p d ≤ n.

Lemma at_most_ret {A} n (a : A) : AtMost n (mret a).
Proof. intros d. simpl. lia. Qed.
Lemma at_most_pure {A} n (a : A) : AtMost n (pure a).
Proof. apply at_most_ret. Qed.
Lemma at_most_ask {R} n (op : storeE R) : AtMost n (ask op).
Proof. intros d. simpl. lia. Qed.
Lemma at_most_crypto {R} n (f : rng → R * rng) : AtMost n (crypto f).
Proof. intros d. simpl. lia. Qed.
Lemma at_most_resolve n r dev key : AtMost n (trigger (EResolve r dev key)).
Proof. intros d. simpl. lia. Qed.
Lemma at_most_net {R} n (op : transportE R) : AtMost (S n) (net op).
Proof. intros d. simpl. lia. Qed.

Lemma at_most_bind {A B} n k (p : prog baseE A) (f : A → prog baseE B) :
  AtMost n p → (∀ a, AtMost k (f a)) → AtMost (n + k) (p ≫= f).
Proof.
  intros Hp Hf d. rewrite base_calls_bind.
  pose proof (Hp d). pose proof (Hf (eval p d).1 (eval p d).2). lia.
Qed.

Lemma at_most_try {A B} n k f (p : prog baseE (result A)) (c : A → prog baseE (result B)) :
  AtMost n p → (∀ a, AtMost k (c a)) → AtMost (n + k) (try f p c).
Proof.
  intros Hp Hc. apply at_most_bind; [done|]. intros [a|e]; [apply Hc|apply at_most_ret].
Qed.

(** Locking uses no transport. *)
Fixpoint net_free {A} (p : prog eff A) : Prop :=
  match p with
  | Ret _ => True
  | Vis e k => (if e is EBase (ETransport _) then False else True) ∧ ∀ r, net_free (k r)
  end.

Lemma net_free_calls {A} (p : prog eff A) w : net_free p → net_calls p w = 0.
Proof.
  revert w. induction p as [a|R e k IH]; intros w; [done|]. intros [He Hk].
  cbn [net_calls]. assert (match handle e w with Reply r w' => net_calls (k r) w'
    | _ => 0 end = 0) as ->.
  { destruct (handle e w); [|done..]. by apply IH. }
  destruct e as [R e|m|m|dev|dev m| |msg]; try done. by destruct e.
Qed.

Lemma net_free_deviceLock dev : net_free (deviceLock dev).
Proof. by split; [|intros ?; split; [|intros [m|]; repeat split]]. Qed.

(** One locked section. *)
Lemma wpc_with_deviceLock {A} dev (body : prog baseE A) n w :
  quiet (w_lk w) → AtMost n body →
  wpc (with_deviceLock dev body) (λ _ w' k, quiet (w_lk w') ∧ k ≤ n) w.
Proof.
  intros Hq Hb. apply wpc_wpr.
  { apply wpr_with_deviceLock; [done|]. by apply (wp_mono _ (λ _ _, True)). }
  unfold with_deviceLock. rewrite net_calls_bind, net_free_calls by apply net_free_deviceLock.
  destruct (run (deviceLock dev) w) as [m w1| |]; [|lia..].
  rewrite net_calls_bind, net_free_calls by done.
  destruct (run (Lock m) w1) as [[] w2| |]; [|lia..].
  rewrite net_calls_bind, net_calls_lift. specialize (Hb (w_data w2)).
  destruct (run (lift body) w2) as [r w3| |]; [|lia..].
  rewrite net_free_calls by done. lia.
Qed.
End Count.

Ltac at_most_step :=
  lazymatch goal with
  | |- AtMost _ (mret _) => apply at_most_ret
  | |- AtMost _ (pure _) => apply at_most_pure
  | |- AtMost _ (crypto _) => apply at_most_crypto
  | |- AtMost _ (ask _) => apply at_most_ask
  | |- AtMost _ (trigger (EResolve _ _ _)) => apply at_most_resolve
  | |- AtMost (S _) (net _) => apply at_most_net
  | |- AtMost _ (let _ := _ in _) => cbv zeta
  | |- AtMost _ (match ?x with _ => _ end) => destruct x
  | |- AtMost _ (try _ _ _) =>
      first [apply (at_most_try 0); [solve [at_most]|intros ?]
            |rewrite <-(Nat.add_0_r _) at 1; apply at_most_try; [|intros ?; solve [at_most]]]
  | |- AtMost _ (_ ≫= _) =>
      first [apply (at_most_bind 0); [solve [at_most]|intros ?]
            |rewrite <-(Nat.add_0_r _) at 1; apply at_most_bind; [|intros ?; solve [at_most]]]
  end
with at_most := repeat at_most_step.

(** ** The API *)
Section Calls.
Context `{X : Xochimilco} {T : Transport} {ST : Store}.
Implicit Types (d : data) (w : world) (m : Manager).

Lemma at_most_generate_loop k recs : AtMost 0 (generate_loop k recs).
Proof.
  revert recs. induction k as [|k IH]; intros recs; cbn [generate_loop];
    unfold GenerateOneTimePreKey; at_most. apply IH.
Qed.

Lemma at_most_Manager_Bundle m : AtMost 0 (Manager_Bundle m).
Proof. unfold Manager_Bundle. at_most. Qed.

Lemma at_most_PublishBundle m : AtMost 1 (Manager_PublishBundle m).
Proof. apply (at_most_try 0 1); [apply at_most_Manager_Bundle|intros b; at_most]. Qed.

Lemma at_most_RotateSignedPreKey m : AtMost 0 (Manager_RotateSignedPreKey m).
Proof.
  unfold Manager_RotateSignedPreKey, nextSignedPreKeyID, GenerateSignedPreKey. at_most.
Qed.

Lemma at_most_SyncDevices jid : AtMost 1 (SyncDevices jid).
Proof. unfold SyncDevices. at_most. Qed.

Lemma at_most_devicesFor jid : AtMost 1 (devicesFor jid).
Proof.
  apply (at_most_try 0 1); [at_most|]. intros ds. case_decide; [at_most|].
  apply (at_most_try 1 0); [apply at_most_SyncDevices|intros ?; at_most].
Qed.

Lemma at_most_recipientDevices m jid : AtMost 2 (recipientDevices m jid).
Proof.
  apply (at_most_try 1 1); [apply at_most_devicesFor|]. intros ids. cbv zeta.
  case_decide; [at_most|].
  apply (at_most_bind 1 0); [apply at_most_devicesFor|intros ?; at_most].
Qed.

Lemma at_most_EncryptPayload p pt : AtMost 0 (EncryptPayload p pt).
Proof. unfold EncryptPayload. at_most. Qed.

Lemma at_most_encryptForDevice m dev km : AtMost 1 (encryptForDevice_locked m dev km).
Proof.
  apply (at_most_try 1 0).
  - unfold getOrCreateActiveSession, NewActiveSession.
    apply (at_most_try 0 1); [at_most|]. intros [b|]; [at_most|].
    apply (at_most_try 1 0); [at_most|]. intros b. at_most.
  - intros [s kx]. unfold checkTrust, Session_Encrypt, putSession. at_most.
Qed.

Lemma at_most_DecryptMessage m msg key : AtMost 0 (DecryptMessage_locked m msg key).
Proof.
  unfold DecryptMessage_locked, getOrCreateSessionForIncoming, signedPreKeyByID,
    NewPassiveSessionFromPreKeyBlob, NewPassiveSession, Session_Decrypt, putSession.
  at_most.
Qed.

Lemma wpc_lift {A} (p : prog baseE A) n w :
  quiet (w_lk w) → AtMost n p →
  wpc (lift p) (λ a w' k, (a = (eval p (w_data w)).1 ∧ quiet (w_lk w')) ∧ k ≤ n) w.
Proof.
  intros Hq Hp. apply wpc_wpr; [by apply wpr_lift|]. rewrite net_calls_lift. apply Hp.
Qed.

(** At most one bundle is fetched per device that is tried. *)
Lemma wpc_encrypt_loop m km devices keys errs w :
  quiet (w_lk w) →
  wpc (encrypt_loop m km devices keys errs)
    (λ _ w' k, quiet (w_lk w') ∧
      k ≤ length (filter (λ dev, dev ≠ m_localDevice m) devices)) w.
Proof.
  revert keys errs w. induction devices as [|dev devices IH]; intros keys errs w Hq;
    cbn [encrypt_loop]; [by apply wpc_ret|].
  rewrite filter_cons. case_decide; [rewrite decide_False by naive_solver; by apply IH|].
  rewrite decide_True by done. apply wpc_bind.
  eapply wpc_mono; [apply (wpc_with_deviceLock _ _ 1); [done|apply at_most_encryptForDevice]|].
  intros [key|e] w' n [Hq' Hn]; (eapply wpc_mono; [by apply IH|]);
    intros _ w2 k [Hq2 Hk]; simpl; (split; [done|lia]).
Qed.

(** The devices a message to [jid] is encrypted for. *)
Definition targets m (jid : string) d : list Device :=
  match (eval (recipientDevices m jid) d).1 with
  | Ok devices => filter (λ dev, dev ≠ m_localDevice m) devices
  | Err _ => []
  end.

Lemma wpc_encrypt m jid pt w :
  quiet (w_lk w) →
  wpc (encrypt m jid pt)
    (λ _ w' k, quiet (w_lk w') ∧ k ≤ 2 + length (targets m jid (w_data w))) w.
Proof.
  intros Hq. unfold encrypt, targets. apply wpc_bind.
  eapply wpc_mono; [apply (wpc_lift _ 2); [done|apply at_most_recipientDevices]|].
  intros r w1 n1 [[<- Hq1] Hn1]. destruct r as [devices|e]; [|apply wpc_ret; split; [done|lia]].
  apply wpc_bind.
  eapply wpc_mono; [apply (wpc_lift _ 0); [done|apply at_most_EncryptPayload]|].
  intros r w2 n2 [[_ Hq2] Hn2].
  destruct r as [[[km iv] ct]|e]; [|apply wpc_ret; split; [done|simpl; lia]].
  destruct (if is_nil pt then _ else _) as [ct' iv']. apply wpc_bind.
  eapply wpc_mono; [by apply wpc_encrypt_loop|].
  intros [keys errs] w3 n3 [Hq3 Hn3]. case_decide; apply wpc_ret; (split; [done|lia]).
Qed.

(** How many transport calls a call may make. *)
Definition net_budget m (c : call) d : nat :=
  match c with
  | CallPublishBundle | CallSyncDevices _ => 1
  | CallEncryptMessage jid _ | CallEncryptKeyTransport jid => 2 + length (targets m jid d)
  | _ => 0
  end.

Lemma wpc_ignore {A} (p : prog eff A) (P : world → nat → Prop) w :
  wpc p (λ _, P) w → wpc (ignore p) (λ _, P) w.
Proof.
  intros H. apply wpc_bind. eapply wpc_mono; [exact H|]. intros a w' n Hn.
  apply wpc_ret. by rewrite Nat.add_0_r.
Qed.

Lemma wpc_ignore_lift {A} (p : prog baseE A) n w :
  quiet (w_lk w) → AtMost n p →
  wpc (ignore (lift p)) (λ _ w' k, quiet (w_lk w') ∧ k ≤ n) w.
Proof.
  intros Hq Hp. apply wpc_ignore. eapply wpc_mono; [by apply wpc_lift|]. naive_solver.
Qed.

(** C21: every API call returns.  From a state with no lock held, and whatever
    the store, the transport, the trust resolver and the backend answer, a
    call (but not [GenerateOneTimePreKeys] with a negative count, which panics:
    [call_ok]) runs to its end without blocking or panicking and leaves no lock
    held; and it is frugal with the network: decrypting, resetting, rotating,
    topping up and counting use none of it, publishing and syncing use one
    call, and encrypting uses at most two device list queries and one bundle
    query per device it encrypts for. *)
Theorem api_call_terminates m c w :
  call_ok c → quiet (w_lk w) →
  wpc (call_prog m c) (λ _ w' n, quiet (w_lk w') ∧ n ≤ net_budget m c (w_data w)) w.
Proof.
  intros Hc Hq. destruct c as [| | | |n|jid|dev|jid pt|jid|msg]; cbn [call_prog net_budget].
  - apply wpc_ignore_lift; [done|apply at_most_Manager_Bundle].
  - apply wpc_ignore_lift; [done|apply at_most_PublishBundle].
  - apply wpc_ignore_lift; [done|apply at_most_RotateSignedPreKey].
  - apply wpc_ignore_lift; [done|unfold NeedsMorePreKeys; at_most].
  - simpl in Hc. apply Is_true_true, Z.leb_le in Hc.
    unfold GenerateOneTimePreKeys, generateOneTimePreKeys. rewrite (proj2 (Z.ltb_ge _ _)) by done.
    apply wpc_ignore_lift; [done|]. apply (at_most_try 0 0); [apply at_most_generate_loop|].
    intros recs. at_most.
  - apply wpc_ignore_lift; [done|apply at_most_SyncDevices].
  - apply wpc_ignore, wpc_with_deviceLock; [done|]. unfold ResetSession_locked. at_most.
  - by apply wpc_ignore, wpc_encrypt.
  - by apply wpc_ignore, wpc_encrypt.
  - apply wpc_ignore. unfold DecryptMessage. destruct (own_key _ _) as [key|];
      [|by apply wpc_ret]. apply wpc_with_deviceLock; [done|apply at_most_DecryptMessage].
Qed.
End Calls.
