(* ===== verification/Invariants.v ===== *)
(** * The invariant of a device

    Between API calls no mutex is held, the store is well-formed, and the
    device can answer every key exchange that its bundle invites: its current
    signed prekey and all pooled one-time prekeys have the private keys the
    generators made, filed under their own IDs.  [InitIdentity] establishes
    this and every API call, run alone, returns with it intact. *)
From S2P Require Import Prelude Types Errors StoreSpec Transport Xochimilco Prog.
From S2P Require Import ProgFacts StoreFacts Signal SessionLaws SignalFacts Manager LockFacts.
From S2P Require Import ManagerKeys ManagerEncrypt ManagerDecrypt Handshake LockProtocol Concurrency.

Section Invariants.
Context `{X : Xochimilco} {T : Transport} {ST : Store} {SC : StoreContract ST}.
Implicit Types (d : data) (w : world) (m : Manager).

Lemma own_prekeys_sub p k a a' :
  a_current a' = a_current a → a_pool a' ⊆ a_pool a →
  own_prekeys p k a → own_prekeys p k a'.
Proof.
  intros Hc Hp [Hi Hs Ho]. split; [done|by rewrite Hc|]. intros id r Hr. apply Ho.
  by eapply lookup_weaken.
Qed.

(** Records a generator made. *)
Definition generated_recs (recs : list PreKeyRecord) : Prop :=
  Forall (λ r, generated_opk (PKR_Public r) (PKR_Private r)) recs.

Lemma generate_loop_generated k recs d :
  good d → generated_recs recs →
  wp (generate_loop k recs)
    (λ r d', good d' ∧ forget_issued (av d') = forget_issued (av d) ∧
      ∀ l, r = Ok l → generated_recs l) d.
Proof.
  revert recs d. induction k as [|k IH]; intros recs d Hg Hrecs; cbn [generate_loop].
  { apply wp_pure. split_and!; [done..|]. by intros l [= <-]. }
  apply wp_try, wp_ask_spec; [done|]. intros r d1 Hg1 _ Hs. simpl in Hs.
  destruct Hs as [(id & -> & _ & _ & Hav)|[[e ->] Hav]]; [|by rewrite Hav].
  apply wp_try, wp_crypto. destruct (x3dh_CreateNewOpk (d_rng d1)) as [r g] eqn:Hopk.
  destruct r as [[pub priv]|e]; [|by split_and!].
  eapply wp_mono; [apply IH; [done|]|].
  - apply Forall_app. split; [done|]. apply Forall_singleton. exists (d_rng d1).
    by rewrite Hopk.
  - intros r d2 (Hg2 & Hav2 & Hr). split_and!; [done|by rewrite Hav2|done].
Qed.

Lemma put_prekeys_generated recs (pool : gmap Z PreKeyRecord) id r :
  generated_recs recs →
  (∀ id r, pool !! id = Some r → PKR_ID r = id ∧ generated_opk (PKR_Public r) (PKR_Private r)) →
  put_prekeys recs pool !! id = Some r →
  PKR_ID r = id ∧ generated_opk (PKR_Public r) (PKR_Private r).
Proof.
  unfold put_prekeys. intros Hrecs. revert pool.
  induction Hrecs as [|r0 recs Hr0 _ IH]; intros pool Hpool; simpl; [apply Hpool|].
  apply IH. intros id' r'. rewrite lookup_insert. case_decide; [|apply Hpool].
  by intros [= <-].
Qed.

(** What a top-up that starts with good keys leaves, at any capacity. *)
Lemma generateOneTimePreKeys_own p k n w :
  (0 ≤ n)%Z → good (w_data w) → own_prekeys p k (av (w_data w)) →
  wpr (generateOneTimePreKeys n)
    (λ r w', w_lk w' = w_lk w ∧ good (w_data w') ∧ own_prekeys p k (av (w_data w')) ∧
      a_identity (av (w_data w')) = a_identity (av (w_data w)) ∧
      a_local (av (w_data w')) = a_local (av (w_data w))) w.
Proof.
  intros Hn Hg [Hi Hs Ho]. unfold generateOneTimePreKeys.
  rewrite (proj2 (Z.ltb_ge n 0)) by done. apply wpr_lift, wp_try.
  eapply wp_mono; [apply generate_loop_generated; [done|constructor]|].
  intros r d1 (Hg1 & Hav1%forget_issued_eq & Hr).
  assert (own_prekeys p k (av d1)) as Hown1 by (rewrite Hav1; by split).
  destruct r as [l|e]; simpl.
  2: { rewrite Hav1. by split_and!; [..|split|]. }
  specialize (Hr _ eq_refl). write_step; rewrite Hav.
  - split_and!; [done|done| |by rewrite Hav1..]. split; [done|apply Hown1|]. simpl.
    intros id r. apply put_prekeys_generated; [done|]. apply Hown1.
  - rewrite Hav1. by split_and!; [..|split|].
Qed.

(** The invariant of a device with identity [k] under protocol [p]. *)
Record device_ok (p : Protocol) (k : gobytes) (dev : Device) (w : world) : Prop := {
  ok_quiet : quiet (w_lk w);
  ok_good : good (w_data w);
  ok_identity : a_identity (av (w_data w)) = k;
  ok_local : a_local (av (w_data w)) = dev;
  ok_prekeys : own_prekeys p k (av (w_data w)) }.

(** A step of the store that keeps the keys keeps the invariant. *)
Lemma device_ok_step p k dev w w' :
  device_ok p k dev w → quiet (w_lk w') → good (w_data w') →
  a_identity (av (w_data w')) = a_identity (av (w_data w)) →
  a_local (av (w_data w')) = a_local (av (w_data w)) →
  a_current (av (w_data w')) = a_current (av (w_data w)) →
  a_pool (av (w_data w')) ⊆ a_pool (av (w_data w)) →
  device_ok p k dev w'.
Proof.
  intros [? ? ? ? ?] ? ? ? ? ? ?. split; [done|done|congruence..|].
  by eapply own_prekeys_sub.
Qed.

Lemma wpr_ignore {A} (p : prog eff A) (P : world → Prop) w :
  wpr p (λ _, P) w → wpr (ignore p) (λ _, P) w.
Proof. intros H. by apply wpr_bind. Qed.

Lemma lift_keeps {A} (p : prog baseE A) q k dev w :
  device_ok q k dev w →
  wp p (λ _ d', good d' ∧ devices_step (av (w_data w)) (av d')) (w_data w) →
  wpr (ignore (lift p)) (λ _, device_ok q k dev) w.
Proof.
  intros Hok H. apply wpr_ignore, wpr_lift. eapply wp_mono; [exact H|].
  intros _ d' [Hg' Hst]. eapply device_ok_step; simpl; try done; [apply Hok|..];
    by rewrite Hst.
Qed.

Lemma devices_step_refl a : devices_step a a.
Proof. reflexivity. Qed.
#[local] Hint Resolve devices_step_refl : core.

Lemma PublishBundle_keeps m d :
  good d → wp (Manager_PublishBundle m) (λ _ d', good d' ∧ devices_step (av d) (av d')) d.
Proof.
  intros Hg. unfold Manager_PublishBundle. apply wp_try.
  eapply wp_mono; [by apply Manager_Bundle_spec|].
  intros [b|e] d1 (Hg1 & _ & Hav & _); [apply wp_net|]; rewrite ?av_with_env, Hav; by split.
Qed.

Lemma NeedsMorePreKeys_keeps m d :
  good d → wp (NeedsMorePreKeys m) (λ _ d', good d' ∧ devices_step (av d) (av d')) d.
Proof.
  intros Hg. unfold NeedsMorePreKeys. apply wp_try.
  read_step; [apply wp_pure|]; rewrite Hav; by split.
Qed.

Lemma SyncDevices_keeps jid d :
  good d → wp (SyncDevices jid) (λ _ d', good d' ∧ devices_step (av d) (av d')) d.
Proof.
  intros Hg. unfold SyncDevices. apply wp_try, wp_net. simpl.
  destruct (FetchDeviceList jid (d_env d)) as [[l|e] v]; simpl; [|by split].
  write_step; rewrite Hav; by split.
Qed.

Lemma Rotate_own m d :
  good d → own_prekeys (m_protocol m) (m_identityKey m) (av d) →
  wp (Manager_RotateSignedPreKey m)
    (λ _ d', good d' ∧ own_prekeys (m_protocol m) (m_identityKey m) (av d') ∧
      a_identity (av d') = a_identity (av d) ∧ a_local (av d') = a_local (av d)) d.
Proof.
  intros Hg Hown. unfold Manager_RotateSignedPreKey, nextSignedPreKeyID.
  apply wp_try, wp_try. read_step; [|by rewrite Hav]. apply wp_pure, wp_try.
  eapply wp_mono; [apply wp_and; [apply wp_answer|
    by apply (wp_crypto_only _ (λ _ d', good d' ∧ av d' = av d0))]|].
  intros [[[pub priv] sig]|e] d1 (Hans & Hg1 & Hav1); simpl; [|by rewrite Hav1, Hav].
  write_step; rewrite Hav0, Hav1, Hav; [|by split_and!].
  split_and!; try done. split; [apply Hown| |apply Hown]. simpl. revert Hans.
  eval_to_wp. unfold GenerateSignedPreKey, generated_spk, signal_Protocol.
  destruct (is_V1 (m_protocol m)); apply wp_crypto; intros Heq; exists (d_rng d0); by rewrite Heq.
Qed.

Lemma encrypt_keeps m jid pt p k dev w :
  device_ok p k dev w → wpr (encrypt m jid pt) (λ _, device_ok p k dev) w.
Proof.
  intros Hok. eapply wpr_mono; [apply encrypt_spec; apply Hok|].
  intros r w' (Hq' & Hg' & a1 & [Hst1 _] & Hcase).
  assert (a_identity (av (w_data w')) = a_identity a1 ∧
    a_local (av (w_data w')) = a_local a1 ∧ a_current (av (w_data w')) = a_current a1 ∧
    a_pool (av (w_data w')) = a_pool a1) as (Hi & Hl & Hc & Hp).
  { destruct Hcase as [(e & _ & ->)|(devs & os & _ & _ & Hst & _)]; [done|].
    by destruct (enc_keys _ _ _ Hst) as (?&?&?&?&?&?&?). }
  rewrite Hst1 in *. eapply device_ok_step; try done. by rewrite Hp.
Qed.

(** C16: the invariant of a device is kept.  Started with no lock held, every
    API call returns (it neither blocks nor panics), with no lock held, the
    store well-formed, the identity unchanged, and all published prekeys
    still matched by the private keys that answer them: whatever the call
    did, failed calls and hostile messages included.  The one call excluded
    ([call_ok]) is [GenerateOneTimePreKeys] with a negative count, which panics. *)
Theorem api_call_keeps_device m c w :
  call_ok c → device_ok (m_protocol m) (m_identityKey m) (m_localDevice m) w →
  wpr (call_prog m c)
    (λ _, device_ok (m_protocol m) (m_identityKey m) (m_localDevice m)) w.
Proof.
  intros Hc Hok. pose proof Hok as [Hq Hg Hid Hloc Hown].
  destruct c as [| | | |n|jid|dev|jid pt|jid|msg]; cbn [call_prog].
  - apply lift_keeps; [done|]. eapply wp_mono; [by apply Manager_Bundle_spec|].
    intros r d' (Hg' & _ & Hav & _). by rewrite Hav.
  - by apply lift_keeps, PublishBundle_keeps.
  - apply wpr_ignore, wpr_lift. eapply wp_mono; [by apply Rotate_own|].
    intros r d' (Hg' & Hown' & Hid' & Hloc'). split; simpl; congruence || done.
  - by apply lift_keeps, NeedsMorePreKeys_keeps.
  - apply wpr_ignore. simpl in Hc. apply Is_true_true, Z.leb_le in Hc.
    eapply wpr_mono; [by apply generateOneTimePreKeys_own|].
    intros r w' (Hlk & Hg' & Hown' & Hid' & Hloc'). rewrite <-Hlk in Hq.
    split; congruence || done.
  - by apply lift_keeps, SyncDevices_keeps.
  - apply wpr_ignore. eapply wpr_mono; [by apply ResetSession_spec|].
    intros r w' (Hq' & Hg' & Hr).
    eapply device_ok_step; [done|done|done|..]; by destruct r; rewrite Hr.
  - by apply wpr_ignore, encrypt_keeps.
  - by apply wpr_ignore, encrypt_keeps.
  - apply wpr_ignore. destruct (own_key (ID (m_localDevice m)) (Keys msg)) as [key|] eqn:Hkey.
    + eapply wpr_mono; [by apply DecryptMessage_spec|].
      intros r w' (Hq' & Hg' & Hst & _). destruct (dec_keys _ _ _ _ Hst) as (?&?&?&?&?&?&?).
      eapply device_ok_step; try done.
      destruct (dec_pool _ _ _ _ Hst) as [->|(i & rec & _ & _ & ->)]; [done|].
      apply delete_subseteq.
    + unfold DecryptMessage. by rewrite Hkey.
Qed.

Lemma GenerateIdentityKey_generated {GL : GoCryptoLaws GC} p d :
  wp (GenerateIdentityKey p) (λ r _, ∀ k, r = Ok k → generated_identity p k) d.
Proof.
  unfold GenerateIdentityKey, generated_identity. destruct (is_V1 p); apply wp_crypto;
    [unfold x25519_GenerateKey|unfold ed25519_GenerateKey].
  all: destruct (rand_bytes 32 (d_rng d)) as [[seed|e] g] eqn:Hr; simpl; [|done].
  all: assert (length seed = 32) by (apply (rand_bytes_length 32 (d_rng d)); by rewrite Hr).
  - unfold x25519_NewPrivateKey, go_len. simpl. rewrite decide_True by done.
    intros k [= <-]. by exists seed.
  - intros k [= <-]. by exists seed.
Qed.

Lemma InitIdentity_keys_own {GL : GoCryptoLaws GC} jid id p d :
  good d → a_pool (av d) = ∅ →
  wp (InitIdentity_keys jid id p)
    (λ r d', good d' ∧ (r = Ok tt →
      usable_identity p (a_identity (av d')) ∧ a_local (av d') = MkDevice jid id ∧
      own_prekeys p (a_identity (av d')) (av d'))) d.
Proof.
  intros Hg Hpool. unfold InitIdentity_keys. apply wp_try.
  eapply wp_mono; [apply wp_and; [apply GenerateIdentityKey_usable_aux|apply wp_and;
    [apply GenerateIdentityKey_generated|
     by apply (wp_crypto_only _ (λ _ d', good d' ∧ av d' = av d))]]|].
  intros [k|e] d1 (Hk & Hgen & Hg1 & Hav1); simpl; [|done].
  specialize (Hk _ eq_refl). specialize (Hgen _ eq_refl). apply wp_try. write_step; [|done].
  apply wp_try. write_step; [|done]. apply wp_try.
  eapply wp_mono; [apply wp_and; [apply wp_answer|
    by apply (wp_crypto_only _ (λ _ d', good d' ∧ av d' = av d2))]|].
  intros [[[pub priv] sig]|e] d3 (Hans & Hg3 & Hav3); simpl; [|done].
  apply wp_try. write_step; [|done]. apply wp_pure. split; [done|]. intros _.
  rewrite Hav2, Hav3, Hav0, Hav, Hav1. simpl. split_and!; [done..|].
  split; simpl; [done| |by intros id' r; rewrite Hpool].
  revert Hans. eval_to_wp. unfold GenerateSignedPreKey, generated_spk, signal_Protocol.
  destruct (is_V1 p); apply wp_crypto; intros Heq; exists (d_rng d2); by rewrite Heq.
Qed.

Lemma InitIdentity_device {GL : GoCryptoLaws GC} jid id p w :
  quiet (w_lk w) → good (w_data w) → a_pool (av (w_data w)) = ∅ →
  wpr (InitIdentity jid id p)
    (λ r w', r = Ok tt → let k := a_identity (av (w_data w')) in
      usable_identity p k ∧
      device_ok p k (MkDevice jid id) w') w.
Proof.
  intros Hq Hg Hpool. unfold InitIdentity, try. apply wpr_bind, wpr_lift.
  eapply wp_mono; [by apply InitIdentity_keys_own|].
  intros [[]|e] d1 [Hg1 Hr]; [|by apply wpr_ret].
  destruct (Hr eq_refl) as (Hu & Hl & Hown).
  eapply wpr_mono; [by apply generateOneTimePreKeys_own|].
  intros r w' (Hlk & Hg' & Hown' & Hid' & Hl') ->. simpl in *. rewrite Hid'.
  split; [done|]. split; [by rewrite Hlk|done|done|congruence|done].
Qed.

(** C34: [InitIdentity] establishes the invariant.  On a well-formed store
    without prekeys, a successful call leaves a device whose identity key has
    the length its protocol needs (so its public half can be derived), whose
    local device is the one given, and which satisfies [device_ok]. *)
Theorem InitIdentity_establishes_device {GL : GoCryptoLaws GC} jid id p w :
  quiet (w_lk w) → good (w_data w) → a_pool (av (w_data w)) = ∅ →
  wpr (InitIdentity jid id p)
    (λ r w', r = Ok tt → let k := a_identity (av (w_data w')) in
      usable_identity p k ∧
      device_ok p k (MkDevice jid id) w') w.
Proof. apply InitIdentity_device. Qed.
End Invariants.
