(* ===== verification/Bootstrap.v ===== *)
(** * From two empty stores to a conversation

    The other theorems about delivery start from devices that exist.  Here the
    devices are created: on an empty store [InitIdentity] and [NewManager], then
    the bundle and the device list are published ([install], the setup of the
    project's tests).  Two accounts installed on one network can write to each
    other at once, for both protocols and any backend and store that meet
    their contracts. *)
From S2P Require Import Prelude Types Errors StoreSpec Transport Xochimilco Prog.
From S2P Require Import ProgFacts StoreFacts Signal SessionLaws SignalFacts Manager LockFacts.
From S2P Require Import ManagerKeys ManagerEncrypt ManagerDecrypt FakeNetwork Handshake EndToEnd.
From S2P Require Import Delivery Conversation Invariants.

Section Bootstrap.
Context `{X : Xochimilco} {ST : Store} {SC : StoreContract ST} {RS : ReliableStore ST}.
Implicit Types (d : data) (w : world) (m : Manager).

(** [setup] of manager_test.go, with any trust resolvers. *)
Definition install (jid : string) (id : DeviceID) (p : Protocol) (rs : list TrustResolver) :
    prog eff (result Manager) :=
  _ <-? InitIdentity jid id p;
  m <-? lift (NewManager p (map WithTrustResolver rs));
  _ <-? lift (Manager_PublishBundle m);
  _ <-? lift (net (OpPublishDeviceList (MkDeviceList jid [id])));
  mret (Ok m).

(** [setup]'s device list has the new device only.  When the account has the
    devices [ids] already, the application then publishes the whole list. *)
Definition install_beside (ids : list DeviceID) (jid : string) (id : DeviceID) (p : Protocol)
    (rs : list TrustResolver) : prog eff (result Manager) :=
  m <-? install jid id p rs;
  _ <-? lift (net (OpPublishDeviceList (MkDeviceList jid (ids ++ [id]))));
  mret (Ok m).

(** ** Each call succeeds *)
Context {GL : GoCryptoLaws GC} {KL : XochimilcoKeygenLaws X}.

Lemma GenerateIdentityKey_ok p d :
  wp (GenerateIdentityKey p) (λ r _, ∃ k pub, r = Ok k ∧ IdentityPublicKey p k = Ok pub) d.
Proof.
  eapply wp_mono; [apply wp_and; [apply GenerateIdentityKey_usable_aux|
    apply (wp_answer (GenerateIdentityKey p))]|].
  intros r d' [Hk Hr]. assert (is_ok r) as Hok.
  { subst r. eval_to_wp. unfold GenerateIdentityKey.
    pose proof (rand_bytes_ok (XochimilcoKeygenLaws := KL) 32 (d_rng d)) as H.
    destruct (is_V1 p); apply wp_crypto; unfold x25519_GenerateKey, ed25519_GenerateKey;
      destruct (rand_bytes 32 (d_rng d)) as [[l|e] g] eqn:Hl; try done.
    simpl. unfold x25519_NewPrivateKey, go_len. simpl.
    rewrite decide_True; [done|]. apply (rand_bytes_length 32 (d_rng d)). by rewrite Hl. }
  destruct r as [k|e]; [|done]. destruct (Hk k eq_refl) as (_ & pub & Hpub & _).
  by exists k, pub.
Qed.

Lemma InitIdentity_keys_ok jid id p d :
  good d → wp (InitIdentity_keys jid id p) (λ r d', r = Ok tt ∧ good d') d.
Proof.
  intros Hg. unfold InitIdentity_keys. apply wp_try.
  eapply wp_mono; [apply wp_and; [apply GenerateIdentityKey_ok|
    by apply (wp_crypto_only _ (λ _ d', good d'))]|].
  intros r d1 [(k & pub & -> & Hpub) Hg1]. apply wp_try. write_ok. apply wp_try. write_ok.
  apply wp_try. eapply wp_mono; [apply wp_and; [apply wp_answer|
    by apply (wp_crypto_only _ (λ _ d', good d'))]|].
  intros r d3 [-> Hg3].
  assert (is_ok (eval (GenerateSignedPreKey (signal_Protocol p) k) d2).1) as Hok.
  { eval_to_wp. unfold GenerateSignedPreKey, signal_Protocol.
    pose proof (spk_generates p k pub (d_rng d2) Hpub) as H.
    destruct (is_V1 p); by apply wp_crypto. }
  destruct (eval _ d2).1 as [[[spub spriv] sig]|e]; [|done].
  apply wp_try. write_ok. by apply wp_pure.
Qed.

Lemma generate_loop_ok k recs d :
  good d → wp (generate_loop k recs) (λ r d', is_ok r ∧ good d') d.
Proof.
  revert recs d. induction k as [|k IH]; intros recs d Hg; cbn [generate_loop].
  { by apply wp_pure. }
  apply wp_try, (wp_ask_ok OpNextPreKeyID); [exact _|done|by intros []|].
  intros r d1 Hg1 _ _ Hr.
  destruct r as [n|e]; [|done]. apply wp_try, wp_crypto.
  pose proof (opk_generates (d_rng d1)) as Hok.
  destruct (x3dh_CreateNewOpk (d_rng d1)) as [[[pub priv]|e] g]; [|done]. by apply IH.
Qed.

Lemma InitIdentity_ok jid id p w :
  good (w_data w) → wpr (InitIdentity jid id p) (λ r _, r = Ok tt) w.
Proof.
  intros Hg. unfold InitIdentity, try. apply wpr_bind, wpr_lift.
  eapply wp_mono; [by apply InitIdentity_keys_ok|]. intros r d1 [-> Hg1].
  unfold generateOneTimePreKeys. apply wpr_lift, wp_try.
  eapply wp_mono; [by apply generate_loop_ok|]. intros [recs|e] d2 [Hok Hg2]; [|done].
  by write_ok.
Qed.

(** ** A new device *)

(** Nothing was ever stored. *)
Definition new_store (a : astore) : Prop :=
  a_pool a = ∅ ∧ a_issued a = ∅ ∧ a_sessions a = ∅ ∧ a_trust a = ∅ ∧ a_devices a = ∅ ∧
  a_remote a = ∅.

(** A device [m] that has not met anyone, with prekeys to offer. *)
Record newcomer (p : Protocol) (dev : Device) (m : Manager) (w : world) : Prop := {
  nc_device : device_ok p (m_identityKey m) dev w;
  nc_protocol : m_protocol m = p;
  nc_local : m_localDevice m = dev;
  nc_usable : usable_identity p (m_identityKey m);
  nc_stock : size (a_pool (av (w_data w))) = Z.to_nat DefaultPreKeyCount;
  nc_sessions : a_sessions (av (w_data w)) = ∅;
  nc_trust : a_trust (av (w_data w)) = ∅;
  nc_devices : a_devices (av (w_data w)) = ∅ }.

Lemma nc_pool p dev m w : newcomer p dev m w → a_pool (av (w_data w)) ≠ ∅.
Proof. intros [_ _ _ _ Hs _ _ _] Hem. by rewrite Hem, map_size_empty in Hs. Qed.

Lemma new_pool a k recs :
  a_pool a = ∅ → fresh_batch a k recs → size (put_prekeys recs (a_pool a)) = k.
Proof.
  intros Hp [Hlen Hnd _]. rewrite put_prekeys_size, Hlen, Hp, map_size_empty; [lia|done|].
  intros id _. rewrite Hp. set_solver.
Qed.

Lemma InitIdentity_newcomer jid id p w :
  quiet (w_lk w) → good (w_data w) → new_store (av (w_data w)) →
  wpr (InitIdentity jid id p)
    (λ r w', r = Ok tt ∧ d_env (w_data w') = d_env (w_data w) ∧
      let a := av (w_data w') in let k := a_identity a in
      usable_identity p k ∧ device_ok p k (MkDevice jid id) w' ∧
      size (a_pool a) = Z.to_nat DefaultPreKeyCount ∧
      a_sessions a = ∅ ∧ a_trust a = ∅ ∧ a_devices a = ∅) w.
Proof.
  intros Hq Hg (Hp & Hi & Hs & Ht & Hd & Hr).
  eapply wpr_mono; [apply wpr_and; [by apply InitIdentity_ok|apply wpr_and;
    [by apply InitIdentity_device|apply InitIdentity_spec; [done|]]]|].
  { unfold capacity. rewrite Hi, size_empty. done. }
  intros r w' (-> & Hdev & _ & _ & He & Hav).
  destruct (Hdev eq_refl) as [Hu Hok].
  destruct (Hav eq_refl) as (k & spk & _ & _ & recs & Hb & Heq).
  cbv zeta. split_and!; [done..| | | |]; rewrite Heq; try done.
  by eapply new_pool; [|exact Hb].
Qed.

Lemma NewManager_options p k dev rs :
  let m := foldl (λ m opt, opt m) (MkManager p k dev None) (map WithTrustResolver rs) in
  m_protocol m = p ∧ m_identityKey m = k ∧ m_localDevice m = dev ∧
  m_trustResolver m = last rs.
Proof.
  induction rs as [|r rs IH] using rev_ind; [done|].
  rewrite map_app, foldl_app, last_snoc. simpl in *. naive_solver.
Qed.

(** The network after a device has published. *)
Definition joined_beside (ids : list DeviceID) (dev : Device) (b : Bundle) (n : fakeNetwork) :
    fakeNetwork :=
  MkNetwork (<[JID dev := MkDeviceList (JID dev) (ids ++ [ID dev])]> (net_devices n))
    (<[dev := b]> (net_bundles n)).
Definition joined : Device → Bundle → fakeNetwork → fakeNetwork := joined_beside [].

Lemma Manager_Bundle_ok m d :
  good d → usable_identity (m_protocol m) (m_identityKey m) →
  wp (Manager_Bundle m) (λ r _, is_ok r) d.
Proof.
  intros Hg (_ & pub & Hpub & _). unfold Manager_Bundle. apply wp_try. read_ok.
  apply wp_try, (wp_ask_ok OpPreKeys); [exact _|done|by intros []|].
  intros [l|e] d1 Hg1 _ _ Hr; [|done]. apply wp_try, wp_pure.
  unfold signal_Protocol. rewrite Hpub. by apply wp_pure.
Qed.

Lemma NewManager_ok p rs d :
  good d →
  wp (NewManager p (map WithTrustResolver rs))
    (λ r d', good d' ∧ av d' = av d ∧ d_env d' = d_env d ∧ ∃ m, r = Ok m ∧
      m_protocol m = p ∧ m_identityKey m = a_identity (av d) ∧
      m_localDevice m = a_local (av d) ∧ m_trustResolver m = last rs) d.
Proof.
  intros Hg. unfold NewManager. apply wp_try. read_ok. apply wp_try. read_ok. apply wp_pure.
  destruct Hso as [He _], Hso0 as [He0 _]. split_and!; [done|congruence|congruence|].
  eexists. split; [done|]. rewrite Hav. apply NewManager_options.
Qed.

Lemma PublishBundle_ok m d :
  good d → usable_identity (m_protocol m) (m_identityKey m) →
  wp (Manager_PublishBundle m)
    (λ r d', r = Ok tt ∧ good d' ∧ av d' = av d ∧ ∃ b, bundle_of m (av d) b ∧
      d_env d' = (PublishBundle b (d_env d)).2) d.
Proof.
  intros Hg Hu. unfold Manager_PublishBundle. apply wp_try.
  eapply wp_mono; [apply wp_and; [by apply Manager_Bundle_spec|by apply Manager_Bundle_ok]|].
  intros r d1 [(Hg1 & [He1 _] & Hav1 & Hb) Hbok]. destruct r as [b|e]; [|done].
  apply wp_net. simpl. split_and!; [done..|]. exists b. rewrite He1. split; [by apply Hb|done].
Qed.

Lemma install_spec jid id p rs w :
  quiet (w_lk w) → good (w_data w) → new_store (av (w_data w)) →
  wpr (install jid id p rs)
    (λ r w', ∃ m b, r = Ok m ∧ newcomer p (MkDevice jid id) m w' ∧
      m_trustResolver m = last rs ∧ bundle_of m (av (w_data w')) b ∧
      d_env (w_data w') = joined (MkDevice jid id) b (d_env (w_data w))) w.
Proof.
  intros Hq Hg Hnew. unfold install, try. apply wpr_bind.
  eapply wpr_mono; [by apply InitIdentity_newcomer|].
  intros r w1 (-> & He1 & Hu & Hok & Hpool & Hs & Ht & Hd).
  pose proof Hok as [Hq1 Hg1 _ Hloc Hown].
  apply wpr_bind, wpr_lift. eapply wp_mono; [by apply NewManager_ok|].
  intros r d2 (Hg2 & Hav2 & He2 & m & -> & Hmp & Hmk & Hml & Hmr). rewrite Hloc in Hml.
  apply wpr_bind, wpr_lift. eapply wp_mono; [apply PublishBundle_ok; [done|by rewrite Hmp, Hmk]|].
  intros r d3 (-> & Hg3 & Hav3 & b & Hb & He3). cbn [w_data] in *.
  apply wpr_bind, wpr_lift, wp_net. apply wpr_ret. exists m, b.
  assert (av d3 = av (w_data w1)) as Hav by congruence.
  split_and!; [done| |done| |]; cbn [w_data w_lk]; rewrite ?av_with_env, ?Hav.
  - split; cbn [w_data w_lk]; rewrite ?av_with_env, ?Hav, ?Hmk; try done.
    split; cbn [w_data w_lk]; rewrite ?av_with_env, ?Hav; done.
  - by rewrite <-Hav2.
  - destruct Hb as [Hbd _]. simpl. rewrite He3, He2, He1. simpl. by rewrite Hbd, Hml.
Qed.

Lemma install_beside_spec ids jid id p rs w :
  quiet (w_lk w) → good (w_data w) → new_store (av (w_data w)) →
  wpr (install_beside ids jid id p rs)
    (λ r w', ∃ m b, r = Ok m ∧ newcomer p (MkDevice jid id) m w' ∧
      m_trustResolver m = last rs ∧ bundle_of m (av (w_data w')) b ∧
      d_env (w_data w') = joined_beside ids (MkDevice jid id) b (d_env (w_data w))) w.
Proof.
  intros Hq Hg Hnew. unfold install_beside, try. apply wpr_bind.
  eapply wpr_mono; [by apply install_spec|].
  intros r w' (m & b & -> & Hnc & Hres & Hb & He).
  apply wpr_bind, wpr_lift, wp_net. apply wpr_ret. exists m, b.
  split_and!; [done| |done|by cbn [w_data]; rewrite av_with_env|].
  - destruct Hnc as [[Hq' Hg' Hi Hl Ho] ? ? ? ? ? ? ?].
    split; cbn [w_data w_lk]; rewrite ?av_with_env; done.
  - simpl. rewrite He. unfold joined, joined_beside. simpl. by rewrite insert_insert_eq.
Qed.
End Bootstrap.
