(* ===== verification/Newcomers.v ===== *)
(** * Newcomers talk

    Two accounts with one device each, on one network, from two empty stores:
    once both are installed ([Bootstrap]) any number of messages, in any order
    of turns, arrive.  In between the devices are either strangers, each with a
    bundle served to the other, or in step; [acquainted] is the invariant of
    both states, and [exchange_acquainted] the step. *)
From S2P Require Import Prelude Types Errors StoreSpec Transport Xochimilco Prog.
From S2P Require Import ProgFacts StoreFacts Signal SessionLaws SignalFacts Manager LockFacts.
From S2P Require Import ManagerKeys ManagerEncrypt ManagerDecrypt FakeNetwork Handshake EndToEnd.
From S2P Require Import Delivery Conversation Invariants Bootstrap.

(** ** Two devices that know each other or can get to *)
Section Acquainted.
Context `{X : Xochimilco} {T : Transport} {ST : Store} {SC : StoreContract ST}
  {RS : ReliableStore ST}.
Context {CL : XochimilcoCodecLaws X} {SL : XochimilcoSessionLaws X}.
Context {TL : XochimilcoTotalLaws X}.
Implicit Types (d : data) (w : world) (m : Manager).
Context (I : env → Prop).

(** The account of [dev] has this device only, by what is stored or, when
    nothing is, by what the network serves. *)
Definition listed (dev : Device) (a : astore) : Prop :=
  devices_of a (JID dev) = [ID dev] ∨
  (devices_of a (JID dev) = [] ∧
   ∀ v, I v → ∃ l, (FetchDeviceList (JID dev) v).1 = Ok l ∧ DL_Devices l = [ID dev]).

(** What one side needs in order to write to [peer], and keeps. *)
Record side m (peer : Device) w : Prop := {
  sd_quiet : quiet (w_lk w);
  sd_good : good (w_data w);
  sd_env : I (d_env (w_data w));
  sd_stable : env_stable I m;
  sd_resolver : ∃ f, m_trustResolver m = Some f ∧ ∀ dev ik v, I v → (f dev ik v).1 = None;
  sd_trust ik : trust_of (av (w_data w)) ik ≠ TrustUntrusted;
  sd_peer : listed peer (av (w_data w));
  sd_own : listed (m_localDevice m) (av (w_data w)) }.

(** [m] can answer a handshake, and its bundle is served. *)
Definition offers m (a : astore) : Prop :=
  own_prekeys (m_protocol m) (m_identityKey m) a ∧ a_pool a ≠ ∅ ∧
  (∃ pub, IdentityPublicKey (m_protocol m) (m_identityKey m) = Ok pub) ∧
  ∃ b, bundle_of m a b ∧ ∀ v, I v → (FetchBundle (m_localDevice m) v).1 = Ok b.

Definition strangers mA mB (aA aB : astore) : Prop :=
  m_protocol mB = m_protocol mA ∧
  a_sessions aA !! m_localDevice mB = None ∧ a_sessions aB !! m_localDevice mA = None ∧
  offers mA aA ∧ offers mB aB.

Definition friends mA mB (aA aB : astore) : Prop :=
  in_step mA mB aA aB ∧
  is_Some (a_remote aA !! m_localDevice mB) ∧ is_Some (a_remote aB !! m_localDevice mA).

Definition acquainted mA mB wA wB : Prop :=
  side mA (m_localDevice mB) wA ∧ side mB (m_localDevice mA) wB ∧
  (strangers mA mB (av (w_data wA)) (av (w_data wB)) ∨
   friends mA mB (av (w_data wA)) (av (w_data wB))).

Lemma acquainted_sym mA mB wA wB : acquainted mA mB wA wB → acquainted mB mA wB wA.
Proof.
  intros (HA & HB & [(Hp & HsA & HsB & HoA & HoB)|(Hin & HrA & HrB)]).
  - split_and!; [done..|]. left. by split_and!.
  - split_and!; [done..|]. right. split_and!; [by apply in_step_sym|done..].
Qed.

Lemma acquainted_contactable mA mB wA wB :
  acquainted mA mB wA wB →
  ∃ ik, contactable I mA mB (av (w_data wA)) (av (w_data wB)) ik.
Proof.
  intros (_ & _ & [(Hp & HsA & _ & (HownA & _ & (pA & HpA) & _) & (Ho & Hpool & _ & b & Hb & Hf))|
    (Hin & [ik Hik] & _)]).
  - exists (B_IdentityKey b).
    apply (contact_bundle _ _ _ _ _ _ (av (w_data wB)) b); [|done..].
    split; try done; [apply current_spk_by_id|].
    split; [apply (own_identity _ _ _ HownA)|by exists pA].
  - exists ik. by apply contact_session.
Qed.

Lemma side_accepts m peer w ik : side m peer w → accepts I m peer ik (av (w_data w)).
Proof.
  intros []. right. split; [done|]. destruct sd_resolver0 as (f & Hf & Hok).
  exists f. split; [done|]. by intros v; apply Hok.
Qed.

Lemma listed_finds dev a : listed dev a → finds I dev a.
Proof.
  intros [H|[H Hf]]; [left; rewrite H; by apply list_elem_of_singleton|right; split; [done|]].
  intros v Hv. destruct (Hf v Hv) as (l & Hl & Hds). exists l. rewrite Hds. split; [done|].
  by apply list_elem_of_singleton.
Qed.

(** ** What a message leaves at its sender *)

Lemma devicesFor_listed dev d :
  good d → I (d_env d) → listed dev (av d) →
  wp (devicesFor (JID dev)) (λ r d', r = Ok [ID dev] ∧ devices_of (av d') (JID dev) = [ID dev]) d.
Proof.
  intros Hg HId Hl. unfold devicesFor. apply wp_try. read_ok. destruct Hso as [He _].
  destruct Hl as [Hl|[Hnil Hf]]; [rewrite Hl|rewrite Hnil]; simpl.
  { apply wp_pure. by rewrite Hav. }
  destruct (Hf _ HId) as (l & Hfl & Hds). apply wp_try, wp_try, wp_net. simpl. rewrite He.
  destruct (FetchDeviceList (JID dev) (d_env d)) as [r v]. simpl in *. subst r.
  write_ok. read_ok. rewrite Hav1, Hav0. unfold devices_of. simpl.
  rewrite lookup_insert_eq. simpl. by rewrite Hds.
Qed.

Lemma listed_others dev a a' :
  devices_of a' (JID dev) = devices_of a (JID dev) → listed dev a → listed dev a'.
Proof. unfold listed. by intros ->. Qed.

Lemma recipientDevices_listed m peer d :
  good d → I (d_env d) → env_stable I m → JID peer ≠ JID (m_localDevice m) →
  listed peer (av d) → listed (m_localDevice m) (av d) →
  wp (recipientDevices m (JID peer))
    (λ _ d', devices_of (av d') (JID peer) = [ID peer] ∧
      devices_of (av d') (JID (m_localDevice m)) = [ID (m_localDevice m)]) d.
Proof.
  intros Hg HId HI Hj Hp Ho. unfold recipientDevices. apply wp_try.
  assert (EnvInv I (devicesFor (JID peer))) as Henv by (by eapply devicesFor_env).
  eapply wp_mono; [apply wp_and; [by apply devicesFor_spec|apply wp_and;
    [by apply devicesFor_listed|by apply (env_inv_wp I)]]|].
  intros r d1 ((Hg1 & _ & Hother & _) & (-> & Hp1) & HI1). cbv zeta.
  rewrite decide_False by done. apply wp_bind.
  eapply wp_mono; [apply wp_and; [by apply devicesFor_spec|apply devicesFor_listed; try done]|].
  { eapply listed_others, Ho. by apply Hother. }
  intros r d2 ((_ & _ & Hother2 & _) & (-> & Ho2)). apply wp_pure.
  by rewrite Hother2.
Qed.

(** Both lists are known afterwards, so the message names its devices clearly. *)
Lemma encrypt_side m peer pt w :
  side m peer w → JID peer ≠ JID (m_localDevice m) →
  wpr (encrypt m (JID peer) pt)
    (λ _ w', side m peer w' ∧ unambiguous m peer (av (w_data w'))) w.
Proof.
  intros [Hq Hg HId HI Hres Htr Hp Ho] Hj.
  eapply wpr_mono; [apply (encrypt_carries I m (JID peer) pt (λ a,
    (∀ ik, trust_of a ik ≠ TrustUntrusted) ∧ devices_of a (JID peer) = [ID peer] ∧
    devices_of a (JID (m_localDevice m)) = [ID (m_localDevice m)])); try done|].
  - intros D a a' Hst (Ht & Hlp & Hlo). unfold devices_of in *.
    destruct (enc_keys _ _ _ Hst) as (_ & _ & _ & _ & _ & _ & ->). split; [|done].
    intros ik. by destruct (enc_trust _ _ _ Hst ik) as [->|(_ & _ & ->)].
  - eapply wp_mono; [apply wp_and; [by apply recipientDevices_spec|
      by apply recipientDevices_listed]|].
    intros r d1 ((_ & [Hst1 _] & _) & Hp1 & Ho1). split; [|done]. by rewrite Hst1.
  - intros r w' (Hq' & Hg' & HI' & Ht & Hp1 & Ho1).
    split; [split; try done; by left|split].
    + rewrite Hp1. apply NoDup_singleton.
    + intros _. rewrite Ho1. by apply Forall_singleton.
Qed.

(** With the session of a device its identity is recorded. *)
Definition recorded (dev : Device) (a : astore) : Prop :=
  is_Some (a_sessions a !! dev) → is_Some (a_remote a !! dev).

Lemma outcomes_recorded D os a a' dev :
  enc_step D a a' → outcomes_ok os a' → only_encrypted os a a' →
  recorded dev a → recorded dev a'.
Proof.
  intros Hst Hok Honly Hrec Hs.
  destruct (decide (is_Some (a_remote a' !! dev))) as [|Hno]; [done|]. rewrite Honly in Hs.
  - destruct (enc_kept _ _ _ Hst dev Hs) as [_ ->]. by apply Hrec.
  - intros k Hin. destruct (Hok _ _ Hin) as [_ [_ (ik & Hik & _)]]. apply Hno. by exists ik.
Qed.

Lemma encrypt_recorded m jid peer pt w :
  quiet (w_lk w) → good (w_data w) → recorded peer (av (w_data w)) →
  wpr (encrypt m jid pt)
    (λ r w', quiet (w_lk w') ∧ good (w_data w') ∧ recorded peer (av (w_data w')) ∧
      (∀ msg, r.1.1 = Some msg → Sender msg = m_localDevice m)) w.
Proof.
  intros Hq Hg Hrec. eapply wpr_mono; [by apply encrypt_spec|].
  intros r w' (Hq' & Hg' & a1 & [Hst1 _] & Hcase). rewrite Hst1 in Hcase.
  destruct Hcase as [(e & -> & ->)|(devs & os & _ & _ & Hst & Hok & Honly & Hr)];
    [by split_and!|].
  split_and!; [done|done|by eapply outcomes_recorded|].
  intros msg Hmsg. destruct Hr as [[_ ->]|(msg' & _ & -> & Hs & _)]; [done|].
  by injection Hmsg as <-.
Qed.

(** ** One message between the two *)
Lemma exchange_acquainted mS mR pt wS wR :
  JID (m_localDevice mR) ≠ JID (m_localDevice mS) → acquainted mS mR wS wR →
  let '(dl, wS', wR') := exchange mS mR pt wS wR in
  arrived pt dl ∧ acquainted mS mR wS' wR'.
Proof.
  intros Hj Hacq. pose proof Hacq as (HS & HR & Hlink).
  destruct (acquainted_contactable _ _ _ _ Hacq) as [ik Hcon].
  assert (m_localDevice mR ≠ m_localDevice mS) as HB by congruence.
  pose proof HS as [HqS HgS HIS HstS _ _ HpS _]. pose proof HR as [HqR HgR HIR HstR HresR HtrR _ _].
  pose proof (encrypt_side mS (m_localDevice mR) pt wS HS Hj) as H1.
  pose proof (encrypt_arrives mS mR _ I ik pt wS wR HB HqS HgS HqR HgR HstS HIS Hcon
    (side_accepts _ _ _ _ HS) (goes_account _ _ _ _ _ eq_refl (listed_finds _ _ HpS))) as H2.
  assert (recorded (m_localDevice mR) (av (w_data wS))) as HrecS.
  { destruct Hlink as [(_ & Hno & _)|(_ & Hr & _)]; [intros [? ?]; congruence|by intros _]. }
  pose proof (encrypt_recorded mS (JID (m_localDevice mR)) (m_localDevice mR) pt wS HqS HgS HrecS) as H3.
  unfold exchange, EncryptMessage in *. unfold wpr at 1 in H1. unfold wpr at 1 in H2.
  unfold wpr in H3. destruct (run (encrypt mS _ pt) wS) as [[[om errs] err] wS'| |]; [|done..].
  destruct H1 as [HS' Hun], H3 as (_ & _ & Hrec' & Hsend).
  destruct H2 as (msg & errs' & key & [= -> -> ->] & Hkey & Hdec). rewrite Hkey.
  specialize (Hdec (unambiguous_for_account _ _ _ Hun)).
  pose proof (DecryptMessage_spec mR msg key wR HqR HgR Hkey) as H4.
  pose proof (DecryptMessage_env I mR msg wR HqR HIR) as H5.
  unfold wpr in Hdec, H4, H5. destruct (run (DecryptMessage mR msg) wR) as [r wR'| |]; [|done..].
  destruct Hdec as (((out & -> & Hsame) & Hin & _) & Hre), H4 as (HqR' & HgR' & Hst & _).
  destruct (dec_keys _ _ _ _ Hst) as (_ & _ & _ & _ & _ & Ht & Hd).
  split; [by exists out|]. split_and!; [done| |].
  - destruct HR as [_ _ _ _ _ _ HpR HoR]. split; try done.
    + intros ik'. unfold trust_of. rewrite Ht. apply HtrR.
    + eapply listed_others, HpR. unfold devices_of. by rewrite Hd.
    + eapply listed_others, HoR. unfold devices_of. by rewrite Hd.
  - right. split_and!; [done|by apply Hrec', (in_step_session _ _ _ _ Hin)|].
    destruct Hlink as [(_ & Hno & _)|(Hin0 & _ & Hr)].
    + by rewrite Hno in Hre.
    + destruct (in_step_session _ _ _ _ Hin0) as [x Hx]. rewrite Hx in Hre. by rewrite Hre.
Qed.

Lemma converse_acquainted mA mB turns wA wB :
  JID (m_localDevice mA) ≠ JID (m_localDevice mB) → acquainted mA mB wA wB →
  let '(dls, wA', wB') := converse mA mB turns wA wB in
  Forall2 arrived_turn turns dls ∧ acquainted mA mB wA' wB'.
Proof.
  intros Hj Hacq.
  pose proof (converse_inv
    (λ mS mR wS wR, JID (m_localDevice mS) ≠ JID (m_localDevice mR) ∧ acquainted mS mR wS wR)
    (λ pt _ dl, arrived pt dl) mA mB turns wA wB) as H.
  destruct (converse mA mB turns wA wB) as [[dls wA'] wB'].
  destruct H as (Harr & _ & Hacq'); [| |done|by split].
  - intros mS mR wS wR [? ?]. split; [done|by apply acquainted_sym].
  - intros mS mR pt wS wR [Hne H]. pose proof (exchange_acquainted mS mR pt wS wR (not_eq_sym Hne) H).
    destruct (exchange mS mR pt wS wR) as [[dl wS'] wR']. naive_solver.
Qed.
End Acquainted.

(** ** From two empty stores *)
Section Newcomers.
Context `{X : Xochimilco} {ST : Store} {SC : StoreContract ST} {RS : ReliableStore ST}.
Context {CL : XochimilcoCodecLaws X} {SL : XochimilcoSessionLaws X}.
Context {TL : XochimilcoTotalLaws X} {GL : GoCryptoLaws GC} {KL : XochimilcoKeygenLaws X}.
Implicit Types (w : world) (m : Manager).

(** The device comes to see the state [n] of the network. *)
Definition on_net (n : fakeNetwork) w : world := MkWorld (with_env n (w_data w)) (w_lk w).

(** A resolver that trusts every key. *)
Definition approves (f : TrustResolver) : Prop := ∀ dev ik v, f dev ik v = (None, v).

Definition frozen (n v : fakeNetwork) : Prop := v = n.

Lemma frozen_stable n m f :
  m_trustResolver m = Some f → approves f → env_stable (frozen n) m.
Proof.
  intros Hm Hf. split.
  - intros jid v ->. simpl. unfold fake_FetchDeviceList. by destruct (net_devices n !! jid).
  - intros dev v ->. simpl. unfold fake_FetchBundle. by destruct (net_bundles n !! dev).
  - intros r dev key v Hr ->. assert (r = f) as -> by congruence. by rewrite Hf.
Qed.

(** The network lists this device alone for its account, and has its bundle. *)
Definition published (dev : Device) (b : Bundle) (n : fakeNetwork) : Prop :=
  net_devices n !! JID dev = Some (MkDeviceList (JID dev) [ID dev]) ∧
  net_bundles n !! dev = Some b.

Lemma joined_published dev b n : published dev b (joined dev b n).
Proof. split; apply lookup_insert_eq. Qed.

Lemma joined_others dev b dev' b' n :
  JID dev ≠ JID dev' → published dev b n → published dev b (joined dev' b' n).
Proof.
  intros Hne [Hd Hb]. split; simpl; rewrite lookup_insert_ne; try done. congruence.
Qed.

Lemma published_listed dev b n (a : astore) :
  published dev b n → a_devices a = ∅ → listed (frozen n) dev a.
Proof.
  intros [Hd _] Hnil. right. unfold devices_of. rewrite Hnil. split; [done|].
  intros v ->. simpl. unfold fake_FetchDeviceList. rewrite Hd. by eexists.
Qed.

Lemma newcomer_side p dev m w n b peer bp f :
  newcomer p dev m w → published dev b n → published peer bp n →
  m_trustResolver m = Some f → approves f → side (frozen n) m peer (on_net n w).
Proof.
  intros [[Hq Hg _ _ _] _ Hl _ _ _ Ht Hd] Hpub Hpeer Hm Hf.
  split; simpl; rewrite ?av_with_env; try done.
  - by eapply frozen_stable.
  - exists f. split; [done|]. intros dev' ik v _. by rewrite Hf.
  - intros ik. unfold trust_of. by rewrite Ht.
  - by eapply published_listed.
  - rewrite Hl. by eapply published_listed.
Qed.

Lemma newcomer_offers p dev m w n b :
  newcomer p dev m w → published dev b n → bundle_of m (av (w_data w)) b →
  offers (frozen n) m (av (w_data (on_net n w))).
Proof.
  intros Hnc [_ Hb] Hbd. pose proof (nc_pool _ _ _ _ Hnc) as Hpool.
  destruct Hnc as [[_ _ _ _ Hown] Hp Hl (_ & pub & Hu & _) _ _ _ _].
  unfold offers, on_net. simpl. rewrite av_with_env, Hp, Hl.
  split_and!; [done|done|by exists pub|]. exists b. split; [done|].
  intros v ->. unfold fake_FetchBundle. by rewrite Hb.
Qed.

Lemma newcomers_acquainted p devA devB mA mB wA wB n bA bB fA fB :
  newcomer p devA mA wA → newcomer p devB mB wB →
  bundle_of mA (av (w_data wA)) bA → bundle_of mB (av (w_data wB)) bB →
  published devA bA n → published devB bB n →
  m_trustResolver mA = Some fA → approves fA → m_trustResolver mB = Some fB → approves fB →
  acquainted (frozen n) mA mB (on_net n wA) (on_net n wB).
Proof.
  intros HA HB HbA HbB HpA HpB HmA HfA HmB HfB.
  pose proof (nc_local _ _ _ _ HA) as HlA. pose proof (nc_local _ _ _ _ HB) as HlB.
  split_and!.
  - rewrite HlB. by eapply (newcomer_side p devA).
  - rewrite HlA. by eapply (newcomer_side p devB).
  - left. split_and!; [| | |by eapply newcomer_offers..].
    + by rewrite (nc_protocol _ _ _ _ HA), (nc_protocol _ _ _ _ HB).
    + simpl. by rewrite av_with_env, (nc_sessions _ _ _ _ HA).
    + simpl. by rewrite av_with_env, (nc_sessions _ _ _ _ HB).
Qed.

(** C3: newcomers talk.  Two accounts are set up from empty stores on one
    network: [InitIdentity], [NewManager] with a resolver that approves,
    [PublishBundle], and the device list.  Both set-ups succeed, and then
    every message of any conversation between the two, whoever begins and
    whoever writes how often, is delivered: [EncryptMessage] returns it and the
    other's [DecryptMessage] returns exactly its text.  For both protocols, any
    account names and device IDs, and any backend and store that keep their
    contracts. *)
Theorem newcomers_converse p jidA idA jidB idB rsA rsB fA fB turns wA0 wB0 :
  jidA ≠ jidB →
  quiet (w_lk wA0) → good (w_data wA0) → new_store (av (w_data wA0)) →
  quiet (w_lk wB0) → good (w_data wB0) → new_store (av (w_data wB0)) →
  last rsA = Some fA → approves fA → last rsB = Some fB → approves fB →
  wpr (install jidA idA p rsA) (λ rA wA, ∃ mA, rA = Ok mA ∧
    wpr (install jidB idB p rsB) (λ rB wB, ∃ mB, rB = Ok mB ∧
      let '(dls, _, _) := converse mA mB turns (on_net (d_env (w_data wB)) wA) wB in
      Forall2 arrived_turn turns dls)
    (on_net (d_env (w_data wA)) wB0)) wA0.
Proof.
  intros Hj HqA HgA HnA HqB HgB HnB HrA HfA HrB HfB.
  eapply wpr_mono; [by apply install_spec|].
  intros rA wA (mA & bA & -> & HA & HmA & HbA & HeA). exists mA. split; [done|].
  eapply wpr_mono; [by apply install_spec|].
  intros rB wB (mB & bB & -> & HB & HmB & HbB & HeB). exists mB. split; [done|].
  simpl in HeB. set (n := d_env (w_data wB)) in *.
  assert (acquainted (frozen n) mA mB (on_net n wA) wB) as Hacq.
  { replace wB with (on_net n wB) by (by destruct wB as [[] ?]).
    apply (newcomers_acquainted p (MkDevice jidA idA) (MkDevice jidB idB) mA mB wA wB n bA bB
      fA fB); try done; [| |congruence..].
    - rewrite HeB. apply joined_others; [done|]. rewrite HeA. apply joined_published.
    - rewrite HeB. apply joined_published. }
  pose proof (converse_acquainted (frozen n) mA mB turns (on_net n wA) wB) as H.
  destruct (converse mA mB turns (on_net n wA) wB) as [[dls wA'] wB'].
  apply H; [|done]. by rewrite (nc_local _ _ _ _ HA), (nc_local _ _ _ _ HB).
Qed.
End Newcomers.
