(* ===== verification/Community.v ===== *)
(** * Communities: any number of devices of any number of accounts

    The other delivery theorems follow two devices, or one message.  Here a whole
    community shares one network: whoever wants to writes to an account, and
    before anybody writes again every device of that account and every other
    device of the writer's own reads the message.  Publishing is left to the
    application by the library, and a bundle is good for one first contact only
    (see [FirstContact]); so in this run the application of a device that has
    read a message publishes its bundle again ([republish]).  The run is
    executable ([speak], [gossip]); [community] is what it keeps (which [Gossip]
    shows; this file has the lemmas on lists of devices and on the writer). *)
From S2P Require Import Prelude Types Errors StoreSpec Transport Xochimilco Prog.
From S2P Require Import ProgFacts StoreFacts Signal SessionLaws SignalFacts Manager LockFacts.
From S2P Require Import ManagerKeys ManagerEncrypt ManagerDecrypt FakeNetwork Handshake EndToEnd.
From S2P Require Import Delivery FirstContact Conversation Invariants Bootstrap Newcomers.

Section Community.
Context `{X : Xochimilco} {ST : Store} {SC : StoreContract ST} {RS : ReliableStore ST}.
Implicit Types (d : data) (w : world) (m : Manager) (n : fakeNetwork).

(** ** The run *)

(** A device: its Manager, and its world except for the network, which is the
    community's. *)
Record node := MkNode { nd_mgr : Manager; nd_world : world }.
Definition nd_dev (q : node) : Device := m_localDevice (nd_mgr q).
Definition nd_store (q : node) : astore := av (w_data (nd_world q)).

(** The device reads [msg]. *)
Definition hear (msg : EncryptedMessage) n (q : node) :
    option (result gobytes) * fakeNetwork * node :=
  match run (DecryptMessage (nd_mgr q) msg) (on_net n (nd_world q)) with
  | Done r w => (Some r, d_env (w_data w), MkNode (nd_mgr q) w)
  | _ => (None, n, q)
  end.

(** What the application does after reading, for the library does not: publish
    the bundle again, since the message may have used its first prekey up. *)
Definition republish n (q : node) : fakeNetwork * node :=
  match run (lift (Manager_PublishBundle (nd_mgr q))) (on_net n (nd_world q)) with
  | Done _ w => (d_env (w_data w), MkNode (nd_mgr q) w)
  | _ => (n, q)
  end.

(** The devices a message from [from] to the account [jid] is meant for. *)
Definition meant (from : Device) (jid : string) (dev : Device) : bool :=
  bool_decide (dev ≠ from ∧ (JID dev = jid ∨ JID dev = JID from)).

(** [msg] is handed to every device it is meant for, which reads it and then
    publishes its bundle; what each of them reads. *)
Fixpoint spread (msg : EncryptedMessage) (to : Device → bool) n (nodes : list node) :
    list (Device * option (result gobytes)) * fakeNetwork * list node :=
  match nodes with
  | [] => ([], n, [])
  | q :: nodes =>
      if to (nd_dev q) then
        let '(r, n, q1) := hear msg n q in
        let '(n, q') := republish n q1 in
        let '(rs, n, nodes) := spread msg to n nodes in
        ((nd_dev q, r) :: rs, n, q' :: nodes)
      else
        let '(rs, n, nodes) := spread msg to n nodes in
        (rs, n, q :: nodes)
  end.

(** The [po_from]-th device writes [po_text] to the account [po_to]. *)
Record post := MkPost { po_from : nat; po_to : string; po_text : gobytes }.

Inductive notice :=
  | Spread (rs : list (Device * option (result gobytes)))
  | Unsent (errs : list DeviceError) (err : option error)
  | Nobody.

Definition speak (p : post) n (nodes : list node) : notice * fakeNetwork * list node :=
  match nodes !! po_from p with
  | None => (Nobody, n, nodes)
  | Some q =>
      match run (EncryptMessage (nd_mgr q) (po_to p) (po_text p)) (on_net n (nd_world q)) with
      | Done (om, errs, err) w =>
          let n := d_env (w_data w) in
          let nodes := <[po_from p := MkNode (nd_mgr q) w]> nodes in
          match om with
          | None => (Unsent errs err, n, nodes)
          | Some msg =>
              let '(rs, n, nodes) := spread msg (meant (nd_dev q) (po_to p)) n nodes in
              (Spread rs, n, nodes)
          end
      | _ => (Nobody, n, nodes)
      end
  end.

Fixpoint gossip (posts : list post) n (nodes : list node) :
    list notice * fakeNetwork * list node :=
  match posts with
  | [] => ([], n, nodes)
  | p :: posts =>
      let '(r, n, nodes) := speak p n nodes in
      let '(rs, n, nodes) := gossip posts n nodes in
      (r :: rs, n, nodes)
  end.

(** Exactly these devices have read the message, as it was written. *)
Definition everyone (devs : list Device) (p : post) (r : notice) : Prop :=
  ∃ from rs, devs !! po_from p = Some from ∧ r = Spread rs ∧
    rs.*1 = filter (λ dev, meant from (po_to p) dev) devs ∧
    Forall (λ x, ∃ out, x.2 = Some (Ok out) ∧ same_text (po_text p) out) rs.

(** The writer is a member, and there is somebody to read. *)
Definition sensible (devs : list Device) (p : post) : Prop :=
  (∃ dev, dev ∈ devs ∧ JID dev = po_to p) ∧
  ∃ from dev, devs !! po_from p = Some from ∧ dev ∈ devs ∧ meant from (po_to p) dev.

(** ** The community *)
Context {CL : XochimilcoCodecLaws X} {SL : XochimilcoSessionLaws X}.
Context {TL : XochimilcoTotalLaws X}.

(** The size up to which the members' prekeys are enough. *)
Context (cap : nat).

(** The device IDs of an account. *)
Definition roster (devs : list Device) (jid : string) : list DeviceID :=
  map ID (filter (λ dev, JID dev = jid) devs).

(** The lists of devices a store has are complete. *)
Definition informed (devs : list Device) (a : astore) : Prop :=
  ∀ jid, devices_of a jid = [] ∨ devices_of a jid ≡ₚ roster devs jid.

(** One-time prekeys enough for those not yet met. *)
Definition friends_of (devs : list Device) (a : astore) : list Device :=
  filter (λ dev, is_Some (a_sessions a !! dev)) devs.
Definition stocked (devs : list Device) (a : astore) : Prop :=
  cap ≤ size (a_pool a) + length (friends_of devs a).

Definition offered_on n m (a : astore) : Prop :=
  ∃ b, bundle_of m a b ∧ net_bundles n !! m_localDevice m = Some b.

Record member (devs : list Device) (q : node) : Prop := {
  mb_quiet : quiet (w_lk (nd_world q));
  mb_good : good (w_data (nd_world q));
  mb_resolver : ∃ f, m_trustResolver (nd_mgr q) = Some f ∧ approves f;
  mb_usable : usable_identity (m_protocol (nd_mgr q)) (m_identityKey (nd_mgr q));
  mb_own : own_prekeys (m_protocol (nd_mgr q)) (m_identityKey (nd_mgr q)) (nd_store q);
  mb_trust ik : trust_of (nd_store q) ik ≠ TrustUntrusted;
  mb_informed : informed devs (nd_store q);
  mb_sessions dev : is_Some (a_sessions (nd_store q) !! dev) → dev ∈ devs;
  mb_stocked : stocked devs (nd_store q) }.

(** Two members: in step and each other's keys recorded, or strangers. *)
Definition related (p q : node) : Prop :=
  m_protocol (nd_mgr q) = m_protocol (nd_mgr p) ∧
  ((in_step (nd_mgr p) (nd_mgr q) (nd_store p) (nd_store q) ∧
    is_Some (a_remote (nd_store p) !! nd_dev q) ∧ is_Some (a_remote (nd_store q) !! nd_dev p)) ∨
   (a_sessions (nd_store p) !! nd_dev q = None ∧ a_sessions (nd_store q) !! nd_dev p = None)).

(** The network lists the members, all of them. *)
Definition lists_all (devs : list Device) n : Prop :=
  (∀ jid l, net_devices n !! jid = Some l → DL_Devices l ≡ₚ roster devs jid) ∧
  (∀ dev, dev ∈ devs → is_Some (net_devices n !! JID dev)).

Record community n (nodes : list node) : Prop := {
  cm_size : length nodes ≤ cap;
  cm_ids : NoDup (map ID (map nd_dev nodes));
  cm_lists : lists_all (map nd_dev nodes) n;
  cm_members : Forall (member (map nd_dev nodes)) nodes;
  cm_offers q : q ∈ nodes → offered_on n (nd_mgr q) (nd_store q);
  cm_related p q : p ∈ nodes → q ∈ nodes → nd_dev p ≠ nd_dev q → related p q }.

(** ** Rosters *)
Section Rosters.
Context (devs : list Device).
Hypothesis Hids : NoDup (map ID devs).

Lemma elem_of_roster jid id : id ∈ roster devs jid ↔ MkDevice jid id ∈ devs.
Proof.
  unfold roster. rewrite list_elem_of_fmap. split.
  - intros (dev & -> & [<- Hin]%list_elem_of_filter). by destruct dev.
  - intros Hin. exists (MkDevice jid id). split; [done|]. by apply list_elem_of_filter.
Qed.

Lemma same_id dev dev' : dev ∈ devs → dev' ∈ devs → ID dev = ID dev' → dev = dev'.
Proof.
  intros [i Hi]%list_elem_of_lookup [j Hj]%list_elem_of_lookup Heq.
  assert (i = j) as ->; [|congruence].
  eapply NoDup_lookup; [exact Hids| |]; rewrite list_lookup_fmap; [by rewrite Hi|].
  rewrite Hj. simpl. by rewrite Heq.
Qed.

Lemma NoDup_roster jid : NoDup (roster devs jid).
Proof.
  unfold roster. revert Hids. generalize devs.
  induction devs0 as [|dev l IH]; [constructor|]. intros [Hno Hnd]%NoDup_cons.
  rewrite filter_cons. case_decide; [|by apply IH]. apply NoDup_cons. split; [|by apply IH].
  intros (dev' & Heq & [_ Hin]%list_elem_of_filter)%list_elem_of_fmap. apply Hno.
  rewrite Heq. by apply list_elem_of_fmap_2.
Qed.

Lemma informed_member a jid id :
  informed devs a → id ∈ devices_of a jid → MkDevice jid id ∈ devs.
Proof.
  intros Ha Hin. destruct (Ha jid) as [Hnil|Hp]; [rewrite Hnil in Hin; set_solver|].
  rewrite Hp in Hin. by apply elem_of_roster.
Qed.

Lemma informed_NoDup a jid : informed devs a → NoDup (devices_of a jid).
Proof.
  intros Ha. destruct (Ha jid) as [->|Hp]; [constructor|]. rewrite Hp. apply NoDup_roster.
Qed.

(** Unique IDs make every message clear. *)
Lemma informed_unambiguous m jid dev a :
  informed devs a → dev ∈ devs → unambiguous_for m jid dev a.
Proof.
  intros Ha Hdev.
  assert (∀ j, ID dev ∈ devices_of a j → JID dev = j) as Hj.
  { intros j Hin%informed_member; [|done]. by rewrite (same_id _ _ Hdev Hin). }
  unfold unambiguous_for. case_decide as Hjid; (split; [by apply informed_NoDup|]).
  - intros Hne. apply Forall_forall. intros id Hin ->. by apply Hj in Hin.
  - by intros Hin%Hj.
Qed.

(** A member is found, in the store or on the network. *)
Lemma informed_finds n dev a :
  lists_all devs n → informed devs a → dev ∈ devs → finds (frozen n) dev a.
Proof.
  intros [Hl Hall] Ha Hdev.
  assert (ID dev ∈ roster devs (JID dev)) as Hin by (apply elem_of_roster; by destruct dev).
  destruct (Ha (JID dev)) as [Hnil|Hp]; [right|left; by rewrite Hp].
  split; [done|]. intros v ->. destruct (Hall dev Hdev) as [l Hnet]. exists l.
  simpl. unfold fake_FetchDeviceList. rewrite Hnet. split; [done|]. by rewrite (Hl _ _ Hnet).
Qed.

Lemma meant_goes n m jid dev a :
  lists_all devs n → informed devs a → dev ∈ devs → (∃ dev', dev' ∈ devs ∧ JID dev' = jid) →
  meant (m_localDevice m) jid dev → goes_to (frozen n) m jid dev a.
Proof.
  intros Hl Ha Hdev (dev' & Hdev' & Hjid) [_ Hm]%bool_decide_unpack.
  assert (finds (frozen n) dev a) as Hf by (by apply informed_finds).
  destruct (decide (JID dev = jid)) as [|Hne]; [by apply goes_account|].
  destruct Hm as [|Hm]; [done|]. apply goes_own; try done; [congruence|]. right.
  intros v ->. destruct (proj2 Hl dev' Hdev') as [l Hnet]. rewrite Hjid in Hnet.
  simpl. unfold fake_FetchDeviceList. by rewrite Hnet.
Qed.

(** ** The writer's lists stay complete *)
Lemma devicesFor_informed n jid d :
  lists_all devs n → good d → d_env d = n → informed devs (av d) →
  wp (devicesFor jid) (λ _ d', informed devs (av d')) d.
Proof.
  intros [Hl _] Hg He Ha. unfold devicesFor. apply wp_try. read_ok. destruct Hso as [He0 _].
  case_decide; [apply wp_pure; by rewrite Hav|]. apply wp_try, wp_try, wp_net. simpl.
  rewrite He0, He. unfold fake_FetchDeviceList.
  destruct (net_devices n !! jid) as [l|] eqn:Hnet; [|by rewrite av_with_env, Hav].
  write_ok. read_ok. rewrite Hav1, Hav0, av_with_env, Hav. intros j. unfold devices_of. simpl.
  rewrite lookup_insert. case_decide as Hj; [|apply Ha]. subst j. right. by apply Hl.
Qed.

Lemma recipientDevices_informed n m jid d :
  env_stable (frozen n) m → lists_all devs n → good d → d_env d = n → informed devs (av d) →
  wp (recipientDevices m jid) (λ _ d', informed devs (av d')) d.
Proof.
  intros HI Hl Hg He Ha. unfold recipientDevices. apply wp_try.
  assert (EnvInv (frozen n) (devicesFor jid)) as Henv by (by eapply devicesFor_env).
  eapply wp_mono; [apply wp_and; [by apply devicesFor_spec|apply wp_and;
    [by eapply devicesFor_informed|by apply (env_inv_wp (T := fakeTransport) (frozen n))]]|].
  intros [ds|e] d1 ((Hg1 & _) & Ha1 & He1); [|done]. cbv zeta.
  case_decide; [by apply wp_pure|]. apply wp_bind.
  eapply wp_mono; [by apply (devicesFor_informed n)|].
  intros [own|e] d2 Ha2; by apply wp_pure.
Qed.

(** ** What a message does at the writer's *)

(** [from] has written to [jid]. *)
Record sender_step (from : Device) (jid : string) (a a' : astore) : Prop := {
  ss_prekeys : same_prekeys a a';
  ss_trust : trust_step a a';
  ss_informed : informed devs a';
  ss_others dev : JID dev ≠ jid → JID dev ≠ JID from →
    a_sessions a' !! dev = a_sessions a !! dev ∧ a_remote a' !! dev = a_remote a !! dev;
  ss_kept dev : is_Some (a_sessions a !! dev) →
    is_Some (a_sessions a' !! dev) ∧ a_remote a' !! dev = a_remote a !! dev;
  ss_new dev : is_Some (a_sessions a' !! dev) → is_Some (a_sessions a !! dev) ∨ dev ∈ devs;
  ss_recorded dev : recorded dev a → recorded dev a' }.

Lemma recipients_members m jid a l dev :
  informed devs a → recipients m jid a l → dev ∈ l → dev ∈ devs.
Proof.
  intros Ha (own & -> & Hown) [Hin|Hin]%elem_of_app; apply elem_of_devices in Hin as [Hj Hin].
  - destruct dev. simpl in *. subst. by eapply informed_member.
  - destruct Hown as [->|[_ ->]]; [set_solver|]. destruct dev. simpl in *. subst.
    by eapply informed_member.
Qed.

Lemma encrypt_sender n m jid pt w :
  env_stable (frozen n) m → lists_all devs n → quiet (w_lk w) → good (w_data w) →
  d_env (w_data w) = n → informed devs (av (w_data w)) →
  wpr (encrypt m jid pt)
    (λ r w', quiet (w_lk w') ∧ good (w_data w') ∧ d_env (w_data w') = n ∧
      sender_step (m_localDevice m) jid (av (w_data w)) (av (w_data w')) ∧
      (∀ msg, r.1.1 = Some msg → Sender msg = m_localDevice m)) w.
Proof.
  intros HI Hl Hq Hg He Ha.
  eapply wpr_mono; [apply wpr_and; [by apply encrypt_spec|apply wpr_and;
    [by apply encrypt_same_prekeys|
     apply (encrypt_carries (T := fakeTransport) (frozen n) m jid pt (informed devs)); try done]]|].
  - intros D a a' Hst H j. unfold devices_of.
    destruct (enc_keys _ _ _ Hst) as (_ & _ & _ & _ & _ & _ & ->). apply H.
  - by apply (recipientDevices_informed n).
  - intros r w' ((Hq' & Hg' & a1 & [Hst1 _] & Hcase) & (_ & _ & Hpre) & _ & _ & He' & Ha').
    split_and!; [done..| |].
    2: { intros msg Hmsg. destruct Hcase as [(e & -> & _)|(l & os & _ & _ & _ & _ & _ & Hr)];
           [done|]. destruct Hr as [[_ ->]|(msg' & _ & -> & Hs & _)]; [done|].
         by injection Hmsg as <-. }
    destruct Hcase as [(e & _ & Heq)|(l & os & Hrec & _ & Hst & Hok & Honly & _)].
    { rewrite Heq in *. rewrite Hst1 in Ha' |- *.
      split; try done; [by left|by intros dev; left]. }
    rewrite Hst1 in Hst, Honly.
    split; [done|by apply (enc_trust _ _ _ Hst)|done| | | |].
    + intros dev H1 H2. apply (enc_others _ _ _ Hst). intros [Hin _].
      by destruct (recipients_jid _ _ _ _ _ Hrec Hin).
    + by apply (enc_kept _ _ _ Hst).
    + intros dev Hs. destruct (decide (dev ∈ l)) as [Hin|Hno];
        [right; by eapply recipients_members|left].
      destruct (enc_others _ _ _ Hst dev) as [Heq _]; [naive_solver|].
      by rewrite Heq in Hs.
    + intros dev. exact (outcomes_recorded _ _ _ _ dev Hst Hok Honly).
Qed.

(** A device with a session gets no key exchange. *)
Lemma encrypt_next_no_kx n m jid B pt w :
  env_stable (frozen n) m → quiet (w_lk w) → good (w_data w) → d_env (w_data w) = n →
  B ≠ m_localDevice m → JID B = jid ∨ JID B = JID (m_localDevice m) →
  is_Some (a_sessions (av (w_data w)) !! B) →
  wpr (encrypt m jid pt)
    (λ r w', unambiguous_for m jid B (av (w_data w')) →
      ∀ msg errs err key, r = (Some msg, errs, err) →
      own_key (ID B) (Keys msg) = Some key → RK_KeyExchange key = None) w.
Proof.
  intros HI Hq Hg He HB Hj [x Hx].
  eapply wpr_mono; [apply (encrypt_key m jid B (Some x) (frozen n) (unambiguous_for m jid B)
    (λ _ key _, RK_KeyExchange key = None)); try done; [by apply unambiguous_for_addresses|]|].
  - intros km d Hgd Hs _ _. eapply wp_mono; [by apply encryptForDevice_locked_spec|].
    intros r d' (_ & _ & Hr) key ->. destruct Hr as (Hid & Hkx & [[y Hy] _]).
    split; [done|]. exists y. split; [done|]. apply Hkx. by rewrite Hs.
  - intros r w' H Hun msg errs err key Hr Hkey.
    by destruct (H Hun _ _ _ _ Hr Hkey) as (_ & km & y & _ & _ & Hkx).
Qed.

End Rosters.
End Community.
