(* ===== verification/Gossip.v ===== *)
(** * Writing in a community

    That a community stays one.  A message takes every member from what it was to
    what it is afterwards: it wrote, it read, or it had nothing to do with it
    ([part]); whichever it is, the member, its relations with the others and the
    bundle it offers remain as [community] asks ([parts_community]). *)
From S2P Require Import Prelude Types Errors StoreSpec Transport Xochimilco Prog.
From S2P Require Import ProgFacts StoreFacts Signal SessionLaws SignalFacts Manager LockFacts.
From S2P Require Import ManagerKeys ManagerEncrypt ManagerDecrypt FakeNetwork Handshake EndToEnd.
From S2P Require Import Delivery FirstContact Conversation Invariants Bootstrap Newcomers Community.

Section Gossip.
Context `{X : Xochimilco} {ST : Store} {SC : StoreContract ST} {RS : ReliableStore ST}.
Context {CL : XochimilcoCodecLaws X} {SL : XochimilcoSessionLaws X}.
Context {TL : XochimilcoTotalLaws X}.
Implicit Types (d : data) (w : world) (m : Manager) (n : fakeNetwork).
Context (cap : nat).
#[local] Abbreviation stocked := (Community.stocked cap).
#[local] Abbreviation member := (Community.member cap).
#[local] Abbreviation community := (Community.community cap).

(** ** What a message does at a reader's *)

(** [msg], which [mS] wrote in [wS], has a key for [q], and [q] can read it. *)
Definition hearable mS (pt : gobytes) (wS : world) (msg : EncryptedMessage) (q : node) : Prop :=
  Sender msg = m_localDevice mS ∧
  ∃ key, own_key (ID (nd_dev q)) (Keys msg) = Some key ∧
    (is_Some (a_sessions (nd_store q) !! m_localDevice mS) → RK_KeyExchange key = None) ∧
    ∀ n, wpr (DecryptMessage (nd_mgr q) msg)
      (λ r w', received mS (nd_mgr q) pt wS r w' ∧
        is_Some (a_remote (av (w_data w')) !! m_localDevice mS)) (on_net n (nd_world q)).

(** [q] has read it, and is [q'] now. *)
Record reader_step mS (pt : gobytes) (wS : world) (q : node) (q' : node) : Prop := {
  rd_mgr : nd_mgr q' = nd_mgr q;
  rd_quiet : quiet (w_lk (nd_world q'));
  rd_good : good (w_data (nd_world q'));
  rd_keys : a_current (nd_store q') = a_current (nd_store q) ∧
    a_trust (nd_store q') = a_trust (nd_store q) ∧
    a_devices (nd_store q') = a_devices (nd_store q);
  rd_pool : a_pool (nd_store q') = a_pool (nd_store q) ∨
    a_sessions (nd_store q) !! m_localDevice mS = None ∧
    ∃ id r, a_pool (nd_store q) !! id = Some r ∧
      a_pool (nd_store q') = delete id (a_pool (nd_store q));
  rd_rest dev : dev ≠ m_localDevice mS →
    a_sessions (nd_store q') !! dev = a_sessions (nd_store q) !! dev ∧
    a_remote (nd_store q') !! dev = a_remote (nd_store q) !! dev;
  rd_link : in_step mS (nd_mgr q) (av (w_data wS)) (nd_store q');
  rd_remote : is_Some (a_remote (nd_store q') !! m_localDevice mS) }.

Lemma hear_spec mS pt wS msg n q :
  quiet (w_lk (nd_world q)) → good (w_data (nd_world q)) → hearable mS pt wS msg q →
  let '(r, n', q') := hear msg n q in
  (∃ out, r = Some (Ok out) ∧ same_text pt out) ∧ n' = n ∧ reader_step mS pt wS q q'.
Proof.
  intros Hq Hg (Hsender & key & Hkey & Hkx & Hdec). specialize (Hdec n).
  assert (wpr (DecryptMessage (nd_mgr q) msg)
    (λ r w', (∃ out, r = Ok out ∧ same_text pt out) ∧ d_env (w_data w') = n ∧
      reader_step mS pt wS q (MkNode (nd_mgr q) w')) (on_net n (nd_world q))) as H.
  { eapply wpr_mono; [apply wpr_and; [exact Hdec|apply wpr_and;
      [by eapply DecryptMessage_spec
      |by apply (DecryptMessage_env (T := fakeTransport) (frozen n))]]|].
    intros r w' [[(Hout & Hlink & _) Hre] [(Hq' & Hg' & Hst & _) He']].
    simpl in Hst. rewrite av_with_env, Hsender in Hst. split; [done|]. split; [done|].
    destruct (dec_keys _ _ _ _ Hst) as (_ & _ & Hc & _ & _ & Ht & Hd). split; try done.
    - destruct (dec_pool _ _ _ _ Hst) as [|(id & rec & Hid & Hrec & Hpool)]; [by left|right].
      split; [|by exists id, rec].
      destruct (a_sessions (nd_store q) !! m_localDevice mS) as [y|] eqn:Hy; [|done].
      unfold named_prekey in Hid. by rewrite Hkx in Hid by (by exists y).
    - apply (dec_others _ _ _ _ Hst). }
  unfold hear. unfold wpr in H. destruct (run _ (on_net n (nd_world q))) as [r w'| |]; [|done..].
  destruct H as ((out & -> & Hsame) & -> & Hst). split; [by exists out|]. done.
Qed.

(** Publishing changes nothing but the network, which then offers the bundle the
    device can answer. *)
Lemma republish_spec n q :
  quiet (w_lk (nd_world q)) → good (w_data (nd_world q)) →
  usable_identity (m_protocol (nd_mgr q)) (m_identityKey (nd_mgr q)) →
  let '(n', q') := republish n q in
  nd_mgr q' = nd_mgr q ∧ nd_store q' = nd_store q ∧
  quiet (w_lk (nd_world q')) ∧ good (w_data (nd_world q')) ∧
  ∃ b, bundle_of (nd_mgr q) (nd_store q) b ∧
    n' = MkNetwork (net_devices n) (<[nd_dev q := b]> (net_bundles n)).
Proof.
  intros Hq Hg Hu.
  assert (wpr (lift (Manager_PublishBundle (nd_mgr q)))
    (λ _ w', quiet (w_lk w') ∧ good (w_data w') ∧ av (w_data w') = nd_store q ∧
      ∃ b, bundle_of (nd_mgr q) (nd_store q) b ∧
        d_env (w_data w') = MkNetwork (net_devices n) (<[nd_dev q := b]> (net_bundles n)))
    (on_net n (nd_world q))) as H.
  { apply wpr_lift. eapply wp_mono; [by apply PublishBundle_ok|].
    intros r d' (-> & Hg' & Hav & b & Hb & He). simpl in Hav, Hb. rewrite av_with_env in Hav, Hb.
    split_and!; [done..|]. exists b. split; [done|]. cbn [w_data]. rewrite He. simpl.
    by destruct Hb as [-> _]. }
  unfold republish. unfold wpr in H.
  destruct (run _ (on_net n (nd_world q))) as [r w'| |]; [|done..].
  destruct H as (Hq' & Hg' & Hav & Hb). done.
Qed.

Lemma reader_step_same mS pt wS q q1 q2 :
  nd_mgr q2 = nd_mgr q1 → nd_store q2 = nd_store q1 → quiet (w_lk (nd_world q2)) →
  good (w_data (nd_world q2)) → reader_step mS pt wS q q1 → reader_step mS pt wS q q2.
Proof. intros Hm Hs Hq Hg []. split; rewrite ?Hs; congruence || done. Qed.

(** ** Spreading one message *)

Definition heard (pt : gobytes) (x : Device * option (result gobytes)) : Prop :=
  ∃ out, x.2 = Some (Ok out) ∧ same_text pt out.

(** What becomes of a device: a reader, or nothing. *)
Definition spread_step mS pt wS (to : Device → bool) n n' (q q' : node) : Prop :=
  if to (nd_dev q)
  then reader_step mS pt wS q q' ∧ offered_on n' (nd_mgr q) (nd_store q')
  else q' = q ∧ net_bundles n' !! nd_dev q = net_bundles n !! nd_dev q.

Definition ready_to_hear mS pt wS msg (q : node) : Prop :=
  quiet (w_lk (nd_world q)) ∧ good (w_data (nd_world q)) ∧
  usable_identity (m_protocol (nd_mgr q)) (m_identityKey (nd_mgr q)) ∧
  hearable mS pt wS msg q.

Lemma spread_step_net mS pt wS (to : Device → bool) n n1 n2 q q' :
  net_bundles n1 !! nd_dev q = net_bundles n !! nd_dev q →
  spread_step mS pt wS to n1 n2 q q' → spread_step mS pt wS to n n2 q q'.
Proof. unfold spread_step. case_match; [done|]. intros ->. done. Qed.

Lemma spread_spec mS pt wS msg (to : Device → bool) n nodes :
  NoDup (map nd_dev nodes) →
  Forall (λ q, to (nd_dev q) → ready_to_hear mS pt wS msg q) nodes →
  let '(rs, n', nodes') := spread msg to n nodes in
  rs.*1 = filter (λ dev, to dev) (map nd_dev nodes) ∧ Forall (heard pt) rs ∧
  net_devices n' = net_devices n ∧
  (∀ dev, dev ∉ map nd_dev nodes → net_bundles n' !! dev = net_bundles n !! dev) ∧
  Forall2 (spread_step mS pt wS to n n') nodes nodes'.
Proof.
  intros Hnd Hall. revert n. induction Hall as [|q nodes Hq Hall IH]; intros n; [done|].
  cbn [map] in *. apply NoDup_cons in Hnd as [Hno Hnd]. rewrite filter_cons. cbn [spread].
  destruct (to (nd_dev q)) eqn:Hto.
  - destruct (Hq Logic.I) as (Hqu & Hg & Hu & Hh).
    pose proof (hear_spec mS pt wS msg n q Hqu Hg Hh) as H1.
    destruct (hear msg n q) as [[r n0] q1]. destruct H1 as (Hr & -> & Hst1).
    pose proof (republish_spec n q1 (rd_quiet _ _ _ _ _ Hst1) (rd_good _ _ _ _ _ Hst1)) as H2.
    assert (nd_dev q1 = nd_dev q) as Hdq by (unfold nd_dev; by rewrite (rd_mgr _ _ _ _ _ Hst1)).
    rewrite (rd_mgr _ _ _ _ _ Hst1), Hdq in H2. specialize (H2 Hu).
    destruct (republish n q1) as [n1 q']. destruct H2 as (Hm & Hs & Hq2 & Hg2 & b & Hb & ->).
    assert (reader_step mS pt wS q q') as Hst.
    { eapply reader_step_same, Hst1; [|done..]. by rewrite Hm, (rd_mgr _ _ _ _ _ Hst1). }
    rewrite <-Hs in Hb.
    specialize (IH Hnd (MkNetwork (net_devices n) (<[nd_dev q:=b]> (net_bundles n)))).
    destruct (spread msg to _ nodes) as [[rs n2] nodes'].
    destruct IH as (Hrs & Hheard & Hdev & Hout & Hsteps). simpl in *.
    split_and!; [|by constructor|done| |].
    + simpl. by rewrite <-Hrs.
    + intros dev Hnot. rewrite Hout by set_solver. apply lookup_insert_ne. set_solver.
    + constructor.
      * unfold spread_step. rewrite Hto. split; [done|]. exists b. split; [done|].
        change (m_localDevice (nd_mgr q)) with (nd_dev q).
        rewrite Hout by done. apply lookup_insert_eq.
      * apply Forall2_same_length_lookup in Hsteps as [Hlen Hsteps].
        apply Forall2_same_length_lookup. split; [done|]. intros i x y Hx Hy.
        eapply spread_step_net, Hsteps; [|done..]. simpl. apply lookup_insert_ne.
        intros Heq. apply Hno. rewrite Heq. apply list_elem_of_fmap_2.
        by eapply list_elem_of_lookup_2.
  - specialize (IH Hnd n). destruct (spread msg to n nodes) as [[rs n2] nodes'].
    destruct IH as (Hrs & Hheard & Hdev & Hout & Hsteps).
    split_and!; [done|done|done| |].
    + intros dev Hnot. apply Hout. set_solver.
    + constructor; [|done]. unfold spread_step. rewrite Hto. split; [done|]. by apply Hout.
Qed.

(** ** The invariant, device by device *)

Lemma related_sym p q : related p q → related q p.
Proof.
  intros [Hp [(Hin & Hp1 & Hp2)|[H1 H2]]]; (split; [done|]); [left|by right].
  split_and!; [by apply in_step_sym|done..].
Qed.

(** What [q] holds for [dev]. *)
Definition holds_same (q q' : node) (dev : Device) : Prop :=
  nd_mgr q' = nd_mgr q ∧
  a_sessions (nd_store q') !! dev = a_sessions (nd_store q) !! dev ∧
  a_remote (nd_store q') !! dev = a_remote (nd_store q) !! dev.

Lemma related_same p q p' q' :
  holds_same p p' (nd_dev q) → holds_same q q' (nd_dev p) → related p q → related p' q'.
Proof.
  intros (Hmp & Hsp & Hrp) (Hmq & Hsq & Hrq).
  unfold related, nd_dev in *. rewrite Hmp, Hmq, Hsp, Hsq, Hrp, Hrq.
  intros [Hp Hrel]. split; [done|]. destruct Hrel as [(Hin & Hr1 & Hr2)|Hno]; [left|by right].
  split_and!; [|done..]. apply in_step_sym.
  eapply in_step_sessions; [exact Hsq|]. apply in_step_sym.
  by eapply in_step_sessions.
Qed.

(** One member's part in a message: it wrote, it read, or neither. *)
Inductive part mS (pt : gobytes) (jid : string) (wS : world) (devs : list Device) n n'
    (q q' : node) : Prop :=
  | part_writer :
      nd_mgr q = mS → q' = MkNode mS wS → quiet (w_lk wS) → good (w_data wS) →
      sender_step devs (m_localDevice mS) jid (nd_store q) (nd_store q') →
      net_bundles n' !! nd_dev q = net_bundles n !! nd_dev q → part mS pt jid wS devs n n' q q'
  | part_reader :
      nd_dev q ≠ m_localDevice mS → reader_step mS pt wS q q' →
      offered_on n' (nd_mgr q) (nd_store q') → part mS pt jid wS devs n n' q q'
  | part_bystander :
      nd_dev q ≠ m_localDevice mS → JID (nd_dev q) ≠ jid →
      JID (nd_dev q) ≠ JID (m_localDevice mS) → q' = q →
      net_bundles n' !! nd_dev q = net_bundles n !! nd_dev q → part mS pt jid wS devs n n' q q'.

Section Parts.
Context (mS : Manager) (pt : gobytes) (jid : string) (wS : world) (devs : list Device).
Context (n n' : fakeNetwork).
Let P := part mS pt jid wS devs n n'.
Hypothesis Hids : NoDup (map ID devs).
Hypothesis Hwriter : m_localDevice mS ∈ devs.

Lemma part_mgr q q' : P q q' → nd_mgr q' = nd_mgr q.
Proof. intros [<- -> _ _ _ _|_ [] _|_ _ _ -> _]; done. Qed.

Lemma friends_mono a a' :
  (∀ dev, is_Some (a_sessions a !! dev) → is_Some (a_sessions a' !! dev)) →
  length (friends_of devs a) ≤ length (friends_of devs a').
Proof. intros H. by apply filter_length_mono. Qed.

Lemma reader_session q q' :
  reader_step mS pt wS q q' → is_Some (a_sessions (nd_store q') !! m_localDevice mS).
Proof. intros []. by eapply in_step_session, in_step_sym. Qed.

Lemma reader_keeps q q' dev :
  reader_step mS pt wS q q' → is_Some (a_sessions (nd_store q) !! dev) →
  is_Some (a_sessions (nd_store q') !! dev).
Proof.
  intros Hst Hs. destruct (decide (dev = m_localDevice mS)) as [->|Hne].
  - by eapply reader_session.
  - by destruct (rd_rest _ _ _ _ _ Hst dev Hne) as [-> _].
Qed.

Lemma reader_stocked q q' :
  reader_step mS pt wS q q' → stocked devs (nd_store q) → stocked devs (nd_store q').
Proof.
  intros Hst. unfold stocked.
  destruct (rd_pool _ _ _ _ _ Hst) as [->|(Hno & id & r & Hr & ->)].
  - pose proof (friends_mono (nd_store q) (nd_store q') (λ dev, reader_keeps q q' dev Hst)). lia.
  - assert (length (friends_of devs (nd_store q)) < length (friends_of devs (nd_store q'))).
    { apply (filter_length_extra _ _ (λ dev, reader_keeps q q' dev Hst) (m_localDevice mS));
        [done|by rewrite Hno; intros [? [=]]|by eapply reader_session]. }
    rewrite map_size_delete_Some by (by eexists).
    assert (size (a_pool (nd_store q)) ≠ 0); [|lia].
    intros Hz%map_size_empty_inv. by rewrite Hz in Hr.
Qed.

Lemma trust_step_ok a a' :
  trust_step a a' → (∀ ik, trust_of a ik ≠ TrustUntrusted) → ∀ ik, trust_of a' ik ≠ TrustUntrusted.
Proof. intros Hst H ik. by destruct (Hst ik) as [->|(_ & _ & ->)]. Qed.

Lemma part_member q q' : P q q' → member devs q → member devs q'.
Proof.
  intros [<- -> Hq Hg [Hpre Htr Hinf _ Hkept Hnew _] _|_ Hst _|_ _ _ -> _] Hm; [| |done].
  - destruct Hm as [_ _ Hres Hu Hown Ht _ Hs Hstock], Hpre as (Hc & _ & Hpool).
    split; try done.
    + eapply own_prekeys_sub; [exact Hc|by rewrite Hpool|done].
    + by eapply trust_step_ok.
    + intros dev Hd. destruct (Hnew dev Hd); [by apply Hs|done].
    + unfold stocked in *. rewrite Hpool.
      pose proof (friends_mono _ _ (λ dev H, proj1 (Hkept dev H))). lia.
  - pose proof Hst as [Hmgr Hq Hg (Hc & Ht & Hd) Hpool Hrest _ _].
    destruct Hm as [_ _ Hres Hu Hown Htr Hinf Hs Hstock].
    split; rewrite ?Hmgr; try done.
    + eapply own_prekeys_sub; [exact Hc| |done].
      destruct Hpool as [->|(_ & id & r & _ & ->)]; [done|apply delete_subseteq].
    + intros ik. unfold trust_of. rewrite Ht. apply Htr.
    + intros j. unfold devices_of. rewrite Hd. apply Hinf.
    + intros dev Hd'. destruct (decide (dev = m_localDevice mS)) as [->|Hne]; [done|].
      apply Hs. by rewrite (proj1 (Hrest dev Hne)) in Hd'.
    + by eapply reader_stocked.
Qed.

Lemma part_offers q q' :
  P q q' → offered_on n (nd_mgr q) (nd_store q) → offered_on n' (nd_mgr q') (nd_store q').
Proof.
  intros Hp. rewrite (part_mgr _ _ Hp).
  destruct Hp as [<- -> _ _ [(Hc & _ & Hpool) _ _ _ _ _ _] Hnet|_ _ Hoff|_ _ _ -> Hnet];
    [|done|]; intros (b & Hb & Hn); exists b; (split; [|by rewrite <-Hn]); [|done].
  unfold bundle_of in *. by rewrite Hc, Hpool.
Qed.

(** A member holds the same for those it has nothing to do with here. *)
Lemma part_same q q' other :
  P q q' → nd_dev q ≠ m_localDevice mS → other ≠ m_localDevice mS → holds_same q q' other.
Proof.
  intros Hp Hq Ho. split; [by apply part_mgr|].
  destruct Hp as [<- _ _ _ _ _|_ Hst _|_ _ _ -> _]; [done| |done].
  by apply (rd_rest _ _ _ _ _ Hst).
Qed.

Lemma part_writer_related p p' q q' :
  P p p' → P q q' → nd_dev p = m_localDevice mS → nd_dev q ≠ m_localDevice mS →
  related p q → related p' q'.
Proof.
  intros Hp Hq Hdev Hne Hrel.
  assert (recorded (nd_dev q) (nd_store p)) as Hrec.
  { destruct Hrel as [_ [(_ & Hr & _)|[Hno _]]]; [by intros _|intros [? Hs]; congruence]. }
  destruct Hp as [<- -> _ _ Hst _|Hp _ _|Hp _ _ _ _]; [|done..].
  destruct Hq as [Hm _ _ _ _ _|_ Hr _|_ Hj1 Hj2 -> _].
  - unfold nd_dev in Hne. by rewrite Hm in Hne.
  - pose proof (rd_link _ _ _ _ _ Hr) as Hin. unfold related, nd_dev in *.
    rewrite (rd_mgr _ _ _ _ _ Hr). simpl. split; [by destruct Hrel|]. left.
    split_and!; [done| |by apply (rd_remote _ _ _ _ _ Hr)].
    apply (ss_recorded _ _ _ _ _ Hst); [done|by eapply in_step_session].
  - eapply related_same; [| |done]; [|done].
    split; [done|]. by apply (ss_others _ _ _ _ _ Hst).
Qed.

Lemma parts_related p p' q q' :
  P p p' → P q q' → nd_dev p ≠ nd_dev q → related p q → related p' q'.
Proof.
  intros Hp Hq Hne Hrel. destruct (decide (nd_dev p = m_localDevice mS)) as [Hdp|Hdp].
  - apply (part_writer_related p p' q q'); try done. congruence.
  - destruct (decide (nd_dev q = m_localDevice mS)) as [Hdq|Hdq].
    + apply related_sym. apply (part_writer_related q q' p p'); try done.
      by apply related_sym.
    + apply (related_same p q); [by apply part_same..|done].
Qed.

(** Together. *)
Lemma parts_community nodes nodes' :
  devs = map nd_dev nodes → net_devices n' = net_devices n →
  Forall2 P nodes nodes' → community n nodes →
  community n' nodes' ∧ map nd_dev nodes' = map nd_dev nodes.
Proof.
  intros Hdevs Hnet Hparts [Hsize Hnd Hlists Hmem Hoff Hrel].
  assert (map nd_dev nodes' = map nd_dev nodes) as Hsame.
  { clear -Hparts Hids Hwriter. induction Hparts as [|q q' l l' Hq _ IH]; [done|]. simpl.
    unfold nd_dev in *. by rewrite (part_mgr _ _ Hq), IH. }
  assert (∀ q', q' ∈ nodes' → ∃ q, q ∈ nodes ∧ P q q' ∧ nd_dev q = nd_dev q') as Hfrom.
  { intros q' [k Hk]%list_elem_of_lookup.
    destruct (Forall2_lookup_r _ _ _ _ _ Hparts Hk) as (q & Hq & Hp). exists q.
    split_and!; [by eapply list_elem_of_lookup_2|done|].
    unfold nd_dev. by rewrite (part_mgr _ _ Hp). }
  split; [|done]. split.
  - by rewrite <-(Forall2_length _ _ _ Hparts).
  - by rewrite Hsame.
  - rewrite Hsame. unfold lists_all. by rewrite Hnet.
  - rewrite Hsame, <-Hdevs in *. rewrite Forall_forall in Hmem |- *.
    intros q' (q & Hq & Hp & _)%Hfrom. apply (part_member q q' Hp). by apply Hmem.
  - intros q' (q & Hq & Hp & _)%Hfrom. apply (part_offers q q' Hp). by apply Hoff.
  - intros p' q' (p & Hp & Hpp & Hdp)%Hfrom (q & Hq & Hpq & Hdq)%Hfrom Hne.
    rewrite <-Hdp, <-Hdq in Hne. apply (parts_related p p' q q' Hpp Hpq Hne). by apply Hrel.
Qed.
End Parts.

(** ** One message *)

(** A member answers for the bundle it has published, towards one that it has
    not met. *)
Lemma member_answers n nodes p q b :
  community n nodes → p ∈ nodes → q ∈ nodes → nd_dev p ≠ nd_dev q →
  a_sessions (nd_store q) !! nd_dev p = None → net_bundles n !! nd_dev q = Some b →
  answers (frozen n) (nd_mgr p) (nd_mgr q) (nd_store q) (nd_store q) b.
Proof.
  intros [Hsize _ _ Hmem Hoff Hrel] Hp Hq Hne Hno Hnet. rewrite Forall_forall in Hmem.
  destruct (Hrel p q Hp Hq Hne) as [Hprot _], (Hoff q Hq) as (b' & Hb & Hnet').
  assert (b' = b) as -> by (unfold nd_dev in *; congruence).
  pose proof (Hmem q Hq) as Hmq. pose proof (Hmem p Hp) as Hmp.
  split; try done; [apply Hmq| | |apply current_spk_by_id|].
  - pose proof (mb_stocked _ _ _ Hmq) as Hstock. unfold stocked in Hstock. intros Hem.
    rewrite Hem, map_size_empty in Hstock.
    assert (length (friends_of (map nd_dev nodes) (nd_store q)) < length (map nd_dev nodes))
      as Hlt.
    { apply (length_filter_lt _ _ (nd_dev p)); [by apply list_elem_of_fmap_2|].
      rewrite Hno. by intros [? [=]]. }
    rewrite length_map in Hlt. lia.
  - intros v ->. simpl. unfold fake_FetchBundle. unfold nd_dev in *. by rewrite Hnet.
  - destruct (mb_usable _ _ _ Hmp) as (_ & pub & Hpub & _).
    split; [apply (own_identity _ _ _ (mb_own _ _ _ Hmp))|by exists pub].
Qed.

Lemma member_contactable n nodes p q :
  community n nodes → p ∈ nodes → q ∈ nodes → nd_dev p ≠ nd_dev q →
  ∃ ik, contactable (frozen n) (nd_mgr p) (nd_mgr q) (nd_store p) (nd_store q) ik.
Proof.
  intros Hcm Hp Hq Hne.
  destruct (cm_related _ _ _ Hcm p q Hp Hq Hne) as [_ [(Hin & [ik Hik] & _)|[Hno1 Hno2]]].
  { exists ik. by apply contact_session. }
  destruct (cm_offers _ _ _ Hcm q Hq) as (b & _ & Hnet). exists (B_IdentityKey b).
  apply (contact_bundle _ _ _ _ _ _ (nd_store q) b); [|done..]. by apply (member_answers n nodes).
Qed.

Lemma member_stable devs n q : member devs q → env_stable (frozen n) (nd_mgr q).
Proof. intros Hm. destruct (mb_resolver _ _ _ Hm) as (f & Hf & Hok). by eapply frozen_stable. Qed.

Lemma member_accepts devs n q dev ik :
  member devs q → accepts (frozen n) (nd_mgr q) dev ik (nd_store q).
Proof.
  intros Hm. right. split; [apply (mb_trust _ _ _ Hm)|].
  destruct (mb_resolver _ _ _ Hm) as (f & Hf & Hok). exists f. split; [done|].
  intros v _. by rewrite Hok.
Qed.

Lemma av_on_net n w : av (w_data (on_net n w)) = av (w_data w).
Proof. simpl. by rewrite av_with_env. Qed.

(** Strangers in a community are what [FirstContact] is about. *)
Lemma strangers_approach n nodes p q jid b :
  community n nodes → p ∈ nodes → q ∈ nodes →
  (∃ dev, dev ∈ map nd_dev nodes ∧ JID dev = jid) → meant (nd_dev p) jid (nd_dev q) →
  a_sessions (nd_store p) !! nd_dev q = None → net_bundles n !! nd_dev q = Some b →
  approaches (frozen n) (nd_mgr p) jid (on_net n (nd_world p)) (nd_mgr q) (nd_store q)
    (nd_store q) b.
Proof.
  intros Hcm Hp Hq Hjid Hmeant Hno Hnet.
  pose proof (cm_members _ _ _ Hcm) as Hmem. rewrite Forall_forall in Hmem.
  pose proof (Hmem p Hp) as Hmp.
  assert (nd_dev p ≠ nd_dev q) as Hne.
  { apply bool_decide_unpack in Hmeant as [Hne _]. by intros Heq. }
  assert (a_sessions (nd_store q) !! nd_dev p = None) as Hno'.
  { destruct (cm_related _ _ _ Hcm p q Hp Hq Hne) as [_ [(Hin & _)|[_ ?]]]; [|done].
    destruct (in_step_session _ _ _ _ Hin) as [x Hx]. unfold nd_dev in *. congruence. }
  split; rewrite ?av_on_net; try done.
  - apply (mb_quiet _ _ _ Hmp).
  - apply (mb_good _ _ _ Hmp).
  - by eapply member_stable.
  - by apply (member_answers n nodes).
  - by eapply member_accepts.
  - assert (nd_dev q ∈ map nd_dev nodes) as Hdq by (by apply list_elem_of_fmap_2).
    apply (meant_goes (map nd_dev nodes)); try done;
      [apply (cm_lists _ _ _ Hcm)|apply (mb_informed _ _ _ Hmp)].
Qed.

(** What one reader can make of a message of [p]. *)
Section Hearing.
Context (n : fakeNetwork) (nodes : list node) (p q : node) (jid : string) (pt : gobytes).
Hypothesis Hcm : community n nodes.
Hypothesis Hp : p ∈ nodes.
Hypothesis Hq : q ∈ nodes.
Hypothesis Hjid : ∃ dev, dev ∈ map nd_dev nodes ∧ JID dev = jid.
Hypothesis Hmeant : meant (nd_dev p) jid (nd_dev q).

Lemma hearing_members : member (map nd_dev nodes) p ∧ member (map nd_dev nodes) q.
Proof. pose proof (cm_members _ _ _ Hcm) as H. rewrite Forall_forall in H. split; by apply H. Qed.

Lemma hearing_other : nd_dev q ≠ nd_dev p.
Proof. by apply bool_decide_unpack in Hmeant as [Hne _]. Qed.

Lemma hearing_related : related p q.
Proof. apply (cm_related _ _ _ Hcm); [done|done|]. intros Heq. by apply hearing_other. Qed.

Lemma hearing_reads n' :
  wpr (encrypt (nd_mgr p) jid pt)
    (λ r w', ∃ msg errs key, r = (Some msg, errs, None) ∧
      own_key (ID (nd_dev q)) (Keys msg) = Some key ∧
      (unambiguous_for (nd_mgr p) jid (nd_dev q) (av (w_data w')) →
        wpr (DecryptMessage (nd_mgr q) msg)
          (λ r' wB', received (nd_mgr p) (nd_mgr q) pt w' r' wB' ∧
            is_Some (a_remote (av (w_data wB')) !! nd_dev p))
          (on_net n' (nd_world q)))) (on_net n (nd_world p)).
Proof.
  destruct hearing_members as [Hmp Hmq], hearing_related as [_ Hpq].
  destruct (member_contactable n nodes p q Hcm Hp Hq) as [ik Hcon].
  { intros Heq. by apply hearing_other. }
  assert (nd_dev q ∈ map nd_dev nodes) as Hdq by (by apply list_elem_of_fmap_2).
  eapply wpr_mono; [apply (encrypt_arrives (nd_mgr p) (nd_mgr q) jid (frozen n) ik pt
    (on_net n (nd_world p)) (on_net n' (nd_world q))); rewrite ?av_on_net; try done|].
  - apply hearing_other.
  - apply (mb_quiet _ _ _ Hmp).
  - apply (mb_good _ _ _ Hmp).
  - apply (mb_quiet _ _ _ Hmq).
  - apply (mb_good _ _ _ Hmq).
  - by eapply member_stable.
  - by eapply member_accepts.
  - apply (meant_goes (map nd_dev nodes)); try done;
      [apply (cm_lists _ _ _ Hcm)|apply (mb_informed _ _ _ Hmp)].
  - intros r w' (msg & errs & key & -> & Hkey & Hdec). exists msg, errs, key.
    split_and!; [done..|]. intros Hun. eapply wpr_mono; [by apply Hdec|].
    intros r' wB' [Hrec Hre]. split; [done|]. rewrite !av_on_net in Hre.
    unfold related, nd_dev, nd_store in *.
    destruct Hpq as [(Hin & _ & Hr)|[Hno _]]; [|by rewrite Hno in Hre].
    destruct (in_step_session _ _ _ _ Hin) as [x Hx]. rewrite Hx in Hre. by rewrite Hre.
Qed.

Lemma hearing_no_kx :
  is_Some (a_sessions (nd_store q) !! nd_dev p) →
  wpr (encrypt (nd_mgr p) jid pt)
    (λ r w', unambiguous_for (nd_mgr p) jid (nd_dev q) (av (w_data w')) →
      ∀ msg errs err key, r = (Some msg, errs, err) →
      own_key (ID (nd_dev q)) (Keys msg) = Some key → RK_KeyExchange key = None)
    (on_net n (nd_world p)).
Proof.
  intros Hs. destruct hearing_members as [Hmp _], hearing_related as [_ Hpq].
  apply (encrypt_next_no_kx n); try done.
  - by eapply member_stable.
  - apply (mb_quiet _ _ _ Hmp).
  - apply (mb_good _ _ _ Hmp).
  - apply hearing_other.
  - by apply bool_decide_unpack in Hmeant as [_ ?].
  - rewrite av_on_net. destruct Hpq as [(Hin & _ & _)|[_ Hno]].
    + by eapply in_step_session.
    + rewrite Hno in Hs. by destruct Hs.
Qed.

Lemma member_hearable :
  wpr (encrypt (nd_mgr p) jid pt)
    (λ r w', informed (map nd_dev nodes) (av (w_data w')) →
      ∃ msg errs, r = (Some msg, errs, None) ∧
        (Sender msg = m_localDevice (nd_mgr p) → hearable (nd_mgr p) pt w' msg q))
    (on_net n (nd_world p)).
Proof.
  pose proof hearing_reads as H1. pose proof hearing_no_kx as H2. unfold wpr in H1, H2 |- *.
  destruct (run (encrypt (nd_mgr p) jid pt) (on_net n (nd_world p))) as [r w'| |];
    [|by specialize (H1 n)..].
  intros Hinf. assert (unambiguous_for (nd_mgr p) jid (nd_dev q) (av (w_data w'))) as Hun.
  { apply (informed_unambiguous (map nd_dev nodes)); [apply (cm_ids _ _ _ Hcm)|done|].
    by apply list_elem_of_fmap_2. }
  destruct (H1 n) as (msg & errs & key & -> & Hkey & _). exists msg, errs.
  split; [done|]. intros Hsender. split; [done|]. exists key. split_and!; [done| |].
  - intros Hs. by apply (H2 Hs Hun msg errs None key).
  - intros n'. destruct (H1 n') as (msg' & errs' & key' & [= <- <-] & _ & Hdec).
    by apply Hdec.
Qed.
End Hearing.

Lemma community_NoDup n nodes : community n nodes → NoDup (map nd_dev nodes).
Proof. intros H. eapply NoDup_fmap_1, (cm_ids _ _ _ H). Qed.

Lemma same_member n nodes i j p q :
  community n nodes → nodes !! i = Some p → nodes !! j = Some q → nd_dev p = nd_dev q → i = j.
Proof.
  intros H%community_NoDup Hi Hj Heq. eapply NoDup_lookup; [exact H| |];
    rewrite list_lookup_fmap; [by rewrite Hi|rewrite Hj; simpl; by rewrite Heq].
Qed.

Lemma encrypt_member n nodes p jid pt :
  community n nodes → p ∈ nodes → (∃ dev, dev ∈ map nd_dev nodes ∧ JID dev = jid) →
  (∃ dev, dev ∈ map nd_dev nodes ∧ meant (nd_dev p) jid dev) →
  wpr (encrypt (nd_mgr p) jid pt)
    (λ r w', ∃ msg errs, r = (Some msg, errs, None) ∧
      quiet (w_lk w') ∧ good (w_data w') ∧ d_env (w_data w') = n ∧
      sender_step (map nd_dev nodes) (nd_dev p) jid (nd_store p) (av (w_data w')) ∧
      ∀ q, q ∈ nodes → meant (nd_dev p) jid (nd_dev q) → hearable (nd_mgr p) pt w' msg q)
    (on_net n (nd_world p)).
Proof.
  intros Hcm Hp Hjid (dev & Hdev & Hmeant).
  pose proof (cm_members _ _ _ Hcm) as Hmem. rewrite Forall_forall in Hmem.
  pose proof (Hmem p Hp) as Hmp.
  pose proof (encrypt_sender (map nd_dev nodes) (cm_ids _ _ _ Hcm) n (nd_mgr p) jid pt
    (on_net n (nd_world p)) (member_stable _ n _ Hmp) (cm_lists _ _ _ Hcm) (mb_quiet _ _ _ Hmp)
    (mb_good _ _ _ Hmp) eq_refl) as H1. rewrite av_on_net in H1.
  specialize (H1 (mb_informed _ _ _ Hmp)).
  pose proof (λ q, member_hearable n nodes p q jid pt Hcm Hp) as H2.
  unfold wpr in *. destruct (run (encrypt _ jid pt) (on_net n (nd_world p))) as [r w'| |];
    [|done..]. destruct H1 as (Hq & Hg & He & Hst & Hsender).
  apply list_elem_of_fmap in Hdev as (q0 & -> & Hq0).
  destruct (H2 q0 Hq0 Hjid Hmeant (ss_informed _ _ _ _ _ Hst)) as (msg & errs & -> & _).
  exists msg, errs. split_and!; [done..|]. intros q Hin Hmq.
  destruct (H2 q Hin Hjid Hmq (ss_informed _ _ _ _ _ Hst)) as (msg' & errs' & [= <- <-] & Hh).
  by apply Hh, Hsender.
Qed.

(** Everybody's part in a message that [p], the [i]-th member, has sent. *)
Lemma spread_parts n n' nodes nodes' i p jid pt wS :
  community n nodes → nodes !! i = Some p → quiet (w_lk wS) → good (w_data wS) →
  sender_step (map nd_dev nodes) (nd_dev p) jid (nd_store p) (av (w_data wS)) →
  Forall2 (spread_step (nd_mgr p) pt wS (meant (nd_dev p) jid) n n')
    (<[i := MkNode (nd_mgr p) wS]> nodes) nodes' →
  Forall2 (part (nd_mgr p) pt jid wS (map nd_dev nodes) n n') nodes nodes'.
Proof.
  intros Hcm Hi Hq Hg Hst Hsteps.
  apply Forall2_same_length_lookup in Hsteps as [Hlen Hsteps].
  rewrite length_insert in Hlen. apply Forall2_same_length_lookup. split; [done|].
  intros k q q' Hk Hk'. specialize (Hsteps k). destruct (decide (k = i)) as [->|Hne].
  - rewrite Hi in Hk. injection Hk as <-.
    specialize (Hsteps _ q' (list_lookup_insert_eq _ _ _ (lookup_lt_Some _ _ _ Hi)) Hk').
    unfold spread_step in Hsteps. simpl in Hsteps. unfold meant in Hsteps.
    rewrite bool_decide_false in Hsteps by (intros [? _]; done).
    destruct Hsteps as [-> Hnet]. by apply part_writer.
  - rewrite list_lookup_insert_ne in Hsteps by done. specialize (Hsteps q q' Hk Hk').
    assert (nd_dev q ≠ nd_dev p) as Hd by (intros Heq; by destruct Hne; eapply same_member).
    unfold spread_step, meant in Hsteps. case_bool_decide as Hm.
    + destruct Hsteps. by apply part_reader.
    + destruct Hsteps as [-> Hnet]. apply part_bystander; try done; naive_solver.
Qed.

Lemma speak_community n nodes po :
  community n nodes → sensible (map nd_dev nodes) po →
  let '(r, n', nodes') := speak po n nodes in
  everyone (map nd_dev nodes) po r ∧ community n' nodes' ∧
  map nd_dev nodes' = map nd_dev nodes.
Proof.
  intros Hcm (Hjid & from & dev & Hfrom & Hdev & Hmeant).
  rewrite list_lookup_fmap in Hfrom. destruct (nodes !! po_from po) as [p|] eqn:Hi; [|done].
  injection Hfrom as <-. assert (p ∈ nodes) as Hp by (by eapply list_elem_of_lookup_2).
  pose proof (encrypt_member n nodes p (po_to po) (po_text po) Hcm Hp Hjid
    (ex_intro _ dev (conj Hdev Hmeant))) as H1.
  unfold speak, EncryptMessage. rewrite Hi. unfold wpr in H1.
  destruct (run (encrypt _ (po_to po) (po_text po)) (on_net n (nd_world p))) as [r w'| |];
    [|done..]. destruct H1 as (msg & errs & -> & Hq & Hg & He & Hst & Hhear).
  set (nodes1 := <[po_from po := MkNode (nd_mgr p) w']> nodes).
  assert (map nd_dev nodes1 = map nd_dev nodes) as Hdevs.
  { unfold nodes1. rewrite list_fmap_insert. by apply list_insert_id; rewrite list_lookup_fmap, Hi. }
  pose proof (spread_spec (nd_mgr p) (po_text po) w' msg (meant (nd_dev p) (po_to po))
    (d_env (w_data w')) nodes1) as H2.
  destruct (spread msg _ _ nodes1) as [[rs n'] nodes'].
  destruct H2 as (Hrs & Hheard & Hnet & _ & Hsteps).
  { rewrite Hdevs. by eapply community_NoDup. }
  { apply Forall_forall. intros q [k Hk]%list_elem_of_lookup Hm.
    assert (nodes !! k = Some q) as Hk'.
    { unfold nodes1 in Hk. destruct (decide (k = po_from po)) as [->|Hne];
        [|by rewrite list_lookup_insert_ne in Hk].
      rewrite list_lookup_insert_eq in Hk by (by eapply lookup_lt_Some). injection Hk as <-.
      by apply bool_decide_unpack in Hm as [Hno _]. }
    apply list_elem_of_lookup_2 in Hk'. pose proof (cm_members _ _ _ Hcm) as Hmem.
    rewrite Forall_forall in Hmem. pose proof (Hmem q Hk') as Hmq.
    split_and!; [apply Hmq..|]. by apply Hhear. }
  rewrite He in *. apply spread_parts in Hsteps; [|done..].
  split; [|apply (parts_community (nd_mgr p) (po_text po) (po_to po) w' (map nd_dev nodes) n n');
    try done; by apply (list_elem_of_fmap_2 nd_dev)].
  exists (nd_dev p), rs. rewrite list_lookup_fmap, Hi, <-Hdevs. by split_and!.
Qed.

Lemma gossip_community n nodes posts :
  community n nodes → Forall (sensible (map nd_dev nodes)) posts →
  let '(rs, n', nodes') := gossip posts n nodes in
  Forall2 (everyone (map nd_dev nodes)) posts rs ∧ community n' nodes' ∧
  map nd_dev nodes' = map nd_dev nodes.
Proof.
  intros Hcm Hposts. revert n nodes Hcm Hposts.
  induction posts as [|po posts IH]; intros n nodes Hcm Hposts; simpl; [done|].
  apply Forall_cons in Hposts as [Hpo Hposts].
  pose proof (speak_community n nodes po Hcm Hpo) as H1.
  destruct (speak po n nodes) as [[r n1] nodes1]. destruct H1 as (Hr & Hcm1 & Hdevs).
  rewrite <-Hdevs in Hposts. specialize (IH n1 nodes1 Hcm1 Hposts).
  destruct (gossip posts n1 nodes1) as [[rs n'] nodes']. destruct IH as (Hrs & Hcm' & Hdevs').
  rewrite Hdevs in *. split_and!; [by constructor|done|done].
Qed.

(** C7: everybody hears everything.  A community of any number of devices, of
    any number of accounts, shares one network: it lists the members, with IDs of
    their own, and serves their bundles; any two members are in step or strangers;
    every member accepts the others and holds one-time prekeys for those it has
    not met.  Messages are written one after the other: each is read by every
    device it is meant for before the next is written, and the application of a
    device that has read one publishes its bundle again before anybody else does
    anything ([hear], then [republish]).  In such a run, whoever writes to the
    account of a member, as often and in whatever order, [EncryptMessage] returns a
    message, and exactly the devices of that account and the writer's other
    devices read it, each of them exactly the text written.  Afterwards it is a
    community again.  For both protocols.  (Without the conditions on the run it
    would not be: see [first_messages_cross] and [second_contact_refused].) *)
Theorem everybody_hears n nodes posts :
  community n nodes → Forall (sensible (map nd_dev nodes)) posts →
  let '(rs, n', nodes') := gossip posts n nodes in
  Forall2 (everyone (map nd_dev nodes)) posts rs ∧ community n' nodes'.
Proof.
  intros Hcm Hposts. pose proof (gossip_community n nodes posts Hcm Hposts) as H.
  destruct (gossip posts n nodes) as [[rs n'] nodes']. by destruct H as (? & ? & _).
Qed.
End Gossip.
