(* ===== verification/Growth.v ===== *)
(** * How a community comes about

    [Gossip] follows a community from the moment it exists.  Here it is built
    from nothing: on an empty network, devices of any accounts are installed one
    after the other, each on a store of its own in which nothing was ever stored
    ([assemble]).  [gathered] is the invariant of the installation, and what has
    gathered is a [community] as long as there are no more devices than a new
    device has one-time prekeys. *)
From S2P Require Import Prelude Types Errors StoreSpec Transport Xochimilco Prog.
From S2P Require Import ProgFacts StoreFacts Signal SessionLaws SignalFacts Manager LockFacts.
From S2P Require Import ManagerKeys ManagerEncrypt ManagerDecrypt FakeNetwork Handshake EndToEnd.
From S2P Require Import Delivery FirstContact Conversation Invariants Bootstrap Newcomers Community Gossip.

Section Growth.
Context `{X : Xochimilco} {ST : Store} {SC : StoreContract ST} {RS : ReliableStore ST}.
Context {CL : XochimilcoCodecLaws X} {SL : XochimilcoSessionLaws X}.
Context {TL : XochimilcoTotalLaws X} {GL : GoCryptoLaws GC} {KL : XochimilcoKeygenLaws X}.
Implicit Types (d : data) (w : world) (m : Manager) (n : fakeNetwork).

(** A device to be: its address, its options, and the world it starts in. *)
Record applicant := MkApplicant {
  ac_dev : Device; ac_resolvers : list TrustResolver; ac_world : world }.

(** The applicants are installed, each beside the devices that its account has
    by then. *)
Fixpoint assemble (p : Protocol) (apps : list applicant) n (nodes : list node) :
    option (fakeNetwork * list node) :=
  match apps with
  | [] => Some (n, nodes)
  | a :: apps =>
      let dev := ac_dev a in
      match run (install_beside (roster (map nd_dev nodes) (JID dev)) (JID dev) (ID dev) p
                   (ac_resolvers a)) (on_net n (ac_world a)) with
      | Done (Ok m) w => assemble p apps (d_env (w_data w)) (nodes ++ [MkNode m w])
      | _ => None
      end
  end.

(** Nothing was ever stored there, and it accepts every identity. *)
Record acceptable (a : applicant) : Prop := {
  ac_quiet : quiet (w_lk (ac_world a));
  ac_good : good (w_data (ac_world a));
  ac_new : new_store (av (w_data (ac_world a)));
  ac_resolver : ∃ f, last (ac_resolvers a) = Some f ∧ approves f }.

(** ** While they are installed *)

Record gathered (p : Protocol) n (nodes : list node) : Prop := {
  ga_lists : lists_all (map nd_dev nodes) n;
  ga_newcomers : Forall (λ q, newcomer p (nd_dev q) (nd_mgr q) (nd_world q) ∧
    ∃ f, m_trustResolver (nd_mgr q) = Some f ∧ approves f) nodes;
  ga_offers q : q ∈ nodes → offered_on n (nd_mgr q) (nd_store q) }.

Lemma roster_snoc devs dev jid :
  roster (devs ++ [dev]) jid =
  roster devs jid ++ (if decide (JID dev = jid) then [ID dev] else []).
Proof. unfold roster. rewrite filter_app, map_app, filter_cons, filter_nil. by case_decide. Qed.

Lemma lists_all_joined devs dev b n :
  lists_all devs n →
  lists_all (devs ++ [dev]) (joined_beside (roster devs (JID dev)) dev b n).
Proof.
  intros [Hl Hall]. split.
  - intros jid l. simpl. rewrite roster_snoc, lookup_insert. case_decide as Heq.
    + subst jid. by intros [= <-].
    + rewrite app_nil_r. apply Hl.
  - intros dev' [Hin| ->%list_elem_of_singleton]%elem_of_app; simpl; rewrite lookup_insert;
      case_decide; try done. by apply Hall.
Qed.

Lemma gathered_join p n nodes dev m w b :
  dev ∉ map nd_dev nodes → gathered p n nodes →
  newcomer p dev m w → (∃ f, m_trustResolver m = Some f ∧ approves f) →
  bundle_of m (av (w_data w)) b →
  gathered p (joined_beside (roster (map nd_dev nodes) (JID dev)) dev b n)
    (nodes ++ [MkNode m w]).
Proof.
  intros Hno [Hl Hnc Hoff] Hnew Hres Hb.
  assert (m_localDevice m = dev) as Hdev by (by eapply nc_local).
  split.
  - rewrite map_app. simpl. unfold nd_dev at 2. simpl. rewrite Hdev. by apply lists_all_joined.
  - apply Forall_app_2; [done|]. apply Forall_singleton. unfold nd_dev. simpl. by rewrite Hdev.
  - intros q [Hq| ->%list_elem_of_singleton]%elem_of_app.
    + destruct (Hoff q Hq) as (bq & Hbq & Hnet). exists bq. split; [done|]. simpl.
      rewrite lookup_insert_ne; [done|]. intros ->. apply Hno. by apply (list_elem_of_fmap_2 nd_dev).
    + exists b. split; [done|]. simpl. rewrite Hdev. apply lookup_insert_eq.
Qed.

Lemma assemble_gathered p apps n nodes :
  NoDup (map nd_dev nodes ++ map ac_dev apps) → Forall acceptable apps →
  gathered p n nodes →
  ∃ n' nodes', assemble p apps n nodes = Some (n', nodes') ∧ gathered p n' nodes' ∧
    map nd_dev nodes' = map nd_dev nodes ++ map ac_dev apps.
Proof.
  intros Hnd Happs. revert n nodes Hnd. induction Happs as [|a apps Ha _ IH]; intros n nodes Hnd Hga.
  { exists n, nodes. by rewrite app_nil_r. }
  destruct Ha as [Hq Hg Hnew (f & Hf & Hok)]. destruct (ac_dev a) as [jid id] eqn:Hdev.
  cbn [assemble map]. rewrite Hdev in *. cbn [JID ID].
  pose proof (install_beside_spec (roster (map nd_dev nodes) jid) jid id p (ac_resolvers a)
    (on_net n (ac_world a)) Hq Hg) as H. rewrite av_on_net in H. specialize (H Hnew).
  unfold wpr in H. destruct (run _ (on_net n (ac_world a))) as [r w| |]; [|done..].
  destruct H as (m & b & -> & Hnc & Hres & Hb & ->). cbn [map] in Hnd. rewrite Hdev in Hnd.
  assert (m_localDevice m = MkDevice jid id) as Hm by (by eapply nc_local).
  assert (map nd_dev (nodes ++ [MkNode m w]) = map nd_dev nodes ++ [MkDevice jid id]) as Hdevs.
  { rewrite map_app. unfold nd_dev at 2. simpl. by rewrite Hm. }
  destruct (IH (joined_beside (roster (map nd_dev nodes) jid) (MkDevice jid id) b n)
    (nodes ++ [MkNode m w])) as (n' & nodes' & Has & Hga' & Hdevs').
  - by rewrite Hdevs, <-app_assoc.
  - apply NoDup_app in Hnd as (_ & Hnd & _).
    apply (gathered_join p n nodes (MkDevice jid id) m w b); try done.
    + intros Hin. by eapply Hnd; [exact Hin|left].
    + exists f. by rewrite Hres.
  - exists n', nodes'. rewrite Hdevs', Hdevs, <-app_assoc. by split_and!.
Qed.

(** ** Once they are *)

Lemma newcomer_member p devs q :
  newcomer p (nd_dev q) (nd_mgr q) (nd_world q) →
  (∃ f, m_trustResolver (nd_mgr q) = Some f ∧ approves f) →
  member (Z.to_nat DefaultPreKeyCount) devs q.
Proof.
  intros [[Hq Hg _ _ Hown] Hp _ Hu Hstock Hs Ht Hd] Hres. unfold nd_store.
  split; unfold nd_store; rewrite ?Hp; try done.
  - intros ik. unfold trust_of. by rewrite Ht.
  - intros jid. left. unfold devices_of. by rewrite Hd.
  - intros dev. rewrite Hs. by intros [? [=]].
  - unfold stocked. rewrite Hstock. lia.
Qed.

Lemma gathered_community p n nodes :
  length nodes ≤ Z.to_nat DefaultPreKeyCount → NoDup (map ID (map nd_dev nodes)) →
  gathered p n nodes → community (Z.to_nat DefaultPreKeyCount) n nodes.
Proof.
  intros Hlen Hids [Hl Hnc Hoff]. rewrite Forall_forall in Hnc. split; try done.
  - apply Forall_forall. intros q Hq. destruct (Hnc q Hq). by apply (newcomer_member p).
  - intros q1 q2 H1 H2 _. destruct (Hnc q1 H1) as [N1 _], (Hnc q2 H2) as [N2 _]. split.
    + by rewrite (nc_protocol _ _ _ _ N1), (nc_protocol _ _ _ _ N2).
    + right. unfold nd_store.
      by rewrite (nc_sessions _ _ _ _ N1), (nc_sessions _ _ _ _ N2).
Qed.

Lemma assemble_community p apps :
  NoDup (map ID (map ac_dev apps)) → length apps ≤ Z.to_nat DefaultPreKeyCount →
  Forall acceptable apps →
  ∃ n nodes, assemble p apps newFakeNetwork [] = Some (n, nodes) ∧
    map nd_dev nodes = map ac_dev apps ∧ community (Z.to_nat DefaultPreKeyCount) n nodes.
Proof.
  intros Hids Hlen Happs.
  destruct (assemble_gathered p apps newFakeNetwork []) as (n & nodes & Has & Hga & Hdevs);
    [by eapply NoDup_fmap_1|done| |].
  { split; [|constructor|by intros q Hq%not_elem_of_nil].
    split; [|by intros dev Hd%not_elem_of_nil]. intros jid l H.
    change (net_devices newFakeNetwork) with (∅ : gmap string DeviceList) in H.
    by rewrite lookup_empty in H. }
  exists n, nodes. split_and!; [done..|]. simpl in Hdevs.
  apply (gathered_community p); [|by rewrite Hdevs|done].
  rewrite <-(length_map nd_dev nodes), Hdevs, length_map. done.
Qed.

(** C2: a community from nothing.  On an empty network any number of devices, up
    to the hundred one-time prekeys that [InitIdentity] makes, is installed: each
    on an empty store of its own, by [InitIdentity], [NewManager] with a resolver
    that approves, and publishing its bundle and its account's list of devices
    (as setup of manager_test.go does; for an account that has devices already,
    the application then publishes the list of all of them, [install_beside]).
    The devices belong to any accounts, several to one account or not, with IDs
    of their own.  Every installation succeeds.  Then they write to each other,
    one message after the other: each message is read by every device it is meant
    for before the next is written, and the application of a device that has read
    one publishes its bundle again ([hear], [republish]).  Whoever writes to whom
    in such a run, as often and in whatever order, exactly the devices that are
    meant read exactly what was written.  (Both conditions are needed: see
    [first_messages_cross] and [second_contact_refused].) *)
Theorem community_from_nothing p apps posts :
  NoDup (map ID (map ac_dev apps)) → length apps ≤ Z.to_nat DefaultPreKeyCount →
  Forall acceptable apps → Forall (sensible (map ac_dev apps)) posts →
  ∃ n nodes, assemble p apps newFakeNetwork [] = Some (n, nodes) ∧
    let '(rs, _, _) := gossip posts n nodes in
    Forall2 (everyone (map ac_dev apps)) posts rs.
Proof.
  intros Hids Hlen Happs Hposts.
  destruct (assemble_community p apps Hids Hlen Happs) as (n & nodes & Has & Hdevs & Hcm).
  exists n, nodes. split; [done|]. rewrite <-Hdevs in Hposts |- *.
  pose proof (gossip_community _ n nodes posts Hcm Hposts) as H.
  destruct (gossip posts n nodes) as [[rs n'] nodes']. by destruct H as (? & _).
Qed.
End Growth.
