(* ===== verification/Witnesses.v ===== *)
(** * Witnesses: the theorems at concrete inputs

    Each theorem that has hypotheses is applied to concrete devices (memstore,
    the in-memory transport, the toy backend), where the hypotheses hold; the
    ones that need longer runs are in [WitnessRuns]. *)
From S2P Require Import Prelude Types Errors StoreSpec Transport Xochimilco Prog.
From S2P Require Import ProgFacts StoreFacts Signal SessionLaws SignalFacts Memstore MemstoreFacts.
From S2P Require Import Manager LockFacts ManagerKeys ManagerEncrypt ManagerDecrypt FakeNetwork ToyCrypto.
From S2P Require Import Handshake EndToEnd LockProtocol Concurrency Invariants Scenario.

(** ** Two devices that published, and their first message *)
Definition two (p : Protocol) : pair := new_pair p [WithTrustResolver always_trust].

Definition first (p : Protocol) : encrypt_results * world :=
  call_result (EncryptMessage (p_mA (two p)) bob_jid hello) no_results (p_wA (two p)).
Definition first_msg (p : Protocol) : EncryptedMessage := sent (first p).1.
Definition no_key : RecipientKey := MkRecipientKey 0%Z None None.
Definition first_own (p : Protocol) : RecipientKey :=
  default no_key (own_key 2%Z (Keys (first_msg p))).
Definition no_kx : KeyExchange := MkKeyExchange None None 0%Z 0%Z.
Definition first_kx (p : Protocol) : KeyExchange :=
  default no_kx (RK_KeyExchange (first_own p)).

Lemma quiet_eq lk : lk = fresh_locks → quiet lk.
Proof. intros ->. apply fresh_locks_quiet. Qed.

Lemma good_memstore (d : data) : bool_decide (is_u32 (ms_nextPreKeyID (d_store d))) = true → good d.
Proof. apply bool_decide_eq_true. Qed.

Lemma wpr_result {A} (p : prog eff A) (Q : A → world → Prop) w a :
  wpr p Q w → Q (result_answer (run p w) a) (result_world (run p w) w).
Proof. unfold wpr. destruct (run p w); by intros H. Qed.

Lemma call_result_spec {A} (p : prog eff A) (Q : A → world → Prop) w a :
  wpr p Q w → Q (call_result p a w).1 (call_result p a w).2.
Proof. apply wpr_result. Qed.

(** A value is there; what it is need not be written out. *)
Lemma default_found {A} (o : option A) (a : A) :
  (if o is Some _ then true else false) = true → o = Some (default a o).
Proof. by destruct o. Qed.

Ltac solve_quiet := apply quiet_eq; vm_compute; reflexivity.
Ltac solve_good := apply good_memstore; vm_compute; reflexivity.

Lemma two_A_quiet : quiet (w_lk (p_wA (two ProtocolV2))).
Proof. solve_quiet. Qed.
Lemma two_A_good : good (w_data (p_wA (two ProtocolV2))).
Proof. solve_good. Qed.
Lemma two_B_quiet : quiet (w_lk (p_wB (two ProtocolV2))).
Proof. solve_quiet. Qed.
Lemma two_B_good : good (w_data (p_wB (two ProtocolV2))).
Proof. solve_good. Qed.
Lemma new_quiet g : quiet (w_lk (new_world newFakeNetwork g)).
Proof. apply fresh_locks_quiet. Qed.
Lemma new_good g : good (w_data (new_world newFakeNetwork g)).
Proof. by apply good_memstore. Qed.

Lemma memstore_refines_witness :
  memstore_wf New ∧
  memstore_wf (memstore_handle (OpConsumePreKey 7%Z) New).2 ∧
  store_spec (OpConsumePreKey 7%Z) (memstore_view New)
    (memstore_handle (OpConsumePreKey 7%Z) New).1
    (memstore_view (memstore_handle (OpConsumePreKey 7%Z) New).2) ∧
  (¬ may_fail (OpConsumePreKey 7%Z) (memstore_view New) →
   succeeded (OpConsumePreKey 7%Z) (memstore_handle (OpConsumePreKey 7%Z) New).1).
Proof.
  assert (memstore_wf New) as Hwf by (split; by vm_compute).
  split; [exact Hwf|]. apply (memstore_refines (OpConsumePreKey 7%Z) New Hwf).
Defined.

Definition three_allocations : list store_call :=
  [existT _ OpNextPreKeyID; existT _ (OpConsumePreKey 1%Z); existT _ OpNextPreKeyID;
   existT _ OpNextPreKeyID].

Lemma NextPreKeyID_never_repeats_witness :
  allocated three_allocations New = [1; 2; 3]%Z ∧ NoDup (allocated three_allocations New).
Proof.
  destruct (NextPreKeyID_never_repeats three_allocations) as [_ H];
    [by vm_compute|]. split; [by vm_compute|exact H].
Defined.
Lemma EncryptMessage_trusted_only_witness :
  quiet (w_lk (p_wA (two ProtocolV2))) ∧
  good (w_data (p_wA (two ProtocolV2))) ∧
  (wpr (EncryptMessage (p_mA (two ProtocolV2)) bob_jid hello)
    (λ r w', ∀ msg errs err k, r = (Some msg, errs, err) → k ∈ Keys msg →
      ∃ dev ik, dev ≠ m_localDevice (p_mA (two ProtocolV2)) ∧
        (JID dev = bob_jid ∨ JID dev = JID (m_localDevice (p_mA (two ProtocolV2)))) ∧ RK_Device k = ID dev ∧
        a_remote (av (w_data w')) !! dev = Some ik ∧
        trust_of (av (w_data w')) ik = TrustTrusted ∧
        trust_of (av (w_data (p_wA (two ProtocolV2)))) ik ≠ TrustUntrusted) (p_wA (two ProtocolV2))).
Proof.
  assert (quiet (w_lk (p_wA (two ProtocolV2)))) as H0.
  { exact two_A_quiet. }
  assert (good (w_data (p_wA (two ProtocolV2)))) as H1.
  { exact two_A_good. }
  split; [exact H0|]. split; [exact H1|]. 
  apply (EncryptMessage_trusted_only (p_mA (two ProtocolV2)) bob_jid hello (p_wA (two ProtocolV2)) H0 H1).
Defined.

Lemma EncryptMessage_fanout_witness :
  quiet (w_lk (p_wA (two ProtocolV2))) ∧
  good (w_data (p_wA (two ProtocolV2))) ∧
  (wpr (EncryptMessage (p_mA (two ProtocolV2)) bob_jid hello)
    (λ r w', quiet (w_lk w') ∧
    let '(list, d1) := eval (devicesFor bob_jid) (w_data (p_wA (two ProtocolV2))) in
    let '(own, d2) := eval (own_ids (p_mA (two ProtocolV2)) bob_jid) d1 in
    let '(payload, d3) :=
      eval (EncryptPayload (signal_Protocol (m_protocol (p_mA (two ProtocolV2)))) hello) d2 in
    match list, payload with
    | Err e, _ => r = (None, [], Some e)
    | Ok _, Err e => r = (None, [], Some (Wrapf "encrypt payload" e))
    | Ok ids, Ok (km, iv, ct) =>
        ∃ os, fan_out (p_mA (two ProtocolV2)) km
            (filter (λ dev, dev ≠ m_localDevice (p_mA (two ProtocolV2))) (listed (p_mA (two ProtocolV2)) bob_jid ids own))
            (MkWorld d3 (w_lk (p_wA (two ProtocolV2)))) os w' ∧
          (∀ dev k, (dev, Ok k) ∈ os → RK_Device k = ID dev) ∧
          ((outcome_keys os = [] ∧
              r = (None, outcome_errs os, Some (Sentinel ErrNoRecipients))) ∨
           ∃ msg, outcome_keys os ≠ [] ∧ r = (Some msg, outcome_errs os, None) ∧
             Sender msg = m_localDevice (p_mA (two ProtocolV2)) ∧ Keys msg = outcome_keys os ∧
             (Payload msg, IV msg) = if is_nil hello then (None, None) else (ct, iv))
    end) (p_wA (two ProtocolV2))).
Proof.
  assert (quiet (w_lk (p_wA (two ProtocolV2)))) as H0.
  { exact two_A_quiet. }
  assert (good (w_data (p_wA (two ProtocolV2)))) as H1.
  { exact two_A_good. }
  split; [exact H0|]. split; [exact H1|]. 
  apply (EncryptMessage_fanout (p_mA (two ProtocolV2)) bob_jid hello (p_wA (two ProtocolV2)) H0 H1).
Defined.

Lemma EncryptMessage_frame_witness :
  quiet (w_lk (p_wA (two ProtocolV2))) ∧
  good (w_data (p_wA (two ProtocolV2))) ∧
  (wpr (EncryptMessage (p_mA (two ProtocolV2)) bob_jid hello)
    (λ r w', let a := av (w_data (p_wA (two ProtocolV2))) in let a' := av (w_data w') in
      a_identity a' = a_identity a ∧ a_local a' = a_local a ∧
      a_current a' = a_current a ∧ a_stale a' = a_stale a ∧
      a_pool a' = a_pool a ∧ a_issued a' = a_issued a ∧ trust_step a a' ∧
      ∀ dev, a_sessions a' !! dev ≠ a_sessions a !! dev →
        ∃ msg k, r.1.1 = Some msg ∧ k ∈ Keys msg ∧ RK_Device k = ID dev) (p_wA (two ProtocolV2))).
Proof.
  assert (quiet (w_lk (p_wA (two ProtocolV2)))) as H0.
  { exact two_A_quiet. }
  assert (good (w_data (p_wA (two ProtocolV2)))) as H1.
  { exact two_A_good. }
  split; [exact H0|]. split; [exact H1|]. 
  apply (EncryptMessage_frame (p_mA (two ProtocolV2)) bob_jid hello (p_wA (two ProtocolV2)) H0 H1).
Defined.

Lemma encryptForDevice_bootstrap_witness :
  quiet (w_lk (p_wA (two ProtocolV2))) ∧
  good (w_data (p_wA (two ProtocolV2))) ∧
  (wpr (encryptForDevice (p_mA (two ProtocolV2)) bob_dev hello)
    (λ r w', quiet (w_lk w') ∧
      let a := av (w_data (p_wA (two ProtocolV2))) in let a' := av (w_data w') in
      match r with
      | Ok key => RK_Device key = ID bob_dev ∧
          (is_Some (RK_KeyExchange key) ↔ a_sessions a !! bob_dev = None) ∧
          trusted_session bob_dev a'
      | Err _ => a_sessions a' = a_sessions a
      end) (p_wA (two ProtocolV2))).
Proof.
  assert (quiet (w_lk (p_wA (two ProtocolV2)))) as H0.
  { exact two_A_quiet. }
  assert (good (w_data (p_wA (two ProtocolV2)))) as H1.
  { exact two_A_good. }
  split; [exact H0|]. split; [exact H1|]. 
  apply (encryptForDevice_bootstrap (p_mA (two ProtocolV2)) bob_dev hello (p_wA (two ProtocolV2)) H0 H1).
Defined.

Lemma checkTrust_decision_witness :
  good (w_data (p_wA (two ProtocolV2))) ∧
  (let st := trust_of (av (w_data (p_wA (two ProtocolV2)))) (Some []) in
    wp (checkTrust (p_mA (two ProtocolV2)) bob_dev (Some []))
    (λ r d',
      (st = TrustTrusted → r = Ok tt ∧ av d' = av (w_data (p_wA (two ProtocolV2))) ∧ store_only (w_data (p_wA (two ProtocolV2))) d') ∧
      (st = TrustUntrusted →
        r = Err (Sentinel ErrBlockedDevice) ∧ av d' = av (w_data (p_wA (two ProtocolV2))) ∧ store_only (w_data (p_wA (two ProtocolV2))) d') ∧
      (st ≠ TrustTrusted → st ≠ TrustUntrusted →
        match m_trustResolver (p_mA (two ProtocolV2)) with
        | None => r = Err (Sentinel ErrUntrustedDevice) ∧ av d' = av (w_data (p_wA (two ProtocolV2))) ∧ store_only (w_data (p_wA (two ProtocolV2))) d'
        | Some f =>
            d_env d' = (f bob_dev (Some []) (d_env (w_data (p_wA (two ProtocolV2))))).2 ∧
            match (f bob_dev (Some []) (d_env (w_data (p_wA (two ProtocolV2))))).1 with
            | Some e => r = Err e ∧ av d' = av (w_data (p_wA (two ProtocolV2)))
            | None => r = Ok tt ∧ ∀ ik', trust_of (av d') ik' =
                if decide (go_string (Some []) = go_string ik') then TrustTrusted
                else trust_of (av (w_data (p_wA (two ProtocolV2)))) ik'
            end
        end)) (w_data (p_wA (two ProtocolV2)))).
Proof.
  assert (good (w_data (p_wA (two ProtocolV2)))) as H0.
  { exact two_A_good. }
  split; [exact H0|]. 
  apply (checkTrust_decision (p_mA (two ProtocolV2)) bob_dev (Some []) (w_data (p_wA (two ProtocolV2))) H0).
Defined.

Lemma recipientDevices_best_effort_witness :
  good (w_data (p_wA (two ProtocolV2))) ∧
  (is_ok (eval (recipientDevices (p_mA (two ProtocolV2)) bob_jid) (w_data (p_wA (two ProtocolV2)))).1 = is_ok (eval (devicesFor bob_jid) (w_data (p_wA (two ProtocolV2)))).1 ∧
    wp (recipientDevices (p_mA (two ProtocolV2)) bob_jid)
    (λ r d', devices_step (av (w_data (p_wA (two ProtocolV2)))) (av d') ∧
      ∀ devs, r = Ok devs → recipients (p_mA (two ProtocolV2)) bob_jid (av d') devs) (w_data (p_wA (two ProtocolV2)))).
Proof.
  assert (good (w_data (p_wA (two ProtocolV2)))) as H0.
  { exact two_A_good. }
  split; [exact H0|]. 
  apply (recipientDevices_best_effort (p_mA (two ProtocolV2)) bob_jid (w_data (p_wA (two ProtocolV2))) H0).
Defined.

Lemma GenerateOneTimePreKeys_adds_fresh_witness :
  (0 ≤ 3%Z)%Z ∧
  good (w_data (new_world newFakeNetwork 1)) ∧
  capacity (av (w_data (new_world newFakeNetwork 1))) (Z.to_nat 3%Z) ∧
  pool_issued (av (w_data (new_world newFakeNetwork 1))) ∧
  (wpr (GenerateOneTimePreKeys no_manager 3%Z)
    (λ r w', let a := av (w_data (new_world newFakeNetwork 1)) in let a' := av (w_data w') in
    pool_issued a' ∧ a_issued a ⊆ a_issued a' ∧ w_lk w' = w_lk (new_world newFakeNetwork 1) ∧
    d_env (w_data w') = d_env (w_data (new_world newFakeNetwork 1)) ∧
    match r with
    | Ok _ => a' = set_pool (a_pool a') (set_issued (a_issued a') a) ∧
        Z.of_nat (size (a_pool a')) = (Z.of_nat (size (a_pool a)) + 3%Z)%Z ∧
        a_pool a ⊆ a_pool a' ∧
        ∀ id, id ∈ dom (a_pool a') → (id ∈ dom (a_pool a)) ∨ (id ∉ a_issued a)
    | Err _ => a' = set_issued (a_issued a') a
    end) (new_world newFakeNetwork 1)).
Proof.
  assert ((0 ≤ 3%Z)%Z) as H0.
  { lia. }
  assert (good (w_data (new_world newFakeNetwork 1))) as H1.
  { apply new_good. }
  assert (capacity (av (w_data (new_world newFakeNetwork 1))) (Z.to_nat 3%Z)) as H2.
  { vm_compute. discriminate. }
  assert (pool_issued (av (w_data (new_world newFakeNetwork 1)))) as H3.
  { vm_compute. set_solver. }
  split; [exact H0|]. split; [exact H1|]. split; [exact H2|]. split; [exact H3|]. 
  apply (GenerateOneTimePreKeys_adds_fresh no_manager 3%Z (new_world newFakeNetwork 1) H0 H1 H2 H3).
Defined.

Lemma RotateSignedPreKey_grace_period_witness :
  good (w_data (p_wA (two ProtocolV2))) ∧
  SPKR_Public (a_current (av (w_data (p_wA (two ProtocolV2))))) ≠ None ∧
  (wp (Manager_RotateSignedPreKey (p_mA (two ProtocolV2)))
    (λ r d1, r = Ok tt →
    let old := a_current (av (w_data (p_wA (two ProtocolV2)))) in let new := a_current (av d1) in
    SPKR_ID new = u32_succ (SPKR_ID old) ∧
    wp (signedPreKeyByID (SPKR_ID old)) (λ r2 d2, r2 = Ok old ∧ av d2 = av d1) d1 ∧
    wp (signedPreKeyByID (SPKR_ID new)) (λ r2 d2, r2 = Ok new ∧ av d2 = av d1) d1) (w_data (p_wA (two ProtocolV2)))).
Proof.
  assert (good (w_data (p_wA (two ProtocolV2)))) as H0.
  { exact two_A_good. }
  assert (SPKR_Public (a_current (av (w_data (p_wA (two ProtocolV2))))) ≠ None) as H1.
  { vm_compute. discriminate. }
  split; [exact H0|]. split; [exact H1|]. 
  apply (RotateSignedPreKey_grace_period (p_mA (two ProtocolV2)) (w_data (p_wA (two ProtocolV2))) H0 H1).
Defined.

Lemma RotateSignedPreKey_twice_retires_witness :
  good (w_data (p_wA (two ProtocolV2))) ∧
  (wp (Manager_RotateSignedPreKey (p_mA (two ProtocolV2)))
    (λ r1 d1, r1 = Ok tt →
      wp (Manager_RotateSignedPreKey (p_mA (two ProtocolV2)))
        (λ r2 d2, r2 = Ok tt →
          wp (signedPreKeyByID (SPKR_ID (a_current (av (w_data (p_wA (two ProtocolV2)))))))
            (λ r3 _, ∃ e, r3 = Err e) d2) d1) (w_data (p_wA (two ProtocolV2)))).
Proof.
  assert (good (w_data (p_wA (two ProtocolV2)))) as H0.
  { exact two_A_good. }
  split; [exact H0|]. 
  apply (RotateSignedPreKey_twice_retires (p_mA (two ProtocolV2)) (w_data (p_wA (two ProtocolV2))) H0).
Defined.

Lemma PublishBundle_publishes_pool_witness :
  good (w_data (p_wA (two ProtocolV2))) ∧
  (wp (Manager_PublishBundle (p_mA (two ProtocolV2)))
    (λ r d', av d' = av (w_data (p_wA (two ProtocolV2))) ∧
      ((∃ e, r = Err e ∧ d_env d' = d_env (w_data (p_wA (two ProtocolV2)))) ∨
       ∃ b, bundle_of (p_mA (two ProtocolV2)) (av (w_data (p_wA (two ProtocolV2)))) b ∧ (r, d_env d') = PublishBundle b (d_env (w_data (p_wA (two ProtocolV2)))))) (w_data (p_wA (two ProtocolV2)))).
Proof.
  assert (good (w_data (p_wA (two ProtocolV2)))) as H0.
  { exact two_A_good. }
  split; [exact H0|]. 
  apply (PublishBundle_publishes_pool (p_mA (two ProtocolV2)) (w_data (p_wA (two ProtocolV2))) H0).
Defined.

Lemma NeedsMorePreKeys_threshold_witness :
  good (w_data (p_wA (two ProtocolV2))) ∧
  (wp (NeedsMorePreKeys (p_mA (two ProtocolV2)))
    (λ r d', av d' = av (w_data (p_wA (two ProtocolV2))) ∧
      ∀ b, r = Ok b → (b = true ↔ size (a_pool (av (w_data (p_wA (two ProtocolV2))))) ≤ 25)) (w_data (p_wA (two ProtocolV2)))).
Proof.
  assert (good (w_data (p_wA (two ProtocolV2)))) as H0.
  { exact two_A_good. }
  split; [exact H0|]. 
  apply (NeedsMorePreKeys_threshold (p_mA (two ProtocolV2)) (w_data (p_wA (two ProtocolV2))) H0).
Defined.

Lemma ResetSession_forces_handshake_witness :
  quiet (w_lk (p_wA (two ProtocolV2))) ∧
  good (w_data (p_wA (two ProtocolV2))) ∧
  (wpr (ResetSession (p_mA (two ProtocolV2)) bob_dev)
    (λ r w', r = Ok tt →
      av (w_data w') =
        set_sessions (delete bob_dev (a_sessions (av (w_data (p_wA (two ProtocolV2)))))) (av (w_data (p_wA (two ProtocolV2)))) ∧
      (∀ km, wpr (encryptForDevice (p_mA (two ProtocolV2)) bob_dev km)
        (λ r2 _, ∀ key, r2 = Ok key → is_Some (RK_KeyExchange key)) w') ∧
      (∀ msg key, Sender msg = bob_dev →
        own_key (ID (m_localDevice (p_mA (two ProtocolV2)))) (Keys msg) = Some key → RK_KeyExchange key = None →
        wpr (DecryptMessage (p_mA (two ProtocolV2)) msg) (λ r2 _, ∃ e, r2 = Err e) w')) (p_wA (two ProtocolV2))).
Proof.
  assert (quiet (w_lk (p_wA (two ProtocolV2)))) as H0.
  { exact two_A_quiet. }
  assert (good (w_data (p_wA (two ProtocolV2)))) as H1.
  { exact two_A_good. }
  split; [exact H0|]. split; [exact H1|]. 
  apply (ResetSession_forces_handshake (p_mA (two ProtocolV2)) bob_dev (p_wA (two ProtocolV2)) H0 H1).
Defined.

Lemma DecryptMessage_frame_witness :
  quiet (w_lk (p_wB (two ProtocolV2))) ∧
  good (w_data (p_wB (two ProtocolV2))) ∧
  (wpr (DecryptMessage (p_mB (two ProtocolV2)) (first_msg ProtocolV2))
    (λ r w', let a := av (w_data (p_wB (two ProtocolV2))) in let a' := av (w_data w') in
    quiet (w_lk w') ∧
    dec_step (Sender (first_msg ProtocolV2)) (own_key (ID (m_localDevice (p_mB (two ProtocolV2)))) (Keys (first_msg ProtocolV2)) ≫= named_prekey (p_mB (two ProtocolV2))) a a' ∧
    (∀ e, r = Err e → a_sessions a' = a_sessions a ∨
      (Payload (first_msg ProtocolV2) ≠ None ∧ ∃ e', e = Wrapf "decrypt payload" e'))) (p_wB (two ProtocolV2))).
Proof.
  assert (quiet (w_lk (p_wB (two ProtocolV2)))) as H0.
  { exact two_B_quiet. }
  assert (good (w_data (p_wB (two ProtocolV2)))) as H1.
  { exact two_B_good. }
  split; [exact H0|]. split; [exact H1|]. 
  apply (DecryptMessage_frame (p_mB (two ProtocolV2)) (first_msg ProtocolV2) (p_wB (two ProtocolV2)) H0 H1).
Defined.

Lemma DecryptMessage_success_witness :
  quiet (w_lk (p_wB (two ProtocolV2))) ∧
  good (w_data (p_wB (two ProtocolV2))) ∧
  (wpr (DecryptMessage (p_mB (two ProtocolV2)) (first_msg ProtocolV2))
    (λ r w', let a := av (w_data (p_wB (two ProtocolV2))) in let a' := av (w_data w') in
      ∀ pt, r = Ok pt → ∃ l1 key l2, Keys (first_msg ProtocolV2) = l1 ++ key :: l2 ∧
        RK_Device key = ID (m_localDevice (p_mB (two ProtocolV2))) ∧
        (∀ k, k ∈ l1 → RK_Device k ≠ ID (m_localDevice (p_mB (two ProtocolV2)))) ∧
        is_Some (a_sessions a' !! Sender (first_msg ProtocolV2)) ∧ (Payload (first_msg ProtocolV2) = None → pt = None) ∧
        opened (p_mB (two ProtocolV2)) (Sender (first_msg ProtocolV2)) key a a') (p_wB (two ProtocolV2))).
Proof.
  assert (quiet (w_lk (p_wB (two ProtocolV2)))) as H0.
  { exact two_B_quiet. }
  assert (good (w_data (p_wB (two ProtocolV2)))) as H1.
  { exact two_B_good. }
  split; [exact H0|]. split; [exact H1|]. 
  apply (DecryptMessage_success (p_mB (two ProtocolV2)) (first_msg ProtocolV2) (p_wB (two ProtocolV2)) H0 H1).
Defined.

(** Messages for Bob's device that it refuses: with no key for it, with a key but no
    session, with a key exchange that names an unknown signed prekey (either
    protocol), and with a ProtocolV1 key exchange that is no message at all. *)
Definition to_bob (keys : list RecipientKey) : EncryptedMessage :=
  MkEncryptedMessage alice_dev keys None None.
Definition bare_key : RecipientKey := MkRecipientKey 2%Z (Some []) None.
Definition stray_key : RecipientKey :=
  MkRecipientKey 2%Z (Some []) (Some (MkKeyExchange (Some []) (Some []) 99%Z 1%Z)).

Definition unknown_spk (sid : Z) : error :=
  Errorf ("unknown signed prekey id " +:+ pretty sid).

Definition refused (m : Manager) (msg : EncryptedMessage) (w : world) (e : error) : Prop :=
  wpr (DecryptMessage m msg)
    (λ r w', r = Err (Wrapf "establish session" e) ∧ av (w_data w') = av (w_data w)) w.

Definition stray_prekey : Z :=
  default 0%Z (named_prekey (p_mB (two ProtocolV1)) (first_own ProtocolV1)).
Definition stray_error : error :=
  match ls_ParsePreKeyMessage (RK_Data stray_key) with Ok _ => Errorf "" | Err e => e end.

Lemma DecryptMessage_refusals_witness :
  (run (DecryptMessage (p_mB (two ProtocolV2)) (to_bob [])) (p_wB (two ProtocolV2)) =
    Done (Err (Sentinel ErrOwnDeviceKeyMissing)) (p_wB (two ProtocolV2))) ∧
  refused (p_mB (two ProtocolV2)) (to_bob [bare_key]) (p_wB (two ProtocolV2))
    (Sentinel ErrUnknownSession) ∧
  refused (p_mB (two ProtocolV2)) (to_bob [stray_key]) (p_wB (two ProtocolV2))
    (unknown_spk 99%Z) ∧
  refused (p_mB (two ProtocolV1)) (first_msg ProtocolV1) (new_world newFakeNetwork 1)
    (unknown_spk 1%Z) ∧
  refused (p_mB (two ProtocolV1)) (to_bob [stray_key]) (new_world newFakeNetwork 1)
    (Wrapf "parsing legacy prekey message" stray_error).
Proof.
  assert (∀ k, k ∈ Keys (to_bob []) → RK_Device k ≠ ID (m_localDevice (p_mB (two ProtocolV2))))
    as H1.
  { intros k Hk. exfalso. change (k ∈ @nil RecipientKey) in Hk. inversion Hk. }
  assert (own_key (ID (m_localDevice (p_mB (two ProtocolV2)))) (Keys (to_bob [bare_key])) =
    Some bare_key) as K2 by (vm_compute; reflexivity).
  assert (own_key (ID (m_localDevice (p_mB (two ProtocolV2)))) (Keys (to_bob [stray_key])) =
    Some stray_key) as K3 by (vm_compute; reflexivity).
  assert (own_key (ID (m_localDevice (p_mB (two ProtocolV1)))) (Keys (first_msg ProtocolV1)) =
    Some (first_own ProtocolV1)) as K4.
  { change (ID (m_localDevice (p_mB (two ProtocolV1)))) with 2%Z. apply default_found.
    vm_compute. reflexivity. }
  assert (own_key (ID (m_localDevice (p_mB (two ProtocolV1)))) (Keys (to_bob [stray_key])) =
    Some stray_key) as K5 by (vm_compute; reflexivity).
  assert (a_sessions (av (w_data (p_wB (two ProtocolV2)))) !! Sender (to_bob [bare_key]) = None)
    as S2 by (vm_compute; reflexivity).
  assert (named_ids (p_mB (two ProtocolV2)) stray_key = Some (99%Z, 1%Z)) as N3
    by (vm_compute; reflexivity).
  assert (spk_by_id (av (w_data (p_wB (two ProtocolV2)))) 99%Z = None) as S3
    by (vm_compute; reflexivity).
  assert (named_ids (p_mB (two ProtocolV1)) (first_own ProtocolV1) = Some (1%Z, stray_prekey))
    as N4 by (vm_compute; reflexivity).
  assert (spk_by_id (av (w_data (new_world newFakeNetwork 1))) 1%Z = None) as S4
    by (vm_compute; reflexivity).
  assert (m_protocol (p_mB (two ProtocolV1)) = ProtocolV1) as P5 by (vm_compute; reflexivity).
  assert (ls_ParsePreKeyMessage (RK_Data stray_key) = Err stray_error) as N5
    by (vm_compute; reflexivity).
  assert (is_Some (RK_KeyExchange stray_key)) as X5 by (by eexists).
  pose proof (λ msg, DecryptMessage_refusals (p_mB (two ProtocolV2)) msg (p_wB (two ProtocolV2))
    two_B_quiet two_B_good) as R.
  pose proof (λ msg, DecryptMessage_refusals (p_mB (two ProtocolV1)) msg
    (new_world newFakeNetwork 1) (new_quiet 1) (new_good 1)) as R1.
  split; [exact (proj1 (R (to_bob [])) H1)|].
  split; [exact (proj1 (proj1 (proj2 (R (to_bob [bare_key])) bare_key K2) eq_refl S2))|].
  split; [exact (proj1 (proj2 (proj2 (R (to_bob [stray_key])) stray_key K3)) 99%Z 1%Z N3 S3)|].
  split; [exact (proj1 (proj2 (proj2 (R1 (first_msg ProtocolV1)) (first_own ProtocolV1) K4))
    1%Z stray_prekey N4 S4)|].
  exact (proj2 (proj2 (proj2 (R1 (to_bob [stray_key])) stray_key K5)) stray_error X5 P5 N5).
Defined.

(** Bob's spoofed message of [Scenario], which Alice's ratchet rejects. *)
Definition spoofed_key : RecipientKey := default no_key (own_key 1%Z (Keys spoofed)).

Lemma decide_trust_locks key st w : w_lk (decide_trust key st w) = w_lk w.
Proof. unfold decide_trust. by rewrite run_lift. Qed.

Lemma attempt_ok m w :
  quiet (w_lk w) → good (w_data w) →
  quiet (w_lk (call_result (EncryptMessage m bob_jid hello) no_results w).2) ∧
  good (w_data (call_result (EncryptMessage m bob_jid hello) no_results w).2).
Proof.
  intros Hq Hg. pose proof (encrypt_spec m bob_jid hello w Hq Hg) as H.
  pose proof (wpr_result _ _ _ no_results H) as (Hq' & Hg' & _). by split.
Qed.

Lemma blocked_world_ok : quiet (w_lk blocked_world) ∧ good (w_data blocked_world).
Proof.
  split; [|solve_good]. unfold blocked_world. rewrite decide_trust_locks. unfold before_block.
  apply attempt_ok; [|solve_good]. rewrite !decide_trust_locks. solve_quiet.
Qed.

Lemma blocked_attempt_quiet : quiet (w_lk blocked_attempt.2).
Proof. unfold blocked_attempt. by apply attempt_ok; apply blocked_world_ok. Qed.
Lemma blocked_attempt_good : good (w_data blocked_attempt.2).
Proof. solve_good. Qed.

Lemma DecryptMessage_identity_before_authentication_witness :
  after_spoof.1 = Err (Wrapf "ratchet decrypt" (Errorf "message authentication failed")) ∧
  a_sessions (av (w_data after_spoof.2)) = a_sessions (av (w_data blocked_attempt.2)) ∧
  ∃ ik, claimed_key (p_mA spoof_start) spoofed_key = Some ik ∧
    a_remote (av (w_data after_spoof.2)) !! Sender spoofed = Some ik.
Proof.
  assert (own_key (ID (m_localDevice (p_mA spoof_start))) (Keys spoofed) = Some spoofed_key) as Hkey.
  { vm_compute. reflexivity. }
  assert (is_Some (RK_KeyExchange spoofed_key)) as Hkx by (by eexists).
  assert (after_spoof.1 = Err (Wrapf "ratchet decrypt" (Errorf "message authentication failed")))
    as Hfail by (vm_compute; reflexivity).
  split; [exact Hfail|].
  exact (call_result_spec _ _ _ (Ok None) (DecryptMessage_identity_before_authentication
    (p_mA spoof_start) spoofed spoofed_key blocked_attempt.2 blocked_attempt_quiet
    blocked_attempt_good Hkey Hkx) (Errorf "message authentication failed") Hfail).
Defined.

Lemma DecryptMessage_no_replay_witness :
  quiet (w_lk (p_wB (two ProtocolV2))) ∧
  good (w_data (p_wB (two ProtocolV2))) ∧
  own_key (ID (m_localDevice (p_mB (two ProtocolV2)))) (Keys (first_msg ProtocolV2)) = Some (first_own ProtocolV2) ∧
  own_key (ID (m_localDevice (p_mB (two ProtocolV2)))) (Keys (first_msg ProtocolV2)) = Some (first_own ProtocolV2) ∧
  RK_KeyExchange (first_own ProtocolV2) = Some (first_kx ProtocolV2) ∧
  RK_KeyExchange (first_own ProtocolV2) = Some (first_kx ProtocolV2) ∧
  named_prekey (p_mB (two ProtocolV2)) (first_own ProtocolV2) = named_prekey (p_mB (two ProtocolV2)) (first_own ProtocolV2) ∧
  (wpr (DecryptMessage (p_mB (two ProtocolV2)) (first_msg ProtocolV2))
    (λ r1 w1, is_ok r1 →
      wpr (DecryptMessage (p_mB (two ProtocolV2)) (first_msg ProtocolV2))
        (λ r2 w2, (∃ e, r2 = Err e) ∧
          a_sessions (av (w_data w2)) = a_sessions (av (w_data w1)) ∧
          a_pool (av (w_data w2)) = a_pool (av (w_data w1))) w1) (p_wB (two ProtocolV2))).
Proof.
  assert (quiet (w_lk (p_wB (two ProtocolV2)))) as H0.
  { exact two_B_quiet. }
  assert (good (w_data (p_wB (two ProtocolV2)))) as H1.
  { exact two_B_good. }
  assert (own_key (ID (m_localDevice (p_mB (two ProtocolV2)))) (Keys (first_msg ProtocolV2)) = Some (first_own ProtocolV2)) as H2.
  { vm_compute. reflexivity. }
  assert (own_key (ID (m_localDevice (p_mB (two ProtocolV2)))) (Keys (first_msg ProtocolV2)) = Some (first_own ProtocolV2)) as H3.
  { vm_compute. reflexivity. }
  assert (RK_KeyExchange (first_own ProtocolV2) = Some (first_kx ProtocolV2)) as H4.
  { vm_compute. reflexivity. }
  assert (RK_KeyExchange (first_own ProtocolV2) = Some (first_kx ProtocolV2)) as H5.
  { vm_compute. reflexivity. }
  assert (named_prekey (p_mB (two ProtocolV2)) (first_own ProtocolV2) = named_prekey (p_mB (two ProtocolV2)) (first_own ProtocolV2)) as H6.
  { reflexivity. }
  split; [exact H0|]. split; [exact H1|]. split; [exact H2|]. split; [exact H3|]. split; [exact H4|]. split; [exact H5|]. split; [exact H6|]. 
  apply (DecryptMessage_no_replay (p_mB (two ProtocolV2)) (first_msg ProtocolV2) (first_msg ProtocolV2) (first_own ProtocolV2) (first_own ProtocolV2) (first_kx ProtocolV2) (first_kx ProtocolV2) (p_wB (two ProtocolV2)) H0 H1 H2 H3 H4 H5 H6).
Defined.

Lemma InitIdentity_new_memstore_witness :
  d_store (w_data (new_world newFakeNetwork 1)) = New ∧
  (wpr (InitIdentity alice_jid 1%Z ProtocolV2)
    (λ r w', w_lk w' = w_lk (new_world newFakeNetwork 1) ∧
      (r = Ok tt →
        let s := d_store (w_data w') in
        dom (ms_preKeys s) = issued_upto 100 ∧
        (∀ i rec, ms_preKeys s !! i = Some rec → PKR_ID rec = i) ∧
        ms_nextPreKeyID s = 100%Z ∧
        SPKR_ID (ms_currentSPK s) = 1%Z ∧ ms_staleSPK s = None ∧
        ms_sessions s = ∅ ∧ ms_trust s = ∅ ∧ ms_devices s = ∅ ∧ ms_remoteID s = ∅ ∧
        wp (NewManager ProtocolV2 [])
          (λ rm d', d_store d' = s ∧ ∃ k, usable_identity ProtocolV2 k ∧
            rm = Ok (MkManager ProtocolV2 k (MkDevice alice_jid 1%Z) None)) (w_data w'))) (new_world newFakeNetwork 1)).
Proof.
  assert (d_store (w_data (new_world newFakeNetwork 1)) = New) as H0.
  { reflexivity. }
  split; [exact H0|]. 
  apply (InitIdentity_new_memstore alice_jid 1%Z ProtocolV2 (new_world newFakeNetwork 1) H0).
Defined.

Lemma InitIdentity_establishes_device_witness :
  quiet (w_lk (new_world newFakeNetwork 1)) ∧
  good (w_data (new_world newFakeNetwork 1)) ∧
  a_pool (av (w_data (new_world newFakeNetwork 1))) = ∅ ∧
  (wpr (InitIdentity alice_jid 1%Z ProtocolV2)
    (λ r w', r = Ok tt → let k := a_identity (av (w_data w')) in
      usable_identity ProtocolV2 k ∧
      device_ok ProtocolV2 k (MkDevice alice_jid 1%Z) w') (new_world newFakeNetwork 1)).
Proof.
  assert (quiet (w_lk (new_world newFakeNetwork 1))) as H0.
  { apply new_quiet. }
  assert (good (w_data (new_world newFakeNetwork 1))) as H1.
  { apply new_good. }
  assert (a_pool (av (w_data (new_world newFakeNetwork 1))) = ∅) as H2.
  { reflexivity. }
  split; [exact H0|]. split; [exact H1|]. split; [exact H2|]. 
  apply (InitIdentity_establishes_device alice_jid 1%Z ProtocolV2 (new_world newFakeNetwork 1) H0 H1 H2).
Defined.

(** ** Package signal *)

Definition toy_session : Session :=
  MkSession ProtocolV1 None (Some (MkToy [] None 0))
    (Some (MkPending None 1%Z 1%Z 1%Z)).

Lemma Session_Marshal_LoadSession_witness :
  session_ok toy_session ∧
  ∃ b, Session_Marshal toy_session = Ok b ∧
    LoadSession ProtocolV1 b = Ok (clear_pending toy_session) ∧
    LoadSession ProtocolV1 b ≠ Ok toy_session.
Proof.
  assert (session_ok toy_session) as Hok by (left; split; [reflexivity|split; [by eexists|done]]).
  split; [exact Hok|]. eexists. split; [vm_compute; reflexivity|].
  destruct (Session_Marshal_LoadSession toy_session _ Hok (eq_refl _)) as [H1 H2].
  split; [exact H1|]. intros Heq. by apply H2 in Heq.
Defined.

Definition key64 : gobytes := Some (replicate 64 Byte.x00).

Lemma IdentityPublicKey_by_size_witness :
  is_ok (IdentityPublicKey ProtocolV2 key64) ∧ ¬ is_ok (IdentityPublicKey ProtocolV1 key64).
Proof.
  split.
  - destruct (IdentityPublicKey_by_size ProtocolV2 key64 (w_data (new_world newFakeNetwork 1)))
      as [H _]. apply H. reflexivity.
  - destruct (IdentityPublicKey_by_size ProtocolV1 key64 (w_data (new_world newFakeNetwork 1)))
      as [H _]. intros Hok. apply H in Hok. discriminate.
Defined.

(** ** End to end *)

Definition bob_bundle (p : Protocol) : Bundle :=
  ok_or (eval (Manager_Bundle (p_mB (two p))) (w_data (p_wB (two p)))).1
    (MkBundle bob_dev None (MkSignedPreKey 0%Z None None) []).

(** The network still serves what Bob published. *)
Definition serves_bob (p : Protocol) (n : fakeNetwork) : Prop :=
  net_bundles n !! bob_dev = Some (bob_bundle p).

Lemma serves_bob_stable p m :
  (∀ r dev key v, m_trustResolver m = Some r → (r dev key v).2 = v) → env_stable (serves_bob p) m.
Proof.
  intros Hr. split.
  - intros jid v Hv. simpl. unfold fake_FetchDeviceList. by destruct (net_devices v !! jid).
  - intros dev v Hv. simpl. unfold fake_FetchBundle. by destruct (net_bundles v !! dev).
  - intros r dev key v Hf Hv. by rewrite (Hr r dev key v Hf).
Qed.

Lemma serves_bob_fetch p v b :
  serves_bob p v → (FetchBundle bob_dev v).1 = Ok b → b = bob_bundle p.
Proof. unfold serves_bob. simpl. unfold fake_FetchBundle. intros ->. by intros [= <-]. Qed.

Lemma two_bundle_of : bundle_of (p_mB (two ProtocolV2))
  (av (w_data (p_wB (two ProtocolV2)))) (bob_bundle ProtocolV2).
Proof.
  pose proof (Manager_Bundle_spec (p_mB (two ProtocolV2)) _ two_B_good) as (_ & _ & _ & H).
  apply H. vm_compute. reflexivity.
Qed.

(** What a [wpr] says of a concrete run. *)

(** Bob's world right after InitIdentity, whose store is still the same. *)
Definition bob_init : result unit * world :=
  call_result (InitIdentity bob_jid 2%Z ProtocolV2) (Ok tt) (new_world newFakeNetwork 150).
Definition bob_init_world : world := bob_init.2.

Lemma bob_init_device :
  device_ok ProtocolV2 (a_identity (av (w_data bob_init_world))) bob_dev bob_init_world.
Proof.
  pose proof (InitIdentity_device bob_jid 2%Z ProtocolV2 (new_world newFakeNetwork 150)
    (new_quiet 150) (new_good 150) eq_refl) as H.
  pose proof (wpr_result _ _ _ (Ok tt) H) as [_ Hok]; [vm_compute; reflexivity|exact Hok].
Qed.

Lemma two_B_identity :
  m_identityKey (p_mB (two ProtocolV2)) = a_identity (av (w_data bob_init_world)).
Proof. vm_compute. reflexivity. Qed.

Lemma two_B_view : av (w_data (p_wB (two ProtocolV2))) = av (w_data bob_init_world).
Proof. vm_compute. reflexivity. Qed.

Lemma two_B_protocol : m_protocol (p_mB (two ProtocolV2)) = ProtocolV2.
Proof. vm_compute. reflexivity. Qed.

Lemma two_own_prekeys : own_prekeys (m_protocol (p_mB (two ProtocolV2)))
  (m_identityKey (p_mB (two ProtocolV2))) (av (w_data (p_wB (two ProtocolV2)))).
Proof.
  rewrite two_B_view, two_B_protocol, two_B_identity.
  exact (ok_prekeys _ _ _ _ bob_init_device).
Qed.

(** The transport's state on Alice's side. *)
Lemma two_serves : serves_bob ProtocolV2 (d_env (w_data (p_wA (two ProtocolV2)))).
Proof. vm_compute. reflexivity. Qed.

Lemma two_local_B : m_localDevice (p_mB (two ProtocolV2)) = bob_dev.
Proof. vm_compute. reflexivity. Qed.

Lemma two_resolver r dev key v :
  m_trustResolver (p_mA (two ProtocolV2)) = Some r → (r dev key v).2 = v.
Proof.
  assert (m_trustResolver (p_mA (two ProtocolV2)) = Some always_trust) as ->
    by (vm_compute; reflexivity).
  by intros [= <-].
Qed.

Lemma two_A_generated :
  generated_identity (m_protocol (p_mA (two ProtocolV2))) (m_identityKey (p_mA (two ProtocolV2))).
Proof.
  exists (take 32 (default [] (m_identityKey (p_mA (two ProtocolV2))))).
  split; vm_compute; reflexivity.
Qed.

Lemma first_message_roundtrip_witness :
  m_protocol (p_mB (two ProtocolV2)) = m_protocol (p_mA (two ProtocolV2)) ∧
  m_localDevice (p_mB (two ProtocolV2)) ≠ m_localDevice (p_mA (two ProtocolV2)) ∧
  quiet (w_lk (p_wA (two ProtocolV2))) ∧
  good (w_data (p_wA (two ProtocolV2))) ∧
  quiet (w_lk (p_wB (two ProtocolV2))) ∧
  good (w_data (p_wB (two ProtocolV2))) ∧
  a_sessions (av (w_data (p_wA (two ProtocolV2)))) !! m_localDevice (p_mB (two ProtocolV2)) = None ∧
  generated_identity (m_protocol (p_mA (two ProtocolV2))) (m_identityKey (p_mA (two ProtocolV2))) ∧
  own_prekeys (m_protocol (p_mB (two ProtocolV2))) (m_identityKey (p_mB (two ProtocolV2))) (av (w_data (p_wB (two ProtocolV2)))) ∧
  bundle_of (p_mB (two ProtocolV2)) (av (w_data (p_wB (two ProtocolV2)))) (bob_bundle ProtocolV2) ∧
  env_stable (serves_bob ProtocolV2) (p_mA (two ProtocolV2)) ∧
  (serves_bob ProtocolV2) (d_env (w_data (p_wA (two ProtocolV2)))) ∧
  ((∀ v b, (serves_bob ProtocolV2) v → (FetchBundle (m_localDevice (p_mB (two ProtocolV2))) v).1 = Ok b → b = (bob_bundle ProtocolV2))) ∧
  (wpr (EncryptMessage (p_mA (two ProtocolV2)) (JID (m_localDevice (p_mB (two ProtocolV2)))) hello)
    (λ r wA', unambiguous (p_mA (two ProtocolV2)) (m_localDevice (p_mB (two ProtocolV2))) (av (w_data wA')) →
    ∀ msg errs err key, r = (Some msg, errs, err) →
    own_key (ID (m_localDevice (p_mB (two ProtocolV2)))) (Keys msg) = Some key →
    wpr (DecryptMessage (p_mB (two ProtocolV2)) msg)
      (λ r' wB', (∃ out, r' = Ok out ∧ same_text hello out) ∧
        is_Some (a_remote (av (w_data wB')) !! m_localDevice (p_mA (two ProtocolV2))) ∧
        in_step (p_mA (two ProtocolV2)) (p_mB (two ProtocolV2)) (av (w_data wA')) (av (w_data wB'))) (p_wB (two ProtocolV2))) (p_wA (two ProtocolV2))).
Proof.
  assert (m_protocol (p_mB (two ProtocolV2)) = m_protocol (p_mA (two ProtocolV2))) as H0.
  { vm_compute. reflexivity. }
  assert (m_localDevice (p_mB (two ProtocolV2)) ≠ m_localDevice (p_mA (two ProtocolV2))) as H1.
  { vm_compute. discriminate. }
  assert (quiet (w_lk (p_wA (two ProtocolV2)))) as H2.
  { exact two_A_quiet. }
  assert (good (w_data (p_wA (two ProtocolV2)))) as H3.
  { exact two_A_good. }
  assert (quiet (w_lk (p_wB (two ProtocolV2)))) as H4.
  { exact two_B_quiet. }
  assert (good (w_data (p_wB (two ProtocolV2)))) as H5.
  { exact two_B_good. }
  assert (a_sessions (av (w_data (p_wA (two ProtocolV2)))) !! m_localDevice (p_mB (two ProtocolV2)) = None) as H6.
  { vm_compute. reflexivity. }
  assert (generated_identity (m_protocol (p_mA (two ProtocolV2))) (m_identityKey (p_mA (two ProtocolV2)))) as H7.
  { exact two_A_generated. }
  assert (own_prekeys (m_protocol (p_mB (two ProtocolV2))) (m_identityKey (p_mB (two ProtocolV2))) (av (w_data (p_wB (two ProtocolV2))))) as H8.
  { exact two_own_prekeys. }
  assert (bundle_of (p_mB (two ProtocolV2)) (av (w_data (p_wB (two ProtocolV2)))) (bob_bundle ProtocolV2)) as H9.
  { exact two_bundle_of. }
  assert (env_stable (serves_bob ProtocolV2) (p_mA (two ProtocolV2))) as H10.
  { apply serves_bob_stable. exact two_resolver. }
  assert ((serves_bob ProtocolV2) (d_env (w_data (p_wA (two ProtocolV2))))) as H11.
  { exact two_serves. }
  assert ((∀ v b, (serves_bob ProtocolV2) v → (FetchBundle (m_localDevice (p_mB (two ProtocolV2))) v).1 = Ok b → b = (bob_bundle ProtocolV2))) as H12.
  { intros v b. rewrite two_local_B. apply serves_bob_fetch. }
  split; [exact H0|]. split; [exact H1|]. split; [exact H2|]. split; [exact H3|]. split; [exact H4|]. split; [exact H5|]. split; [exact H6|]. split; [exact H7|]. split; [exact H8|]. split; [exact H9|]. split; [exact H10|]. split; [exact H11|]. split; [exact H12|]. 
  apply (first_message_roundtrip (p_mA (two ProtocolV2)) (p_mB (two ProtocolV2)) (bob_bundle ProtocolV2) (serves_bob ProtocolV2) hello (p_wA (two ProtocolV2)) (p_wB (two ProtocolV2)) H0 H1 H2 H3 H4 H5 H6 H7 H8 H9 H10 H11 H12).
Defined.


(** After the first message was delivered the two stored sessions are linked. *)
Definition delivered : result gobytes * world :=
  call_result (DecryptMessage (p_mB (two ProtocolV2)) (first_msg ProtocolV2)) (Ok None)
    (p_wB (two ProtocolV2)).
Definition alice_after : world := (first ProtocolV2).2.
Definition bob_after : world := delivered.2.

Definition session_of (dev : Device) (w : world) : gobytes :=
  default None (a_sessions (av (w_data w)) !! dev).
Definition ratchet_of (b : gobytes) : toy_ratchet := ok_or (toy_decode b) (MkToy [] None 0).
Definition bob_ratchet : toy_ratchet := ratchet_of (session_of alice_dev bob_after).
Definition alice_ratchet : toy_ratchet := ratchet_of (session_of bob_dev alice_after).

Definition session_V2 (r : @DoubleRatchet _ toy) : Session :=
  MkSession ProtocolV2 (Some r) None None.

Lemma load_ratchet b r :
  toy_decode b = Ok r → LoadSession ProtocolV2 b = Ok (session_V2 r).
Proof.
  intros H. assert (dr_UnmarshalBinary b = Ok r) as Hd by exact H.
  unfold LoadSession. change (is_V1 ProtocolV2) with false. cbv iota. by rewrite Hd.
Qed.

Lemma two_A_protocol : m_protocol (p_mA (two ProtocolV2)) = ProtocolV2.
Proof. vm_compute. reflexivity. Qed.

Lemma after_in_step : in_step (p_mB (two ProtocolV2)) (p_mA (two ProtocolV2))
  (av (w_data bob_after)) (av (w_data alice_after)).
Proof.
  split; [by rewrite two_A_protocol, two_B_protocol|]. rewrite two_B_protocol.
  exists (session_of alice_dev bob_after), (session_V2 bob_ratchet).
  split_and!; [vm_compute; reflexivity|apply load_ratchet; vm_compute; reflexivity|reflexivity|].
  exists (session_of bob_dev alice_after), (session_V2 alice_ratchet).
  split_and!; [vm_compute; reflexivity|apply load_ratchet; vm_compute; reflexivity|reflexivity|].
  apply linked_V2. change (toy_sec bob_ratchet = toy_sec alice_ratchet). vm_compute. reflexivity.
Qed.

Lemma alice_after_ok : quiet (w_lk alice_after) ∧ good (w_data alice_after).
Proof.
  pose proof (encrypt_spec (p_mA (two ProtocolV2)) bob_jid hello (p_wA (two ProtocolV2))
    two_A_quiet two_A_good) as H.
  change (encrypt (p_mA (two ProtocolV2)) bob_jid hello)
    with (EncryptMessage (p_mA (two ProtocolV2)) bob_jid hello) in H.
  pose proof (wpr_result _ _ _ no_results H) as (Hq & Hg & _). split; [exact Hq|exact Hg].
Qed.

Lemma bob_after_ok : quiet (w_lk bob_after) ∧ good (w_data bob_after).
Proof.
  pose proof (DecryptMessage_spec (p_mB (two ProtocolV2)) (first_msg ProtocolV2)
    (first_own ProtocolV2) (p_wB (two ProtocolV2)) two_B_quiet two_B_good) as H.
  pose proof (wpr_result _ _ _ (Ok None) (H ltac:(vm_compute; reflexivity))) as (Hq & Hg & _).
  split; [exact Hq|exact Hg].
Qed.

Lemma next_message_roundtrip_witness :
  m_localDevice (p_mA (two ProtocolV2)) ≠ m_localDevice (p_mB (two ProtocolV2)) ∧
  quiet (w_lk bob_after) ∧
  good (w_data bob_after) ∧
  quiet (w_lk alice_after) ∧
  good (w_data alice_after) ∧
  in_step (p_mB (two ProtocolV2)) (p_mA (two ProtocolV2)) (av (w_data bob_after)) (av (w_data alice_after)) ∧
  (wpr (EncryptMessage (p_mB (two ProtocolV2)) (JID (m_localDevice (p_mA (two ProtocolV2)))) hello)
    (λ r wA', unambiguous (p_mB (two ProtocolV2)) (m_localDevice (p_mA (two ProtocolV2))) (av (w_data wA')) →
      ∀ msg errs err key, r = (Some msg, errs, err) →
      own_key (ID (m_localDevice (p_mA (two ProtocolV2)))) (Keys msg) = Some key →
      wpr (DecryptMessage (p_mA (two ProtocolV2)) msg)
        (λ r' wB', (∃ out, r' = Ok out ∧ same_text hello out) ∧
          in_step (p_mB (two ProtocolV2)) (p_mA (two ProtocolV2)) (av (w_data wA')) (av (w_data wB')) ∧
          in_step (p_mA (two ProtocolV2)) (p_mB (two ProtocolV2)) (av (w_data wB')) (av (w_data wA'))) alice_after) bob_after).
Proof.
  assert (m_localDevice (p_mA (two ProtocolV2)) ≠ m_localDevice (p_mB (two ProtocolV2))) as H0.
  { vm_compute. discriminate. }
  assert (quiet (w_lk bob_after)) as H1.
  { apply bob_after_ok. }
  assert (good (w_data bob_after)) as H2.
  { apply bob_after_ok. }
  assert (quiet (w_lk alice_after)) as H3.
  { apply alice_after_ok. }
  assert (good (w_data alice_after)) as H4.
  { apply alice_after_ok. }
  assert (in_step (p_mB (two ProtocolV2)) (p_mA (two ProtocolV2)) (av (w_data bob_after)) (av (w_data alice_after))) as H5.
  { exact after_in_step. }
  split; [exact H0|]. split; [exact H1|]. split; [exact H2|]. split; [exact H3|]. split; [exact H4|]. split; [exact H5|]. 
  apply (next_message_roundtrip (p_mB (two ProtocolV2)) (p_mA (two ProtocolV2)) hello bob_after alice_after H0 H1 H2 H3 H4 H5).
Defined.

(** ** The invariant of a device, and interleavings *)

Lemma two_B_device : device_ok (m_protocol (p_mB (two ProtocolV2)))
  (m_identityKey (p_mB (two ProtocolV2))) (m_localDevice (p_mB (two ProtocolV2)))
  (p_wB (two ProtocolV2)).
Proof.
  split; [exact two_B_quiet|exact two_B_good|vm_compute; reflexivity|vm_compute; reflexivity|].
  exact two_own_prekeys.
Qed.

Lemma api_call_keeps_device_witness :
  call_ok (CallDecryptMessage (first_msg ProtocolV2)) ∧
  device_ok (m_protocol (p_mB (two ProtocolV2))) (m_identityKey (p_mB (two ProtocolV2))) (m_localDevice (p_mB (two ProtocolV2))) (p_wB (two ProtocolV2)) ∧
  (wpr (call_prog (p_mB (two ProtocolV2)) (CallDecryptMessage (first_msg ProtocolV2)))
    (λ _, device_ok (m_protocol (p_mB (two ProtocolV2))) (m_identityKey (p_mB (two ProtocolV2))) (m_localDevice (p_mB (two ProtocolV2)))) (p_wB (two ProtocolV2))).
Proof.
  assert (call_ok (CallDecryptMessage (first_msg ProtocolV2))) as H0.
  { exact Logic.I. }
  assert (device_ok (m_protocol (p_mB (two ProtocolV2))) (m_identityKey (p_mB (two ProtocolV2))) (m_localDevice (p_mB (two ProtocolV2))) (p_wB (two ProtocolV2))) as H1.
  { exact two_B_device. }
  split; [exact H0|]. split; [exact H1|]. 
  apply (api_call_keeps_device (p_mB (two ProtocolV2)) (CallDecryptMessage (first_msg ProtocolV2)) (p_wB (two ProtocolV2)) H0 H1).
Defined.


(** Two goroutines on Alice's Manager: one encrypts for Bob, one resets the
    session with Bob's device. *)
Definition two_calls : list (list call) :=
  [[CallEncryptMessage bob_jid hello]; [CallResetSession bob_dev]].

(** A schedule, as the list of goroutines that take a step. *)
Fixpoint sched (l : list nat) (c : config) : config :=
  match l with
  | [] => c
  | i :: l =>
      match c.1 !! i with
      | Some p =>
          match advance p c.2 with
          | Reply p' w' => sched l (<[i := p']> c.1, w')
          | _ => sched l c
          end
      | None => sched l c
      end
  end.

Lemma sched_steps l c : rtc step c (sched l c).
Proof.
  revert c. induction l as [|i l IH]; intros [ps w]; simpl; [done|].
  destruct (ps !! i) as [p|] eqn:Hp; [|apply IH].
  destruct (advance p w) as [p' w'| |] eqn:Ha; [|apply IH..].
  eapply rtc_l, IH. exists i. by constructor 1 with p.
Qed.

Definition config0 : config := start (p_mA (two ProtocolV2)) two_calls (p_wA (two ProtocolV2)).

(** The second goroutine is about to read the [locks] map, the first is where
    it started. *)
Definition config1 : config := sched [1] config0.
(** It holds the device's lock and is about to delete the session. *)
Definition config2 : config := sched [1; 1; 1; 1; 1; 1] config0.
Definition config3 : config := sched [0] config2.

Definition thread (i : nat) (c : config) : prog eff unit := default (Ret tt) (c.1 !! i).

Lemma thread_lookup i c : i < length c.1 → c.1 !! i = Some (thread i c).
Proof. intros Hi. unfold thread. by destruct (lookup_lt_is_Some_2 _ _ Hi) as [p ->]. Qed.

Lemma two_calls_ok : Forall (Forall call_ok) two_calls.
Proof. by repeat constructor. Qed.

Lemma config2_length : length config2.1 = 2.
Proof. vm_compute. reflexivity. Qed.


Definition can_step (i : nat) (c : config) : bool :=
  match advance (thread i c) c.2 with Reply _ _ => true | _ => false end.

Lemma step_by_sched i c : i < length c.1 → can_step i c = true → step_by i c (sched [i] c).
Proof.
  intros Hi%thread_lookup. unfold can_step. destruct c as [ps w]. simpl in *. rewrite Hi.
  destruct (advance (thread i (ps, w)) w) as [p' w'| |] eqn:Ha; [|done..].
  intros _. by constructor 1 with (thread i (ps, w)).
Qed.

Lemma config1_length : length config1.1 = 2.
Proof. vm_compute. reflexivity. Qed.

Lemma concurrent_calls_mutual_exclusion_witness :
  Forall (Forall call_ok) two_calls ∧
  quiet (w_lk (p_wA (two ProtocolV2))) ∧
  rtc step (start (p_mA (two ProtocolV2)) two_calls (p_wA (two ProtocolV2))) config1 ∧
  config1.1 !! 1 = Some (thread 1 config1) ∧
  config1.1 !! 1 = Some (thread 1 config1) ∧
  next_access (thread 1 config1) = Some LocksMap ∧
  next_access (thread 1 config1) = Some LocksMap ∧
  (1 = 1).
Proof.
  assert (Forall (Forall call_ok) two_calls) as H0.
  { exact two_calls_ok. }
  assert (quiet (w_lk (p_wA (two ProtocolV2)))) as H1.
  { exact two_A_quiet. }
  assert (rtc step (start (p_mA (two ProtocolV2)) two_calls (p_wA (two ProtocolV2))) config1) as H2.
  { apply sched_steps. }
  assert (config1.1 !! 1 = Some (thread 1 config1)) as H3.
  { apply thread_lookup. rewrite config1_length. lia. }
  assert (config1.1 !! 1 = Some (thread 1 config1)) as H4.
  { apply thread_lookup. rewrite config1_length. lia. }
  assert (next_access (thread 1 config1) = Some LocksMap) as H5.
  { vm_compute. reflexivity. }
  assert (next_access (thread 1 config1) = Some LocksMap) as H6.
  { vm_compute. reflexivity. }
  split; [exact H0|]. split; [exact H1|]. split; [exact H2|]. split; [exact H3|]. split; [exact H4|]. split; [exact H5|]. split; [exact H6|]. 
  apply (concurrent_calls_mutual_exclusion (p_mA (two ProtocolV2)) two_calls (p_wA (two ProtocolV2)) config1 1 1 (thread 1 config1) (thread 1 config1) LocksMap H0 H1 H2 H3 H4 H5 H6).
Defined.

Lemma concurrent_calls_complete_witness :
  Forall (Forall call_ok) two_calls ∧
  quiet (w_lk (p_wA (two ProtocolV2))) ∧
  rtc step (start (p_mA (two ProtocolV2)) two_calls (p_wA (two ProtocolV2))) config2 ∧
  (¬ crashes config2 ∧ Acc (flip step) config2 ∧
    ((∃ c', step config2 c') ∨ Forall (λ p, finished p) config2.1)).
Proof.
  assert (Forall (Forall call_ok) two_calls) as H0.
  { exact two_calls_ok. }
  assert (quiet (w_lk (p_wA (two ProtocolV2)))) as H1.
  { exact two_A_quiet. }
  assert (rtc step (start (p_mA (two ProtocolV2)) two_calls (p_wA (two ProtocolV2))) config2) as H2.
  { apply sched_steps. }
  split; [exact H0|]. split; [exact H1|]. split; [exact H2|]. 
  apply (concurrent_calls_complete (p_mA (two ProtocolV2)) two_calls (p_wA (two ProtocolV2)) config2 H0 H1 H2).
Defined.

Lemma device_section_isolated_witness :
  Forall (Forall call_ok) two_calls ∧
  quiet (w_lk (p_wA (two ProtocolV2))) ∧
  good (w_data (p_wA (two ProtocolV2))) ∧
  rtc step (start (p_mA (two ProtocolV2)) two_calls (p_wA (two ProtocolV2))) config2 ∧
  config2.1 !! 1 = Some (thread 1 config2) ∧
  next_access (thread 1 config2) = Some (SessionState bob_dev) ∧
  rtc (section_step 1) config2 config2 ∧
  step_by 0 config2 config3 ∧
  0 ≠ 1 ∧
  (session_state bob_dev config3.2 = session_state bob_dev config2.2).
Proof.
  assert (Forall (Forall call_ok) two_calls) as H0.
  { exact two_calls_ok. }
  assert (quiet (w_lk (p_wA (two ProtocolV2)))) as H1.
  { exact two_A_quiet. }
  assert (good (w_data (p_wA (two ProtocolV2)))) as H2.
  { exact two_A_good. }
  assert (rtc step (start (p_mA (two ProtocolV2)) two_calls (p_wA (two ProtocolV2))) config2) as H3.
  { apply sched_steps. }
  assert (config2.1 !! 1 = Some (thread 1 config2)) as H4.
  { apply thread_lookup. rewrite config2_length. lia. }
  assert (next_access (thread 1 config2) = Some (SessionState bob_dev)) as H5.
  { vm_compute. reflexivity. }
  assert (rtc (section_step 1) config2 config2) as H6.
  { apply rtc_refl. }
  assert (step_by 0 config2 config3) as H7.
  { apply step_by_sched; [rewrite config2_length; lia|vm_compute; reflexivity]. }
  assert (0 ≠ 1) as H8.
  { done. }
  split; [exact H0|]. split; [exact H1|]. split; [exact H2|]. split; [exact H3|]. split; [exact H4|]. split; [exact H5|]. split; [exact H6|]. split; [exact H7|]. split; [exact H8|]. 
  apply (device_section_isolated (p_mA (two ProtocolV2)) two_calls (p_wA (two ProtocolV2)) config2 config2 config3 1 0 (thread 1 config2) bob_dev H0 H1 H2 H3 H4 H5 H6 H7 H8).
Defined.
