(* ===== verification/WitnessRuns.v ===== *)
(** * Witnesses: longer runs

    The theorems about conversations, carbon copies, rotation, replays and
    races at concrete inputs: each hypothesis holds in a run of the devices of
    [Witnesses] (memstore, the in-memory transport, the toy backend). *)
From S2P Require Import Prelude Types Errors StoreSpec Transport Xochimilco Prog.
From S2P Require Import ProgFacts StoreFacts Signal SessionLaws SignalFacts Memstore MemstoreFacts.
From S2P Require Import Manager LockFacts ManagerKeys ManagerEncrypt ManagerDecrypt FakeNetwork ToyCrypto.
From S2P Require Import Handshake EndToEnd Delivery Conversation LockProtocol Concurrency PreKeyOwnership.
From S2P Require Import Termination Invariants Bootstrap Newcomers Recovery MemstoreCode MemstoreMutex.
From S2P Require Import Scenario Witnesses.

(** ** A conversation *)

(** Bob looks up both accounts' device lists after the first message, and his
    application trusts the key recorded for Alice's device. *)
Definition bob_settles : prog baseE (result unit) :=
  _ <-? SyncDevices alice_jid;
  _ <-? SyncDevices bob_jid;
  known <-? ask (OpRemoteIdentityKey alice_dev);
  ask (OpSetTrust (default None known) TrustTrusted).
Definition bob_synced : world := (call_result (lift bob_settles) (Ok tt) bob_after).2.

Lemma bob_settles_ok (w : world) :
  quiet (w_lk w) → good (w_data w) →
  wpr (lift bob_settles) (λ _ w', quiet (w_lk w') ∧ good (w_data w')) w.
Proof.
  intros Hq Hg. apply wpr_lift, wp_try. eapply wp_mono; [by apply SyncDevices_keeps|].
  intros [[]|e] d1 [Hg1 _]; [|by split].
  apply wp_try. eapply wp_mono; [by apply SyncDevices_keeps|].
  intros [[]|e] d2 [Hg2 _]; [|by split].
  apply wp_try. read_ok. write_ok. by split.
Qed.

Lemma bob_synced_ok : quiet (w_lk bob_synced) ∧ good (w_data bob_synced).
Proof.
  destruct bob_after_ok as [Hq Hg].
  exact (wpr_result _ _ _ (Ok tt) (bob_settles_ok bob_after Hq Hg)).
Qed.

#[local] Instance settled_dec m B a : Decision (settled m B a).
Proof. unfold settled, unambiguous. apply _. Defined.

(** From now on Bob's application trusts whoever writes. *)
Definition bob_trusting : Manager := WithTrustResolver always_trust (p_mB (two ProtocolV2)).

Lemma two_ready : ready (p_mA (two ProtocolV2)) bob_trusting alice_after bob_synced.
Proof.
  split; [exact alice_after_ok|exact bob_synced_ok| | |].
  - apply in_step_sym.
    apply (in_step_sessions _ _ (av (w_data bob_after))); [|exact after_in_step].
    vm_compute. reflexivity.
  - apply (bool_decide_unpack _). vm_compute. exact Logic.I.
  - apply (bool_decide_unpack _). vm_compute. exact Logic.I.
Qed.

(** Alice writes twice, Bob answers, and sends a key transport. *)
Definition chat : list turn :=
  [MkTurn false hello; MkTurn false (Some [Byte.x21]); MkTurn true hello; MkTurn true None].

#[local] Instance trusted_session_dec B a : Decision (trusted_session B a).
Proof.
  destruct (a_sessions a !! B) as [x|] eqn:Hs; [|right; intros [[? Hx] _]; congruence].
  destruct (a_remote a !! B) as [ik|] eqn:Hr; [|right; intros [_ (? & Hx & _)]; congruence].
  destruct (decide (trust_of a ik = TrustTrusted)) as [Ht|Ht].
  - left. split; [by eexists|]. by exists ik.
  - right. intros [_ (ik' & Hx & Hy)]. congruence.
Defined.

Definition two_mutual (wA wB : world) : Prop :=
  mutual_trust (p_mA (two ProtocolV2)) bob_trusting wA wB.

Lemma two_mutual_start : two_mutual alice_after bob_synced.
Proof. split; apply (bool_decide_unpack _); vm_compute; exact Logic.I. Qed.

Lemma conversation_delivered_witness :
  (converse (p_mA (two ProtocolV2)) bob_trusting chat alice_after bob_synced).1.1 =
    [Delivered (Ok hello); Delivered (Ok (Some [Byte.x21])); Delivered (Ok hello);
     Delivered (Ok None)] ∧
  let '(dls, wA', wB') := converse (p_mA (two ProtocolV2)) bob_trusting chat
    alice_after bob_synced in
  Forall2 (accounted_turn (p_mA (two ProtocolV2)) bob_trusting) chat dls ∧
  ready (p_mA (two ProtocolV2)) bob_trusting wA' wB' ∧
  Forall2 arrived_turn chat dls ∧ two_mutual wA' wB'.
Proof.
  assert (m_localDevice (p_mA (two ProtocolV2)) ≠ m_localDevice bob_trusting) as H0.
  { vm_compute. discriminate. }
  split; [vm_compute; reflexivity|].
  pose proof (conversation_delivered (p_mA (two ProtocolV2)) bob_trusting chat
    alice_after bob_synced H0 two_ready) as H.
  destruct (converse _ _ _ _ _) as [[dls wA'] wB']. destruct H as (Hacc & Hr & Hall).
  exact (conj Hacc (conj Hr (Hall toy_total_laws two_mutual_start))).
Defined.

(** ** A message that must arrive *)

(** The network as it is when Alice writes. *)
Definition two_net : fakeNetwork := d_env (w_data (p_wA (two ProtocolV2))).
Definition two_ik : gobytes := B_IdentityKey (bob_bundle ProtocolV2).

Lemma two_public : ∃ pA,
  IdentityPublicKey (m_protocol (p_mA (two ProtocolV2)))
    (m_identityKey (p_mA (two ProtocolV2))) = Ok pA.
Proof. eexists. vm_compute. reflexivity. Qed.

Lemma fetched_from dev b (n0 : fakeNetwork) :
  net_bundles n0 !! dev = Some b → ∀ v, frozen n0 v → (FetchBundle dev v).1 = Ok b.
Proof. intros H v ->. simpl. unfold fake_FetchBundle. by rewrite H. Qed.

Lemma listed_by dev l (n0 : fakeNetwork) :
  net_devices n0 !! JID dev = Some l → ID dev ∈ DL_Devices l →
  ∀ v, frozen n0 v → ∃ l', (FetchDeviceList (JID dev) v).1 = Ok l' ∧ ID dev ∈ DL_Devices l'.
Proof. intros H Hin v ->. simpl. unfold fake_FetchDeviceList. rewrite H. by exists l. Qed.

Lemma two_answers :
  answers (frozen two_net) (p_mA (two ProtocolV2)) (p_mB (two ProtocolV2))
    (av (w_data (p_wB (two ProtocolV2)))) (av (w_data (p_wB (two ProtocolV2))))
    (bob_bundle ProtocolV2).
Proof.
  split.
  - vm_compute. reflexivity.
  - exact two_own_prekeys.
  - exact two_bundle_of.
  - apply (bool_decide_unpack _). vm_compute. exact Logic.I.
  - apply fetched_from. rewrite two_local_B. exact two_serves.
  - apply current_spk_by_id.
  - intros k _. reflexivity.
  - split; [exact two_A_generated|exact two_public].
Qed.

Lemma two_contactable :
  contactable (frozen two_net) (p_mA (two ProtocolV2)) (p_mB (two ProtocolV2))
    (av (w_data (p_wA (two ProtocolV2)))) (av (w_data (p_wB (two ProtocolV2)))) two_ik.
Proof.
  apply (contact_bundle _ _ _ _ _ _ (av (w_data (p_wB (two ProtocolV2)))) (bob_bundle ProtocolV2)).
  - exact two_answers.
  - vm_compute. reflexivity.
  - done.
Qed.

Lemma two_accepts :
  accepts (frozen two_net) (p_mA (two ProtocolV2)) (m_localDevice (p_mB (two ProtocolV2)))
    two_ik (av (w_data (p_wA (two ProtocolV2)))).
Proof.
  right. split; [vm_compute; discriminate|].
  exists always_trust. split; [vm_compute; reflexivity|done].
Qed.

Lemma two_finds :
  finds (frozen two_net) (m_localDevice (p_mB (two ProtocolV2)))
    (av (w_data (p_wA (two ProtocolV2)))).
Proof.
  right. split; [vm_compute; reflexivity|]. rewrite two_local_B.
  apply (listed_by bob_dev (MkDeviceList bob_jid [ID bob_dev])).
  - vm_compute. reflexivity.
  - simpl. apply elem_of_cons. by left.
Qed.

Lemma message_arrives_witness :
  m_localDevice (p_mB (two ProtocolV2)) ≠ m_localDevice (p_mA (two ProtocolV2)) ∧
  quiet (w_lk (p_wA (two ProtocolV2))) ∧
  good (w_data (p_wA (two ProtocolV2))) ∧
  quiet (w_lk (p_wB (two ProtocolV2))) ∧
  good (w_data (p_wB (two ProtocolV2))) ∧
  env_stable (frozen two_net) (p_mA (two ProtocolV2)) ∧
  (frozen two_net) (d_env (w_data (p_wA (two ProtocolV2)))) ∧
  contactable (frozen two_net) (p_mA (two ProtocolV2)) (p_mB (two ProtocolV2)) (av (w_data (p_wA (two ProtocolV2)))) (av (w_data (p_wB (two ProtocolV2)))) two_ik ∧
  accepts (frozen two_net) (p_mA (two ProtocolV2)) (m_localDevice (p_mB (two ProtocolV2))) two_ik (av (w_data (p_wA (two ProtocolV2)))) ∧
  finds (frozen two_net) (m_localDevice (p_mB (two ProtocolV2))) (av (w_data (p_wA (two ProtocolV2)))) ∧
  (wpr (EncryptMessage (p_mA (two ProtocolV2)) (JID (m_localDevice (p_mB (two ProtocolV2)))) hello)
    (λ r wA', unambiguous (p_mA (two ProtocolV2)) (m_localDevice (p_mB (two ProtocolV2))) (av (w_data wA')) →
    ∃ msg errs, r = (Some msg, errs, None) ∧
      wpr (DecryptMessage (p_mB (two ProtocolV2)) msg)
        (λ r' wB', (∃ out, r' = Ok out ∧ same_text hello out) ∧
          in_step (p_mA (two ProtocolV2)) (p_mB (two ProtocolV2)) (av (w_data wA')) (av (w_data wB')) ∧
          in_step (p_mB (two ProtocolV2)) (p_mA (two ProtocolV2)) (av (w_data wB')) (av (w_data wA'))) (p_wB (two ProtocolV2))) (p_wA (two ProtocolV2))).
Proof.
  assert (m_localDevice (p_mB (two ProtocolV2)) ≠ m_localDevice (p_mA (two ProtocolV2))) as H0.
  { vm_compute. discriminate. }
  assert (quiet (w_lk (p_wA (two ProtocolV2)))) as H1.
  { exact two_A_quiet. }
  assert (good (w_data (p_wA (two ProtocolV2)))) as H2.
  { exact two_A_good. }
  assert (quiet (w_lk (p_wB (two ProtocolV2)))) as H3.
  { exact two_B_quiet. }
  assert (good (w_data (p_wB (two ProtocolV2)))) as H4.
  { exact two_B_good. }
  assert (env_stable (frozen two_net) (p_mA (two ProtocolV2))) as H5.
  { apply (frozen_stable two_net _ always_trust); [vm_compute; reflexivity|by intros]. }
  assert ((frozen two_net) (d_env (w_data (p_wA (two ProtocolV2))))) as H6.
  { reflexivity. }
  assert (contactable (frozen two_net) (p_mA (two ProtocolV2)) (p_mB (two ProtocolV2)) (av (w_data (p_wA (two ProtocolV2)))) (av (w_data (p_wB (two ProtocolV2)))) two_ik) as H7.
  { exact two_contactable. }
  assert (accepts (frozen two_net) (p_mA (two ProtocolV2)) (m_localDevice (p_mB (two ProtocolV2))) two_ik (av (w_data (p_wA (two ProtocolV2))))) as H8.
  { exact two_accepts. }
  assert (finds (frozen two_net) (m_localDevice (p_mB (two ProtocolV2))) (av (w_data (p_wA (two ProtocolV2))))) as H9.
  { exact two_finds. }
  split; [exact H0|]. split; [exact H1|]. split; [exact H2|]. split; [exact H3|]. split; [exact H4|]. split; [exact H5|]. split; [exact H6|]. split; [exact H7|]. split; [exact H8|]. split; [exact H9|]. 
  apply (message_arrives (p_mA (two ProtocolV2)) (p_mB (two ProtocolV2)) (frozen two_net) two_ik hello (p_wA (two ProtocolV2)) (p_wB (two ProtocolV2)) H0 H1 H2 H3 H4 H5 H6 H7 H8 H9).
Defined.

(** ** Carbon copies: Alice has a second device *)
Definition alice_dev3 : Device := MkDevice alice_jid 3%Z.

(** Her two devices and Bob's, once all three have published. *)
Definition family : pair * (world * Manager) :=
  let '(w1, r1) := setup newFakeNetwork 1 alice_jid 1%Z ProtocolV2
    [WithTrustResolver always_trust] in
  let '(w3, r3) := setup (d_env (w_data w1)) 300 alice_jid 3%Z ProtocolV2 [] in
  let net := (fake_PublishDeviceList (MkDeviceList alice_jid [1; 3]%Z) (d_env (w_data w3))).2 in
  let '(wB, rB) := setup net 150 bob_jid 2%Z ProtocolV2 [] in
  (MkPair (MkWorld (with_env (d_env (w_data wB)) (w_data w1)) (w_lk w1)) (ok_or r1 no_manager)
     w3 (ok_or r3 no_manager), (wB, ok_or rB no_manager)).
Definition fam_w1 : world := p_wA family.1.
Definition fam_m1 : Manager := p_mA family.1.
Definition fam_w3 : world := p_wB family.1.
Definition fam_m3 : Manager := p_mB family.1.
Definition fam_wB : world := family.2.1.
Definition fam_mB : Manager := family.2.2.

Lemma fam_w1_ok : quiet (w_lk fam_w1) ∧ good (w_data fam_w1).
Proof. split; [solve_quiet|solve_good]. Qed.
Lemma fam_w3_ok : quiet (w_lk fam_w3) ∧ good (w_data fam_w3).
Proof. split; [solve_quiet|solve_good]. Qed.

(** The third device's store is still as InitIdentity left it. *)
Definition init3_world : world :=
  (call_result (InitIdentity alice_jid 3%Z ProtocolV2) (Ok tt) (new_world newFakeNetwork 300)).2.

Lemma init3_device :
  device_ok ProtocolV2 (a_identity (av (w_data init3_world))) alice_dev3 init3_world.
Proof.
  pose proof (InitIdentity_device alice_jid 3%Z ProtocolV2 (new_world newFakeNetwork 300)
    (new_quiet 300) (new_good 300) eq_refl) as H.
  pose proof (wpr_result _ _ _ (Ok tt) H) as [_ Hok]; [vm_compute; reflexivity|exact Hok].
Qed.

Lemma fam_w3_view : av (w_data fam_w3) = av (w_data init3_world).
Proof. vm_compute. reflexivity. Qed.
Lemma fam_m3_protocol : m_protocol fam_m3 = ProtocolV2.
Proof. vm_compute. reflexivity. Qed.
Lemma fam_m3_identity : m_identityKey fam_m3 = a_identity (av (w_data init3_world)).
Proof. vm_compute. reflexivity. Qed.
Lemma fam_m3_local : m_localDevice fam_m3 = alice_dev3.
Proof. vm_compute. reflexivity. Qed.

Definition bundle3 : Bundle :=
  ok_or (eval (Manager_Bundle fam_m3) (w_data fam_w3)).1
    (MkBundle alice_dev3 None (MkSignedPreKey 0%Z None None) []).
Definition serves3 (n : fakeNetwork) : Prop := net_bundles n !! alice_dev3 = Some bundle3.

Lemma bundle3_of : bundle_of fam_m3 (av (w_data fam_w3)) bundle3.
Proof.
  pose proof (Manager_Bundle_spec fam_m3 _ (proj2 fam_w3_ok)) as (_ & _ & _ & H).
  apply H. vm_compute. reflexivity.
Qed.

Lemma fetch_served dev b b' (n : fakeNetwork) :
  net_bundles n !! dev = Some b → (FetchBundle dev n).1 = Ok b' → b' = b.
Proof. simpl. unfold fake_FetchBundle. intros ->. by intros [= <-]. Qed.

Lemma serves3_fetch v b :
  serves3 v → (FetchBundle (m_localDevice fam_m3) v).1 = Ok b → b = bundle3.
Proof. rewrite fam_m3_local. apply fetch_served. Qed.

Lemma fam_m1_generated : generated_identity (m_protocol fam_m1) (m_identityKey fam_m1).
Proof.
  exists (take 32 (default [] (m_identityKey fam_m1))). split; vm_compute; reflexivity.
Qed.

Lemma fam_reachable :
  reachable serves3 fam_m1 fam_m3 (av (w_data fam_w1)) (av (w_data fam_w3)).
Proof.
  apply (reach_bundle _ _ _ _ _ (av (w_data fam_w3)) bundle3).
  - vm_compute. reflexivity.
  - vm_compute. reflexivity.
  - rewrite fam_w3_view, fam_m3_protocol, fam_m3_identity.
    exact (ok_prekeys _ _ _ _ init3_device).
  - exact bundle3_of.
  - exact serves3_fetch.
  - apply current_spk_by_id.
  - intros k _. reflexivity.
  - exact fam_m1_generated.
Qed.

Lemma fam_resolver r dev key v : m_trustResolver fam_m1 = Some r → (r dev key v).2 = v.
Proof.
  assert (m_trustResolver fam_m1 = Some always_trust) as -> by (vm_compute; reflexivity).
  by intros [= <-].
Qed.

Lemma fam_stable : env_stable serves3 fam_m1.
Proof.
  split.
  - intros jid v Hv. simpl. unfold fake_FetchDeviceList. by destruct (net_devices v !! jid).
  - intros dev v Hv. simpl. unfold fake_FetchBundle. by destruct (net_bundles v !! dev).
  - intros r dev key v Hf Hv. by rewrite (fam_resolver r dev key v Hf).
Qed.

(** What the third device reads of the message to Bob. *)
Definition carbon : result gobytes :=
  (call_result (DecryptMessage fam_m3
    (sent (call_result (EncryptMessage fam_m1 bob_jid hello) no_results fam_w1).1))
    (Ok None) fam_w3).1.
Lemma own_device_receives_witness :
  carbon = Ok hello ∧
  JID (m_localDevice fam_m3) = JID (m_localDevice fam_m1) ∧
  m_localDevice fam_m3 ≠ m_localDevice fam_m1 ∧
  quiet (w_lk fam_w1) ∧
  good (w_data fam_w1) ∧
  quiet (w_lk fam_w3) ∧
  good (w_data fam_w3) ∧
  env_stable serves3 fam_m1 ∧
  serves3 (d_env (w_data fam_w1)) ∧
  reachable serves3 fam_m1 fam_m3 (av (w_data fam_w1)) (av (w_data fam_w3)) ∧
  (wpr (EncryptMessage fam_m1 bob_jid hello)
    (λ r wA', unambiguous_own bob_jid (m_localDevice fam_m3) (av (w_data wA')) →
    ∀ msg errs err key, r = (Some msg, errs, err) →
    own_key (ID (m_localDevice fam_m3)) (Keys msg) = Some key →
    wpr (DecryptMessage fam_m3 msg)
      (λ r' wB', (∃ out, r' = Ok out ∧ same_text hello out) ∧
        in_step fam_m1 fam_m3 (av (w_data wA')) (av (w_data wB')) ∧
        in_step fam_m3 fam_m1 (av (w_data wB')) (av (w_data wA'))) fam_w3) fam_w1).
Proof.
  assert (JID (m_localDevice fam_m3) = JID (m_localDevice fam_m1)) as H0.
  { vm_compute. reflexivity. }
  assert (m_localDevice fam_m3 ≠ m_localDevice fam_m1) as H1.
  { vm_compute. discriminate. }
  assert (quiet (w_lk fam_w1)) as H2.
  { exact (proj1 fam_w1_ok). }
  assert (good (w_data fam_w1)) as H3.
  { exact (proj2 fam_w1_ok). }
  assert (quiet (w_lk fam_w3)) as H4.
  { exact (proj1 fam_w3_ok). }
  assert (good (w_data fam_w3)) as H5.
  { exact (proj2 fam_w3_ok). }
  assert (env_stable serves3 fam_m1) as H6.
  { exact fam_stable. }
  assert (serves3 (d_env (w_data fam_w1))) as H7.
  { vm_compute. reflexivity. }
  assert (reachable serves3 fam_m1 fam_m3 (av (w_data fam_w1)) (av (w_data fam_w3))) as H8.
  { exact fam_reachable. }
  split; [vm_compute; reflexivity|]. split; [exact H0|]. split; [exact H1|]. split; [exact H2|]. split; [exact H3|]. split; [exact H4|]. split; [exact H5|]. split; [exact H6|]. split; [exact H7|]. split; [exact H8|]. 
  apply (own_device_receives fam_m1 fam_m3 bob_jid serves3 hello fam_w1 fam_w3 H0 H1 H2 H3 H4 H5 H6 H7 H8).
Defined.


(** ** Rotation before the first message arrives *)

(** What Bob reads of the first message after rotating his signed prekey. *)
Definition read_after_rotation : result gobytes :=
  (call_result (_ ← lift (Manager_RotateSignedPreKey (p_mB (two ProtocolV2)));
    DecryptMessage (p_mB (two ProtocolV2)) (first_msg ProtocolV2)) (Ok None)
    (p_wB (two ProtocolV2))).1.

Lemma first_message_survives_rotation_witness :
  read_after_rotation = Ok hello ∧
  m_protocol (p_mB (two ProtocolV2)) = m_protocol (p_mA (two ProtocolV2)) ∧
  m_localDevice (p_mB (two ProtocolV2)) ≠ m_localDevice (p_mA (two ProtocolV2)) ∧
  quiet (w_lk (p_wA (two ProtocolV2))) ∧
  good (w_data (p_wA (two ProtocolV2))) ∧
  quiet (w_lk (p_wB (two ProtocolV2))) ∧
  good (w_data (p_wB (two ProtocolV2))) ∧
  a_sessions (av (w_data (p_wA (two ProtocolV2)))) !! m_localDevice (p_mB (two ProtocolV2)) = None ∧
  generated_identity (m_protocol (p_mA (two ProtocolV2))) (m_identityKey (p_mA (two ProtocolV2))) ∧
  own_prekeys (m_protocol (p_mB (two ProtocolV2))) (m_identityKey (p_mB (two ProtocolV2))) (av (w_data (p_wB (two ProtocolV2)))) ∧
  SPKR_Public (a_current (av (w_data (p_wB (two ProtocolV2))))) ≠ None ∧
  bundle_of (p_mB (two ProtocolV2)) (av (w_data (p_wB (two ProtocolV2)))) (bob_bundle ProtocolV2) ∧
  env_stable (serves_bob ProtocolV2) (p_mA (two ProtocolV2)) ∧
  (serves_bob ProtocolV2) (d_env (w_data (p_wA (two ProtocolV2)))) ∧
  ((∀ v b, (serves_bob ProtocolV2) v → (FetchBundle (m_localDevice (p_mB (two ProtocolV2))) v).1 = Ok b → b = (bob_bundle ProtocolV2))) ∧
  (wpr (EncryptMessage (p_mA (two ProtocolV2)) (JID (m_localDevice (p_mB (two ProtocolV2)))) hello)
    (λ r wA', unambiguous (p_mA (two ProtocolV2)) (m_localDevice (p_mB (two ProtocolV2))) (av (w_data wA')) →
    ∀ msg errs err key, r = (Some msg, errs, err) →
    own_key (ID (m_localDevice (p_mB (two ProtocolV2)))) (Keys msg) = Some key →
    wpr (_ ← lift (Manager_RotateSignedPreKey (p_mB (two ProtocolV2))); DecryptMessage (p_mB (two ProtocolV2)) msg)
      (λ r' wB', (∃ out, r' = Ok out ∧ same_text hello out) ∧
        in_step (p_mA (two ProtocolV2)) (p_mB (two ProtocolV2)) (av (w_data wA')) (av (w_data wB'))) (p_wB (two ProtocolV2))) (p_wA (two ProtocolV2))).
Proof.
  assert (m_protocol (p_mB (two ProtocolV2)) = m_protocol (p_mA (two ProtocolV2))) as H0.
  { vm_compute. reflexivity. }
  assert (m_localDevice (p_mB (two ProtocolV2)) ≠ m_localDevice (p_mA (two ProtocolV2))) as H1.
  { vm_compute. discriminate. }
  assert (quiet (w_lk (p_wA (two ProtocolV2)))) as H2.
  { exact two_A_quiet. }
  assert (good (w_data (p_wA (two ProtocolV2)))) as H3.
  { exact two_A_good. }
  assert (quiet (w_lk (p_wB (two ProtocolV2)))) as H4.
  { exact two_B_quiet. }
  assert (good (w_data (p_wB (two ProtocolV2)))) as H5.
  { exact two_B_good. }
  assert (a_sessions (av (w_data (p_wA (two ProtocolV2)))) !! m_localDevice (p_mB (two ProtocolV2)) = None) as H6.
  { vm_compute. reflexivity. }
  assert (generated_identity (m_protocol (p_mA (two ProtocolV2))) (m_identityKey (p_mA (two ProtocolV2)))) as H7.
  { exact two_A_generated. }
  assert (own_prekeys (m_protocol (p_mB (two ProtocolV2))) (m_identityKey (p_mB (two ProtocolV2))) (av (w_data (p_wB (two ProtocolV2))))) as H8.
  { exact two_own_prekeys. }
  assert (SPKR_Public (a_current (av (w_data (p_wB (two ProtocolV2))))) ≠ None) as H9.
  { vm_compute. discriminate. }
  assert (bundle_of (p_mB (two ProtocolV2)) (av (w_data (p_wB (two ProtocolV2)))) (bob_bundle ProtocolV2)) as H10.
  { exact two_bundle_of. }
  assert (env_stable (serves_bob ProtocolV2) (p_mA (two ProtocolV2))) as H11.
  { apply serves_bob_stable. exact two_resolver. }
  assert ((serves_bob ProtocolV2) (d_env (w_data (p_wA (two ProtocolV2))))) as H12.
  { exact two_serves. }
  assert ((∀ v b, (serves_bob ProtocolV2) v → (FetchBundle (m_localDevice (p_mB (two ProtocolV2))) v).1 = Ok b → b = (bob_bundle ProtocolV2))) as H13.
  { intros v b. rewrite two_local_B. apply serves_bob_fetch. }
  split; [vm_compute; reflexivity|]. split; [exact H0|]. split; [exact H1|]. split; [exact H2|]. split; [exact H3|]. split; [exact H4|]. split; [exact H5|]. split; [exact H6|]. split; [exact H7|]. split; [exact H8|]. split; [exact H9|]. split; [exact H10|]. split; [exact H11|]. split; [exact H12|]. split; [exact H13|]. 
  apply (first_message_survives_rotation (p_mA (two ProtocolV2)) (p_mB (two ProtocolV2)) (bob_bundle ProtocolV2) (serves_bob ProtocolV2) hello (p_wA (two ProtocolV2)) (p_wB (two ProtocolV2)) H0 H1 H2 H3 H4 H5 H6 H7 H8 H9 H10 H11 H12 H13).
Defined.

(** ** The first message again *)

Definition first_sid : Z := KX_SignedPreKeyID (first_kx ProtocolV2).
Definition first_id : Z := KX_PreKeyID (first_kx ProtocolV2).
Definition bob_spk : SignedPreKeyRecord := a_current (av (w_data bob_after)).

Lemma DecryptMessage_missing_prekey_witness :
  quiet (w_lk bob_after) ∧
  own_key (ID (m_localDevice (p_mB (two ProtocolV2)))) (Keys (first_msg ProtocolV2)) = Some (first_own ProtocolV2) ∧
  named_ids (p_mB (two ProtocolV2)) (first_own ProtocolV2) = Some (first_sid, first_id) ∧
  spk_by_id (av (w_data bob_after)) first_sid = Some bob_spk ∧
  ms_preKeys (d_store (w_data bob_after)) !! first_id = None ∧
  (wpr (DecryptMessage (p_mB (two ProtocolV2)) (first_msg ProtocolV2))
    (λ r w', r = Err (missing_prekey_error first_id) ∧ w_data w' = w_data bob_after) bob_after ∧
    error_string (missing_prekey_error first_id) =
    "establish session: consume one-time prekey " +:+ pretty first_id +:+ ": one-time prekey " +:+
    pretty first_id +:+ " not found" ∧
    ∀ sent, errors_Is (missing_prekey_error first_id) sent = false).
Proof.
  assert (quiet (w_lk bob_after)) as H0.
  { apply bob_after_ok. }
  assert (own_key (ID (m_localDevice (p_mB (two ProtocolV2)))) (Keys (first_msg ProtocolV2)) = Some (first_own ProtocolV2)) as H1.
  { vm_compute. reflexivity. }
  assert (named_ids (p_mB (two ProtocolV2)) (first_own ProtocolV2) = Some (first_sid, first_id)) as H2.
  { vm_compute. reflexivity. }
  assert (spk_by_id (av (w_data bob_after)) first_sid = Some bob_spk) as H3.
  { vm_compute. reflexivity. }
  assert (ms_preKeys (d_store (w_data bob_after)) !! first_id = None) as H4.
  { vm_compute. reflexivity. }
  split; [exact H0|]. split; [exact H1|]. split; [exact H2|]. split; [exact H3|]. split; [exact H4|]. 
  apply (DecryptMessage_missing_prekey (p_mB (two ProtocolV2)) (first_msg ProtocolV2) (first_own ProtocolV2) first_sid first_id bob_spk bob_after H0 H1 H2 H3 H4).
Defined.

(** ** Termination *)

Lemma api_call_terminates_witness :
  net_budget (p_mA (two ProtocolV2)) (CallEncryptMessage bob_jid hello)
    (w_data (p_wA (two ProtocolV2))) = 3 ∧
  net_calls (EncryptMessage (p_mA (two ProtocolV2)) bob_jid hello) (p_wA (two ProtocolV2)) = 3 ∧
  call_ok (CallEncryptMessage bob_jid hello) ∧
  quiet (w_lk (p_wA (two ProtocolV2))) ∧
  (wpc (call_prog (p_mA (two ProtocolV2)) (CallEncryptMessage bob_jid hello)) (λ _ w' n, quiet (w_lk w') ∧ n ≤ net_budget (p_mA (two ProtocolV2)) (CallEncryptMessage bob_jid hello) (w_data (p_wA (two ProtocolV2)))) (p_wA (two ProtocolV2))).
Proof.
  assert (call_ok (CallEncryptMessage bob_jid hello)) as H0.
  { exact Logic.I. }
  assert (quiet (w_lk (p_wA (two ProtocolV2)))) as H1.
  { exact two_A_quiet. }
  split; [vm_compute; reflexivity|]. split; [vm_compute; reflexivity|]. split; [exact H0|]. split; [exact H1|]. 
  apply (api_call_terminates (p_mA (two ProtocolV2)) (CallEncryptMessage bob_jid hello) (p_wA (two ProtocolV2)) H0 H1).
Defined.

(** ** A race for one prekey

    Two senders present a key exchange that names the same prekey, under two
    different device locks, while a third goroutine tops up the pool. *)
Definition race_msg (sender : Device) : EncryptedMessage :=
  MkEncryptedMessage sender (Keys (first_msg ProtocolV2)) (Payload (first_msg ProtocolV2))
    (IV (first_msg ProtocolV2)).
Definition race_calls : list (list call) :=
  [[CallDecryptMessage (first_msg ProtocolV2)];
   [CallDecryptMessage (race_msg (MkDevice "eve@example.com" 9%Z))];
   [CallGenerateOneTimePreKeys 2]].
Definition race0 : config := start (p_mB (two ProtocolV2)) race_calls (p_wB (two ProtocolV2)).

(** The prekeys consumed along a schedule. *)
Fixpoint sched_log (l : list nat) (c : config) : list Z :=
  match l with
  | [] => []
  | i :: l =>
      match c.1 !! i with
      | Some p =>
          match advance p c.2 with
          | Reply p' w' => consumed_next p c.2 ++ sched_log l (<[i := p']> c.1, w')
          | _ => sched_log l c
          end
      | None => sched_log l c
      end
  end.

Lemma sched_exec l c0 log c : exec c0 log c → exec c0 (log ++ sched_log l c) (sched l c).
Proof.
  revert log c. induction l as [|i l IH]; intros log [ps w] Hexec; simpl; [by rewrite app_nil_r|].
  destruct (ps !! i) as [p|] eqn:Hp; [|by apply IH].
  destruct (advance p w) as [p' w'| |] eqn:Ha; [|by apply IH..].
  rewrite app_assoc. apply IH. eapply (exec_step _ _ (ps, w)); [done|done|].
  by constructor 1 with p.
Qed.

Lemma sched_exec_start l c : exec c (sched_log l c) (sched l c).
Proof. apply (sched_exec l c []). constructor. Qed.

(** Round robin, until all three are done. *)
Definition turns : list nat := concat (replicate 40 [0; 1; 2]).
Definition race1 : config := sched turns race0.

Lemma two_B_issued : pool_issued (av (w_data (p_wB (two ProtocolV2)))).
Proof. apply (bool_decide_unpack _). vm_compute. exact Logic.I. Qed.

Lemma race_capacity :
  capacity (av (w_data (p_wB (two ProtocolV2)))) (sum_list_with demand race_calls).
Proof. apply Z.leb_le. vm_compute. reflexivity. Qed.

Lemma race_exec : exec (start (p_mB (two ProtocolV2)) race_calls (p_wB (two ProtocolV2)))
  (sched_log turns race0) race1.
Proof. apply sched_exec_start. Qed.

Lemma concurrent_prekeys_used_once_witness :
  map finished race1.1 = [true; true; true] ∧ sched_log turns race0 = [first_id] ∧
  good (w_data (p_wB (two ProtocolV2))) ∧
  pool_issued (av (w_data (p_wB (two ProtocolV2)))) ∧
  capacity (av (w_data (p_wB (two ProtocolV2)))) (sum_list_with demand race_calls) ∧
  exec (start (p_mB (two ProtocolV2)) race_calls (p_wB (two ProtocolV2))) (sched_log turns race0) race1 ∧
  (let pool := a_pool (av (w_data race1.2)) in
    NoDup (sched_log turns race0) ∧ (∀ id, id ∈ (sched_log turns race0) → pool !! id = None) ∧
    (∀ id rec, a_pool (av (w_data (p_wB (two ProtocolV2)))) !! id = Some rec → pool !! id = Some rec ∨ id ∈ (sched_log turns race0)) ∧
    pool_issued (av (w_data race1.2))).
Proof.
  assert (good (w_data (p_wB (two ProtocolV2)))) as H0.
  { exact two_B_good. }
  assert (pool_issued (av (w_data (p_wB (two ProtocolV2))))) as H1.
  { exact two_B_issued. }
  assert (capacity (av (w_data (p_wB (two ProtocolV2)))) (sum_list_with demand race_calls)) as H2.
  { exact race_capacity. }
  assert (exec (start (p_mB (two ProtocolV2)) race_calls (p_wB (two ProtocolV2))) (sched_log turns race0) race1) as H3.
  { exact race_exec. }
  split; [vm_compute; reflexivity|]. split; [vm_compute; reflexivity|]. split; [exact H0|]. split; [exact H1|]. split; [exact H2|]. split; [exact H3|]. 
  apply (concurrent_prekeys_used_once (p_mB (two ProtocolV2)) race_calls (p_wB (two ProtocolV2)) (sched_log turns race0) race1 H0 H1 H2 H3).
Defined.

