(* ===== verification/WitnessSystem.v ===== *)
(** * Witnesses: installation, recovery, and memstore's mutex

    The theorems of [Newcomers], [Recovery] and [MemstoreMutex] at concrete
    inputs. *)
From S2P Require Import Prelude Types Errors StoreSpec Transport Xochimilco Prog.
From S2P Require Import ProgFacts StoreFacts Signal SessionLaws SignalFacts Memstore MemstoreFacts.
From S2P Require Import Manager LockFacts ManagerKeys ManagerEncrypt ManagerDecrypt FakeNetwork ToyCrypto.
From S2P Require Import Handshake EndToEnd Delivery Recovery Conversation LockProtocol Concurrency.
From S2P Require Import MemstoreCode MemstoreMutex Invariants Bootstrap Newcomers.
From S2P Require Import Scenario Witnesses WitnessRuns.

(** ** Newcomers *)

(** Bob writes first, so it is he who needs a bundle, and Alice is silent. *)
Definition first_words : list turn :=
  [MkTurn true hello; MkTurn true None; MkTurn false hello].

Lemma trusts_all : approves always_trust.
Proof. by intros. Qed.

Lemma new_is_new seed : new_store (av (w_data (new_world newFakeNetwork seed))).
Proof. by split_and!. Qed.

Lemma newcomers_converse_witness :
  alice_jid ≠ bob_jid ∧
  quiet (w_lk (new_world newFakeNetwork 1)) ∧
  good (w_data (new_world newFakeNetwork 1)) ∧
  new_store (av (w_data (new_world newFakeNetwork 1))) ∧
  quiet (w_lk (new_world newFakeNetwork 150)) ∧
  good (w_data (new_world newFakeNetwork 150)) ∧
  new_store (av (w_data (new_world newFakeNetwork 150))) ∧
  last [always_trust] = Some always_trust ∧
  approves always_trust ∧
  last [always_trust] = Some always_trust ∧
  approves always_trust ∧
  (wpr (install alice_jid 1%Z ProtocolV1 [always_trust]) (λ rA wA, ∃ mA, rA = Ok mA ∧
    wpr (install bob_jid 1%Z ProtocolV1 [always_trust]) (λ rB wB, ∃ mB, rB = Ok mB ∧
    let '(dls, _, _) := converse mA mB first_words (on_net (d_env (w_data wB)) wA) wB in
    Forall2 arrived_turn first_words dls)
    (on_net (d_env (w_data wA)) (new_world newFakeNetwork 150))) (new_world newFakeNetwork 1)).
Proof.
  assert (alice_jid ≠ bob_jid) as H0.
  { vm_compute. discriminate. }
  assert (quiet (w_lk (new_world newFakeNetwork 1))) as H1.
  { exact (new_quiet 1). }
  assert (good (w_data (new_world newFakeNetwork 1))) as H2.
  { exact (new_good 1). }
  assert (new_store (av (w_data (new_world newFakeNetwork 1)))) as H3.
  { exact (new_is_new 1). }
  assert (quiet (w_lk (new_world newFakeNetwork 150))) as H4.
  { exact (new_quiet 150). }
  assert (good (w_data (new_world newFakeNetwork 150))) as H5.
  { exact (new_good 150). }
  assert (new_store (av (w_data (new_world newFakeNetwork 150)))) as H6.
  { exact (new_is_new 150). }
  assert (last [always_trust] = Some always_trust) as H7.
  { reflexivity. }
  assert (approves always_trust) as H8.
  { exact trusts_all. }
  assert (last [always_trust] = Some always_trust) as H9.
  { reflexivity. }
  assert (approves always_trust) as H10.
  { exact trusts_all. }
  split; [exact H0|]. split; [exact H1|]. split; [exact H2|]. split; [exact H3|]. split; [exact H4|]. split; [exact H5|]. split; [exact H6|]. split; [exact H7|]. split; [exact H8|]. split; [exact H9|]. split; [exact H10|]. 
  apply (newcomers_converse ProtocolV1 alice_jid 1%Z bob_jid 1%Z [always_trust] [always_trust] always_trust always_trust first_words (new_world newFakeNetwork 1) (new_world newFakeNetwork 150) H0 H1 H2 H3 H4 H5 H6 H7 H8 H9 H10).
Defined.

(** ** Recovery: Alice's first message was lost *)

Definition is_some {A} (o : option A) : bool := match o with Some _ => true | None => false end.

(** Alice has a session, Bob has none: her next messages would be refused. *)
Definition lost_A : world := alice_after.

Lemma lost_net : frozen two_net (d_env (w_data lost_A)).
Proof. vm_compute. reflexivity. Qed.

Lemma lost_accepts :
  accepts (frozen two_net) (p_mA (two ProtocolV2)) (m_localDevice (p_mB (two ProtocolV2)))
    (B_IdentityKey (bob_bundle ProtocolV2)) (av (w_data lost_A)).
Proof. left. vm_compute. reflexivity. Qed.

Lemma lost_finds :
  finds (frozen two_net) (m_localDevice (p_mB (two ProtocolV2))) (av (w_data lost_A)).
Proof.
  left. rewrite two_local_B. apply (bool_decide_unpack _). vm_compute. exact Logic.I.
Qed.

Lemma reset_recovers_witness :
  is_some (a_sessions (av (w_data lost_A)) !! bob_dev) = true ∧
  is_some (a_sessions (av (w_data (p_wB (two ProtocolV2)))) !! alice_dev) = false ∧
  m_localDevice (p_mB (two ProtocolV2)) ≠ m_localDevice (p_mA (two ProtocolV2)) ∧
  quiet (w_lk lost_A) ∧
  good (w_data lost_A) ∧
  quiet (w_lk (p_wB (two ProtocolV2))) ∧
  good (w_data (p_wB (two ProtocolV2))) ∧
  env_stable (frozen two_net) (p_mA (two ProtocolV2)) ∧
  (frozen two_net) (d_env (w_data lost_A)) ∧
  answers (frozen two_net) (p_mA (two ProtocolV2)) (p_mB (two ProtocolV2)) (av (w_data (p_wB (two ProtocolV2)))) (av (w_data (p_wB (two ProtocolV2)))) (bob_bundle ProtocolV2) ∧
  accepts (frozen two_net) (p_mA (two ProtocolV2)) (m_localDevice (p_mB (two ProtocolV2))) (B_IdentityKey (bob_bundle ProtocolV2)) (av (w_data lost_A)) ∧
  finds (frozen two_net) (m_localDevice (p_mB (two ProtocolV2))) (av (w_data lost_A)) ∧
  (wpr (ResetSession (p_mA (two ProtocolV2)) (m_localDevice (p_mB (two ProtocolV2)))) (λ r0 wA1, r0 = Ok tt ∧
    wpr (EncryptKeyTransport (p_mA (two ProtocolV2)) (JID (m_localDevice (p_mB (two ProtocolV2)))))
    (λ r wA', unambiguous (p_mA (two ProtocolV2)) (m_localDevice (p_mB (two ProtocolV2))) (av (w_data wA')) →
      ∃ msg errs, r = (Some msg, errs, None) ∧
        wpr (DecryptMessage (p_mB (two ProtocolV2)) msg)
          (λ r' wB', r' = Ok None ∧
            in_step (p_mA (two ProtocolV2)) (p_mB (two ProtocolV2)) (av (w_data wA')) (av (w_data wB')) ∧
            in_step (p_mB (two ProtocolV2)) (p_mA (two ProtocolV2)) (av (w_data wB')) (av (w_data wA'))) (p_wB (two ProtocolV2))) wA1) lost_A).
Proof.
  assert (m_localDevice (p_mB (two ProtocolV2)) ≠ m_localDevice (p_mA (two ProtocolV2))) as H0.
  { vm_compute. discriminate. }
  assert (quiet (w_lk lost_A)) as H1.
  { exact (proj1 alice_after_ok). }
  assert (good (w_data lost_A)) as H2.
  { exact (proj2 alice_after_ok). }
  assert (quiet (w_lk (p_wB (two ProtocolV2)))) as H3.
  { exact two_B_quiet. }
  assert (good (w_data (p_wB (two ProtocolV2)))) as H4.
  { exact two_B_good. }
  assert (env_stable (frozen two_net) (p_mA (two ProtocolV2))) as H5.
  { apply (frozen_stable two_net _ always_trust); [vm_compute; reflexivity|exact trusts_all]. }
  assert ((frozen two_net) (d_env (w_data lost_A))) as H6.
  { exact lost_net. }
  assert (answers (frozen two_net) (p_mA (two ProtocolV2)) (p_mB (two ProtocolV2)) (av (w_data (p_wB (two ProtocolV2)))) (av (w_data (p_wB (two ProtocolV2)))) (bob_bundle ProtocolV2)) as H7.
  { exact two_answers. }
  assert (accepts (frozen two_net) (p_mA (two ProtocolV2)) (m_localDevice (p_mB (two ProtocolV2))) (B_IdentityKey (bob_bundle ProtocolV2)) (av (w_data lost_A))) as H8.
  { exact lost_accepts. }
  assert (finds (frozen two_net) (m_localDevice (p_mB (two ProtocolV2))) (av (w_data lost_A))) as H9.
  { exact lost_finds. }
  split; [vm_compute; reflexivity|]. split; [vm_compute; reflexivity|].
  split; [exact H0|]. split; [exact H1|]. split; [exact H2|]. split; [exact H3|]. split; [exact H4|]. split; [exact H5|]. split; [exact H6|]. split; [exact H7|]. split; [exact H8|]. split; [exact H9|]. 
  apply (reset_recovers (p_mA (two ProtocolV2)) (p_mB (two ProtocolV2)) (frozen two_net) (av (w_data (p_wB (two ProtocolV2)))) (bob_bundle ProtocolV2) lost_A (p_wB (two ProtocolV2)) H0 H1 H2 H3 H4 H5 H6 H7 H8 H9).
Defined.

(** ** One message for all: Bob's device and Alice's second one *)

Definition fam_net : fakeNetwork := d_env (w_data fam_w1).

Lemma fam_public : ∃ pA,
  IdentityPublicKey (m_protocol fam_m1) (m_identityKey fam_m1) = Ok pA.
Proof. eexists. vm_compute. reflexivity. Qed.

(** A device whose published bundle [fam_net] serves, and that Alice has no
    session with, is one she can contact. *)
Lemma fam_contactable mB (wB : world) b :
  m_protocol mB = m_protocol fam_m1 →
  own_prekeys (m_protocol mB) (m_identityKey mB) (av (w_data wB)) →
  bundle_of mB (av (w_data wB)) b → a_pool (av (w_data wB)) ≠ ∅ →
  net_bundles fam_net !! m_localDevice mB = Some b →
  a_sessions (av (w_data fam_w1)) !! m_localDevice mB = None →
  contactable (frozen fam_net) fam_m1 mB (av (w_data fam_w1)) (av (w_data wB))
    (B_IdentityKey b).
Proof.
  intros Hp Hown Hb Hpool Hnet Hno.
  apply (contact_bundle _ _ _ _ _ _ (av (w_data wB)) b); [|exact Hno|reflexivity]. split.
  - exact Hp.
  - exact Hown.
  - exact Hb.
  - exact Hpool.
  - exact (fetched_from _ _ _ Hnet).
  - apply current_spk_by_id.
  - intros k _. reflexivity.
  - split; [exact fam_m1_generated|exact fam_public].
Qed.

Lemma fam_accepts B ik :
  trust_of (av (w_data fam_w1)) ik ≠ TrustUntrusted →
  accepts (frozen fam_net) fam_m1 B ik (av (w_data fam_w1)).
Proof.
  intros Hu. right. split; [exact Hu|].
  exists always_trust. split; [vm_compute; reflexivity|exact (λ _ _, eq_refl)].
Qed.

(** Bob's device is the one of [two]. *)
Lemma fam_mB_two : fam_mB = p_mB (two ProtocolV2).
Proof. vm_compute. reflexivity. Qed.
Lemma fam_wB_two : av (w_data fam_wB) = av (w_data (p_wB (two ProtocolV2))).
Proof. vm_compute. reflexivity. Qed.
Lemma fam_wB_ok : quiet (w_lk fam_wB) ∧ good (w_data fam_wB).
Proof. split; [solve_quiet|solve_good]. Qed.

Definition bob_peer : peer := MkPeer fam_mB (B_IdentityKey (bob_bundle ProtocolV2)) fam_wB.
Definition dev3_peer : peer := MkPeer fam_m3 (B_IdentityKey bundle3) fam_w3.
Definition fam_peers : list peer := [bob_peer; dev3_peer].

Lemma bob_awaits : awaits (frozen fam_net) fam_m1 bob_jid fam_w1 bob_peer.
Proof.
  split.
  - vm_compute. discriminate.
  - exact (proj1 fam_wB_ok).
  - exact (proj2 fam_wB_ok).
  - cbn [pr_manager pr_key pr_world bob_peer]. apply fam_contactable.
    + vm_compute. reflexivity.
    + rewrite fam_mB_two, fam_wB_two. exact two_own_prekeys.
    + rewrite fam_mB_two, fam_wB_two. exact two_bundle_of.
    + apply (bool_decide_unpack _). vm_compute. exact Logic.I.
    + vm_compute. reflexivity.
    + vm_compute. reflexivity.
  - apply fam_accepts. vm_compute. discriminate.
  - apply goes_account; [vm_compute; reflexivity|]. right. split; [vm_compute; reflexivity|].
    assert (pr_device bob_peer = bob_dev) as -> by (vm_compute; reflexivity).
    apply (listed_by bob_dev (MkDeviceList bob_jid [ID bob_dev])).
    + vm_compute. reflexivity.
    + simpl. apply elem_of_cons. by left.
Qed.

Lemma dev3_awaits : awaits (frozen fam_net) fam_m1 bob_jid fam_w1 dev3_peer.
Proof.
  split.
  - vm_compute. discriminate.
  - exact (proj1 fam_w3_ok).
  - exact (proj2 fam_w3_ok).
  - cbn [pr_manager pr_key pr_world dev3_peer]. apply fam_contactable.
    + vm_compute. reflexivity.
    + rewrite fam_w3_view, fam_m3_protocol, fam_m3_identity.
      exact (ok_prekeys _ _ _ _ init3_device).
    + exact bundle3_of.
    + apply (bool_decide_unpack _). vm_compute. exact Logic.I.
    + vm_compute. reflexivity.
    + vm_compute. reflexivity.
  - apply fam_accepts. vm_compute. discriminate.
  - apply goes_own.
    + vm_compute. discriminate.
    + vm_compute. reflexivity.
    + right. intros v ->. vm_compute. exact Logic.I.
    + right. split; [vm_compute; reflexivity|].
      assert (pr_device dev3_peer = alice_dev3) as -> by (vm_compute; reflexivity).
      apply (listed_by alice_dev3 (MkDeviceList alice_jid [1; 3]%Z)).
      * vm_compute. reflexivity.
      * simpl. apply elem_of_cons. right. apply elem_of_cons. by left.
Qed.

(** What each of the two reads of the one message. *)
Definition broadcast : encrypt_results * world :=
  call_result (EncryptMessage fam_m1 bob_jid hello) no_results fam_w1.
Definition reads (p : peer) : result gobytes :=
  (call_result (DecryptMessage (pr_manager p) (sent broadcast.1)) (Ok None) (pr_world p)).1.

#[local] Instance unambiguous_for_dec m jid B a : Decision (unambiguous_for m jid B a).
Proof. unfold unambiguous_for, unambiguous, unambiguous_own. case_decide; apply _. Defined.

Lemma every_device_receives_witness :
  map reads fam_peers = [Ok hello; Ok hello] ∧
  Forall (λ p, unambiguous_for fam_m1 bob_jid (pr_device p) (av (w_data broadcast.2)))
    fam_peers ∧
  fam_peers ≠ [] ∧
  quiet (w_lk fam_w1) ∧
  good (w_data fam_w1) ∧
  env_stable (frozen fam_net) fam_m1 ∧
  (frozen fam_net) (d_env (w_data fam_w1)) ∧
  Forall (awaits (frozen fam_net) fam_m1 bob_jid fam_w1) fam_peers ∧
  (wpr (EncryptMessage fam_m1 bob_jid hello)
    (λ r wA', ∃ msg errs, r = (Some msg, errs, None) ∧
    Forall (λ p, unambiguous_for fam_m1 bob_jid (pr_device p) (av (w_data wA')) →
      wpr (DecryptMessage (pr_manager p) msg) (received fam_m1 (pr_manager p) hello wA')
        (pr_world p)) fam_peers) fam_w1).
Proof.
  assert (fam_peers ≠ []) as H0.
  { done. }
  assert (quiet (w_lk fam_w1)) as H1.
  { exact (proj1 fam_w1_ok). }
  assert (good (w_data fam_w1)) as H2.
  { exact (proj2 fam_w1_ok). }
  assert (env_stable (frozen fam_net) fam_m1) as H3.
  { apply (frozen_stable fam_net _ always_trust); [vm_compute; reflexivity|by intros]. }
  assert ((frozen fam_net) (d_env (w_data fam_w1))) as H4.
  { reflexivity. }
  assert (Forall (awaits (frozen fam_net) fam_m1 bob_jid fam_w1) fam_peers) as H5.
  { exact (Forall_cons_2 _ _ _ bob_awaits (Forall_cons_2 _ _ _ dev3_awaits (Forall_nil_2 _))). }
  split; [vm_compute; reflexivity|].
  split; [apply (bool_decide_unpack _); vm_compute; exact Logic.I|].
  split; [exact H0|]. split; [exact H1|]. split; [exact H2|]. split; [exact H3|]. split; [exact H4|]. split; [exact H5|]. 
  apply (every_device_receives fam_m1 bob_jid (frozen fam_net) hello fam_w1 fam_peers H0 H1 H2 H3 H4 H5).
Defined.

(** ** Goroutines over memstore, access by access *)

(** Lets the goroutines in [l] take a step each, skipping those that cannot;
    the ones that did move, and the state reached. *)
Fixpoint fsched (l : list nat) (c : fconfig) : list nat * fconfig :=
  match l with
  | [] => ([], c)
  | i :: l =>
      match f_threads c !! i with
      | Some t =>
          match fadvance t (f_world c) (f_mu c) with
          | FReply t' w' mu' =>
              let '(moved, c') := fsched l (MkF (<[i := t']> (f_threads c)) w' mu') in
              (i :: moved, c')
          | _ => fsched l c
          end
      | None => fsched l c
      end
  end.

Lemma fsched_scheduled l c : scheduled fstep_by (fsched l c).1 c (fsched l c).2.
Proof.
  revert c. induction l as [|i l IH]; intros [ts w mu]; simpl; [constructor|].
  destruct (ts !! i) as [t|] eqn:Ht; [|apply IH].
  destruct (fadvance t w mu) as [t' w' mu'| |] eqn:Ha; [|apply IH..].
  specialize (IH (MkF (<[i:=t']> ts) w' mu')).
  destruct (fsched l (MkF (<[i:=t']> ts) w' mu')) as [moved c']. simpl in *.
  eapply sched_cons, IH. by constructor 1 with t.
Qed.

Definition fine0 : fconfig := fstart (p_mA (two ProtocolV2)) two_calls (p_wA (two ProtocolV2)).
(** Round robin to the end; and a state in which the first goroutine is inside
    the store while the second runs on. *)
Definition fine_turns : list nat := concat (replicate 120 [0; 1]).
Definition fine_end : list nat * fconfig := fsched fine_turns fine0.
Definition fine_mid : list nat * fconfig := fsched [1; 0; 1] fine0.

Lemma memstore_calls_atomic_witness :
  map ffinished (f_threads fine_end.2) = [true; true] ∧ f_mu fine_end.2 = false ∧
  scheduled fstep_by fine_end.1 (fstart (p_mA (two ProtocolV2)) two_calls (p_wA (two ProtocolV2))) fine_end.2 ∧
  (∃ l' ps w', l' `sublist_of` fine_end.1 ∧ scheduled step_by l' (start (p_mA (two ProtocolV2)) two_calls (p_wA (two ProtocolV2))) (ps, w') ∧
    sim fine_end.2 (ps, w') ∧
    (f_mu fine_end.2 = false → f_threads fine_end.2 = Running <$> ps ∧ f_world fine_end.2 = w')).
Proof.
  assert (scheduled fstep_by fine_end.1 (fstart (p_mA (two ProtocolV2)) two_calls (p_wA (two ProtocolV2))) fine_end.2) as H0.
  { exact (fsched_scheduled fine_turns fine0). }
  split; [vm_compute; reflexivity|]. split; [vm_compute; reflexivity|]. split; [exact H0|]. 
  apply (memstore_calls_atomic (p_mA (two ProtocolV2)) two_calls (p_wA (two ProtocolV2)) fine_end.1 fine_end.2 H0).
Defined.

Lemma memstore_concurrent_complete_witness :
  map in_store (f_threads fine_mid.2) = [true; false] ∧ f_mu fine_mid.2 = true ∧
  Forall (Forall call_ok) two_calls ∧
  quiet (w_lk (p_wA (two ProtocolV2))) ∧
  rtc fstep (fstart (p_mA (two ProtocolV2)) two_calls (p_wA (two ProtocolV2))) fine_mid.2 ∧
  (¬ fcrashes fine_mid.2 ∧ Acc (flip fstep) fine_mid.2 ∧
    ((∃ c', fstep fine_mid.2 c') ∨ Forall (λ t, ffinished t) (f_threads fine_mid.2)) ∧
    (∀ i j t1 t2, f_threads fine_mid.2 !! i = Some t1 → f_threads fine_mid.2 !! j = Some t2 →
    in_store t1 = true → in_store t2 = true → i = j)).
Proof.
  assert (Forall (Forall call_ok) two_calls) as H0.
  { exact two_calls_ok. }
  assert (quiet (w_lk (p_wA (two ProtocolV2)))) as H1.
  { exact two_A_quiet. }
  assert (rtc fstep (fstart (p_mA (two ProtocolV2)) two_calls (p_wA (two ProtocolV2))) fine_mid.2) as H2.
  { exact (scheduled_steps _ _ _ _ (fsched_scheduled [1; 0; 1] fine0)). }
  split; [vm_compute; reflexivity|]. split; [vm_compute; reflexivity|]. split; [exact H0|]. split; [exact H1|]. split; [exact H2|]. 
  apply (memstore_concurrent_complete (p_mA (two ProtocolV2)) two_calls (p_wA (two ProtocolV2)) fine_mid.2 H0 H1 H2).
Defined.
