(* ===== verification/WitnessCommunity.v ===== *)
(** * Witnesses: first contact, messages in flight, and a community

    The theorems of [FirstContact], [InFlight], [Readmission], [Gossip] and
    [Growth] at concrete inputs: Alice's two devices and Bob's, installed by [assemble] on one
    network, and the conversation of [WitnessRuns]. *)
From S2P Require Import Prelude Types Errors StoreSpec Transport Xochimilco Prog.
From S2P Require Import ProgFacts StoreFacts Signal SessionLaws SignalFacts Memstore MemstoreFacts.
From S2P Require Import Manager LockFacts ManagerKeys ManagerEncrypt ManagerDecrypt FakeNetwork ToyCrypto.
From S2P Require Import Handshake EndToEnd Delivery FirstContact Conversation InFlight Invariants.
From S2P Require Import Bootstrap Newcomers Community Gossip Growth Readmission.
From S2P Require Import Scenario Witnesses WitnessRuns WitnessSystem.

(** ** Three devices of two accounts *)

Definition club_apps : list applicant :=
  [MkApplicant alice_dev [always_trust] (new_world newFakeNetwork 1);
   MkApplicant bob_dev [always_trust] (new_world newFakeNetwork 150);
   MkApplicant alice_dev3 [always_trust] (new_world newFakeNetwork 300)].
Definition club_devs : list Device := map ac_dev club_apps.
Definition club : fakeNetwork * list node :=
  default (newFakeNetwork, []) (assemble ProtocolV2 club_apps newFakeNetwork []).
Definition club_at (i : nat) : node :=
  default (MkNode no_manager (new_world newFakeNetwork 0)) (club.2 !! i).
Definition club_bundle (i : nat) : Bundle :=
  default (bob_bundle ProtocolV2) (net_bundles club.1 !! nd_dev (club_at i)).

Lemma club_ids : NoDup (map ID club_devs).
Proof. apply (bool_decide_unpack _). vm_compute. exact Logic.I. Qed.

Lemma club_size : length club_apps ≤ Z.to_nat DefaultPreKeyCount.
Proof. apply Nat.leb_le. vm_compute. reflexivity. Qed.

Lemma new_acceptable dev seed :
  acceptable (MkApplicant dev [always_trust] (new_world newFakeNetwork seed)).
Proof.
  split; [exact (new_quiet seed)|exact (new_good seed)|exact (new_is_new seed)|].
  by exists always_trust.
Qed.

Lemma club_acceptable : Forall acceptable club_apps.
Proof.
  exact (Forall_cons_2 _ _ _ (new_acceptable _ 1) (Forall_cons_2 _ _ _ (new_acceptable _ 150)
    (Forall_cons_2 _ _ _ (new_acceptable _ 300) (Forall_nil_2 _)))).
Qed.

Lemma club_assembled :
  assemble ProtocolV2 club_apps newFakeNetwork [] = Some club ∧ map nd_dev club.2 = club_devs ∧
  community (Z.to_nat DefaultPreKeyCount) club.1 club.2.
Proof.
  destruct (assemble_community ProtocolV2 club_apps club_ids club_size club_acceptable)
    as (n & nodes & Has & Hdevs & Hcm).
  unfold club. rewrite Has. exact (conj eq_refl (conj Hdevs Hcm)).
Qed.
#[local] Opaque club.
Lemma club_devices : map nd_dev club.2 = club_devs.
Proof. exact (proj1 (proj2 club_assembled)). Qed.
Lemma club_community : community (Z.to_nat DefaultPreKeyCount) club.1 club.2.
Proof. exact (proj2 (proj2 club_assembled)). Qed.

Lemma club_member i dev : club_devs !! i = Some dev → club_at i ∈ club.2 ∧ nd_dev (club_at i) = dev.
Proof.
  rewrite <-club_devices, list_lookup_fmap. unfold club_at.
  destruct (club.2 !! i) as [q|] eqn:Hi; [|done]. intros [= <-].
  split; [by eapply list_elem_of_lookup_2|done].
Qed.

(** Any two of them that have not met. *)
Lemma club_approaches i j devi devj jid :
  club_devs !! i = Some devi → club_devs !! j = Some devj → jid ∈ map JID club_devs →
  meant devi jid devj →
  a_sessions (nd_store (club_at i)) !! nd_dev (club_at j) = None →
  approaches (frozen club.1) (nd_mgr (club_at i)) jid (on_net club.1 (nd_world (club_at i)))
    (nd_mgr (club_at j)) (av (w_data (on_net club.1 (nd_world (club_at j)))))
    (nd_store (club_at j)) (club_bundle j).
Proof.
  intros [Hi Hdi]%club_member [Hj Hdj]%club_member Hjid Hmeant Hno. rewrite av_on_net.
  apply list_elem_of_fmap in Hjid as (dev & -> & Hdev).
  apply (strangers_approach (Z.to_nat DefaultPreKeyCount) club.1 club.2).
  - exact club_community.
  - exact Hi.
  - exact Hj.
  - exists dev. rewrite club_devices. exact (conj Hdev eq_refl).
  - rewrite Hdi, Hdj. exact Hmeant.
  - exact Hno.
  - unfold club_bundle.
    destruct (cm_offers _ _ _ club_community _ Hj) as (b & _ & Hb). unfold nd_dev. by rewrite Hb.
Qed.

Definition club_world (i : nat) : world := on_net club.1 (nd_world (club_at i)).
Definition club_write (i : nat) (jid : string) (pt : gobytes) : encrypt_results * world :=
  call_result (EncryptMessage (nd_mgr (club_at i)) jid pt) no_results (club_world i).
Definition club_read (i : nat) (r : encrypt_results * world) (w : world) : result gobytes * world :=
  call_result (DecryptMessage (nd_mgr (club_at i)) (sent r.1)) (Ok None) w.

(** ** Two first messages cross: Alice's first device and Bob's *)

Definition good_day : gobytes := Some [Byte.x67; Byte.x64].
Definition from_alice : encrypt_results * world := club_write 0 bob_jid hello.
Definition from_bob : encrypt_results * world := club_write 1 alice_jid good_day.

#[local] Instance clear_for_dec m jid B a : Decision (unambiguous_for m jid B a).
Proof. unfold unambiguous_for, unambiguous, unambiguous_own. case_decide; apply _. Defined.

Lemma first_messages_cross_witness :
  (club_read 1 from_alice from_bob.2).1 = Ok hello ∧
  (club_read 0 from_bob from_alice.2).1 = Ok good_day ∧
  unambiguous_for (nd_mgr (club_at 0)) bob_jid (m_localDevice (nd_mgr (club_at 1))) (av (w_data from_alice.2)) ∧
  unambiguous_for (nd_mgr (club_at 1)) alice_jid (m_localDevice (nd_mgr (club_at 0))) (av (w_data from_bob.2)) ∧
  approaches (frozen club.1) (nd_mgr (club_at 0)) bob_jid (club_world 0) (nd_mgr (club_at 1)) (av (w_data (club_world 1))) (nd_store (club_at 1)) (club_bundle 1) ∧
  approaches (frozen club.1) (nd_mgr (club_at 1)) alice_jid (club_world 1) (nd_mgr (club_at 0)) (av (w_data (club_world 0))) (nd_store (club_at 0)) (club_bundle 0) ∧
  (wpr (EncryptMessage (nd_mgr (club_at 0)) bob_jid hello) (λ rA wA1,
    wpr (EncryptMessage (nd_mgr (club_at 1)) alice_jid good_day) (λ rB wB1,
    unambiguous_for (nd_mgr (club_at 0)) bob_jid (m_localDevice (nd_mgr (club_at 1))) (av (w_data wA1)) →
    unambiguous_for (nd_mgr (club_at 1)) alice_jid (m_localDevice (nd_mgr (club_at 0))) (av (w_data wB1)) →
    ∃ msgA errsA msgB errsB, rA = (Some msgA, errsA, None) ∧ rB = (Some msgB, errsB, None) ∧
      wpr (DecryptMessage (nd_mgr (club_at 0)) msgB) (λ qA wA2,
        wpr (DecryptMessage (nd_mgr (club_at 1)) msgA) (λ qB wB2,
          (∃ out, qA = Ok out ∧ same_text good_day out) ∧
          (∃ out, qB = Ok out ∧ same_text hello out) ∧
          in_step (nd_mgr (club_at 0)) (nd_mgr (club_at 1)) (av (w_data wA1)) (av (w_data wB2)) ∧
          in_step (nd_mgr (club_at 1)) (nd_mgr (club_at 0)) (av (w_data wB1)) (av (w_data wA2))) wB1) wA1) (club_world 1)) (club_world 0)).
Proof.
  assert (approaches (frozen club.1) (nd_mgr (club_at 0)) bob_jid (club_world 0) (nd_mgr (club_at 1)) (av (w_data (club_world 1))) (nd_store (club_at 1)) (club_bundle 1)) as H0.
  { apply (club_approaches 0 1 alice_dev bob_dev); [reflexivity|reflexivity|apply (bool_decide_unpack _); vm_compute; exact Logic.I|vm_compute; exact Logic.I|vm_compute; reflexivity]. }
  assert (approaches (frozen club.1) (nd_mgr (club_at 1)) alice_jid (club_world 1) (nd_mgr (club_at 0)) (av (w_data (club_world 0))) (nd_store (club_at 0)) (club_bundle 0)) as H1.
  { apply (club_approaches 1 0 bob_dev alice_dev); [reflexivity|reflexivity|apply (bool_decide_unpack _); vm_compute; exact Logic.I|vm_compute; exact Logic.I|vm_compute; reflexivity]. }
  split; [vm_compute; reflexivity|]. split; [vm_compute; reflexivity|].
  split; [apply (bool_decide_unpack _); vm_compute; exact Logic.I|].
  split; [apply (bool_decide_unpack _); vm_compute; exact Logic.I|].
  split; [exact H0|]. split; [exact H1|]. 
  apply (first_messages_cross (nd_mgr (club_at 0)) (nd_mgr (club_at 1)) (frozen club.1) (frozen club.1) bob_jid alice_jid hello good_day (nd_store (club_at 0)) (nd_store (club_at 1)) (club_bundle 0) (club_bundle 1) (club_world 0) (club_world 1) H0 H1).
Defined.

(** ** Both of Alice's devices write to Bob *)

Definition from_alice3 : encrypt_results * world := club_write 2 bob_jid good_day.
Definition bob_once : result gobytes * world := club_read 1 from_alice (club_world 1).
Definition bob_twice : result gobytes * world := club_read 1 from_alice3 bob_once.2.

Lemma club_ok i dev :
  club_devs !! i = Some dev → quiet (w_lk (club_world i)) ∧ good (w_data (club_world i)).
Proof.
  intros [Hi _]%club_member. pose proof (cm_members _ _ _ club_community) as H.
  rewrite Forall_forall in H. destruct (H _ Hi) as [Hq Hg _ _ _ _ _ _ _]. unfold club_world.
  generalize dependent (club_at i). intros q _ Hq Hg. by split.
Qed.

Lemma second_contact_refused_witness :
  bob_once.1 = Ok hello ∧
  bob_twice.1 = Err (Wrapf "establish session" (Wrapf "consume one-time prekey 95"
    (Errorf "one-time prekey 95 not found"))) ∧
  unambiguous_for (nd_mgr (club_at 0)) bob_jid (m_localDevice (nd_mgr (club_at 1))) (av (w_data from_alice.2)) ∧
  unambiguous_for (nd_mgr (club_at 2)) bob_jid (m_localDevice (nd_mgr (club_at 1))) (av (w_data from_alice3.2)) ∧
  quiet (w_lk (club_world 1)) ∧
  good (w_data (club_world 1)) ∧
  approaches (frozen club.1) (nd_mgr (club_at 0)) bob_jid (club_world 0) (nd_mgr (club_at 1)) (av (w_data (club_world 1))) (nd_store (club_at 1)) (club_bundle 1) ∧
  approaches (frozen club.1) (nd_mgr (club_at 2)) bob_jid (club_world 2) (nd_mgr (club_at 1)) (av (w_data (club_world 1))) (nd_store (club_at 1)) (club_bundle 1) ∧
  (wpr (EncryptMessage (nd_mgr (club_at 0)) bob_jid hello) (λ r1 w1',
    wpr (EncryptMessage (nd_mgr (club_at 2)) bob_jid good_day) (λ r2 w2',
    unambiguous_for (nd_mgr (club_at 0)) bob_jid (m_localDevice (nd_mgr (club_at 1))) (av (w_data w1')) →
    unambiguous_for (nd_mgr (club_at 2)) bob_jid (m_localDevice (nd_mgr (club_at 1))) (av (w_data w2')) →
    ∃ msg1 errs1 msg2 errs2, r1 = (Some msg1, errs1, None) ∧ r2 = (Some msg2, errs2, None) ∧
      wpr (DecryptMessage (nd_mgr (club_at 1)) msg1) (λ q1 wB1, received (nd_mgr (club_at 0)) (nd_mgr (club_at 1)) hello w1' q1 wB1 ∧
        wpr (DecryptMessage (nd_mgr (club_at 1)) msg2) (λ q2 wB2, (∃ e, q2 = Err e) ∧
          a_sessions (av (w_data wB2)) = a_sessions (av (w_data wB1)) ∧
          a_pool (av (w_data wB2)) = a_pool (av (w_data wB1))) wB1) (club_world 1)) (club_world 2)) (club_world 0)).
Proof.
  assert (quiet (w_lk (club_world 1))) as H0.
  { exact (proj1 (club_ok 1 bob_dev eq_refl)). }
  assert (good (w_data (club_world 1))) as H1.
  { exact (proj2 (club_ok 1 bob_dev eq_refl)). }
  assert (approaches (frozen club.1) (nd_mgr (club_at 0)) bob_jid (club_world 0) (nd_mgr (club_at 1)) (av (w_data (club_world 1))) (nd_store (club_at 1)) (club_bundle 1)) as H2.
  { apply (club_approaches 0 1 alice_dev bob_dev); [reflexivity|reflexivity|apply (bool_decide_unpack _); vm_compute; exact Logic.I|vm_compute; exact Logic.I|vm_compute; reflexivity]. }
  assert (approaches (frozen club.1) (nd_mgr (club_at 2)) bob_jid (club_world 2) (nd_mgr (club_at 1)) (av (w_data (club_world 1))) (nd_store (club_at 1)) (club_bundle 1)) as H3.
  { apply (club_approaches 2 1 alice_dev3 bob_dev); [reflexivity|reflexivity|apply (bool_decide_unpack _); vm_compute; exact Logic.I|vm_compute; exact Logic.I|vm_compute; reflexivity]. }
  split; [vm_compute; reflexivity|]. split; [vm_compute; reflexivity|].
  split; [apply (bool_decide_unpack _); vm_compute; exact Logic.I|].
  split; [apply (bool_decide_unpack _); vm_compute; exact Logic.I|].
  split; [exact H0|]. split; [exact H1|]. split; [exact H2|]. split; [exact H3|]. 
  apply (second_contact_refused (nd_mgr (club_at 0)) (nd_mgr (club_at 2)) (nd_mgr (club_at 1)) (frozen club.1) (frozen club.1) bob_jid bob_jid hello good_day (nd_store (club_at 1)) (club_bundle 1) (club_world 0) (club_world 2) (club_world 1) H0 H1 H2 H3).
Defined.

(** ** A reset after the crossing: Bob's bundle is spent *)

Definition crossed_A : world := (club_read 0 from_bob from_alice.2).2.
Definition crossed_B : world := (club_read 1 from_alice from_bob.2).2.
Definition club_offer : PreKey := default (MkPreKey 0 None) (head (B_PreKeys (club_bundle 1))).
(** Alice's reset, her key transport, and Bob's answer to it. *)
Definition mended : encrypt_results * world :=
  call_result (EncryptKeyTransport (nd_mgr (club_at 0)) bob_jid) no_results
    (call_result (ResetSession (nd_mgr (club_at 0)) bob_dev) (Ok tt) crossed_A).2.
Definition mended_read : result gobytes * world := club_read 1 mended crossed_B.

Lemma club_write_ok i dev jid pt :
  club_devs !! i = Some dev →
  quiet (w_lk (club_write i jid pt).2) ∧ good (w_data (club_write i jid pt).2).
Proof.
  intros [Hq Hg]%club_ok.
  pose proof (encrypt_spec (nd_mgr (club_at i)) jid pt (club_world i) Hq Hg) as H.
  pose proof (call_result_spec _ _ _ no_results H) as (Hq' & Hg' & _). exact (conj Hq' Hg').
Qed.

Lemma read_ok_after m msg (w : world) :
  quiet (w_lk w) → good (w_data w) →
  quiet (w_lk (call_result (DecryptMessage m msg) (Ok None) w).2) ∧
  good (w_data (call_result (DecryptMessage m msg) (Ok None) w).2).
Proof.
  intros Hq Hg. apply (call_result_spec (DecryptMessage m msg)
    (λ _ w', quiet (w_lk w') ∧ good (w_data w'))).
  destruct (own_key (ID (m_localDevice m)) (Keys msg)) as [key|] eqn:Hkey.
  - eapply wpr_mono; [by apply (DecryptMessage_spec m msg key)|]. by intros r w' (? & ? & _).
  - unfold DecryptMessage. rewrite Hkey. by apply wpr_ret.
Qed.

Lemma crossed_A_ok : quiet (w_lk crossed_A) ∧ good (w_data crossed_A).
Proof.
  destruct (club_write_ok 0 alice_dev bob_jid hello eq_refl) as [Hq Hg]. exact (read_ok_after _ _ _ Hq Hg).
Qed.
Lemma crossed_B_ok : quiet (w_lk crossed_B) ∧ good (w_data crossed_B).
Proof.
  destruct (club_write_ok 1 bob_dev alice_jid good_day eq_refl) as [Hq Hg]. exact (read_ok_after _ _ _ Hq Hg).
Qed.

Lemma alice_approaches :
  approaches (frozen club.1) (nd_mgr (club_at 0)) bob_jid (club_world 0) (nd_mgr (club_at 1))
    (av (w_data (club_world 1))) (nd_store (club_at 1)) (club_bundle 1).
Proof.
  apply (club_approaches 0 1 alice_dev bob_dev); [reflexivity|reflexivity|
    apply (bool_decide_unpack _); vm_compute; exact Logic.I|vm_compute; exact Logic.I|
    vm_compute; reflexivity].
Qed.

Lemma alice_answers :
  answers (frozen club.1) (nd_mgr (club_at 0)) (nd_mgr (club_at 1)) (nd_store (club_at 1))
    (nd_store (club_at 1)) (club_bundle 1).
Proof.
  pose proof (ap_answers _ _ _ _ _ _ _ _ alice_approaches) as H. unfold club_world in H.
  rewrite av_on_net in H. exact H.
Qed.

Lemma reset_needs_new_bundle_witness :
  is_some (a_sessions (av (w_data crossed_A)) !! bob_dev) = true ∧
  mended_read.1 = Err (Wrapf "establish session" (Wrapf "consume one-time prekey 95"
    (Errorf "one-time prekey 95 not found"))) ∧
  m_localDevice (nd_mgr (club_at 1)) ≠ m_localDevice (nd_mgr (club_at 0)) ∧
  quiet (w_lk crossed_A) ∧
  good (w_data crossed_A) ∧
  quiet (w_lk crossed_B) ∧
  good (w_data crossed_B) ∧
  env_stable (frozen club.1) (nd_mgr (club_at 0)) ∧
  (frozen club.1) (d_env (w_data crossed_A)) ∧
  answers (frozen club.1) (nd_mgr (club_at 0)) (nd_mgr (club_at 1)) (nd_store (club_at 1)) (nd_store (club_at 1)) (club_bundle 1) ∧
  accepts (frozen club.1) (nd_mgr (club_at 0)) (m_localDevice (nd_mgr (club_at 1))) (B_IdentityKey (club_bundle 1)) (av (w_data crossed_A)) ∧
  finds (frozen club.1) (m_localDevice (nd_mgr (club_at 1))) (av (w_data crossed_A)) ∧
  head (B_PreKeys (club_bundle 1)) = Some club_offer ∧
  a_pool (av (w_data crossed_B)) !! PK_ID club_offer = None ∧
  (wpr (ResetSession (nd_mgr (club_at 0)) (m_localDevice (nd_mgr (club_at 1)))) (λ r0 w1, r0 = Ok tt ∧
    wpr (EncryptKeyTransport (nd_mgr (club_at 0)) (JID (m_localDevice (nd_mgr (club_at 1)))))
    (λ r w2, unambiguous (nd_mgr (club_at 0)) (m_localDevice (nd_mgr (club_at 1))) (av (w_data w2)) →
      ∃ msg errs, r = (Some msg, errs, None) ∧
        is_Some (own_key (ID (m_localDevice (nd_mgr (club_at 1)))) (Keys msg)) ∧
        wpr (DecryptMessage (nd_mgr (club_at 1)) msg) (λ r' wB', (∃ e, r' = Err e) ∧
          a_sessions (av (w_data wB')) = a_sessions (av (w_data crossed_B)) ∧
          a_pool (av (w_data wB')) = a_pool (av (w_data crossed_B))) crossed_B) w1) crossed_A).
Proof.
  assert (m_localDevice (nd_mgr (club_at 1)) ≠ m_localDevice (nd_mgr (club_at 0))) as H0.
  { vm_compute. discriminate. }
  assert (quiet (w_lk crossed_A)) as H1.
  { exact (proj1 crossed_A_ok). }
  assert (good (w_data crossed_A)) as H2.
  { exact (proj2 crossed_A_ok). }
  assert (quiet (w_lk crossed_B)) as H3.
  { exact (proj1 crossed_B_ok). }
  assert (good (w_data crossed_B)) as H4.
  { exact (proj2 crossed_B_ok). }
  assert (env_stable (frozen club.1) (nd_mgr (club_at 0))) as H5.
  { exact (ap_stable _ _ _ _ _ _ _ _ alice_approaches). }
  assert ((frozen club.1) (d_env (w_data crossed_A))) as H6.
  { vm_compute. reflexivity. }
  assert (answers (frozen club.1) (nd_mgr (club_at 0)) (nd_mgr (club_at 1)) (nd_store (club_at 1)) (nd_store (club_at 1)) (club_bundle 1)) as H7.
  { exact alice_answers. }
  assert (accepts (frozen club.1) (nd_mgr (club_at 0)) (m_localDevice (nd_mgr (club_at 1))) (B_IdentityKey (club_bundle 1)) (av (w_data crossed_A))) as H8.
  { left. vm_compute. reflexivity. }
  assert (finds (frozen club.1) (m_localDevice (nd_mgr (club_at 1))) (av (w_data crossed_A))) as H9.
  { left. apply (bool_decide_unpack _). vm_compute. exact Logic.I. }
  assert (head (B_PreKeys (club_bundle 1)) = Some club_offer) as H10.
  { vm_compute. reflexivity. }
  assert (a_pool (av (w_data crossed_B)) !! PK_ID club_offer = None) as H11.
  { vm_compute. reflexivity. }
  split; [vm_compute; reflexivity|]. split; [vm_compute; reflexivity|].
  split; [exact H0|]. split; [exact H1|]. split; [exact H2|]. split; [exact H3|]. split; [exact H4|]. split; [exact H5|]. split; [exact H6|]. split; [exact H7|]. split; [exact H8|]. split; [exact H9|]. split; [exact H10|]. split; [exact H11|]. 
  apply (reset_needs_new_bundle (nd_mgr (club_at 0)) (nd_mgr (club_at 1)) (frozen club.1) (nd_store (club_at 1)) (club_bundle 1) club_offer crossed_A crossed_B H0 H1 H2 H3 H4 H5 H6 H7 H8 H9 H10 H11).
Defined.

(** ** Bob's device readmits itself: the run of [Scenario] *)

Definition spoof_net : fakeNetwork := d_env (w_data blocked_attempt.2).

Lemma stable_unasked n m : m_trustResolver m = None → env_stable (frozen n) m.
Proof.
  intros Hno. split.
  - intros jid v ->. simpl. unfold fake_FetchDeviceList. by destruct (net_devices n !! jid).
  - intros dev v ->. simpl. unfold fake_FetchBundle. by destruct (net_bundles n !! dev).
  - intros r dev key v Hr. by rewrite Hno in Hr.
Qed.

Lemma spoof_stable : env_stable (frozen spoof_net) (p_mA spoof_start).
Proof. apply stable_unasked. vm_compute. reflexivity. Qed.

Lemma bob_after_hello_ok : quiet (w_lk bob_after_hello.2) ∧ good (w_data bob_after_hello.2).
Proof. apply read_ok_after; [solve_quiet|solve_good]. Qed.

Lemma spoof_in_step : in_step (p_mA spoof_start) (p_mB spoof_start)
  (av (w_data blocked_attempt.2)) (av (w_data bob_after_hello.2)).
Proof.
  assert (m_protocol (p_mA spoof_start) = ProtocolV2) as HpA by (vm_compute; reflexivity).
  assert (m_protocol (p_mB spoof_start) = ProtocolV2) as HpB by (vm_compute; reflexivity).
  split; [by rewrite HpA, HpB|]. rewrite HpA.
  exists (session_of bob_dev blocked_attempt.2),
    (session_V2 (ratchet_of (session_of bob_dev blocked_attempt.2))).
  split_and!; [vm_compute; reflexivity|apply load_ratchet; vm_compute; reflexivity|reflexivity|].
  exists (session_of alice_dev bob_after_hello.2),
    (session_V2 (ratchet_of (session_of alice_dev bob_after_hello.2))).
  split_and!; [vm_compute; reflexivity|apply load_ratchet; vm_compute; reflexivity|reflexivity|].
  apply linked_V2. change (toy_sec (ratchet_of (session_of bob_dev blocked_attempt.2)) =
    toy_sec (ratchet_of (session_of alice_dev bob_after_hello.2))). vm_compute. reflexivity.
Qed.

Lemma spoof_goes : goes_to (frozen spoof_net) (p_mA spoof_start) bob_jid
  (m_localDevice (p_mB spoof_start)) (av (w_data blocked_attempt.2)).
Proof.
  apply goes_account; [vm_compute; reflexivity|]. left.
  apply (bool_decide_unpack _). vm_compute. exact Logic.I.
Qed.

Lemma blocked_device_readmitted_witness :
  blocked_attempt.1.1.1 = None ∧
  after_spoof.1 = Err (Wrapf "ratchet decrypt" (Errorf "message authentication failed")) ∧
  bob_reads = Ok hello ∧
  m_localDevice (p_mB spoof_start) ≠ m_localDevice (p_mA spoof_start) ∧
  quiet (w_lk blocked_attempt.2) ∧
  good (w_data blocked_attempt.2) ∧
  quiet (w_lk bob_after_hello.2) ∧
  good (w_data bob_after_hello.2) ∧
  env_stable (frozen spoof_net) (p_mA spoof_start) ∧
  (frozen spoof_net) (d_env (w_data blocked_attempt.2)) ∧
  in_step (p_mA spoof_start) (p_mB spoof_start) (av (w_data blocked_attempt.2)) (av (w_data bob_after_hello.2)) ∧
  goes_to (frozen spoof_net) (p_mA spoof_start) bob_jid (m_localDevice (p_mB spoof_start)) (av (w_data blocked_attempt.2)) ∧
  a_remote (av (w_data blocked_attempt.2)) !! m_localDevice (p_mB spoof_start) = Some bob_key ∧
  trust_of (av (w_data blocked_attempt.2)) bob_key = TrustUntrusted ∧
  Sender spoofed = m_localDevice (p_mB spoof_start) ∧
  own_key (ID (m_localDevice (p_mA spoof_start))) (Keys spoofed) = Some spoofed_key ∧
  claimed_key (p_mA spoof_start) spoofed_key = Some trusted_key ∧
  trust_of (av (w_data blocked_attempt.2)) trusted_key = TrustTrusted ∧
  (wpr (EncryptMessage (p_mA spoof_start) bob_jid hello)
    (λ r w', unambiguous_for (p_mA spoof_start) bob_jid (m_localDevice (p_mB spoof_start)) (av (w_data w')) → ∀ msg errs err,
    r = (Some msg, errs, err) → own_key (ID (m_localDevice (p_mB spoof_start))) (Keys msg) = None) blocked_attempt.2 ∧
    wpr (DecryptMessage (p_mA spoof_start) spoofed) (λ r1 w1, ∀ e, r1 = Err (Wrapf "ratchet decrypt" e) →
    trust_of (av (w_data w1)) bob_key = TrustUntrusted ∧
    wpr (EncryptMessage (p_mA spoof_start) bob_jid hello)
    (λ r w2, unambiguous_for (p_mA spoof_start) bob_jid (m_localDevice (p_mB spoof_start)) (av (w_data w2)) →
      ∃ msg errs, r = (Some msg, errs, None) ∧
        wpr (DecryptMessage (p_mB spoof_start) msg) (received (p_mA spoof_start) (p_mB spoof_start) hello w2) bob_after_hello.2) w1) blocked_attempt.2).
Proof.
  assert (m_localDevice (p_mB spoof_start) ≠ m_localDevice (p_mA spoof_start)) as H0.
  { vm_compute. discriminate. }
  assert (quiet (w_lk blocked_attempt.2)) as H1.
  { exact blocked_attempt_quiet. }
  assert (good (w_data blocked_attempt.2)) as H2.
  { exact blocked_attempt_good. }
  assert (quiet (w_lk bob_after_hello.2)) as H3.
  { exact (proj1 bob_after_hello_ok). }
  assert (good (w_data bob_after_hello.2)) as H4.
  { exact (proj2 bob_after_hello_ok). }
  assert (env_stable (frozen spoof_net) (p_mA spoof_start)) as H5.
  { exact spoof_stable. }
  assert ((frozen spoof_net) (d_env (w_data blocked_attempt.2))) as H6.
  { vm_compute. reflexivity. }
  assert (in_step (p_mA spoof_start) (p_mB spoof_start) (av (w_data blocked_attempt.2)) (av (w_data bob_after_hello.2))) as H7.
  { exact spoof_in_step. }
  assert (goes_to (frozen spoof_net) (p_mA spoof_start) bob_jid (m_localDevice (p_mB spoof_start)) (av (w_data blocked_attempt.2))) as H8.
  { exact spoof_goes. }
  assert (a_remote (av (w_data blocked_attempt.2)) !! m_localDevice (p_mB spoof_start) = Some bob_key) as H9.
  { vm_compute. reflexivity. }
  assert (trust_of (av (w_data blocked_attempt.2)) bob_key = TrustUntrusted) as H10.
  { vm_compute. reflexivity. }
  assert (Sender spoofed = m_localDevice (p_mB spoof_start)) as H11.
  { vm_compute. reflexivity. }
  assert (own_key (ID (m_localDevice (p_mA spoof_start))) (Keys spoofed) = Some spoofed_key) as H12.
  { vm_compute. reflexivity. }
  assert (claimed_key (p_mA spoof_start) spoofed_key = Some trusted_key) as H13.
  { vm_compute. reflexivity. }
  assert (trust_of (av (w_data blocked_attempt.2)) trusted_key = TrustTrusted) as H14.
  { vm_compute. reflexivity. }
  split; [vm_compute; reflexivity|]. split; [vm_compute; reflexivity|].
  split; [vm_compute; reflexivity|]. split; [exact H0|]. split; [exact H1|]. split; [exact H2|]. split; [exact H3|]. split; [exact H4|]. split; [exact H5|]. split; [exact H6|]. split; [exact H7|]. split; [exact H8|]. split; [exact H9|]. split; [exact H10|]. split; [exact H11|]. split; [exact H12|]. split; [exact H13|]. split; [exact H14|]. 
  apply (blocked_device_readmitted (p_mA spoof_start) (p_mB spoof_start) bob_jid (frozen spoof_net) bob_key trusted_key spoofed spoofed_key hello blocked_attempt.2 bob_after_hello.2 H0 H1 H2 H3 H4 H5 H6 H7 H8 H9 H10 H11 H12 H13 H14).
Defined.

(** ** Messages in flight

    Both write twice before anybody reads; Bob reads one and writes again; at
    the end two messages are still on their way to Alice. *)
Definition busy : list event :=
  [MkEvent false (Write hello); MkEvent true (Write good_day); MkEvent true (Write None);
   MkEvent false (Write good_day); MkEvent false Read; MkEvent true (Write hello);
   MkEvent true Read; MkEvent false Read].

Lemma interleaved_conversation_witness :
  (happen (p_mA (two ProtocolV2)) bob_trusting busy (MkTalk alice_after bob_synced [] [])).1 =
    [Sent; Sent; Sent; Sent; Got hello (Ok hello); Sent; Got good_day (Ok good_day);
     Got good_day (Ok good_day)] ∧
  m_localDevice (p_mA (two ProtocolV2)) ≠ m_localDevice bob_trusting ∧
  ready (p_mA (two ProtocolV2)) bob_trusting alice_after bob_synced ∧
  let '(rs, k) := happen (p_mA (two ProtocolV2)) bob_trusting busy
    (MkTalk alice_after bob_synced [] []) in
  Forall2 (proper_event (p_mA (two ProtocolV2)) bob_trusting) busy rs ∧
  (∀ b, sent_texts b busy rs = read_texts b busy rs ++ waiting b k) ∧
  (tk_AB k = [] → tk_BA k = [] →
    ready (p_mA (two ProtocolV2)) bob_trusting (tk_A k) (tk_B k)) ∧
  Forall taken rs.
Proof.
  assert (m_localDevice (p_mA (two ProtocolV2)) ≠ m_localDevice bob_trusting) as H0.
  { vm_compute. discriminate. }
  split; [vm_compute; reflexivity|]. split; [exact H0|]. split; [exact two_ready|].
  pose proof (interleaved_conversation (p_mA (two ProtocolV2)) bob_trusting busy
    alice_after bob_synced H0 two_ready) as H.
  destruct (happen _ _ _ _) as [rs k]. destruct H as (H1 & H2 & H3 & H4).
  exact (conj H1 (conj H2 (conj H3 (H4 toy_total_laws toy_channel_total_laws two_mutual_start)))).
Defined.

(** ** Everybody hears *)

(** Alice writes to Bob from either device, Bob answers, and Alice to herself. *)
Definition club_posts : list post :=
  [MkPost 0 bob_jid hello; MkPost 2 bob_jid good_day; MkPost 1 alice_jid hello;
   MkPost 2 alice_jid None].

#[local] Instance meant_dec from jid dev : Decision (Is_true (meant from jid dev)).
Proof. apply _. Defined.

Lemma club_sensible : Forall (sensible club_devs) club_posts.
Proof.
  assert (∀ i jid pt from to, club_devs !! i = Some from → jid ∈ map JID club_devs →
    to ∈ club_devs → meant from jid to → sensible club_devs (MkPost i jid pt)) as H.
  { intros i jid pt from to Hfrom (dev & -> & Hdev)%list_elem_of_fmap Hto Hm.
    split; [by exists dev|by exists from, to]. }
  pose proof (H 0 bob_jid hello alice_dev bob_dev eq_refl) as H0.
  pose proof (H 2 bob_jid good_day alice_dev3 bob_dev eq_refl) as H1.
  pose proof (H 1 alice_jid hello bob_dev alice_dev eq_refl) as H2.
  pose proof (H 2 alice_jid None alice_dev3 alice_dev eq_refl) as H3.
  assert (∀ x : string, bool_decide (x ∈ map JID club_devs) → x ∈ map JID club_devs) as Hj
    by (intros x; apply bool_decide_unpack).
  assert (∀ x : Device, bool_decide (x ∈ club_devs) → x ∈ club_devs) as Hd
    by (intros x; apply bool_decide_unpack).
  apply Forall_cons_2; [apply H0; [apply Hj|apply Hd|]; vm_compute; exact Logic.I|].
  apply Forall_cons_2; [apply H1; [apply Hj|apply Hd|]; vm_compute; exact Logic.I|].
  apply Forall_cons_2; [apply H2; [apply Hj|apply Hd|]; vm_compute; exact Logic.I|].
  apply Forall_cons_2; [apply H3; [apply Hj|apply Hd|]; vm_compute; exact Logic.I|].
  apply Forall_nil_2.
Qed.

(** Who read what. *)
Definition club_notices : list notice := (gossip club_posts club.1 club.2).1.1.
Definition club_expected : list notice :=
  [Spread [(bob_dev, Some (Ok hello)); (alice_dev3, Some (Ok hello))];
   Spread [(alice_dev, Some (Ok good_day)); (bob_dev, Some (Ok good_day))];
   Spread [(alice_dev, Some (Ok hello)); (alice_dev3, Some (Ok hello))];
   Spread [(alice_dev, Some (Ok None))]].

Lemma club_posts_sensible : Forall (sensible (map nd_dev club.2)) club_posts.
Proof. rewrite club_devices. exact club_sensible. Qed.

Lemma everybody_hears_witness :
  club_notices = club_expected ∧
  community (Z.to_nat DefaultPreKeyCount) club.1 club.2 ∧
  Forall (sensible (map nd_dev club.2)) club_posts ∧
  let '(rs, n', nodes') := gossip club_posts club.1 club.2 in
  Forall2 (everyone (map nd_dev club.2)) club_posts rs ∧
  community (Z.to_nat DefaultPreKeyCount) n' nodes'.
Proof.
  split; [vm_compute; reflexivity|].
  split; [exact club_community|]. split; [exact club_posts_sensible|].
  exact (everybody_hears (Z.to_nat DefaultPreKeyCount) club.1 club.2 club_posts club_community
    club_posts_sensible).
Defined.

Lemma community_from_nothing_witness :
  NoDup (map ID (map ac_dev club_apps)) ∧
  length club_apps ≤ Z.to_nat DefaultPreKeyCount ∧
  Forall acceptable club_apps ∧
  Forall (sensible (map ac_dev club_apps)) club_posts ∧
  ∃ n nodes, assemble ProtocolV1 club_apps newFakeNetwork [] = Some (n, nodes) ∧
    let '(rs, _, _) := gossip club_posts n nodes in
    Forall2 (everyone (map ac_dev club_apps)) club_posts rs.
Proof.
  split; [exact club_ids|]. split; [exact club_size|]. split; [exact club_acceptable|].
  split; [exact club_sensible|].
  exact (community_from_nothing ProtocolV1 club_apps club_posts club_ids club_size
    club_acceptable club_sensible).
Defined.
